(* ===== verification/_CoqProject ===== *)
-Q . S2P
Prelude.v
Float.v
Physical.v
Heap.v
Vmm.v
Swap.v
SwapFile.v
Replacement.v
Swapper.v
SwapConfig.v
Capability.v
Bytes.v
Text.v
Context.v
Platform.v
X86_64.v
AArch64.v
PlatformTheory.v
Power.v
Process.v
Ipc.v
Scheduler.v
Syscall.v
Kernel.v
DriverKit.v
Vga.v
Console.v
BootParams.v
Descriptors.v
Boot.v
SelfTest.v
CpuScaling.v
Idle.v
Battery.v
Responsiveness.v
Policy.v
PowerScheduling.v
PowerBoot.v
Entry.v
Keyboard.v
Touch.v
StubDrivers.v
Service.v
FileSystem.v
Ext4.v
Vfs.v
DriverManager.v
Init.v
Shell.v
Processes.v
Display.v
Harness.v
Testing.v
TestsMemory.v
TestsKernel.v
TestsServices.v
TestsUser.v
TestsPlatform.v
