(* ===== verification/Prelude.v ===== *)
(** * Kosh verification library

    Kosh (src/) is a microkernel operating system in Rust.  This library models
    the kernel's memory, process, message-passing, security, power, system-call,
    platform and console components and how boot puts them together, the device
    drivers, the user-space services, init and shell with the processes they run
    in, and the repository's unit tests as Rocq functions, and proves what makes
    them correct.

    ** The program

    - Memory ([kernel/src/memory/]): a bitmap of physical frames built from the
      multiboot memory map; a heap with a free list on some of them; address
      spaces that map pages to frames; a swap manager that stores pages on a list
      of swap devices, with its configuration; page replacers that choose what to
      swap out, and a page swapper that drives them.
    - Processes ([kernel/src/process/]): a table of process control blocks and
      three scheduling algorithms over it, which ask the power manager for
      priorities and time slices.
    - Power ([kernel/src/power/]): frequency governors, idle states, the battery
      monitor, the responsiveness optimiser and the policy that combines them.
    - IPC ([kernel/src/ipc/]): capabilities and a security policy decide who may
      do what; messages travel through one bounded priority queue per receiver.
      Sending looks up both processes in the table and asks the capability
      manager.
    - System calls ([kernel/src/syscall/]): the entry point validates the
      registers, dispatches, and encodes the result; three calls reach the
      process table and the message queues.
    - Platform ([kernel/src/platform/]): what the kernel asks of the processor
      (page-table root, caches, interrupts, timers, ports), for x86-64 and ARM64.
    - Boot ([kernel/src/main.rs], [boot.rs]): the entry points print on the console
      ([vga_buffer.rs], [serial.rs]), read the boot parameters and initialise the
      components one after the other, each with a self-test.
    - Drivers ([drivers/], [shared/kosh-driver/]): a driver trait with its request
      protocol, the keyboard, text-mode graphics and touch drivers, and the storage
      and network stubs.
    - Services ([shared/kosh-service/], [userspace/]): a service framework; the
      file-system service (a virtual file system over an ext4 driver) and the
      driver manager (registry, dependency resolver, loader, isolation); the init
      process that starts and watches services through system calls; the shell.
      Each of them is a process with an entry point that prints, starts the service
      and loops, through system calls.
    - Tests: unit tests beside the code, and a harness for the kernel
      ([kernel/src/test_harness.rs]) that runs tests and counts their results.

    ** Files

    - [Prelude] (this file): build profiles, [outcome] (value, panic, out of
      fuel) and [result], machine arithmetic at its width, slices and vectors,
      [for] and [loop] with early return, and the lemmas and tactics on them
      ([inv_val], [zcase], [divlia], the hint database [kosh]).
    - [Float]: [f32] of the source, its literals and conversions.
    - [Physical]: [physical.rs].  State [PhysicalMemoryManager]; abstraction the
      set of free frames.  The class [FrameAllocator] states what the manager
      promises to its clients.
    - [Heap]: [heap.rs], proved against [FrameAllocator].  State
      [KernelHeapAllocator] with the block headers in memory; abstraction the map
      of live blocks.  Clients are the step relation [heap_step].
    - [Vmm]: [vmm.rs], also a client of [FrameAllocator]; the [x86_64] crate's
      page-table mapper is a class with its laws.  Abstraction: the map from pages
      to frames and protections.
    - [Swap], [SwapFile]: [swap.rs], [swap_file.rs].  The trait [SwapDevice] is a
      class with laws; the manager is verified against the laws and the two
      devices discharge them.  Abstraction: the map from page frames to the data
      they were swapped out with.
    - [Replacement], [Swapper]: [swap_algorithm.rs].  LRU, FIFO and clock
      replacers against list definitions; the swapper over them and over [Swap].
    - [SwapConfig]: [swap_config.rs], over [Swap] and [SwapFile].
    - [Capability]: [capability.rs], [security.rs].  Abstraction: the finite map
      from live capability identifiers to what they permit.
    - [Context]: [context.rs]; the assembly runs on a small x86-64 machine, the
      compiler's choice of operand registers is a parameter.
    - [Process]: [process.rs].  Abstraction: the partial function from
      identifiers to control blocks.
    - [Ipc]: [message.rs], [queue.rs], [ipc/mod.rs], over [Process] and
      [Capability].  Abstraction: the pending messages of each process.
    - [Scheduler]: [scheduler.rs], over [Process]; power management, which it asks
      for priorities and notifies of every switch, is the class [PowerPolicy] with the
      laws [PowerPolicyLaws].
    - [Syscall]: [syscall/], over [Process], [Capability] and [Ipc].
    - [Kernel]: the globals of [process/], [ipc/], [security.rs] and the power
      managers as one state;
      its operations and system calls interleave in the histories [kernel_run].
    - [Bytes], [Text]: the memory functions of [main.rs] on a byte-addressed memory;
      strings as the parsers see them.
    - [Platform]: [platform/mod.rs] and [traits.rs]; the trait [PlatformInterface] is
      a class with laws over the registers and instructions of a machine.  [X86_64],
      [AArch64]: its two instances.  [PlatformTheory]: what is proved of them.
    - [Console]: the printing macros, the serial port (a class with its law) and the
      panic handler over the writer of [Vga].  [BootParams]: [parse_boot_parameters].
    - [Descriptors]: the task-state segment, the global descriptor table and
      [init_gdt] of [boot.rs]; the [x86_64] crate's tables are a class with laws.
    - [Boot]: [init_kernel] with its memory stages, where a vector that grows asks the
      kernel heap.  [SelfTest]: the stages for swap, processes, IPC and system calls
      with their self-tests, over [Kernel].  [PowerBoot]: the power stage.  [Entry]:
      [_start] for both architectures.
    - [Power] (the types and errors of [power/mod.rs]), [CpuScaling], [Idle],
      [Battery], [Responsiveness]: one file per manager of [power/];  [Policy]:
      [power_policy.rs] and [mod.rs] over all four, and the instance of [Scheduler]'s
      [PowerPolicy] with its laws.  [PowerScheduling]: the kernel's scheduler over it.
    - [DriverKit]: [kosh-driver]; the trait [KoshDriver] is a class with the
      contract [DriverContract].  [Keyboard], [Vga], [Touch]: the drivers;
      [StubDrivers]: storage and network, on their own trait.
    - [Service]: [kosh-service]; a service is an instance of [ServiceHandler].
    - [FileSystem]: the file-system types of [kosh-types] and [fs-service] with
      the trait [FileSystem] as a class and its laws [FileSystemLaws].  [Ext4]:
      [ext4.rs], which discharges the laws.  [Vfs]: [vfs.rs] and the service,
      proved against the laws and then run on [Ext4].
    - [DriverManager]: [userspace/driver-manager/], a [ServiceHandler].
    - [Init]: [userspace/init/].  The [syscall] instruction is the class
      [SyscallInstruction], what init needs of the kernel the class [InitKernel];
      [kernel_calls] and [kernel_laws] put the kernel of [Syscall] behind them.
    - [Shell]: [userspace/shell/].
    - [Processes]: the entry points ([_start]) of the user processes, over
      [Service], [Vfs], [DriverManager], [Shell], [Keyboard] and the system calls.
    - [Display]: the texts of the [Display] implementations.
    - [Harness]: [test_harness.rs]; a test is a function with a name.
    - [Testing]: the assertion macros; [TestsMemory], [TestsKernel],
      [TestsServices], [TestsUser], [TestsPlatform]: the unit tests of the modelled
      components, each the composition of the operations it calls.

    Definitions keep the source's names; where a struct's method and a global
    function share a name, the former or the latter carries a prefix ([manager_],
    [global_], [queue_]).  A global behind a lock is a value passed explicitly
    (the code holds the lock for the whole call); in [Policy], where the code
    takes a lock twice, the lock is part of the state.  Printing is left out,
    except in [Shell], [Console], [BootParams] and [Entry], where it is the result.

    ** Integers, panics and profiles

    A machine integer is a [Z]; [uadd], [usub] and [umul] at a width panic or
    wrap as the build profile says.  Theorems quantify over the profile unless
    they name one, so they hold for both builds.  [f32] is IEEE binary32 of the
    Standard Library's [SpecFloat].  Indexing, slicing, division by
    zero and [Vec] capacity overflow panic as in Rust.  Statements of the form
    "never panics" are proved as [= Val ..]; where counters could overflow after
    2^64 operations, the hypothesis is the remaining room ([n] in [cap_room],
    [ipc_rel], [kernel_wf], [fs_ready]).

    ** Fuel

    Loops over vectors are structural.  [loop]- and [while]-style code runs
    with fuel that covers its longest run: the heap's search follows the free
    list, which is no longer than the number of headers; its integrity check
    stops by itself after 10000 blocks; trimming a replacer drops one page per
    round and gets one round more than there are pages; the clock's hand and the
    round-robin search pass each position at most twice and get two rounds plus
    two; the keyboard's queue loops drop or read one event per round and get one
    round more; unloading drivers visits each dependency edge at most once per
    pass ([unload_fuel]); the shell's loop reads at most six canned commands; one
    round of init collects the children that have exited, at most [waiting] of
    them.  The theorems show that the results are values
    ([lru_victim_is_least_recent], [clock_victim_second_chance],
    [round_robin_fair], [unload_order_complete], [queue_keeps_latest],
    [shutdown_stops_all], [session_ends]; [safe] of [Heap] excludes [Fuel]); no
    theorem assumes that a loop returns.  Where a result is [Fuel] for every fuel,
    the code does not return: a lock taken twice ([battery_event_deadlocks]) and
    init's main loop ([init_keeps_running], [init_on_kernel]).

    ** What the theorems show

    - The kernel as a whole: under any interleaving of process operations,
      scheduling, system calls, messages, queue and capability operations after boot
      nothing panics, all invariants hold and authority to send comes from an explicit
      grant; a scheduling decision always succeeds.
    - Boot: the process, IPC and system-call stages establish these invariants;
      [init_kernel] itself panics on every machine, since it uses vectors before the
      heap exists, and so do both entry points; the swap and power stages would panic
      too, and the power self-test does not undo what it does.
    - Console: the screen is a window on the lines printed, the panic report is
      always visible; the boot parameters announced are those asked for.
    - Platform: the remembered page-table root, the fault of turning paging off, exact cache flushes, round trips of
      flags, system-call arguments and words; [memmove] and [memcpy] against the
      copy they mean.
    - Physical memory: allocation takes the lowest free frame (first fit for
      runs), no frame is handed out twice, deallocation undoes allocation, and
      boot frees exactly the available memory (in release builds: with overflow
      checks the construction panics).
    - Heap: live blocks never overlap and stay in the heap's frames, headers and
      free list survive whatever clients write into their blocks, allocation and
      release refine insertion into and deletion from the map of live blocks, in all
      builds and for requests of multiples of 8 bytes (others misalign headers); the
      byte counter underflows.
    - Virtual memory: mapping, translating and unmapping agree with the map of
      pages; a range is mapped up to the first page that fails; the kernel layout.
    - Swap: swapping out and in is insertion into and removal from a map, with
      every error characterised; data survives any operations on other pages;
      removing a device breaks this.  Configurations are activated by priority.
    - Replacement: LRU tracks as many pages as it may and evicts the least recently
      used one after any trace; the
      clock search terminates and gives second chances, with its panic
      characterised; the swapper moves exactly the LRU victims out and brings a
      faulting page in; its default threshold never triggers.
    - Capabilities: the system refines a finite map of grants under any history;
      authority cannot be forged or amplified; delegation cannot succeed; the
      policy's decisions.
    - Processes: identifiers, the running process and parent links stay
      consistent under any history; exact effect of each operation; a table whose
      slots are used up stays full.
    - Contexts: saving is exact; restoring a fresh context faults, whatever
      registers hold the pointer.
    - IPC: the full decision table of sending; delivery exactly once, by priority
      and in order; default user capabilities do not allow sending.
    - Scheduler: the notifications of power management leave it working until a
      32-bit counter is full; round robin is fair; priority scheduling picks a most urgent
      process but never rotates; the simplified CFS picks the least CPU time.
    - System calls: any history keeps all of the above invariants, panics
      nowhere and changes no capability; the names, checks and dispatch tables
      agree; the message calls end to end; the returned register decodes.
    - Power: the frequency stays in range and follows the governor; entering and
      leaving idle states; the touch queue keeps the latest events; the policy's
      settings follow the power state; time slices and priorities; the battery
      update always panics, so power management does not survive its first tick.
    - Drivers: the keyboard's queue keeps the latest decoded events and its state
      is well typed; the screen refines a terminal; touch calibration.
    - File system: ext4 refines a map from paths to files; the mount point found
      is the longest prefix; any history of calls keeps the descriptor table
      consistent; create, write and stat end to end; superblock validation.
    - Driver manager: the unload order is complete and dependents come first; any
      history of requests keeps the registry consistent.
    - Init: restart budget, shutdown completes on every lawful kernel, and what
      init does on this one: its children never execute their programs.
    - Shell: words, errors of every command line, environment and jobs as maps, a
      session ends.
    - Descriptor tables: [init_gdt] succeeds and leaves every segment register and
      the task register on the descriptor they are for; the selectors that fresh
      user processes get denote the two halves of the task-state segment.
    - User processes: on this kernel the file-system service and the driver manager
      start and serve for ever without receiving anything, and the shell exits with
      code 0; none of them changes the kernel's state.
    - Touch requests: answers depend on the number of events only.
    - Harness: the report counts exactly the tests that passed and failed.
    - Unit tests: every modelled test passes on the modelled code, with three
      reservations: the test of the queue's size limits passes only where a message
      header takes at most 46 bytes ([test_queue_size_limits_spec]); the tests of
      the security policy, of the swap configuration and of the platform depend on
      the globals they find ([security_tests_admin], [swap_config_manager_test],
      [platform_tests_order]); counters need room.

    ** Not modelled

    - The text that boot stages and statistics functions print (in [Shell],
      [Console], [BootParams], [Entry] and [Display] it is modelled).
    - Wrappers that only build or project a newtype; they are the identity here.
    - The global allocators and panic handlers of the user processes: set-up of a
      third-party heap crate and endless loops.
    - The page helpers of [kernel/src/lib.rs], which repeat those of [memory/mod.rs].
    - The kernel's test modules that exercise only mocks of their own or call
      functions the kernel does not have ([driver_tests.rs], [kernel_tests.rs] and
      the [tests.rs] of [memory/], [ipc/] and [process/]): they say nothing about
      the modelled code. *)
From stdpp Require Export base list gmap sorting strings numbers list_numbers.

Global Open Scope Z_scope.

(** ** Build profiles

    Cargo's [dev] profile enables both [debug_assertions] and overflow
    checks; [release] disables both (the workspace manifest changes
    neither).  Every definition that does machine arithmetic or is guarded
    by [cfg(debug_assertions)] takes the profile as a class argument. *)
Class Profile := debug_assertions : bool.
Definition dev : Profile := true.
Definition release : Profile := false.

(** ** Outcomes of Rust code

    [Val a]: the code returns [a]; [Panic]: it panics (both profiles abort);
    [Fuel]: a modelled loop ran out of the fuel its definition gives it. *)
Inductive outcome (A : Type) : Type :=
  | Val (a : A)
  | Panic
  | Fuel.
Arguments Val {_} _.
Arguments Panic {_}.
Arguments Fuel {_}.

#[export] Instance outcome_eq_panic {A} (o : outcome A) : Decision (o = Panic).
Proof. by destruct o; [right|left|right]. Defined.

#[export] Instance outcome_ret : MRet outcome := λ A a, Val a.
#[export] Instance outcome_bind : MBind outcome := λ A B f o,
  match o with Val a => f a | Panic => Panic | Fuel => Fuel end.
#[export] Instance outcome_fmap : FMap outcome := λ A B f o,
  match o with Val a => Val (f a) | Panic => Panic | Fuel => Fuel end.

(** Rust's [Result<T, E>]. *)
Inductive result (T E : Type) : Type :=
  | Ok (t : T)
  | Err (e : E).
Arguments Ok {_ _} _.
Arguments Err {_ _} _.

#[export] Instance result_eq_dec {T E} `{EqDecision T, EqDecision E} :
  EqDecision (result T E).
Proof. solve_decision. Defined.

Definition is_ok {T E} (r : result T E) : bool :=
  match r with Ok _ => true | Err _ => false end.

(** [opt.ok_or(e)]. *)
Definition ok_or {T E} (o : option T) (e : E) : result T E :=
  match o with Some t => Ok t | None => Err e end.

(** [r?; k]: the early return of an error, for a [Result] without a value. *)
Definition and_then {T U E} (r : result T E) (k : T → result U E) : result U E :=
  match r with Ok t => k t | Err e => Err e end.
Declare Scope kosh_scope.
Delimit Scope kosh_scope with kosh.
Notation "r '?;;' k" := (and_then r (λ _, k)) (at level 100, k at level 200, right associativity) : kosh_scope.

(** [match n { k1 => a1, k2 => a2, .., _ => d }] on an integer: the arm of the
    first key equal to [n]. *)
Fixpoint match_arms {A} (arms : list (Z * A)) (n : Z) (d : A) : A :=
  match arms with
  | [] => d
  | (k, a) :: arms => if n =? k then a else match_arms arms n d
  end.

(** ** Machine integers

    A [w]-bit unsigned integer is a [Z] in [0, 2^w).  The arithmetic
    operators panic on overflow in [dev] and wrap in [release]. *)
Definition usize_max : Z := 2 ^ 64 - 1.
Definition u64_max : Z := 2 ^ 64 - 1.
Definition u32_max : Z := 2 ^ 32 - 1.

Definition in_width (w z : Z) : bool := (0 <=? z) && (z <? 2 ^ w).

Section arith.
Context {P : Profile}.

Definition arith (w z : Z) : outcome Z :=
  if in_width w z then Val z
  else if debug_assertions then Panic else Val (z mod 2 ^ w).

Definition uadd (w a b : Z) : outcome Z := arith w (a + b).
Definition usub (w a b : Z) : outcome Z := arith w (a - b).
Definition umul (w a b : Z) : outcome Z := arith w (a * b).
End arith.

(** Signed [w]-bit integers are the [Z] in [-2^(w-1), 2^(w-1)); a result outside
    panics or wraps in two's complement. *)
Definition to_signed (w z : Z) : Z :=
  let u := z mod 2 ^ w in if u <? 2 ^ (w - 1) then u else u - 2 ^ w.
Definition iarith `{Profile} (w z : Z) : outcome Z :=
  if (- 2 ^ (w - 1) <=? z) && (z <? 2 ^ (w - 1)) then Val z
  else if debug_assertions then Panic else Val (to_signed w z).

(** [a.saturating_sub(b)]. *)
Definition saturating_sub (a b : Z) : Z := Z.max 0 (a - b).
(** [a / b] and [a % b]: a zero divisor panics in every profile. *)
Definition udiv (a b : Z) : outcome Z := if b =? 0 then Panic else Val (a / b).
Definition urem (a b : Z) : outcome Z := if b =? 0 then Panic else Val (a mod b).
(** [!x] at width [w]. *)
Definition unot (w x : Z) : Z := Z.lxor x (Z.ones w).

(** ** Slices and vectors *)
Definition len {A} (l : list A) : Z := Z.of_nat (length l).
Definition is_empty {A} (l : list A) : bool :=
  match l with [] => true | _ => false end.
(** [l[i]]: out of range panics. *)
Definition index {A} (l : list A) (i : Z) : outcome A :=
  match l !! Z.to_nat i with Some x => Val x | None => Panic end.
(** [l[i] = x]: out of range panics. *)
Definition index_set {A} (l : list A) (i : Z) (x : A) : outcome (list A) :=
  if bool_decide (Z.to_nat i < length l)%nat then Val (<[Z.to_nat i := x]> l) else Panic.
(** [l.iter().position(p)]. *)
Fixpoint position {A} (p : A → bool) (l : list A) : option nat :=
  match l with
  | [] => None
  | x :: l => if p x then Some O else S <$> position p l
  end.
(** [l.insert(i, x)] for [i <= l.len()]. *)
Definition vec_insert {A} (i : nat) (x : A) (l : list A) : list A :=
  take i l ++ x :: drop i l.
(** [l.remove(i)] for [i < l.len()]. *)
Definition vec_remove {A} (i : nat) (l : list A) : list A :=
  take i l ++ drop (S i) l.

(** [&l[a..b]]: a bad range panics. *)
Definition slice {A} (l : list A) (a b : Z) : outcome (list A) :=
  if (a <=? b) && (b <=? len l)
  then Val (take (Z.to_nat (b - a)) (drop (Z.to_nat a) l)) else Panic.
(** [l[a..b].copy_from_slice(src)]: the lengths must agree. *)
Definition copy_from_slice {A} (l : list A) (a b : Z) (src : list A) : outcome (list A) :=
  if (a <=? b) && (b <=? len l) && (len src =? b - a)
  then Val (take (Z.to_nat a) l ++ src ++ drop (Z.to_nat b) l) else Panic.
(** [vec![x; n]]: an allocation above [isize::MAX] bytes panics. *)
Definition isize_max : Z := 2 ^ 63 - 1.
Definition vec_zeroed (n : Z) : outcome (list Z) :=
  if isize_max <? n then Panic else Val (replicate (Z.to_nat n) 0).

(** The entries of a [BTreeMap] in the order of its keys. *)
Definition key_le {V} (x y : Z * V) : Prop := x.1 ≤ y.1.
#[export] Instance key_le_dec {V} : RelDecision (@key_le V).
Proof. intros x y. unfold key_le. apply _. Defined.
Definition btree_entries {V} (m : gmap Z V) : list (Z * V) := merge_sort key_le (map_to_list m).

(** ** Loops

    [for x in l { body }] where the body either falls through with a new
    loop state or returns from the enclosing function. *)
Inductive flow (S R : Type) : Type :=
  | Next (s : S)
  | Return (r : R).
Arguments Next {_ _} _.
Arguments Return {_ _} _.

Fixpoint for_loop {X S R} (body : X → S → outcome (flow S R)) (l : list X) (s : S) :
    outcome (flow S R) :=
  match l with
  | [] => Val (Next s)
  | x :: l =>
      f ← body x s;
      match f with
      | Next s => for_loop body l s
      | Return r => Val (Return r)
      end
  end.

(** [for x in l { s = body(x, s) }] with no early exit. *)
Fixpoint for_each {X S} (body : X → S → outcome S) (l : list X) (s : S) : outcome S :=
  match l with
  | [] => Val s
  | x :: l => s ← body x s; for_each body l s
  end.

(** [loop { body }] with fuel. *)
Fixpoint loop_fuel {S R} (fuel : nat) (body : S → outcome (flow S R)) (s : S) : outcome R :=
  match fuel with
  | O => Fuel
  | Datatypes.S fuel =>
      f ← body s;
      match f with
      | Next s => loop_fuel fuel body s
      | Return r => Val r
      end
  end.

(** ** Lemmas and automation *)
Create HintDb kosh.

Section arith_lemmas.
Context {P : Profile}.

Lemma arith_val w z : 0 ≤ z < 2 ^ w → arith w z = Val z.
Proof.
  intros. unfold arith, in_width.
  by rewrite (proj2 (Z.leb_le 0 z)), (proj2 (Z.ltb_lt z _)) by lia.
Qed.

Lemma arith_bad w z :
  ¬ (0 ≤ z < 2 ^ w) →
  arith w z = if debug_assertions then Panic else Val (z mod 2 ^ w).
Proof.
  intros H. unfold arith, in_width.
  destruct (Z.leb_spec 0 z), (Z.ltb_spec z (2 ^ w)); simpl; try done; lia.
Qed.

Lemma uadd_val w a b : 0 ≤ a + b < 2 ^ w → uadd w a b = Val (a + b).
Proof. apply arith_val. Qed.
Lemma usub_val w a b : 0 ≤ a - b < 2 ^ w → usub w a b = Val (a - b).
Proof. apply arith_val. Qed.
Lemma umul_val w a b : 0 ≤ a * b < 2 ^ w → umul w a b = Val (a * b).
Proof. apply arith_val. Qed.

(** A result is always a word of its width. *)
Lemma arith_range w z z' : 0 ≤ w → arith w z = Val z' → 0 ≤ z' < 2 ^ w.
Proof.
  intros Hw. pose proof (Z.mod_pos_bound z (2 ^ w) ltac:(lia)).
  destruct (decide (0 ≤ z < 2 ^ w)).
  - rewrite arith_val by done. by intros [= <-].
  - rewrite arith_bad by done. destruct debug_assertions; by intros [= <-].
Qed.
(** An operation that cannot overflow when overflow is checked always
    returns a word, and the exact one when overflow is checked. *)
Lemma arith_total w z :
  0 ≤ w → (debug_assertions = true → 0 ≤ z < 2 ^ w) →
  ∃ z', arith w z = Val z' ∧ 0 ≤ z' < 2 ^ w ∧ (debug_assertions = true → z' = z).
Proof.
  intros Hw Hz. destruct (decide (0 ≤ z < 2 ^ w)).
  - exists z. by rewrite arith_val.
  - rewrite arith_bad by done. destruct debug_assertions; [naive_solver|].
    exists (z mod 2 ^ w). split_and!; try done; apply Z.mod_pos_bound; lia.
Qed.
(** Decrementing undoes incrementing, also across a wrap-around. *)
Lemma arith_incr_decr w z z' :
  0 ≤ z < 2 ^ w → arith w (z + 1) = Val z' → arith w (z' - 1) = Val z.
Proof.
  intros Hz. destruct (decide (z + 1 < 2 ^ w)).
  - rewrite arith_val by lia. intros [= <-]. rewrite arith_val by lia. f_equal. lia.
  - replace (z + 1) with (2 ^ w) by lia. rewrite arith_bad by lia.
    rewrite Z_mod_same_full. destruct debug_assertions eqn:D; [done|]. intros [= <-].
    rewrite arith_bad, D by lia. f_equal.
    replace (0 - 1) with (2 ^ w - 1 + (-1) * 2 ^ w) by lia.
    rewrite Z_mod_plus_full, Z.mod_small; lia.
Qed.
End arith_lemmas.

Lemma iarith_val `{Profile} w z : - 2 ^ (w - 1) ≤ z < 2 ^ (w - 1) → iarith w z = Val z.
Proof. intros. unfold iarith. by rewrite (proj2 (Z.leb_le _ _)), (proj2 (Z.ltb_lt _ _)) by lia. Qed.
Lemma iarith_bad `{Profile} w z : ¬ (- 2 ^ (w - 1) ≤ z < 2 ^ (w - 1)) →
  iarith w z = if debug_assertions then Panic else Val (to_signed w z).
Proof.
  intros H'. unfold iarith.
  destruct (Z.leb_spec (- 2 ^ (w - 1)) z), (Z.ltb_spec z (2 ^ (w - 1))); simpl; try done; lia.
Qed.

Lemma urem_val a b : b ≠ 0 → urem a b = Val (a mod b).
Proof. intros. unfold urem. by rewrite (proj2 (Z.eqb_neq b 0)). Qed.

Lemma udiv_val a b : b ≠ 0 → udiv a b = Val (a / b).
Proof. intros. unfold udiv. by rewrite (proj2 (Z.eqb_neq b 0)). Qed.

Lemma index_val {A} (l : list A) i x : l !! Z.to_nat i = Some x → index l i = Val x.
Proof. unfold index. by intros ->. Qed.

Lemma index_set_val {A} (l : list A) i x :
  (Z.to_nat i < length l)%nat → index_set l i x = Val (<[Z.to_nat i := x]> l).
Proof. intros. unfold index_set. by rewrite bool_decide_true. Qed.

Lemma bind_val {A B} (f : A → outcome B) (o : outcome A) b :
  o ≫= f = Val b ↔ ∃ a, o = Val a ∧ f a = Val b.
Proof. destruct o; split; intros; naive_solver. Qed.

Lemma len_nonneg {A} (l : list A) : 0 ≤ len l.
Proof. unfold len. lia. Qed.
#[export] Hint Resolve len_nonneg : kosh.

(** [inv_val]: take the binds of a hypothesis [_ = Val _] apart. *)
Ltac inv_val :=
  repeat match goal with
  | H : mbind _ _ = Val _ |- _ =>
      apply bind_val in H; let a := fresh "a" in let Ha := fresh "Hb" in
      destruct H as (a & Ha & H)
  | _ => progress simplify_eq/=
  | H : (let '(_, _) := ?a in _) = Val _ |- _ => is_var a; destruct a
  end.

(** Case analysis on the boolean comparisons of [Z] in goal and context. *)
Ltac zcase :=
  repeat match goal with
  | |- context [?a =? ?b] => destruct (Z.eqb_spec a b)
  | |- context [?a <? ?b] => destruct (Z.ltb_spec a b)
  | |- context [?a <=? ?b] => destruct (Z.leb_spec a b)
  | H : context [?a =? ?b] |- _ => destruct (Z.eqb_spec a b)
  | H : context [?a <? ?b] |- _ => destruct (Z.ltb_spec a b)
  | H : context [?a <=? ?b] |- _ => destruct (Z.leb_spec a b)
  end.

(** Linear arithmetic with division and modulo by constants. *)
Ltac divlia := Z.to_euclidean_division_equations; lia.

(** *** Loops *)
Section loop_lemmas.
Context {X S R : Type}.
Implicit Types (l : list X) (s : S).

Lemma for_loop_app (body : X → S → outcome (flow S R)) l1 l2 s :
  for_loop body (l1 ++ l2) s =
    (f ← for_loop body l1 s;
     match f with Next s => for_loop body l2 s | Return r => Val (Return r) end).
Proof.
  revert s. induction l1 as [|x l1 IH]; intros s; simpl; [done|].
  destruct (body x s) as [[s'|r]| |]; simpl; auto.
Qed.

Lemma loop_fuel_S (body : S → outcome (flow S R)) fuel s :
  loop_fuel (Datatypes.S fuel) body s =
    (f ← body s; match f with Next s => loop_fuel fuel body s | Return r => Val r end).
Proof. done. Qed.

(** A loop whose first iteration returns. *)
Lemma loop_fuel_return (body : S → outcome (flow S R)) fuel s r :
  fuel ≠ 0%nat → body s = Val (Return r) → loop_fuel fuel body s = Val r.
Proof. destruct fuel; [done|]. simpl. by intros _ ->. Qed.

Lemma for_loop_inv_from (I : list X → S → Prop) (Q : R → Prop) body l dn s :
  (∀ d x todo s, dn ++ l = d ++ x :: todo → I d s →
     match body x s with
     | Val (Next s') => I (d ++ [x]) s'
     | Val (Return r) => Q r
     | _ => False
     end) →
  I dn s →
  match for_loop body l s with
  | Val (Next s') => I (dn ++ l) s'
  | Val (Return r) => Q r
  | _ => False
  end.
Proof.
  revert dn s. induction l as [|x l IH]; intros dn s Hbody HI; simpl.
  - by rewrite app_nil_r.
  - specialize (Hbody dn x l s eq_refl HI) as Hx.
    destruct (body x s) as [[s'|r]| |]; try done. simpl.
    rewrite (cons_middle x dn l), app_assoc in *. by apply IH.
Qed.

(** Partial correctness: what holds of the state and of the result if the loop
    ends with a value. *)
Lemma for_loop_partial (I : S → Prop) (Q : R → Prop) (body : X → S → outcome (flow S R)) l : ∀ s f,
  (∀ x s f, I s → body x s = Val f → match f with Next s' => I s' | Return r => Q r end) →
  I s → for_loop body l s = Val f → match f with Next s' => I s' | Return r => Q r end.
Proof.
  induction l as [|x l IH]; intros s f Hbody HI Hf; cbn [for_loop] in Hf; [by injection Hf as <-|].
  apply bind_val in Hf as (f1 & H1 & Hf). specialize (Hbody x s f1 HI H1) as Hx.
  destruct f1 as [s1|r]; [by apply (IH s1)|by injection Hf as <-].
Qed.

(** Invariant rule: the body, from a state satisfying [I], either falls
    through and keeps [I] or returns a result satisfying [Q]. *)
Lemma for_loop_inv (I : list X → S → Prop) (Q : R → Prop) body l s :
  (∀ d x todo s, l = d ++ x :: todo → I d s →
     match body x s with
     | Val (Next s') => I (d ++ [x]) s'
     | Val (Return r) => Q r
     | _ => False
     end) →
  I [] s →
  match for_loop body l s with
  | Val (Next s') => I l s'
  | Val (Return r) => Q r
  | _ => False
  end.
Proof. apply (for_loop_inv_from I Q body l []). Qed.

Lemma for_each_inv_from (I : list X → S → Prop) (body : X → S → outcome S) l dn s :
  (∀ d x todo s, dn ++ l = d ++ x :: todo → I d s →
     ∃ s', body x s = Val s' ∧ I (d ++ [x]) s') →
  I dn s →
  ∃ s', for_each body l s = Val s' ∧ I (dn ++ l) s'.
Proof.
  revert dn s. induction l as [|x l IH]; intros dn s Hbody HI; simpl.
  - rewrite app_nil_r. eauto.
  - destruct (Hbody dn x l s eq_refl HI) as (s' & Hs' & HI').
    rewrite Hs'. simpl.
    rewrite (cons_middle x dn l), app_assoc in *. by apply IH.
Qed.

Lemma for_each_inv (I : list X → S → Prop) (body : X → S → outcome S) l s :
  (∀ d x todo s, l = d ++ x :: todo → I d s →
     ∃ s', body x s = Val s' ∧ I (d ++ [x]) s') →
  I [] s →
  ∃ s', for_each body l s = Val s' ∧ I l s'.
Proof. apply (for_each_inv_from I body l []). Qed.
Lemma for_each_panic_or (I : S → Prop) (body : X → S → outcome S) l s :
  (∀ x s, x ∈ l → I s → body x s = Panic ∨ ∃ s', body x s = Val s' ∧ I s') →
  I s → for_each body l s = Panic ∨ ∃ s', for_each body l s = Val s' ∧ I s'.
Proof.
  revert s. induction l as [|x l IH]; intros s Hbody HI; simpl; [by eauto|].
  destruct (Hbody x s (list_elem_of_here _ _) HI) as [->|(s' & -> & HI')]; simpl; [by left|].
  apply IH; auto. intros y sy Hy. apply Hbody. by right.
Qed.

(** A loop that keeps [I] until it panics does panic if one of its iterations
    always does. *)
Lemma for_each_panics (I : S → Prop) (body : X → S → outcome S) l s x0 :
  (∀ x s, x ∈ l → I s → body x s = Panic ∨ ∃ s', body x s = Val s' ∧ I s') →
  x0 ∈ l → (∀ s, I s → body x0 s = Panic) → I s →
  for_each body l s = Panic.
Proof.
  intros Hbody Hx0 Hpanic. revert s.
  induction l as [|x l IH]; intros s HI; [by apply not_elem_of_nil in Hx0|]; simpl.
  destruct (decide (body x s = Panic)) as [->|Hne]; [done|].
  destruct (Hbody x s (list_elem_of_here _ _) HI) as [?|(s' & Hs' & HI')]; [done|].
  rewrite Hs'. simpl. apply elem_of_cons in Hx0 as [->|Hx0].
  - specialize (Hpanic s HI). congruence.
  - apply IH; auto. intros y sy Hy. apply Hbody. by right.
Qed.
End loop_lemmas.

Lemma for_each_app {X S} (body : X → S → outcome S) l l' s :
  for_each body (l ++ l') s = (s ← for_each body l s; for_each body l' s).
Proof. revert s. induction l as [|x l IH]; intros s; [done|]. simpl. destruct (body x s); [apply IH|done..]. Qed.
Lemma last_omap_snoc {A B} (f : A → option B) l x :
  last (omap f (l ++ [x])) = match f x with Some y => Some y | None => last (omap f l) end.
Proof. rewrite omap_app. simpl. destruct (f x); [by rewrite last_snoc|by rewrite app_nil_r]. Qed.

(** *** Code without fuel

    A computation whose loops are all bounded ends: it returns or panics. *)
Definition ends {A} (o : outcome A) : Prop := o ≠ Fuel.
Lemma ends_bind {A B} (o : outcome A) (f : A → outcome B) : ends o → (∀ a, ends (f a)) → ends (o ≫= f).
Proof. intros Ho Hf. destruct o; [apply Hf|done|done]. Qed.
Lemma ends_for_loop {X S R} (body : X → S → outcome (flow S R)) l :
  (∀ x s, ends (body x s)) → ∀ s, ends (for_loop body l s).
Proof.
  intros Hb. induction l as [|x l IH]; intros s; [done|]. cbn [for_loop].
  apply ends_bind; [apply Hb|]. intros [s'|r]; [apply IH|done].
Qed.
Lemma ends_for_each {X S} (body : X → S → outcome S) l : (∀ x s, ends (body x s)) → ∀ s, ends (for_each body l s).
Proof.
  intros Hb. induction l as [|x l IH]; intros s; [done|]. cbn [for_each]. by apply ends_bind.
Qed.
Lemma ends_then_panic {A B} (o : outcome A) (k : A → outcome B) : ends o → (∀ a, k a = Panic) → (o ≫= k) = Panic.
Proof. intros He Hk. destruct o; [apply Hk|done..]. Qed.
Lemma ends_arith `{Profile} w z : ends (arith w z).
Proof. unfold arith. destruct (in_width w z); [done|]. by destruct debug_assertions. Qed.
Lemma ends_index {A} (l : list A) i : ends (index l i).
Proof. unfold index. by destruct (l !! _). Qed.
Lemma ends_udiv a b : ends (udiv a b).
Proof. unfold udiv. by destruct (b =? 0). Qed.
#[export] Hint Resolve ends_arith ends_index ends_udiv : kosh.
(** Splits a goal [ends _] along the structure of the code. *)
Ltac ends_tac :=
  repeat first
    [ done
    | solve [eauto with kosh]
    | progress cbv beta zeta
    | apply ends_bind; [|intros]
    | apply ends_for_each; intros
    | apply ends_for_loop; intros
    | apply ends_arith
    | match goal with
      | |- ends (let '(_, _) := ?x in _) => destruct x
      | |- ends (if ?b then _ else _) => destruct b
      | |- ends (match ?x with _ => _ end) => destruct x
      end ].

(** Apply the invariant rule to the [for_loop] of the goal: the subgoals are
    the consequence, the initial state and the step. *)
Tactic Notation "loop_inv" uconstr(I) uconstr(Q) "as" ident(H) :=
  lazymatch goal with
  | |- context [for_loop ?b ?l ?s] =>
      let T := fresh "T" in
      pose proof (for_loop_inv I Q b l s) as T;
      lapply T; [clear T; intros T; lapply T; [clear T; intros H|clear T]|clear T]
  end.

(** *** Lists *)
Section match_arms_lemmas.
Context {A : Type}.

Lemma match_arms_ind (Q : Z → A → Prop) arms n d :
  Forall (λ ka, n = ka.1 → Q ka.1 ka.2) arms → (n ∉ arms.*1 → Q n d) → Q n (match_arms arms n d).
Proof.
  induction arms as [|[k a] arms IH]; simpl; intros Harms Hd.
  - apply Hd, not_elem_of_nil.
  - apply Forall_cons in Harms as [Hk Harms]. simpl in Hk.
    destruct (Z.eqb_spec n k) as [->|Hne]; [auto|]. apply IH; [done|].
    intros Hn. apply Hd. by rewrite not_elem_of_cons.
Qed.

Lemma match_arms_default arms n (d : A) : n ∉ arms.*1 → match_arms arms n d = d.
Proof.
  induction arms as [|[k a] arms IH]; simpl; [done|]. intros [Hk Hn]%not_elem_of_cons.
  destruct (Z.eqb_spec n k); [done|]. by apply IH.
Qed.
End match_arms_lemmas.

Section list_lemmas.
Context {A : Type}.
Implicit Types (l : list A) (p : A → bool).

Lemma position_Some p l i :
  position p l = Some i ↔
    ∃ x, l !! i = Some x ∧ p x = true ∧
         ∀ j y, (j < i)%nat → l !! j = Some y → p y = false.
Proof.
  revert i. induction l as [|x l IH]; intros i; simpl.
  - split; [done|]. intros (x & Hx & _). by rewrite lookup_nil in Hx.
  - destruct (p x) eqn:Hp.
    + split.
      * intros [= <-]. exists x. split_and!; auto. lia.
      * intros (y & Hy & Hpy & Hmin). destruct i as [|i]; [done|].
        specialize (Hmin O x ltac:(lia) eq_refl). congruence.
    + rewrite fmap_Some. split.
      * intros (k & Hk & ->). apply IH in Hk as (y & Hy & Hpy & Hmin).
        exists y. split_and!; auto. intros [|j] z Hj Hz; simplify_eq/=; eauto.
        eapply Hmin; [|done]; lia.
      * intros (y & Hy & Hpy & Hmin). destruct i as [|i]; simplify_eq/=; [congruence|].
        exists i. split; [|done]. apply IH. exists y. split_and!; auto.
        intros j z Hj Hz. apply (Hmin (S j)); [lia|done].
Qed.

Lemma position_None p l : position p l = None ↔ ∀ x, x ∈ l → p x = false.
Proof.
  induction l as [|x l IH]; simpl.
  - split; [|done]. intros _ x Hx. by apply not_elem_of_nil in Hx.
  - destruct (p x) eqn:Hp.
    + split; [done|]. intros H. specialize (H x (list_elem_of_here _ _)). congruence.
    + rewrite fmap_None, IH. setoid_rewrite elem_of_cons. naive_solver.
Qed.

Lemma position_lt p l i : position p l = Some i → (i < length l)%nat.
Proof. intros (x & Hx & _)%position_Some. by eapply lookup_lt_Some. Qed.

Lemma length_vec_remove l i :
  (i < length l)%nat → length (vec_remove i l) = (length l - 1)%nat.
Proof. intros. unfold vec_remove. rewrite length_app, length_take, length_drop. lia. Qed.

Lemma vec_remove_Permutation l i x :
  l !! i = Some x → l ≡ₚ x :: vec_remove i l.
Proof.
  intros H. rewrite <-(take_drop_middle l i x H) at 1. unfold vec_remove.
  by rewrite Permutation_middle.
Qed.

Lemma filter_ne_id `{EqDecision A} l x : x ∉ l → filter (.≠ x) l = l.
Proof.
  induction l as [|y l IH]; [done|]. intros [Hy Hl]%not_elem_of_cons.
  rewrite filter_cons_True by congruence. by rewrite IH.
Qed.

Lemma NoDup_prefix_take l n : NoDup l → NoDup (take n l).
Proof. intros Hnd. rewrite <-(take_drop n l) in Hnd. by apply NoDup_app in Hnd as (? & _). Qed.

(** An element splits a list without duplicates in one way. *)
Lemma NoDup_split_eq a b c d (x : A) :
  NoDup (a ++ x :: b) → a ++ x :: b = c ++ x :: d → a = c ∧ b = d.
Proof.
  intros Hnd Heq. assert (length a = length c) as Hl.
  { apply (NoDup_lookup _ _ _ x Hnd); [by apply list_lookup_middle|].
    rewrite Heq. by apply list_lookup_middle. }
  apply app_inj_1 in Heq as [-> [= ->]]; done.
Qed.

Lemma NoDup_list_insert l i (x : A) : NoDup l → x ∉ l → NoDup (<[i := x]> l).
Proof.
  intros Hnd Hx. apply NoDup_alt. intros j k y Hj Hk.
  apply list_lookup_insert_Some in Hj as [(<- & <- & _)|[Hij Hj]];
    apply list_lookup_insert_Some in Hk as [(<- & Hy & _)|[Hik Hk]]; subst; try done.
  - by apply list_elem_of_lookup_2 in Hk.
  - by apply list_elem_of_lookup_2 in Hj.
  - by eapply NoDup_lookup.
Qed.

(** Removing the one occurrence of an element is filtering it out. *)
Lemma vec_remove_filter `{EqDecision A} l i x :
  NoDup l → l !! i = Some x → vec_remove i l = filter (.≠ x) l.
Proof.
  intros Hnd Hi. rewrite <-(take_drop_middle l i x Hi) in Hnd |- * at 2. unfold vec_remove.
  apply NoDup_app in Hnd as (_ & Hx1 & Hnd). apply NoDup_cons in Hnd as [Hx2 _].
  rewrite filter_app, filter_cons_False by naive_solver.
  rewrite !filter_ne_id; [done..|]. intros Hx. apply (Hx1 x Hx). by left.
Qed.

Lemma vec_insert_Permutation l i x : vec_insert i x l ≡ₚ x :: l.
Proof.
  unfold vec_insert. rewrite <-Permutation_middle. by rewrite take_drop.
Qed.
End list_lemmas.

Section slice_lemmas.
Context {A : Type}.
Implicit Types l src : list A.

Lemma slice_val l a b : 0 ≤ a ≤ b → b ≤ len l →
  slice l a b = Val (take (Z.to_nat (b - a)) (drop (Z.to_nat a) l)).
Proof.
  intros. unfold slice. by rewrite !(proj2 (Z.leb_le _ _)) by lia.
Qed.

Lemma copy_from_slice_val l a b src : 0 ≤ a ≤ b → b ≤ len l → len src = b - a →
  copy_from_slice l a b src = Val (take (Z.to_nat a) l ++ src ++ drop (Z.to_nat b) l).
Proof.
  intros. unfold copy_from_slice.
  by rewrite !(proj2 (Z.leb_le _ _)), (proj2 (Z.eqb_eq _ _)) by lia.
Qed.

Lemma len_copy l a b src : 0 ≤ a ≤ b → b ≤ len l → len src = b - a →
  len (take (Z.to_nat a) l ++ src ++ drop (Z.to_nat b) l) = len l.
Proof.
  unfold len. intros. rewrite !length_app, length_take, length_drop. lia.
Qed.

(** Reading back the range that was written, and any range beside it. *)
Lemma slice_copy_same l a b src : 0 ≤ a ≤ b → b ≤ len l → len src = b - a →
  slice (take (Z.to_nat a) l ++ src ++ drop (Z.to_nat b) l) a b = Val src.
Proof.
  intros Ha Hb Hs. rewrite slice_val by (rewrite ?len_copy by done; lia). unfold len in *.
  rewrite drop_app_length' by (rewrite length_take; lia).
  by rewrite take_app_length' by lia.
Qed.

Lemma slice_copy_other l a b src c d : 0 ≤ a ≤ b → b ≤ len l → len src = b - a →
  0 ≤ c ≤ d → d ≤ len l → d ≤ a ∨ b ≤ c →
  slice (take (Z.to_nat a) l ++ src ++ drop (Z.to_nat b) l) c d = slice l c d.
Proof.
  intros Ha Hb Hs Hc Hd Hdis.
  rewrite !slice_val by (rewrite ?len_copy by done; lia). f_equal. unfold len in *.
  apply list_eq. intros i.
  destruct (decide (i < Z.to_nat (d - c))%nat) as [Hi|Hi].
  - rewrite !lookup_take_lt, !lookup_drop by done. destruct Hdis.
    + rewrite lookup_app_l, lookup_take_lt by (rewrite ?length_take; lia). done.
    + rewrite lookup_app_r by (rewrite length_take; lia).
      rewrite lookup_app_r by (rewrite length_take; lia).
      rewrite lookup_drop, length_take. f_equal. lia.
  - by rewrite !lookup_take_ge by lia.
Qed.
End slice_lemmas.

(** The element of a range after a prefix of it, and the prefix. *)
Lemma seqZ_split m n d x todo :
  seqZ m n = d ++ x :: todo → x = m + len d ∧ len d < n.
Proof.
  intros H. assert (seqZ m n !! length d = Some x) as Hx
    by (rewrite H; apply list_lookup_middle; done).
  apply lookup_seqZ in Hx. unfold len. lia.
Qed.

Lemma len_app {A} (l1 l2 : list A) : len (l1 ++ l2) = len l1 + len l2.
Proof. unfold len. rewrite length_app. lia. Qed.
Lemma len_singleton {A} (x : A) : len [x] = 1.
Proof. done. Qed.
Lemma len_snoc {A} (l : list A) x : len (l ++ [x]) = len l + 1.
Proof. by rewrite len_app. Qed.
Lemma len_seqZ m n : 0 ≤ n → len (seqZ m n) = n.
Proof. intros. unfold len. rewrite length_seqZ. lia. Qed.

(** *** Sums *)
Definition sumZ {A} (f : A → Z) (l : list A) : Z := foldr (λ x z, f x + z) 0 l.

Lemma sumZ_app {A} (f : A → Z) l1 l2 : sumZ f (l1 ++ l2) = sumZ f l1 + sumZ f l2.
Proof. induction l1 as [|x l1 IH]; simpl; [done|]. rewrite IH. lia. Qed.

Lemma sumZ_insert {A} (f : A → Z) l i x y :
  l !! i = Some x → sumZ f (<[i := y]> l) = sumZ f l - f x + f y.
Proof.
  revert i. induction l as [|z l IH]; intros [|i] Hi; simplify_eq/=; [lia|].
  rewrite (IH i Hi). lia.
Qed.

Lemma sumZ_zero {A} (f : A → Z) l : (∀ x, x ∈ l → f x = 0) → sumZ f l = 0.
Proof.
  induction l as [|x l IH]; intros H; [done|]. unfold sumZ; simpl. fold (sumZ f l).
  rewrite (H x) by (by left). rewrite IH; [done|]. intros y Hy. apply H. by right.
Qed.

Lemma sumZ_nonneg {A} (f : A → Z) l : (∀ x, x ∈ l → 0 ≤ f x) → 0 ≤ sumZ f l.
Proof.
  induction l as [|x l IH]; simpl; intros H; [done|].
  pose proof (H x (list_elem_of_here _ _)).
  specialize (IH (λ y Hy, H y (list_elem_of_further _ _ _ Hy))). lia.
Qed.

Lemma sumZ_le {A} (f g : A → Z) l : (∀ x, x ∈ l → f x ≤ g x) → sumZ f l ≤ sumZ g l.
Proof.
  induction l as [|x l IH]; simpl; intros H; [done|].
  pose proof (H x (list_elem_of_here _ _)).
  specialize (IH (λ y Hy, H y (list_elem_of_further _ _ _ Hy))). lia.
Qed.

Lemma sumZ_elem {A} (f : A → Z) l x :
  (∀ y, y ∈ l → 0 ≤ f y) → x ∈ l → f x ≤ sumZ f l.
Proof.
  induction l as [|y l IH]; simpl; intros H Hx; [by apply not_elem_of_nil in Hx|].
  pose proof (H y (list_elem_of_here _ _)).
  assert (∀ z, z ∈ l → 0 ≤ f z) as H' by (intros; apply H; by right).
  pose proof (sumZ_nonneg f l H').
  apply elem_of_cons in Hx as [->|Hx]; [lia|]. specialize (IH H' Hx). lia.
Qed.

Lemma sumZ_Permutation {A} (f : A → Z) l1 l2 : l1 ≡ₚ l2 → sumZ f l1 = sumZ f l2.
Proof. induction 1; simpl; lia. Qed.
