(* ===== verification/Float.v ===== *)
(** * Single precision

    [f32] is IEEE 754 binary32 (24 bits of precision, exponents below 128) with
    rounding to nearest even.  A decimal literal is the quotient of two exact
    integers, which division rounds to the nearest value. *)
From Stdlib Require Import SpecFloat.
From S2P Require Import Prelude.

Definition f32 : Type := spec_float.
Definition f32_of_int (z : Z) : f32 := binary_normalize 24 128 z 0 false.
Definition f32_lit (n d : Z) : f32 := SFdiv 24 128 (f32_of_int n) (f32_of_int d).
Definition f32_mul : f32 → f32 → f32 := SFmul 24 128.
Definition f32_div : f32 → f32 → f32 := SFdiv 24 128.
Definition f32_gt0 (x : f32) : bool := SFltb (S754_zero false) x.
(** [x as u64] and [x as u32]: towards zero, saturating, NaN to 0. *)
Definition f32_to_uint (w : Z) (x : f32) : Z :=
  match x with
  | S754_infinity false => 2 ^ w - 1
  | S754_finite false m e => Z.min (Z.shiftl (Zpos m) e) (2 ^ w - 1)
  | _ => 0
  end.
(** [(n as f32 * x) as u64]. *)
Definition scale_u64 (n : Z) (x : f32) : Z := f32_to_uint 64 (f32_mul (f32_of_int n) x).

Lemma f32_to_uint_range w x : 0 ≤ w → 0 ≤ f32_to_uint w x < 2 ^ w.
Proof.
  intros Hw. destruct x as [[]|[]| |[] m e]; simpl; try lia.
  assert (0 ≤ Z.shiftl (Zpos m) e) by (apply Z.shiftl_nonneg; lia). lia.
Qed.
