(* ===== verification/Physical.v ===== *)
(** * Physical memory

    Models [kernel/src/memory/mod.rs] (page arithmetic) and
    [kernel/src/memory/physical.rs] (the bitmap frame allocator and its
    construction from the multiboot memory map).

    [PhysicalMemoryManager] is the struct of the same name; a frame number is
    a [Z], the [u8] bitmap a list of [Z].  The abstraction of a manager is
    the finite set [free_set] of its free frames; the theorems state the
    operations as operations on that set. *)
From S2P Require Import Prelude.

Definition PAGE_SIZE : Z := 4096.

Section page_arith.
Context {P : Profile}.

Definition bytes_to_pages (bytes : Z) : outcome Z :=
  s ← uadd 64 bytes PAGE_SIZE; s ← usub 64 s 1; udiv s PAGE_SIZE.
Definition pages_to_bytes (pages : Z) : outcome Z := umul 64 pages PAGE_SIZE.
Definition align_up (addr : Z) : outcome Z :=
  s ← uadd 64 addr PAGE_SIZE; s ← usub 64 s 1;
  Val (Z.land s (unot 64 (PAGE_SIZE - 1))).
End page_arith.
Definition align_down (addr : Z) : Z := Z.land addr (unot 64 (PAGE_SIZE - 1)).
Definition is_aligned (addr : Z) : bool := Z.land addr (PAGE_SIZE - 1) =? 0.

(** [PageFrame::from_address] and [PageFrame::address]; a [PageFrame] is its
    frame number. *)
Definition from_address (addr : Z) : Z := align_down addr / PAGE_SIZE.
Definition frame_address `{Profile} (frame : Z) : outcome Z := umul 64 frame PAGE_SIZE.

(** What [parse_memory_map] and [new] read of a multiboot2 memory area. *)
Inductive MemoryAreaType := Available | Unavailable.
#[export] Instance MemoryAreaType_eq_dec : EqDecision MemoryAreaType.
Proof. solve_decision. Defined.

Record MemoryArea := {
  area_start : Z;
  area_end : Z;
  area_size : Z;
  area_typ : MemoryAreaType;
}.

Record MemoryStats := {
  total_pages : Z;
  used_pages : Z;
  free_pages : Z;
  reserved_pages : Z;
}.

Record PhysicalMemoryManager := {
  bitmap : list Z;
  total_frames : Z;
  free_frames : Z;
  used_frames : Z;
  reserved_frames : Z;
  bitmap_start : Z;
}.

Definition set_bitmap (m : PhysicalMemoryManager) b free used : PhysicalMemoryManager :=
  {| bitmap := b; total_frames := total_frames m; free_frames := free;
     used_frames := used; reserved_frames := reserved_frames m;
     bitmap_start := bitmap_start m |}.
Definition set_reserved (m : PhysicalMemoryManager) r : PhysicalMemoryManager :=
  {| bitmap := bitmap m; total_frames := total_frames m; free_frames := free_frames m;
     used_frames := used_frames m; reserved_frames := r;
     bitmap_start := bitmap_start m |}.

(** [byte & (1 << bit_idx)]. *)
Definition bit_set (byte bit_idx : Z) : bool :=
  negb (Z.land byte (Z.shiftl 1 bit_idx) =? 0).

Definition is_frame_free (m : PhysicalMemoryManager) (frame : Z) : bool :=
  if total_frames m <=? frame then false
  else
    let byte_idx := frame / 8 in
    let bit_idx := frame mod 8 in
    match bitmap m !! Z.to_nat byte_idx with
    | None => false (* byte_idx >= self.bitmap.len() *)
    | Some byte => negb (bit_set byte bit_idx)
    end.

Section allocator.
Context {P : Profile}.
Implicit Types m : PhysicalMemoryManager.

Definition mark_frame_used m (frame : Z) : outcome PhysicalMemoryManager :=
  if total_frames m <=? frame then Val m
  else
    let byte_idx := frame / 8 in
    let bit_idx := frame mod 8 in
    match bitmap m !! Z.to_nat byte_idx with
    | None => Val m
    | Some byte =>
        if bit_set byte bit_idx then Val m
        else
          let byte' := Z.lor byte (Z.shiftl 1 bit_idx) in
          free ← usub 64 (free_frames m) 1;
          used ← uadd 64 (used_frames m) 1;
          Val (set_bitmap m (<[Z.to_nat byte_idx := byte']> (bitmap m)) free used)
    end.

Definition mark_frame_free m (frame : Z) : outcome PhysicalMemoryManager :=
  if total_frames m <=? frame then Val m
  else
    let byte_idx := frame / 8 in
    let bit_idx := frame mod 8 in
    match bitmap m !! Z.to_nat byte_idx with
    | None => Val m
    | Some byte =>
        if bit_set byte bit_idx then
          let byte' := Z.land byte (unot 8 (Z.shiftl 1 bit_idx)) in
          used ← usub 64 (used_frames m) 1;
          free ← uadd 64 (free_frames m) 1;
          Val (set_bitmap m (<[Z.to_nat byte_idx := byte']> (bitmap m)) free used)
        else Val m
    end.

(** The inner loop of [allocate_frame]: bits [0..8] of one byte. *)
Definition scan_byte m (byte byte_idx : Z) : outcome (flow unit Z) :=
  for_loop (λ bit_idx _,
    if bit_set byte bit_idx then Val (Next ())
    else
      b ← umul 64 byte_idx 8; frame_num ← uadd 64 b bit_idx;
      if frame_num <? total_frames m then Val (Return frame_num)
      else Val (Next ())) (seqZ 0 8) ().

(** The outer loop: every byte of the bitmap. *)
Definition scan_bitmap m : outcome (flow unit Z) :=
  for_loop (λ byte_idx _,
    byte ← index (bitmap m) byte_idx;
    if negb (byte =? 255) then scan_byte m byte byte_idx
    else Val (Next ())) (seqZ 0 (len (bitmap m))) ().

Definition allocate_frame m : outcome (option Z * PhysicalMemoryManager) :=
  if free_frames m =? 0 then Val (None, m)
  else
    r ← scan_bitmap m;
    match r with
    | Next _ => Val (None, m)
    | Return frame => m' ← mark_frame_used m frame; Val (Some frame, m')
    end.

(** The scan of [allocate_frames] for [count] consecutive free frames: the
    loop state is [(consecutive_free, start_frame)]. *)
Definition scan_run m (count : Z) : outcome (flow (Z * option Z) Z) :=
  for_loop (λ frame_num '(consecutive_free, start_frame),
    if is_frame_free m frame_num then
      let start_frame :=
        if consecutive_free =? 0 then Some frame_num else start_frame in
      consecutive_free ← uadd 64 consecutive_free 1;
      if consecutive_free =? count then
        match start_frame with Some s => Val (Return s) | None => Panic end
      else Val (Next (consecutive_free, start_frame))
    else Val (Next (0, None))) (seqZ 0 (total_frames m)) (0, None).

Definition allocate_frames m (count : Z) : outcome (option Z * PhysicalMemoryManager) :=
  if (count =? 0) || (free_frames m <? count) then Val (None, m)
  else if count =? 1 then allocate_frame m
  else
    r ← scan_run m count;
    match r with
    | Next _ => Val (None, m)
    | Return start =>
        m' ← for_each (λ i m, f ← uadd 64 start i; mark_frame_used m f)
               (seqZ 0 count) m;
        Val (Some start, m')
    end.

Definition deallocate_frame m (frame : Z) : outcome PhysicalMemoryManager :=
  if total_frames m <=? frame then Val m
  else if is_frame_free m frame then Val m (* double free: only a warning *)
  else mark_frame_free m frame.

Definition deallocate_frames m (start count : Z) : outcome PhysicalMemoryManager :=
  for_each (λ i m, f ← uadd 64 start i; deallocate_frame m f) (seqZ 0 count) m.

(** [PhysicalMemoryManager::stats] and the [MemoryStats] conversions. *)
Definition stats m : MemoryStats :=
  {| total_pages := total_frames m; used_pages := used_frames m;
     free_pages := free_frames m; reserved_pages := reserved_frames m |}.
Definition pages_mb (pages : Z) : outcome Z :=
  b ← umul 64 pages PAGE_SIZE; udiv b (1024 * 1024).
Definition total_memory_mb (s : MemoryStats) : outcome Z := pages_mb (total_pages s).
Definition used_memory_mb (s : MemoryStats) : outcome Z := pages_mb (used_pages s).
Definition free_memory_mb (s : MemoryStats) : outcome Z := pages_mb (free_pages s).

(** *** Construction from the memory map *)

(** The frames an area touches: [start_frame.0 ..= end_frame.0]. *)
Definition area_frames (a : MemoryArea) : outcome (list Z) :=
  e ← usub 64 (area_end a) 1;
  let start_frame := from_address (area_start a) in
  let end_frame := from_address e in
  Val (seqZ start_frame (end_frame - start_frame + 1)).

(** Low memory (the first MB) and the bitmap itself are never freed. *)
Definition skip_frame (bitmap_start bitmap_len frame_addr : Z) : outcome bool :=
  if frame_addr <? 0x100000 then Val true
  else if bitmap_start <=? frame_addr then
    e ← uadd 64 bitmap_start bitmap_len; Val (frame_addr <? e)
  else Val false.

Definition available_frame (frame_num : Z) m : outcome PhysicalMemoryManager :=
  frame_addr ← umul 64 frame_num PAGE_SIZE;
  skip ← skip_frame (bitmap_start m) (len (bitmap m)) frame_addr;
  if (skip : bool) then
    r ← uadd 64 (reserved_frames m) 1; Val (set_reserved m r)
  else if frame_num <? total_frames m then mark_frame_free m frame_num
  else Val m.

Definition reserved_frame (frame_num : Z) m : outcome PhysicalMemoryManager :=
  if frame_num <? total_frames m then
    r ← uadd 64 (reserved_frames m) 1; Val (set_reserved m r)
  else Val m.

Definition parse_memory_map m (areas : list MemoryArea) : outcome PhysicalMemoryManager :=
  for_each (λ a m,
    frames ← area_frames a;
    if decide (area_typ a = Available) then for_each available_frame frames m
    else for_each reserved_frame frames m) areas m.

(** The two preliminary scans of [new]. *)
Definition max_end_addr (areas : list MemoryArea) : outcome (Z * Z) :=
  for_each (λ a '(max_end, total_memory),
    if decide (area_typ a = Available) then
      t ← uadd 64 total_memory (area_size a); Val (Z.max max_end (area_end a), t)
    else Val (max_end, total_memory)) areas (0, 0).
Definition bitmap_overlaps (start end_ : Z) (areas : list MemoryArea) : bool :=
  existsb (λ a, bool_decide (area_typ a ≠ Available) &&
                (start <? area_end a) && (area_start a <? end_)) areas.

Definition BITMAP_START : Z := 0x200000.

(** [PhysicalMemoryManager::new]; the argument is
    [boot_info.memory_map_tag()]. *)
Definition new (memory_map : option (list MemoryArea)) :
    outcome (result PhysicalMemoryManager string) :=
  match memory_map with
  | None => Val (Err "No memory map found in multiboot2 info")
  | Some areas =>
      '(max_end, _) ← max_end_addr areas;
      if max_end =? 0 then Val (Err "No usable memory found")
      else
        let total := max_end / PAGE_SIZE in
        t7 ← uadd 64 total 7;
        let bitmap_size := t7 / 8 in
        bitmap_end ← uadd 64 BITMAP_START bitmap_size;
        if bitmap_overlaps BITMAP_START bitmap_end areas then
          Val (Err "Cannot place bitmap - overlaps with reserved memory")
        else
          m ← parse_memory_map
            {| bitmap := replicate (Z.to_nat bitmap_size) 0xFF;
               total_frames := total; free_frames := 0; used_frames := 0;
               reserved_frames := 0; bitmap_start := BITMAP_START |} areas;
          Val (Ok m)
  end.

(** *** The global manager, [PHYSICAL_MEMORY_MANAGER]

    Printing the statistics computes sizes in MB, which can overflow. *)
Definition print_stats m : outcome unit :=
  _ ← total_memory_mb (stats m); _ ← used_memory_mb (stats m); _ ← free_memory_mb (stats m); Val ().
Definition init_physical_memory (g : option PhysicalMemoryManager) (memory_map : option (list MemoryArea)) :
    outcome (result unit string * option PhysicalMemoryManager) :=
  r ← new memory_map;
  match r with
  | Err e => Val (Err e, g)
  | Ok m => _ ← print_stats m; Val (Ok (), Some m)
  end.
Definition global_allocate_frame (g : option PhysicalMemoryManager) :
    outcome (option Z * option PhysicalMemoryManager) :=
  match g with
  | None => Val (None, g)
  | Some m => '(r, m) ← allocate_frame m; Val (r, Some m)
  end.
Definition global_allocate_frames (g : option PhysicalMemoryManager) (count : Z) :
    outcome (option Z * option PhysicalMemoryManager) :=
  match g with
  | None => Val (None, g)
  | Some m => '(r, m) ← allocate_frames m count; Val (r, Some m)
  end.
Definition global_deallocate_frame (g : option PhysicalMemoryManager) (frame : Z) :
    outcome (option PhysicalMemoryManager) :=
  match g with None => Val g | Some m => m ← deallocate_frame m frame; Val (Some m) end.
Definition global_deallocate_frames (g : option PhysicalMemoryManager) (start count : Z) :
    outcome (option PhysicalMemoryManager) :=
  match g with None => Val g | Some m => m ← deallocate_frames m start count; Val (Some m) end.
End allocator.

(** The frames of a manager that can be handed out. *)
Definition free_set (m : PhysicalMemoryManager) : gset Z :=
  list_to_set (List.filter (is_frame_free m) (seqZ 0 (total_frames m))).

(** ** Page arithmetic *)
Lemma land_low_mask addr : 0 ≤ addr → Z.land addr (PAGE_SIZE - 1) = addr mod PAGE_SIZE.
Proof. intros. change (PAGE_SIZE - 1) with (Z.ones 12). by rewrite Z.land_ones by lia. Qed.

Lemma align_down_eq addr :
  0 ≤ addr < 2 ^ 64 → align_down addr = addr - addr mod PAGE_SIZE.
Proof.
  intros. unfold align_down, unot.
  transitivity (Z.ldiff addr (Z.ones 12)).
  - apply Z.bits_inj'. intros n Hn.
    rewrite Z.land_spec, Z.ldiff_spec, Z.lxor_spec.
    change (PAGE_SIZE - 1) with (Z.ones 12).
    destruct (decide (n < 64)).
    + rewrite (Z.ones_spec_low 64) by lia. by destruct (Z.testbit (Z.ones 12) n).
    + rewrite (proj1 (Z.bounded_iff_bits_nonneg 64 addr ltac:(lia) ltac:(lia)))
        by lia. done.
  - rewrite Z.ldiff_ones_r by lia.
    rewrite Z.shiftl_mul_pow2, Z.shiftr_div_pow2 by lia.
    change (2 ^ 12) with PAGE_SIZE. unfold PAGE_SIZE. divlia.
Qed.

Lemma from_address_eq addr : 0 ≤ addr < 2 ^ 64 → from_address addr = addr / PAGE_SIZE.
Proof. intros. unfold from_address. rewrite align_down_eq by done. unfold PAGE_SIZE. divlia. Qed.

(** ** Bits of the bitmap *)
Lemma bit_set_testbit byte i : 0 ≤ i → bit_set byte i = Z.testbit byte i.
Proof.
  intros Hi. unfold bit_set. rewrite Z.shiftl_1_l.
  destruct (Z.eqb_spec (Z.land byte (2 ^ i)) 0) as [H|H]; simpl.
  - apply (f_equal (λ z, Z.testbit z i)) in H.
    rewrite Z.land_spec, Z.pow2_bits_true, andb_true_r, Z.bits_0 in H by lia. done.
  - symmetry. apply not_false_is_true. intros Hb. apply H.
    apply Z.bits_inj'. intros n Hn.
    rewrite Z.land_spec, Z.pow2_bits_eqb, Z.bits_0 by lia.
    destruct (Z.eqb_spec i n) as [<-|]; [by rewrite Hb|by rewrite andb_false_r].
Qed.

Definition byte_ok (b : Z) : Prop := 0 ≤ b < 2 ^ 8.

Lemma byte_lor_ok b i : byte_ok b → 0 ≤ i < 8 → byte_ok (Z.lor b (Z.shiftl 1 i)).
Proof.
  intros [Hb1 Hb2] Hi. rewrite Z.shiftl_1_l.
  assert (0 ≤ Z.lor b (2 ^ i)) by (apply Z.lor_nonneg; lia).
  split; [done|]. apply Z.bounded_iff_bits_nonneg; [lia|done|]. intros l Hl.
  rewrite Z.lor_spec, Z.pow2_bits_false by lia.
  rewrite (proj1 (Z.bounded_iff_bits_nonneg 8 b ltac:(lia) ltac:(lia))) by lia. done.
Qed.

Lemma byte_land_ok b x : byte_ok b → byte_ok (Z.land b x).
Proof.
  intros [Hb1 Hb2]. assert (0 ≤ Z.land b x) by (apply Z.land_nonneg; lia).
  split; [done|]. apply Z.bounded_iff_bits_nonneg; [lia|done|]. intros l Hl.
  rewrite Z.land_spec.
  rewrite (proj1 (Z.bounded_iff_bits_nonneg 8 b ltac:(lia) ltac:(lia))) by lia. done.
Qed.

Lemma bit_set_lor b i j : 0 ≤ i < 8 → 0 ≤ j < 8 →
  bit_set (Z.lor b (Z.shiftl 1 i)) j = bool_decide (i = j) || bit_set b j.
Proof.
  intros. rewrite !bit_set_testbit by lia.
  rewrite Z.lor_spec, Z.shiftl_1_l, Z.pow2_bits_eqb by lia.
  rewrite orb_comm. f_equal. case_bool_decide; by zcase.
Qed.

Lemma bit_set_clear b i j : 0 ≤ i < 8 → 0 ≤ j < 8 →
  bit_set (Z.land b (unot 8 (Z.shiftl 1 i))) j = negb (bool_decide (i = j)) && bit_set b j.
Proof.
  intros. rewrite !bit_set_testbit by lia. unfold unot.
  rewrite Z.land_spec, Z.lxor_spec, Z.shiftl_1_l, Z.pow2_bits_eqb, Z.ones_spec_low by lia.
  rewrite andb_comm. f_equal. case_bool_decide; by zcase.
Qed.

(** A byte other than [0xFF] has a clear bit. *)
Lemma byte_all_set b : byte_ok b → (∀ i, 0 ≤ i < 8 → bit_set b i = true) → b = 255.
Proof.
  intros [Hb1 Hb2] H. apply Z.bits_inj'. intros n Hn. change 255 with (Z.ones 8).
  destruct (decide (n < 8)).
  - rewrite Z.ones_spec_low by lia. rewrite <-bit_set_testbit by lia. apply H; lia.
  - rewrite Z.ones_spec_high by lia.
    by apply (proj1 (Z.bounded_iff_bits_nonneg 8 b ltac:(lia) ltac:(lia))); lia.
Qed.

(** ** Invariant and abstraction *)
Lemma elem_of_free_set m f :
  f ∈ free_set m ↔ 0 ≤ f < total_frames m ∧ is_frame_free m f = true.
Proof.
  unfold free_set. rewrite elem_of_list_to_set, list_elem_of_In, filter_In,
    <-list_elem_of_In, elem_of_seqZ, Z.add_0_l. done.
Qed.

Section wf.
Context {P : Profile}.

Record wf (m : PhysicalMemoryManager) : Prop := {
  wf_total : 0 ≤ total_frames m < 2 ^ 52;
  wf_len : len (bitmap m) = (total_frames m + 7) / 8;
  wf_bytes : Forall byte_ok (bitmap m);
  wf_free : free_frames m = Z.of_nat (size (free_set m));
  wf_used : 0 ≤ used_frames m < 2 ^ 64;
  (* only the profile with overflow checks needs an exact count *)
  wf_used_exact : debug_assertions = true →
    used_frames m = total_frames m - free_frames m;
}.

Lemma wf_byte m f : wf m → 0 ≤ f < total_frames m →
  ∃ b, bitmap m !! Z.to_nat (f / 8) = Some b ∧ byte_ok b.
Proof.
  intros Hwf Hf. pose proof (wf_len _ Hwf) as Hlen. unfold len in Hlen.
  destruct (lookup_lt_is_Some_2 (bitmap m) (Z.to_nat (f / 8))) as [b Hb]; [divlia|].
  exists b. split; [done|]. by eapply (Forall_lookup_1 _ _ _ _ (wf_bytes _ Hwf)).
Qed.

Lemma free_set_size_le m : 0 ≤ total_frames m →
  Z.of_nat (size (free_set m)) ≤ total_frames m.
Proof.
  intros. assert (free_set m ⊆ list_to_set (seqZ 0 (total_frames m))) as Hsub.
  { intros f [Hf _]%elem_of_free_set. rewrite elem_of_list_to_set, elem_of_seqZ. lia. }
  apply subseteq_size in Hsub.
  rewrite size_list_to_set, length_seqZ in Hsub by apply NoDup_seqZ. lia.
Qed.

Lemma free_size_lt m f : 0 ≤ f < total_frames m → f ∉ free_set m →
  Z.of_nat (size (free_set m)) < total_frames m.
Proof.
  intros Hf Hn.
  assert ({[f]} ∪ free_set m ⊆ list_to_set (seqZ 0 (total_frames m))) as Hsub.
  { intros g. rewrite elem_of_union, elem_of_singleton, elem_of_list_to_set, elem_of_seqZ.
    intros [->|[Hg _]%elem_of_free_set]; lia. }
  apply subseteq_size in Hsub.
  rewrite size_list_to_set, length_seqZ, size_union, size_singleton in Hsub
    by (apply NoDup_seqZ || set_solver). lia.
Qed.

(** Changing one bit changes the status of one frame. *)
Lemma free_set_update m f b byte' free used :
  wf m → 0 ≤ f < total_frames m → bitmap m !! Z.to_nat (f / 8) = Some b →
  (∀ j, 0 ≤ j < 8 → f mod 8 ≠ j → bit_set byte' j = bit_set b j) →
  free_set (set_bitmap m (<[Z.to_nat (f / 8) := byte']> (bitmap m)) free used) =
    if bit_set byte' (f mod 8) then free_set m ∖ {[f]} else {[f]} ∪ free_set m.
Proof.
  intros Hwf Hf Hb Hother. apply set_eq. intros g.
  destruct (decide (g = f)) as [->|Hne].
  - assert (f ∈ free_set (set_bitmap m (<[Z.to_nat (f / 8):=byte']> (bitmap m)) free used)
      ↔ bit_set byte' (f mod 8) = false) as ->.
    { rewrite elem_of_free_set. unfold is_frame_free, set_bitmap; simpl.
      rewrite list_lookup_insert_eq by (by eapply lookup_lt_Some).
      zcase; [lia|]. rewrite negb_true_iff. naive_solver. }
    destruct (bit_set byte' (f mod 8)); set_solver.
  - assert (g ∈ free_set (set_bitmap m (<[Z.to_nat (f / 8):=byte']> (bitmap m)) free used)
      ↔ g ∈ free_set m) as ->.
    { rewrite !elem_of_free_set. unfold is_frame_free, set_bitmap; simpl.
      destruct (decide (0 ≤ g < total_frames m)); [|naive_solver].
      destruct (decide (g / 8 = f / 8)) as [Heq|Hneq].
      - rewrite Heq, list_lookup_insert_eq, Hb by (by eapply lookup_lt_Some).
        rewrite Hother; [done|divlia|]. intros E. apply Hne. divlia.
      - rewrite list_lookup_insert_ne; [done|]. divlia. }
    destruct (bit_set byte' (f mod 8)); set_solver.
Qed.
End wf.

(** ** The bit operations on the abstraction *)
Section operations.
Context {P : Profile}.
Implicit Types m : PhysicalMemoryManager.

(** [m'] differs from [m] in bitmap and counters only. *)
Definition same_layout m m' : Prop :=
  total_frames m' = total_frames m ∧ reserved_frames m' = reserved_frames m ∧
  bitmap_start m' = bitmap_start m ∧ length (bitmap m') = length (bitmap m).

Lemma mark_frame_used_noop m f :
  0 ≤ f → f ∉ free_set m → mark_frame_used m f = Val m.
Proof.
  intros Hf Hn. rewrite elem_of_free_set in Hn.
  unfold mark_frame_used, is_frame_free in *. zcase; [done|].
  destruct (bitmap m !! _); [|done]. destruct (bit_set _ _); [done|]. naive_solver lia.
Qed.

(** Both mark operations rebuild the manager with one byte and the two
    counters changed: the common part of their specifications. *)
Lemma update_wf m f b byte' free used :
  wf m → 0 ≤ f < total_frames m → bitmap m !! Z.to_nat (f / 8) = Some b →
  byte_ok byte' →
  (∀ j, 0 ≤ j < 8 → f mod 8 ≠ j → bit_set byte' j = bit_set b j) →
  (let fs := if bit_set byte' (f mod 8) then free_set m ∖ {[f]} else {[f]} ∪ free_set m in
   free = Z.of_nat (size fs)) →
  0 ≤ used < 2 ^ 64 →
  (debug_assertions = true → used = total_frames m - free) →
  wf (set_bitmap m (<[Z.to_nat (f / 8) := byte']> (bitmap m)) free used).
Proof.
  intros Hwf Hf Hb Hok Hother Hfree Hu Hex.
  pose proof (free_set_update m f b byte' free used Hwf Hf Hb Hother) as Hfs.
  destruct Hwf as [Ht Hl Hby _ _ _]. split; simpl; try done.
  - unfold len in *. by rewrite length_insert.
  - by apply Forall_insert.
  - by rewrite Hfs.
Qed.

Lemma mark_frame_used_spec m f : wf m → f ∈ free_set m →
  ∃ m', mark_frame_used m f = Val m' ∧ wf m' ∧ same_layout m m' ∧
        free_set m' = free_set m ∖ {[f]}.
Proof.
  intros Hwf Hin. pose proof Hin as [Hf Hfree]%elem_of_free_set.
  destruct (wf_byte m f Hwf Hf) as (b & Hb & Hok).
  unfold mark_frame_used, is_frame_free in *. rewrite Hb in *. zcase; try lia.
  apply negb_true_iff in Hfree. rewrite Hfree.
  pose proof (free_set_size_le m) as Hle.
  pose proof (wf_total m Hwf). pose proof (wf_free m Hwf).
  assert (size (free_set m ∖ {[f]}) = size (free_set m) - 1)%nat as Hsz
    by (rewrite size_difference, size_singleton by set_solver; done).
  assert (size (free_set m) ≠ 0)%nat by (intros E%size_empty_inv; set_solver).
  assert (0 ≤ f mod 8 < 8) by divlia.
  rewrite usub_val by lia. simpl. unfold uadd.
  destruct (arith_total 64 (used_frames m + 1)) as (used & -> & Hu & Hex).
  { lia. } { intros D. rewrite (wf_used_exact m Hwf D). lia. }
  set (byte' := Z.lor b (Z.shiftl 1 (f mod 8))).
  assert (bit_set byte' (f mod 8) = true) as Hset
    by (unfold byte'; rewrite bit_set_lor, bool_decide_true by done; done).
  assert (∀ j, 0 ≤ j < 8 → f mod 8 ≠ j → bit_set byte' j = bit_set b j) as Hother
    by (intros; unfold byte'; rewrite bit_set_lor, bool_decide_false by done; done).
  eexists. split; [done|]. split; [|split].
  - eapply update_wf; eauto; [by apply byte_lor_ok|rewrite Hset; simpl; lia|].
    intros D. rewrite Hex, (wf_used_exact m Hwf) by done. lia.
  - unfold same_layout; simpl. by rewrite length_insert.
  - erewrite free_set_update by eauto. by rewrite Hset.
Qed.

Lemma mark_frame_free_spec m f : wf m → 0 ≤ f < total_frames m → f ∉ free_set m →
  ∃ m', mark_frame_free m f = Val m' ∧ wf m' ∧ same_layout m m' ∧
        free_set m' = {[f]} ∪ free_set m.
Proof.
  intros Hwf Hf Hin. pose proof (free_size_lt m f Hf Hin) as Hlt.
  rewrite elem_of_free_set in Hin.
  destruct (wf_byte m f Hwf Hf) as (b & Hb & Hok).
  unfold mark_frame_free, is_frame_free in *. rewrite Hb in *. zcase; try lia.
  destruct (bit_set b (f mod 8)) eqn:Hfree; [|naive_solver].
  pose proof (wf_total m Hwf). pose proof (wf_free m Hwf).
  assert (size ({[f]} ∪ free_set m) = size (free_set m) + 1)%nat as Hsz.
  { rewrite size_union, size_singleton; [lia|]. intros g.
    rewrite elem_of_singleton, elem_of_free_set. intros -> [_ Hg].
    unfold is_frame_free in Hg. rewrite Hb, Hfree in Hg. by destruct (_ <=? _). }
  assert (0 ≤ f mod 8 < 8) by divlia. unfold usub.
  destruct (arith_total 64 (used_frames m - 1)) as (used & -> & Hu & Hex).
  { lia. } { intros D. rewrite (wf_used_exact m Hwf D). lia. }
  simpl. rewrite uadd_val by lia. simpl.
  set (byte' := Z.land b (unot 8 (Z.shiftl 1 (f mod 8)))).
  assert (bit_set byte' (f mod 8) = false) as Hset
    by (unfold byte'; rewrite bit_set_clear, bool_decide_true by done; done).
  assert (∀ j, 0 ≤ j < 8 → f mod 8 ≠ j → bit_set byte' j = bit_set b j) as Hother
    by (intros; unfold byte'; rewrite bit_set_clear, bool_decide_false by done; done).
  eexists. split; [done|]. split; [|split].
  - eapply update_wf; eauto; [by apply byte_land_ok|rewrite Hset; simpl; lia|].
    intros D. rewrite Hex, (wf_used_exact m Hwf) by done. lia.
  - unfold same_layout; simpl. by rewrite length_insert.
  - erewrite free_set_update by eauto. by rewrite Hset.
Qed.

Lemma mark_frame_free_noop m f : f ∈ free_set m → mark_frame_free m f = Val m.
Proof.
  intros [Hf Hfree]%elem_of_free_set.
  unfold mark_frame_free, is_frame_free in *. zcase; [done|].
  destruct (bitmap m !! _); [|done]. by destruct (bit_set _ _).
Qed.

(** ** The scan of [allocate_frame] *)
Lemma scan_byte_spec m byte_idx byte :
  wf m → 0 ≤ byte_idx → bitmap m !! Z.to_nat byte_idx = Some byte →
  match scan_byte m byte byte_idx with
  | Val (Next _) => ∀ g, g ∈ free_set m → g / 8 ≠ byte_idx
  | Val (Return f) =>
      f ∈ free_set m ∧ f / 8 = byte_idx ∧
      ∀ g, g ∈ free_set m → g / 8 = byte_idx → f ≤ g
  | _ => False
  end.
Proof.
  intros Hwf Hi Hb. unfold scan_byte.
  pose proof (wf_total m Hwf). pose proof (wf_len m Hwf) as Hlen.
  assert (byte_idx < len (bitmap m)) by (apply lookup_lt_Some in Hb; unfold len; lia).
  assert (∀ g, g ∈ free_set m → g / 8 = byte_idx → bit_set byte (g mod 8) = false) as Hbit.
  { intros g [Hg Hfree]%elem_of_free_set Hgi. unfold is_frame_free in Hfree.
    rewrite Hgi, Hb in Hfree. zcase; [lia|]. by apply negb_true_iff. }
  loop_inv (λ d (_ : unit), ∀ g, g ∈ free_set m → g / 8 = byte_idx → len d ≤ g mod 8)
    (λ f, f ∈ free_set m ∧ f / 8 = byte_idx ∧
          ∀ g, g ∈ free_set m → g / 8 = byte_idx → f ≤ g) as HI.
  - destruct (for_loop _ _ _) as [[[]|f]| |]; try done.
    intros g Hg Hgi. specialize (HI g Hg Hgi). rewrite len_seqZ in HI by lia. divlia.
  - intros g _ _. unfold len; simpl. divlia.
  - intros d i todo [] [-> Hd]%seqZ_split HI'. rewrite Z.add_0_l.
    pose proof (len_nonneg d).
    destruct (bit_set byte (len d)) eqn:Hbs.
    + intros g Hg Hgi. rewrite len_snoc. specialize (HI' g Hg Hgi).
      enough (g mod 8 ≠ len d) by lia. intros E. rewrite <-E, Hbit in Hbs; done.
    + rewrite umul_val by divlia. simpl. rewrite uadd_val by divlia. simpl.
      assert ((byte_idx * 8 + len d) / 8 = byte_idx) as Hdiv by divlia.
      assert ((byte_idx * 8 + len d) mod 8 = len d) as Hmod by divlia.
      zcase.
      * split_and!; [|done|intros g Hg Hgi; specialize (HI' g Hg Hgi); divlia].
        apply elem_of_free_set. split; [lia|]. unfold is_frame_free. zcase; [lia|].
        by rewrite Hdiv, Hmod, Hb, Hbs.
      * intros g Hg Hgi. rewrite len_snoc. specialize (HI' g Hg Hgi).
        apply elem_of_free_set in Hg as [Hg _]. divlia.
Qed.

Lemma scan_bitmap_spec m : wf m →
  match scan_bitmap m with
  | Val (Next _) => free_set m = ∅
  | Val (Return f) => f ∈ free_set m ∧ ∀ g, g ∈ free_set m → f ≤ g
  | _ => False
  end.
Proof.
  intros Hwf. unfold scan_bitmap.
  pose proof (wf_total m Hwf). pose proof (wf_len m Hwf) as Hlen.
  loop_inv (λ d (_ : unit), ∀ g, g ∈ free_set m → len d ≤ g / 8)
    (λ f, f ∈ free_set m ∧ ∀ g, g ∈ free_set m → f ≤ g) as HI.
  - destruct (for_loop _ _ _) as [[[]|f]| |]; try done.
    apply set_eq. intros g. split; [|set_solver]. intros Hg. specialize (HI g Hg).
    apply elem_of_free_set in Hg as [Hg _]. rewrite len_seqZ in HI by apply len_nonneg. divlia.
  - intros g [Hg _]%elem_of_free_set. unfold len; simpl. divlia.
  - intros d i todo [] [-> Hd]%seqZ_split HI'. rewrite Z.add_0_l.
    pose proof (len_nonneg d). rewrite len_snoc.
    destruct (lookup_lt_is_Some_2 (bitmap m) (Z.to_nat (len d))) as [b Hb];
      [unfold len in *; lia|].
    rewrite (index_val _ _ _ Hb). simpl.
    pose proof (scan_byte_spec m (len d) b Hwf ltac:(lia) Hb) as Hscan.
    destruct (Z.eqb_spec b 255) as [->|]; simpl.
    + intros g Hg. specialize (HI' g Hg). enough (g / 8 ≠ len d) by lia. intros E.
      apply elem_of_free_set in Hg as [Hg Hfree]. unfold is_frame_free in Hfree.
      rewrite E, Hb in Hfree. zcase; [lia|].
      assert (0 ≤ g mod 8 < 8) by divlia. change 255 with (Z.ones 8) in Hfree.
      rewrite bit_set_testbit, Z.ones_spec_low in Hfree by lia. done.
    + destruct (scan_byte m b (len d)) as [[[]|f]| |]; try done.
      * intros g Hg. specialize (HI' g Hg). specialize (Hscan g Hg). lia.
      * destruct Hscan as (Hf & Hfi & Hmin). split; [done|]. intros g Hg.
        specialize (HI' g Hg). destruct (decide (g / 8 = len d)); [auto|divlia].
Qed.

(** ** The scan of [allocate_frames] *)
Definition run m (s count : Z) : Prop := ∀ i, s ≤ i < s + count → i ∈ free_set m.

Lemma run_size m s count : 0 ≤ count → run m s count →
  count ≤ Z.of_nat (size (free_set m)).
Proof.
  intros Hc Hrun. assert (list_to_set (seqZ s count) ⊆ free_set m) as Hsub.
  { intros i. rewrite elem_of_list_to_set, elem_of_seqZ. auto. }
  apply subseteq_size in Hsub.
  rewrite size_list_to_set, length_seqZ in Hsub by apply NoDup_seqZ. lia.
Qed.

Lemma scan_run_spec m count : wf m → 1 < count →
  match scan_run m count with
  | Val (Next _) => ∀ s, 0 ≤ s → ¬ run m s count
  | Val (Return s) =>
      0 ≤ s ∧ run m s count ∧ ∀ s', 0 ≤ s' < s → ¬ run m s' count
  | _ => False
  end.
Proof.
  intros Hwf Hc. unfold scan_run. pose proof (wf_total m Hwf).
  loop_inv (λ d '(c, st),
      0 ≤ c < count ∧ c ≤ len d ∧ (c ≠ 0 → st = Some (len d - c)) ∧
      run m (len d - c) c ∧ (len d - c - 1 ∉ free_set m) ∧
      ∀ s, 0 ≤ s → s + count ≤ len d → ¬ run m s count)
    (λ s, 0 ≤ s ∧ run m s count ∧ ∀ s', 0 ≤ s' < s → ¬ run m s' count) as HI.
  - destruct (for_loop _ _ _) as [[[c st]|s]| |]; try done.
    destruct HI as (_ & _ & _ & _ & _ & Hno). intros s Hs Hrun.
    rewrite len_seqZ in Hno by lia. apply (Hno s Hs); [|done].
    specialize (Hrun (s + count - 1) ltac:(lia)).
    apply elem_of_free_set in Hrun. lia.
  - unfold len; simpl.
    split_and!; try lia; [intros i; lia|rewrite elem_of_free_set; lia].
  - intros d i todo [c st] [-> Hd]%seqZ_split (Hcr & Hcd & Hst & Hrun & Hpre & Hno).
    rewrite Z.add_0_l. pose proof (len_nonneg d). rewrite len_snoc.
    destruct (is_frame_free m (len d)) eqn:Hfree.
    + assert (len d ∈ free_set m) as Hin by (apply elem_of_free_set; auto with lia).
      assert (run m (len d - c) (c + 1)) as Hrun'.
      { intros i Hi. destruct (decide (i = len d)) as [->|]; [done|]. apply Hrun. lia. }
      rewrite uadd_val by lia. simpl.
      assert ((if c =? 0 then Some (len d) else st) = Some (len d - c)) as ->
        by (zcase; [f_equal; lia|by apply Hst]).
      destruct (Z.eqb_spec (c + 1) count) as [<-|].
      * split_and!; [lia|done|]. intros s' Hs'. apply Hno; lia.
      * split_and!; try lia; [intros; f_equal; lia| | |].
        -- by replace (len d + 1 - (c + 1)) with (len d - c) by lia.
        -- by replace (len d + 1 - (c + 1) - 1) with (len d - c - 1) by lia.
        -- intros s Hs Hsc Hr. destruct (decide (s + count ≤ len d)) as [|]; [by eapply Hno|].
           apply Hpre, Hr. lia.
    + split_and!; try lia; [intros i; lia| |].
      * replace (len d + 1 - 0 - 1) with (len d) by lia.
        rewrite elem_of_free_set, Hfree. naive_solver.
      * intros s Hs Hsc Hr. destruct (decide (s + count ≤ len d)) as [|]; [by eapply Hno|].
        specialize (Hr (len d) ltac:(lia)). apply elem_of_free_set in Hr as []. congruence.
Qed.

(** Marking a run of frames used. *)
Lemma mark_run_used m s count : wf m → 0 ≤ s → 0 ≤ count → run m s count →
  ∃ m', for_each (λ i m, f ← uadd 64 s i; mark_frame_used m f) (seqZ 0 count) m = Val m' ∧
        wf m' ∧ same_layout m m' ∧ free_set m' = free_set m ∖ list_to_set (seqZ s count).
Proof.
  intros Hwf Hs Hc Hrun.
  destruct (for_each_inv (λ d m', wf m' ∧ same_layout m m' ∧
      free_set m' = free_set m ∖ list_to_set (seqZ s (len d)))
    (λ i m, f ← uadd 64 s i; mark_frame_used m f) (seqZ 0 count) m)
    as (m' & Hm' & Hwf' & Hlay & Hfs).
  - intros d i todo m1 [-> Hd]%seqZ_split (Hwf1 & Hlay1 & Hfs1).
    rewrite Z.add_0_l. pose proof (len_nonneg d).
    assert (s + len d ∈ free_set m) as Hin by (apply Hrun; lia).
    pose proof Hin as [? _]%elem_of_free_set. pose proof (wf_total m Hwf).
    rewrite uadd_val by lia. simpl.
    destruct (mark_frame_used_spec m1 (s + len d)) as (m2 & -> & Hwf2 & Hlay2 & Hfs2).
    { done. } { rewrite Hfs1, elem_of_difference, elem_of_list_to_set, elem_of_seqZ. split; [done|lia]. }
    exists m2. split; [done|]. split_and!; [done| |].
    + unfold same_layout in *. intuition congruence.
    + rewrite Hfs2, Hfs1, len_snoc, seqZ_app, list_to_set_app_L by lia. simpl. set_solver.
  - split_and!; [done|done|]. simpl. set_solver.
  - exists m'. rewrite len_seqZ in Hfs by lia. done.
Qed.
End operations.

(** ** What the rest of the kernel relies on *)

(** A frame allocator: an invariant, the set of free frames, and contiguous
    allocation and release.  Clients ([Heap]) are verified against this. *)
Class FrameAllocator (S : Type) := {
  fa_inv : S → Prop;
  fa_free : S → gset Z;
  fa_allocate : S → Z → outcome (option Z * S);
  fa_allocate_spec s count : fa_inv s → 0 ≤ count < 2 ^ 64 →
    match fa_allocate s count with
    | Val (Some start, s') =>
        0 ≤ start ∧ fa_inv s' ∧
        list_to_set (seqZ start count) ⊆ fa_free s ∧
        fa_free s' = fa_free s ∖ list_to_set (seqZ start count)
    | Val (None, s') => s' = s
    | _ => False
    end;
  fa_range s f : fa_inv s → f ∈ fa_free s → 0 ≤ f < 2 ^ 52;
}.

Section theorems.
Context {P : Profile}.
Implicit Types m : PhysicalMemoryManager.

Lemma allocate_frame_spec m : wf m →
  match allocate_frame m with
  | Val (Some f, m') =>
      f ∈ free_set m ∧ (∀ g, g ∈ free_set m → f ≤ g) ∧
      wf m' ∧ same_layout m m' ∧ free_set m' = free_set m ∖ {[f]}
  | Val (None, m') => m' = m ∧ free_set m = ∅
  | _ => False
  end.
Proof.
  intros Hwf. unfold allocate_frame. pose proof (wf_free m Hwf) as Hf.
  destruct (Z.eqb_spec (free_frames m) 0) as [H0|].
  { split; [done|]. apply leibniz_equiv, size_empty_inv. lia. }
  pose proof (scan_bitmap_spec m Hwf) as Hscan.
  destruct (scan_bitmap m) as [[[]|f]| |]; try done; simpl.
  destruct Hscan as [Hin Hmin].
  destruct (mark_frame_used_spec m f Hwf Hin) as (m' & -> & Hrest). simpl.
  naive_solver.
Qed.

Lemma allocate_frames_spec m count : wf m → 0 ≤ count < 2 ^ 64 →
  match allocate_frames m count with
  | Val (Some s, m') =>
      0 < count ∧ 0 ≤ s ∧ run m s count ∧ (∀ s', 0 ≤ s' < s → ¬ run m s' count) ∧
      wf m' ∧ same_layout m m' ∧
      free_set m' = free_set m ∖ list_to_set (seqZ s count)
  | Val (None, m') =>
      m' = m ∧ (count = 0 ∨ ∀ s, 0 ≤ s → ¬ run m s count)
  | _ => False
  end.
Proof.
  intros Hwf Hc. unfold allocate_frames. pose proof (wf_free m Hwf) as Hf.
  destruct (Z.eqb_spec count 0) as [->|]; simpl; [naive_solver|].
  destruct (Z.ltb_spec (free_frames m) count) as [Hlt|].
  { split; [done|]. right. intros s Hs Hrun%run_size; lia. }
  destruct (Z.eqb_spec count 1) as [->|].
  - pose proof (allocate_frame_spec m Hwf) as Hspec.
    destruct (allocate_frame m) as [[[f|] m']| |]; try done.
    + destruct Hspec as (Hin & Hmin & Hwf' & Hlay & Hfs).
      pose proof Hin as [? _]%elem_of_free_set. split_and!; try done; try lia.
      * intros i Hi. by replace i with f by lia.
      * intros s' Hs' Hrun. specialize (Hmin s' (Hrun s' ltac:(lia))). lia.
      * rewrite Hfs. f_equal. rewrite seqZ_cons by lia. simpl. set_solver.
    + destruct Hspec as [-> Hemp]. split; [done|]. right. intros s Hs Hrun.
      specialize (Hrun s ltac:(lia)). set_solver.
  - pose proof (scan_run_spec m count Hwf ltac:(lia)) as Hscan.
    destruct (scan_run m count) as [[[c st]|s]| |]; try done; simpl; [naive_solver|].
    destruct Hscan as (Hs & Hrun & Hmin).
    destruct (mark_run_used m s count Hwf Hs ltac:(lia) Hrun) as (m' & -> & ? & ? & ?).
    simpl. split_and!; auto with lia.
Qed.

#[export] Program Instance physical_frame_allocator :
    FrameAllocator PhysicalMemoryManager :=
  {| fa_inv := wf; fa_free := free_set; fa_allocate := allocate_frames |}.
Next Obligation.
  intros m count Hwf Hc. pose proof (allocate_frames_spec m count Hwf Hc) as Hspec.
  destruct (allocate_frames m count) as [[[s|] m']| |]; try done; [|naive_solver].
  destruct Hspec as (? & ? & Hrun & _ & ? & _ & ?). split_and!; try done.
  intros i. rewrite elem_of_list_to_set, elem_of_seqZ. apply Hrun.
Qed.
Next Obligation.
  intros m f Hwf [Hf _]%elem_of_free_set. pose proof (wf_total m Hwf). lia.
Qed.

Lemma deallocate_frame_spec m f : wf m → 0 ≤ f →
  ∃ m', deallocate_frame m f = Val m' ∧ wf m' ∧ same_layout m m' ∧
        free_set m' = if f <? total_frames m then {[f]} ∪ free_set m else free_set m.
Proof.
  intros Hwf Hf. unfold deallocate_frame.
  destruct (Z.leb_spec (total_frames m) f), (Z.ltb_spec f (total_frames m)); try lia.
  { exists m. split_and!; try done. }
  destruct (is_frame_free m f) eqn:Hfree.
  - assert (f ∈ free_set m) by (apply elem_of_free_set; auto with lia).
    exists m. split_and!; try done. set_solver.
  - assert (f ∉ free_set m) by (rewrite elem_of_free_set, Hfree; by intros []).
    destruct (mark_frame_free_spec m f) as (m' & ? & ?); [done|lia|done|]. eauto.
Qed.

Lemma deallocate_frames_spec m s count : wf m → 0 ≤ s → 0 ≤ count → s + count < 2 ^ 64 →
  ∃ m', deallocate_frames m s count = Val m' ∧ wf m' ∧ same_layout m m' ∧
        ∀ f, f ∈ free_set m' ↔
             f ∈ free_set m ∨ (s ≤ f < s + count ∧ f < total_frames m).
Proof.
  intros Hwf Hs Hc Hb. unfold deallocate_frames.
  destruct (for_each_inv (λ d m', wf m' ∧ same_layout m m' ∧
      ∀ f, f ∈ free_set m' ↔ f ∈ free_set m ∨ (s ≤ f < s + len d ∧ f < total_frames m))
    (λ i m, f ← uadd 64 s i; deallocate_frame m f) (seqZ 0 count) m)
    as (m' & Hm' & Hwf' & Hlay & Hfs).
  - intros d i todo m1 [-> Hd]%seqZ_split (Hwf1 & Hlay1 & Hfs1).
    rewrite Z.add_0_l. pose proof (len_nonneg d). rewrite uadd_val by lia. simpl.
    destruct (deallocate_frame_spec m1 (s + len d)) as (m2 & -> & Hwf2 & Hlay2 & Hfs2);
      [done|lia|].
    exists m2. split; [done|]. split_and!; [done|unfold same_layout in *; intuition congruence|].
    intros f. rewrite Hfs2, len_snoc. clear Hfs2. destruct Hlay1 as [-> _].
    zcase; rewrite ?elem_of_union, ?elem_of_singleton, Hfs1; [|intuition lia].
    destruct (decide (f = s + len d)); intuition lia.
  - split_and!; [done|done|]. intros f. unfold len; simpl. intuition lia.
  - exists m'. split_and!; try done. by rewrite len_seqZ in Hfs by lia.
Qed.
End theorems.

(** ** Boot *)
Definition area_ok (a : MemoryArea) : Prop := 0 ≤ area_start a < area_end a ∧ area_end a < 2 ^ 64.

(** [skip_frame] without the arithmetic checks. *)
Definition skipped (start blen addr : Z) : bool :=
  (addr <? 0x100000) || ((start <=? addr) && (addr <? start + blen)).

(** The frames [areas] make available to the manager. *)
Definition boot_free (total start blen : Z) (areas : list MemoryArea) (f : Z) : Prop :=
  ∃ a, a ∈ areas ∧ area_typ a = Available ∧
       area_start a / PAGE_SIZE ≤ f ≤ (area_end a - 1) / PAGE_SIZE ∧
       f < total ∧ skipped start blen (f * PAGE_SIZE) = false.

Lemma boot_free_app total start blen l1 l2 g :
  boot_free total start blen (l1 ++ l2) g ↔
    boot_free total start blen l1 g ∨ boot_free total start blen l2 g.
Proof.
  unfold boot_free. split.
  - intros (a & [?|?]%elem_of_app & ?); eauto.
  - intros [(a & ? & ?)|(a & ? & ?)]; exists a; rewrite elem_of_app; tauto.
Qed.
Lemma boot_free_nil total start blen g : ¬ boot_free total start blen [] g.
Proof. intros (a & Ha & _). by apply not_elem_of_nil in Ha. Qed.

Lemma skip_frame_eq `{Profile} start blen addr : 0 ≤ start → 0 ≤ blen → start + blen < 2 ^ 64 →
  skip_frame start blen addr = Val (skipped start blen addr).
Proof.
  intros. unfold skip_frame, skipped.
  destruct (addr <? 0x100000); simpl; [done|].
  destruct (start <=? addr); simpl; [|done]. by rewrite uadd_val by lia.
Qed.

Lemma area_frames_eq `{Profile} a : area_ok a →
  area_frames a = Val (seqZ (area_start a / PAGE_SIZE)
    ((area_end a - 1) / PAGE_SIZE - area_start a / PAGE_SIZE + 1)).
Proof.
  intros [Ha He]. unfold area_frames. rewrite usub_val by lia. simpl.
  by rewrite !from_address_eq by lia.
Qed.

Section boot.
#[local] Existing Instance release.
Implicit Types m : PhysicalMemoryManager.

Lemma release_arith w z : 0 ≤ w → ∃ z', arith w z = Val z' ∧ 0 ≤ z' < 2 ^ w.
Proof.
  intros Hw. destruct (arith_total w z Hw) as (z' & ? & ? & _); [done|eauto].
Qed.

(** Fields construction keeps: all but bitmap contents and counters. *)
Definition boot_layout m m' : Prop :=
  total_frames m' = total_frames m ∧ bitmap_start m' = bitmap_start m ∧
  length (bitmap m') = length (bitmap m).

Lemma set_reserved_wf m r : wf m → wf (set_reserved m r).
Proof. intros []. by split. Qed.
Lemma set_reserved_free m r : free_set (set_reserved m r) = free_set m.
Proof. done. Qed.

Definition map_room m : Prop :=
  0 ≤ bitmap_start m ∧ bitmap_start m + len (bitmap m) < 2 ^ 64.

Lemma available_frame_spec m f : wf m → map_room m → 0 ≤ f < 2 ^ 52 →
  ∃ m', available_frame f m = Val m' ∧ wf m' ∧ boot_layout m m' ∧
        ∀ g, g ∈ free_set m' ↔ g ∈ free_set m ∨
          (g = f ∧ f < total_frames m ∧
           skipped (bitmap_start m) (len (bitmap m)) (f * PAGE_SIZE) = false).
Proof.
  intros Hwf [Hs Hroom] Hf. unfold available_frame, PAGE_SIZE.
  rewrite umul_val by lia. simpl. rewrite skip_frame_eq by auto with kosh. simpl.
  destruct (skipped _ _ _).
  - unfold uadd. destruct (release_arith 64 (reserved_frames m + 1)) as (r & -> & _); [done|].
    simpl. exists (set_reserved m r). rewrite set_reserved_free.
    split_and!; [done|by apply set_reserved_wf|done|naive_solver].
  - zcase; [|exists m; split_and!; try done; intuition lia].
    destruct (decide (f ∈ free_set m)) as [Hin|Hin].
    + rewrite mark_frame_free_noop by done. exists m. split_and!; try done.
      intros g. naive_solver.
    + destruct (mark_frame_free_spec m f) as (m' & -> & Hwf' & Hlay & Hfs); [done|lia|done|].
      exists m'. split_and!; try done; [by destruct Hlay as (?&?&?&?)|].
      intros g. rewrite Hfs. set_solver.
Qed.

Lemma reserved_frame_spec m f : wf m →
  ∃ m', reserved_frame f m = Val m' ∧ wf m' ∧ boot_layout m m' ∧ free_set m' = free_set m.
Proof.
  intros Hwf. unfold reserved_frame. zcase; [|by exists m].
  unfold uadd. destruct (release_arith 64 (reserved_frames m + 1)) as (r & -> & _); [done|].
  simpl. exists (set_reserved m r). by split_and!; [|apply set_reserved_wf| |].
Qed.

Lemma parse_area_spec m a : wf m → map_room m → area_ok a →
  ∃ m', (frames ← area_frames a;
         if decide (area_typ a = Available) then for_each available_frame frames m
         else for_each reserved_frame frames m) = Val m' ∧ wf m' ∧ boot_layout m m' ∧
    ∀ g, g ∈ free_set m' ↔ g ∈ free_set m ∨
      boot_free (total_frames m) (bitmap_start m) (len (bitmap m)) [a] g.
Proof.
  intros Hwf Hroom Ha. rewrite area_frames_eq by done. simpl.
  assert (area_start a / PAGE_SIZE ≤ (area_end a - 1) / PAGE_SIZE)
    by (apply Z.div_le_mono; unfold area_ok, PAGE_SIZE in *; lia).
  assert (0 ≤ area_start a / PAGE_SIZE ∧ (area_end a - 1) / PAGE_SIZE < 2 ^ 52)
    by (unfold area_ok, PAGE_SIZE in *; divlia).
  unfold boot_free. setoid_rewrite list_elem_of_singleton.
  destruct (decide _) as [Ht|Ht].
  - destruct (for_each_inv (λ d m', wf m' ∧ boot_layout m m' ∧
      ∀ g, g ∈ free_set m' ↔ g ∈ free_set m ∨
        (g ∈ d ∧ g < total_frames m ∧
         skipped (bitmap_start m) (len (bitmap m)) (g * PAGE_SIZE) = false))
      available_frame (seqZ (area_start a / PAGE_SIZE)
        ((area_end a - 1) / PAGE_SIZE - area_start a / PAGE_SIZE + 1)) m)
      as (m' & Hm' & Hwf' & Hlay & Hfs).
    + intros d f todo m1 Hd (Hwf1 & (Ht1 & Hb1 & Hl1) & Hfs1).
      apply seqZ_split in Hd as Hf. pose proof (len_nonneg d).
      assert (len (bitmap m1) = len (bitmap m)) as Hlen by (unfold len; lia).
      destruct (available_frame_spec m1 f) as (m2 & -> & Hwf2 & (Ht2 & Hb2 & Hl2) & Hfs2).
      { done. } { unfold map_room in *. rewrite Hlen. lia. } { lia. }
      exists m2. split; [done|]. split_and!; [done|unfold boot_layout; split_and!; congruence|].
      intros g. rewrite Hfs2, Hfs1, Ht1, Hb1, Hlen. set_solver.
    + split_and!; [done|done|]. set_solver.
    + exists m'. split_and!; try done. intros g. rewrite Hfs, elem_of_seqZ.
      split; [|naive_solver lia]. intros [|[? ?]]; [by left|right].
      exists a. split_and!; try done; try lia; naive_solver.
  - destruct (for_each_inv (λ _ m', wf m' ∧ boot_layout m m' ∧ free_set m' = free_set m)
      reserved_frame (seqZ (area_start a / PAGE_SIZE)
        ((area_end a - 1) / PAGE_SIZE - area_start a / PAGE_SIZE + 1)) m)
      as (m' & Hm' & Hwf' & Hlay & Hfs).
    + intros d f todo m1 _ (Hwf1 & (Ht1 & Hb1 & Hl1) & Hfs1).
      destruct (reserved_frame_spec m1 f Hwf1) as (m2 & -> & ? & (? & ? & ?) & ?).
      exists m2. unfold boot_layout. split_and!; congruence.
    + done.
    + exists m'. split_and!; try done. intros g. rewrite Hfs. naive_solver.
Qed.

Lemma parse_memory_map_spec m areas : wf m → map_room m → Forall area_ok areas →
  ∃ m', parse_memory_map m areas = Val m' ∧ wf m' ∧ boot_layout m m' ∧
    ∀ g, g ∈ free_set m' ↔ g ∈ free_set m ∨
      boot_free (total_frames m) (bitmap_start m) (len (bitmap m)) areas g.
Proof.
  intros Hwf Hroom Hok. unfold parse_memory_map.
  destruct (for_each_inv (λ d m', wf m' ∧ boot_layout m m' ∧
      ∀ g, g ∈ free_set m' ↔ g ∈ free_set m ∨
        boot_free (total_frames m) (bitmap_start m) (len (bitmap m)) d g)
    (λ a m, frames ← area_frames a;
      if decide (area_typ a = Available) then for_each available_frame frames m
      else for_each reserved_frame frames m) areas m) as (m' & Hm' & Hrest).
  - intros d a todo m1 -> (Hwf1 & (Ht1 & Hb1 & Hl1) & Hfs1).
    assert (len (bitmap m1) = len (bitmap m)) as Hlen by (unfold len; lia).
    destruct (parse_area_spec m1 a) as (m2 & Hm2 & Hwf2 & (Ht2 & Hb2 & Hl2) & Hfs2).
    { done. } { unfold map_room in *. rewrite Hlen. lia. }
    { rewrite Forall_app, Forall_cons in Hok. tauto. }
    exists m2. split; [done|]. split_and!; [done|unfold boot_layout; split_and!; congruence|].
    intros g. rewrite Hfs2, Hfs1, Ht1, Hb1, Hlen, boot_free_app. tauto.
  - split_and!; try done. intros g. pose proof (boot_free_nil (total_frames m)
      (bitmap_start m) (len (bitmap m)) g). tauto.
  - eauto.
Qed.
End boot.

(** ** Allocation histories *)
Section history.
Context {P : Profile}.

(** A manager together with the frames its clients currently hold. *)
Inductive client_step :
    PhysicalMemoryManager * gset Z → PhysicalMemoryManager * gset Z → Prop :=
  | client_allocate m live count s m' :
      0 ≤ count < 2 ^ 64 → allocate_frames m count = Val (Some s, m') →
      client_step (m, live) (m', live ∪ list_to_set (seqZ s count))
  | client_allocate_fails m live count m' :
      0 ≤ count < 2 ^ 64 → allocate_frames m count = Val (None, m') →
      client_step (m, live) (m', live)
  | client_free m live f m' :
      f ∈ live → deallocate_frame m f = Val m' →
      client_step (m, live) (m', live ∖ {[f]}).

(** Held and free frames are disjoint, and no frame is lost. *)
Definition history_inv (all : gset Z) (s : PhysicalMemoryManager * gset Z) : Prop :=
  wf s.1 ∧ s.2 ## free_set s.1 ∧ s.2 ∪ free_set s.1 = all ∧
  ∀ f, f ∈ all → 0 ≤ f < total_frames s.1.

Lemma client_step_inv all s s' :
  client_step s s' → history_inv all s → history_inv all s'.
Proof.
  unfold history_inv. intros Hstep (Hwf & Hdisj & Hall & Hrange).
  destruct Hstep as [m live count st m' Hc Hm'|m live count m' Hc Hm'|m live f m' Hf Hm'];
    simpl in *.
  - pose proof (allocate_frames_spec m count Hwf Hc) as Hspec. rewrite Hm' in Hspec.
    destruct Hspec as (_ & _ & Hrun & _ & Hwf' & [Ht _] & Hfs).
    assert (list_to_set (seqZ st count) ⊆ free_set m).
    { intros i. rewrite elem_of_list_to_set, elem_of_seqZ. apply Hrun. }
    rewrite Hfs, Ht. split_and!; [done|set_solver| |done].
    by rewrite <-Hall, <-(assoc_L (∪)), <-union_difference_L.
  - pose proof (allocate_frames_spec m count Hwf Hc) as Hspec. rewrite Hm' in Hspec.
    destruct Hspec as [-> _]. done.
  - assert (0 ≤ f < total_frames m) as Hr by (apply Hrange; set_solver).
    destruct (deallocate_frame_spec m f Hwf ltac:(lia)) as (m2 & Hm2 & Hwf2 & [Ht _] & Hfs).
    rewrite Hm' in Hm2. injection Hm2 as <-. rewrite Hfs, Ht. zcase; [|lia].
    split_and!; [done|set_solver| |done]. rewrite <-Hall.
    apply set_eq. intros g. destruct (decide (g = f)); set_solver.
Qed.

Lemma history_inv_init m : wf m → history_inv (free_set m) (m, ∅).
Proof.
  intros Hwf. split_and!; simpl; [done|set_solver|set_solver|].
  by intros f [? _]%elem_of_free_set.
Qed.

Lemma client_steps_inv all s s' :
  rtc client_step s s' → history_inv all s → history_inv all s'.
Proof. induction 1; eauto using client_step_inv. Qed.
End history.

(** ** Undoing an allocation *)
Lemma byte_set_clear b i : byte_ok b → 0 ≤ i < 8 → bit_set b i = false →
  Z.land (Z.lor b (Z.shiftl 1 i)) (unot 8 (Z.shiftl 1 i)) = b.
Proof.
  intros [Hb1 Hb2] Hi Hbit. apply Z.bits_inj'. intros n Hn.
  destruct (decide (n < 8)).
  - rewrite <-!bit_set_testbit by lia. rewrite bit_set_clear, bit_set_lor by lia.
    case_bool_decide; simpl; by subst.
  - rewrite Z.land_spec, Z.lor_spec, Z.shiftl_1_l, Z.pow2_bits_false by lia.
    by rewrite (proj1 (Z.bounded_iff_bits_nonneg 8 b ltac:(lia) ltac:(lia))) by lia.
Qed.

Lemma mark_used_free `{Profile} m f m' :
  wf m → f ∈ free_set m → mark_frame_used m f = Val m' → deallocate_frame m' f = Val m.
Proof.
  intros Hwf Hin Hm. pose proof Hin as [Hf Hfree]%elem_of_free_set.
  destruct (wf_byte m f Hwf Hf) as (b & Hb & Hok).
  assert (0 ≤ f mod 8 < 8) by divlia.
  unfold mark_frame_used, is_frame_free in *. rewrite Hb in *.
  destruct (Z.leb_spec (total_frames m) f); [lia|].
  apply negb_true_iff in Hfree. rewrite Hfree in Hm. inv_val.
  assert (bit_set (Z.lor b (Z.shiftl 1 (f mod 8))) (f mod 8) = true) as Hset
    by (rewrite bit_set_lor, bool_decide_true by done; done).
  unfold deallocate_frame, mark_frame_free, is_frame_free, set_bitmap; simpl.
  destruct (Z.leb_spec (total_frames m) f); [lia|].
  rewrite list_lookup_insert_eq by (by eapply lookup_lt_Some). rewrite Hset. simpl.
  rewrite list_insert_insert_eq, byte_set_clear, list_insert_id by done.
  pose proof (arith_incr_decr 64 _ _ (wf_used m Hwf) Hb1) as Hu.
  unfold usub at 1. rewrite Hu. simpl.
  pose proof (wf_total m Hwf). pose proof (wf_free m Hwf).
  pose proof (free_set_size_le m ltac:(lia)).
  assert (size (free_set m) ≠ 0)%nat by (intros E%size_empty_inv; set_solver).
  rewrite usub_val in Hb0 by lia. injection Hb0 as <-. rewrite uadd_val by lia. simpl.
  f_equal. destruct m; unfold set_bitmap; simpl. f_equal. lia.
Qed.

(** The end of the highest available area. *)
Definition highest_end (areas : list MemoryArea) : Z :=
  foldr (λ a z, if decide (area_typ a = Available) then Z.max (area_end a) z else z) 0 areas.

Lemma max_end_addr_from `{Profile} areas z t me tm :
  for_each (λ a '(max_end, total_memory),
    if decide (area_typ a = Available) then
      t ← uadd 64 total_memory (area_size a); Val (Z.max max_end (area_end a), t)
    else Val (max_end, total_memory)) areas (z, t) = Val (me, tm) →
  0 ≤ z → me = Z.max z (highest_end areas).
Proof.
  revert z t. induction areas as [|a areas IH]; intros z t Hl Hz; simpl in *.
  - injection Hl as <- <-. lia.
  - destruct (decide _); simpl in Hl.
    + destruct (uadd 64 t (area_size a)) as [t'| |]; simpl in Hl; try done.
      apply IH in Hl; lia.
    + apply IH in Hl; lia.
Qed.

Lemma highest_end_range areas : Forall area_ok areas → 0 ≤ highest_end areas < 2 ^ 64.
Proof.
  induction 1 as [|a areas [Ha1 Ha2] _ IH]; simpl; [lia|]. destruct (decide _); lia.
Qed.

Lemma max_end_addr_release areas :
  ∃ tm, max_end_addr (P := release) areas = Val (highest_end areas, tm).
Proof.
  enough (∃ p, max_end_addr (P := release) areas = Val p) as [[me tm] Hp].
  { exists tm. rewrite Hp. apply max_end_addr_from in Hp; [|lia]. rewrite Hp.
    assert (0 ≤ highest_end areas) by (clear; induction areas; simpl; [|destruct (decide _)]; lia).
    do 2 f_equal. lia. }
  unfold max_end_addr. generalize (0, 0) as s. induction areas as [|a areas IH]; intros [z t].
  - by eexists.
  - simpl. destruct (decide _); simpl; [|apply IH]. unfold uadd.
    destruct (release_arith 64 (t + area_size a)) as (t' & -> & _); [done|]. apply IH.
Qed.

(** The manager [new] hands to [parse_memory_map]. *)
Definition boot_start (total : Z) : PhysicalMemoryManager :=
  {| bitmap := replicate (Z.to_nat ((total + 7) / 8)) 0xFF;
     total_frames := total; free_frames := 0; used_frames := 0;
     reserved_frames := 0; bitmap_start := BITMAP_START |}.

Lemma boot_start_free total : 0 ≤ total → free_set (boot_start total) = ∅.
Proof.
  intros Ht. apply set_eq. intros f. split; [|set_solver].
  intros [Hf Hfree]%elem_of_free_set. unfold is_frame_free in Hfree; simpl in *.
  destruct (Z.leb_spec total f); [lia|].
  rewrite lookup_replicate_2 in Hfree by divlia.
  assert (0 ≤ f mod 8 < 8) by divlia. change 255 with (Z.ones 8) in Hfree.
  by rewrite bit_set_testbit, Z.ones_spec_low in Hfree by lia.
Qed.

Lemma boot_start_wf total : 0 ≤ total < 2 ^ 52 → wf (P := release) (boot_start total).
Proof.
  intros Ht. split; simpl; try done; try lia.
  - unfold len. rewrite length_replicate. divlia.
  - apply Forall_replicate. by unfold byte_ok.
  - rewrite boot_start_free by lia. done.
Qed.

Lemma new_boot_start `{Profile} areas tm :
  max_end_addr areas = Val (highest_end areas, tm) → Forall area_ok areas →
  highest_end areas ≠ 0 →
  let total := highest_end areas / PAGE_SIZE in
  bitmap_overlaps BITMAP_START (BITMAP_START + (total + 7) / 8) areas = false →
  new (Some areas) = (m ← parse_memory_map (boot_start total) areas; Val (Ok m)).
Proof.
  intros Hme Hok Hne total Hov. subst total. pose proof (highest_end_range areas Hok).
  unfold new. rewrite Hme. simpl. destruct (Z.eqb_spec (highest_end areas) 0); [done|].
  unfold BITMAP_START, PAGE_SIZE in *. rewrite uadd_val by divlia. simpl.
  rewrite uadd_val by divlia. simpl. by rewrite Hov.
Qed.

(** ** Booting with overflow checks *)
Section boot_dev.
#[local] Existing Instance dev.

Definition boot_pristine total m : Prop :=
  ∃ r, m = set_reserved (boot_start total) r.

Lemma reserve_pristine total m :
  boot_pristine total m →
  (r ← uadd 64 (reserved_frames m) 1; Val (set_reserved m r)) = Panic ∨
  ∃ m', (r ← uadd 64 (reserved_frames m) 1; Val (set_reserved m r)) = Val m' ∧
        boot_pristine total m'.
Proof.
  intros [r ->]. unfold uadd, arith. destruct (in_width _ _); simpl; [|by left].
  right. eexists. split; [done|]. by eexists.
Qed.

Lemma mark_free_pristine total m f :
  boot_pristine total m → 0 ≤ f < total → mark_frame_free m f = Panic.
Proof.
  intros [r ->] Hf. unfold mark_frame_free; simpl. destruct (Z.leb_spec total f); [lia|].
  rewrite lookup_replicate_2 by divlia. change 255 with (Z.ones 8).
  assert (0 ≤ f mod 8 < 8) by divlia. by rewrite bit_set_testbit, Z.ones_spec_low by lia.
Qed.

Lemma available_frame_pristine total m f :
  0 ≤ total < 2 ^ 52 → boot_pristine total m → 0 ≤ f < 2 ^ 52 →
  available_frame f m = Panic ∨ ∃ m', available_frame f m = Val m' ∧ boot_pristine total m'.
Proof.
  intros Ht Hp Hf. unfold available_frame, PAGE_SIZE. rewrite umul_val by lia. simpl.
  assert (bitmap_start m = BITMAP_START ∧ len (bitmap m) = (total + 7) / 8 ∧ total_frames m = total)
    as (-> & -> & ->).
  { destruct Hp as [r ->]. unfold len; simpl. rewrite length_replicate. split_and!; divlia. }
  unfold BITMAP_START. rewrite skip_frame_eq by divlia. simpl.
  destruct (skipped _ _ _); [by apply reserve_pristine|]. zcase; [|by eauto].
  left. eapply mark_free_pristine; [done|lia].
Qed.

Lemma available_frame_boot_free total m areas f :
  0 ≤ total < 2 ^ 52 → boot_pristine total m → Forall area_ok areas →
  boot_free total BITMAP_START ((total + 7) / 8) areas f → available_frame f m = Panic.
Proof.
  intros Ht Hp Hok (a & Ha & _ & Hf & Hlt & Hskip).
  rewrite Forall_forall in Hok. specialize (Hok a Ha). unfold area_ok, PAGE_SIZE in *.
  assert (0 ≤ f) by divlia.
  unfold available_frame, PAGE_SIZE. rewrite umul_val by lia. simpl.
  assert (bitmap_start m = BITMAP_START ∧ len (bitmap m) = (total + 7) / 8 ∧ total_frames m = total)
    as (-> & -> & ->).
  { destruct Hp as [r ->]. unfold len; simpl. rewrite length_replicate. split_and!; divlia. }
  unfold BITMAP_START in *. rewrite skip_frame_eq by divlia. simpl. rewrite Hskip.
  zcase; [|lia]. eapply mark_free_pristine; [done|lia].
Qed.
Lemma frames_range a f : area_ok a →
  f ∈ seqZ (area_start a / PAGE_SIZE)
        ((area_end a - 1) / PAGE_SIZE - area_start a / PAGE_SIZE + 1) ↔
  area_start a / PAGE_SIZE ≤ f ≤ (area_end a - 1) / PAGE_SIZE.
Proof. intros Ha. rewrite elem_of_seqZ. lia. Qed.

Lemma parse_memory_map_dev total areas f :
  0 ≤ total < 2 ^ 52 → Forall area_ok areas →
  boot_free total BITMAP_START ((total + 7) / 8) areas f →
  parse_memory_map (boot_start total) areas = Panic.
Proof.
  intros Ht Hok Hf. pose proof Hf as (a0 & Ha0 & Htyp & Hfr & _).
  assert (∀ a g, area_ok a → area_start a / PAGE_SIZE ≤ g ≤ (area_end a - 1) / PAGE_SIZE →
    0 ≤ g < 2 ^ 52) as Hrange by (unfold area_ok, PAGE_SIZE; intros; divlia).
  pose proof (proj1 (Forall_forall _ _) Hok) as Hall.
  apply (for_each_panics (boot_pristine total)) with (x0 := a0); [|done| |by exists 0].
  - intros a m Ha Hp. rewrite area_frames_eq by auto. simpl.
    destruct (decide _); apply for_each_panic_or; try done; intros g m' Hg Hp'.
    + apply frames_range in Hg; [|auto]. apply available_frame_pristine; eauto.
    + unfold reserved_frame. zcase; [by apply reserve_pristine|eauto].
  - intros m Hp. rewrite area_frames_eq by auto. simpl. rewrite decide_True by done.
    apply (for_each_panics (boot_pristine total)) with (x0 := f); try done.
    + intros g m' Hg Hp'. apply frames_range in Hg; [|auto].
      apply available_frame_pristine; eauto.
    + by apply frames_range; auto.
    + intros m' Hp'. by eapply available_frame_boot_free.
Qed.
End boot_dev.
(** ** Theorems *)
Section claims.
Context {P : Profile}.

(** C20: [allocate_frame] refines "remove the least element of the free set":
    on a well-formed manager it never panics, returns the least free frame
    and makes exactly it used, and fails only when no frame is free. *)
Theorem allocate_frame_refines m (Hwf : wf m) :
  match allocate_frame m with
  | Val (Some f, m') =>
      f ∈ free_set m ∧ (∀ g, g ∈ free_set m → f ≤ g) ∧
      wf m' ∧ free_set m' = free_set m ∖ {[f]}
  | Val (None, m') => m' = m ∧ free_set m = ∅
  | _ => False
  end.
Proof.
  pose proof (allocate_frame_spec m Hwf) as H.
  destruct (allocate_frame m) as [[[f|] m']| |]; naive_solver.
Qed.

(** [allocate_frames] is first fit: it returns the lowest run of [count]
    consecutive free frames and takes exactly those frames; it fails only
    if [count] is zero or no such run exists. *)
Theorem allocate_frames_first_fit m count (Hwf : wf m) (Hc : 0 ≤ count < 2 ^ 64) :
  match allocate_frames m count with
  | Val (Some s, m') =>
      0 ≤ s ∧ run m s count ∧ (∀ s', 0 ≤ s' < s → ¬ run m s' count) ∧
      wf m' ∧ free_set m' = free_set m ∖ list_to_set (seqZ s count)
  | Val (None, m') => m' = m ∧ (count = 0 ∨ ∀ s, 0 ≤ s → ¬ run m s count)
  | _ => False
  end.
Proof.
  pose proof (allocate_frames_spec m count Hwf Hc) as H.
  destruct (allocate_frames m count) as [[[f|] m']| |]; naive_solver.
Qed.

(** C3: in any history of allocations and releases from a well-formed
    manager no frame is handed out twice: the frames of a further
    successful allocation are disjoint from all frames still held, and
    held and free frames always make up the initially free frames. *)
Theorem no_double_allocation m m' live count s m''
    (Hwf : wf m) (Hhist : rtc client_step (m, ∅) (m', live))
    (Hc : 0 ≤ count < 2 ^ 64) (Hnext : allocate_frames m' count = Val (Some s, m'')) :
  live ## list_to_set (seqZ s count) ∧ live ∪ free_set m' = free_set m.
Proof.
  destruct (client_steps_inv _ _ _ Hhist (history_inv_init m Hwf))
    as (Hwf' & Hdisj & Hall & _).
  pose proof (allocate_frames_spec m' count Hwf' Hc) as H. rewrite Hnext in H.
  destruct H as (_ & _ & Hrun & _). split; [|done].
  intros f Hf. rewrite elem_of_list_to_set, elem_of_seqZ. intros Hr%Hrun. set_solver.
Qed.

(** Freeing a frame just allocated restores the manager exactly, bitmap
    and all counters included, in either build profile. *)
Theorem allocate_deallocate_roundtrip m f m'
    (Hwf : wf m) (Halloc : allocate_frame m = Val (Some f, m')) :
  deallocate_frame m' f = Val m.
Proof.
  pose proof (allocate_frame_spec m Hwf) as Hspec. rewrite Halloc in Hspec.
  destruct Hspec as (Hin & _). unfold allocate_frame in Halloc.
  destruct (_ =? _); [done|]. destruct (scan_bitmap m) as [[|g]| |]; inv_val.
  by apply mark_used_free.
Qed.
End claims.

(** Booting the release build on a sane memory map succeeds and frees
    exactly the frames that touch an available area, lie below the highest
    available address, and are neither in the first megabyte nor under the
    bitmap; the resulting manager is well formed. *)
Theorem boot_frees_available areas
    (Hok : Forall area_ok areas) (Hsome : highest_end areas ≠ 0)
    (Hplace : bitmap_overlaps BITMAP_START
       (BITMAP_START + (highest_end areas / PAGE_SIZE + 7) / 8) areas = false) :
  ∃ m, new (P := release) (Some areas) = Val (Ok m) ∧ wf (P := release) m ∧
    total_frames m = highest_end areas / PAGE_SIZE ∧
    ∀ f, f ∈ free_set m ↔
      boot_free (highest_end areas / PAGE_SIZE) BITMAP_START
        ((highest_end areas / PAGE_SIZE + 7) / 8) areas f.
Proof.
  destruct (max_end_addr_release areas) as [tm Hme].
  rewrite (new_boot_start (H := release) areas tm) by done.
  pose proof (highest_end_range areas Hok). set (total := highest_end areas / PAGE_SIZE) in *.
  assert (0 ≤ total < 2 ^ 52) by (unfold total, PAGE_SIZE; divlia).
  assert (len (bitmap (boot_start total)) = (total + 7) / 8) as Hlen
    by (unfold len; simpl; rewrite length_replicate; divlia).
  destruct (parse_memory_map_spec (boot_start total) areas) as (m & -> & Hwf & (Ht & _) & Hfs).
  - by apply boot_start_wf.
  - unfold map_room. rewrite Hlen. simpl. unfold BITMAP_START. divlia.
  - done.
  - exists m. split_and!; try done. intros f. rewrite Hfs, boot_start_free, Hlen by lia.
    simpl. set_solver.
Qed.

(** The same boot in a build with overflow checks panics as soon as the
    memory map makes a single frame available: the bitmap starts with every
    frame used while [used_frames] starts at zero, so the first
    [used_frames -= 1] underflows. *)
Theorem boot_underflows_in_dev areas f
    (Hok : Forall area_ok areas)
    (Hplace : bitmap_overlaps BITMAP_START
       (BITMAP_START + (highest_end areas / PAGE_SIZE + 7) / 8) areas = false)
    (Hf : boot_free (highest_end areas / PAGE_SIZE) BITMAP_START
       ((highest_end areas / PAGE_SIZE + 7) / 8) areas f) :
  new (P := dev) (Some areas) = Panic.
Proof.
  pose proof (highest_end_range areas Hok).
  assert (highest_end areas ≠ 0).
  { destruct Hf as (a & Ha & _ & Hr & Hlt & _). intros E. rewrite E in Hlt.
    pose proof (proj1 (Forall_forall _ _) Hok a Ha). unfold area_ok, PAGE_SIZE in *. divlia. }
  destruct (max_end_addr (P := dev) areas) as [[me tm]| |] eqn:Hme.
  - pose proof Hme as E%max_end_addr_from; [|lia]. rewrite Z.max_r in E by lia. subst me.
    rewrite (new_boot_start (H := dev) areas tm) by done.
    rewrite (parse_memory_map_dev _ areas f); [done| |done|done].
    unfold PAGE_SIZE. divlia.
  - unfold new. by rewrite Hme.
  - exfalso. revert Hme. unfold max_end_addr. generalize (0, 0). clear.
    induction areas as [|a areas IH]; intros [z t]; simpl; [done|].
    destruct (decide _); simpl; [|apply IH]. unfold uadd, arith.
    destruct (in_width _ _); simpl; [apply IH|done].
Qed.

(** ** Witnesses *)

(** Twelve frames, of which 0 to 3 are free. *)
Definition demo : PhysicalMemoryManager :=
  {| bitmap := [0xF0; 0x0F]; total_frames := 12; free_frames := 4;
     used_frames := 8; reserved_frames := 0; bitmap_start := BITMAP_START |}.
(** The same after frame 0 was taken. *)
Definition demo1 : PhysicalMemoryManager :=
  {| bitmap := [0xF1; 0x0F]; total_frames := 12; free_frames := 3;
     used_frames := 9; reserved_frames := 0; bitmap_start := BITMAP_START |}.

Lemma demo_wf : wf (P := dev) demo.
Proof.
  split; simpl; try done.
  - rewrite !Forall_cons. unfold byte_ok. split_and!; try lia. constructor.
Qed.
Lemma demo_alloc : allocate_frame (P := dev) demo = Val (Some 0, demo1).
Proof. done. Qed.

Lemma allocate_frame_refines_witness :
  wf (P := dev) demo ∧ allocate_frame (P := dev) demo = Val (Some 0, demo1) ∧
  wf (P := dev) demo1 ∧ free_set demo1 = free_set demo ∖ {[0]}.
Proof.
  pose proof (allocate_frame_refines (P := dev) demo demo_wf) as H.
  rewrite demo_alloc in H. destruct H as (_ & _ & H1 & H2).
  split; [apply demo_wf|]. split; [apply demo_alloc|]. split; [apply H1|apply H2].
Defined.

Lemma allocate_frames_first_fit_witness :
  wf (P := dev) demo ∧
  match allocate_frames (P := dev) demo 3 with
  | Val (Some s, m') => s = 0 ∧ run demo s 3 ∧ free_set m' = free_set demo ∖ list_to_set (seqZ 0 3)
  | _ => False
  end.
Proof.
  split; [apply demo_wf|].
  pose proof (allocate_frames_first_fit (P := dev) demo 3 demo_wf ltac:(lia)) as H.
  assert (∃ m', allocate_frames (P := dev) demo 3 = Val (Some 0, m')) as [m' E]
    by (eexists; reflexivity).
  rewrite E in H |- *. destruct H as (_ & H1 & _ & _ & H2). split; [done|]. split; assumption.
Defined.

Lemma no_double_allocation_witness :
  ∃ m'' s, allocate_frames (P := dev) demo1 2 = Val (Some s, m'') ∧
    ({[0]} : gset Z) ## list_to_set (seqZ s 2).
Proof.
  assert (∃ m'', allocate_frames (P := dev) demo1 2 = Val (Some 1, m'')) as [m'' E]
    by (eexists; reflexivity).
  exists m'', 1. split; [exact E|].
  assert (rtc (client_step (P := dev)) (demo, ∅) (demo1, {[0]})) as Hh.
  { apply rtc_once. replace ({[0]} : gset Z) with (∅ ∪ list_to_set (seqZ 0 1) : gset Z)
      by (vm_compute; reflexivity).
    apply (client_allocate (P := dev) demo ∅ 1 0 demo1); [lia|reflexivity]. }
  exact (proj1 (no_double_allocation (P := dev) demo demo1 {[0]} 2 1 m''
    demo_wf Hh ltac:(lia) E)).
Defined.

Lemma allocate_deallocate_roundtrip_witness :
  allocate_frame (P := dev) demo = Val (Some 0, demo1) ∧
  deallocate_frame (P := dev) demo1 0 = Val demo.
Proof.
  split; [apply demo_alloc|].
  exact (allocate_deallocate_roundtrip (P := dev) demo 0 demo1 demo_wf demo_alloc).
Defined.

(** Low memory, four megabytes above the first, and a reserved hole. *)
Definition demo_areas : list MemoryArea :=
  [ {| area_start := 0; area_end := 0x9F000; area_size := 0x9F000; area_typ := Available |};
    {| area_start := 0x9F000; area_end := 0x100000; area_size := 0x61000; area_typ := Unavailable |};
    {| area_start := 0x100000; area_end := 0x500000; area_size := 0x400000; area_typ := Available |} ].

Lemma demo_areas_ok : Forall area_ok demo_areas.
Proof. unfold demo_areas. rewrite !Forall_cons. unfold area_ok. simpl. split_and!; try lia. constructor. Qed.

Lemma boot_frees_available_witness :
  ∃ m, new (P := release) (Some demo_areas) = Val (Ok m) ∧ 256 ∈ free_set m ∧ 512 ∉ free_set m.
Proof.
  destruct (boot_frees_available demo_areas demo_areas_ok ltac:(done) ltac:(done))
    as (m & Hm & _ & _ & Hfs).
  exists m. split; [exact Hm|]. rewrite !Hfs. split.
  - exists {| area_start := 0x100000; area_end := 0x500000; area_size := 0x400000;
              area_typ := Available |}.
    split; [by do 2 right; left|]. split; [done|].
  split; [vm_compute; split; discriminate|]. split; reflexivity.
  - intros (a & _ & _ & _ & _ & Hskip). vm_compute in Hskip. discriminate Hskip.
Defined.

Lemma boot_underflows_in_dev_witness : new (P := dev) (Some demo_areas) = Panic.
Proof.
  apply (boot_underflows_in_dev demo_areas 256 demo_areas_ok ltac:(done)).
  exists {| area_start := 0x100000; area_end := 0x500000; area_size := 0x400000;
            area_typ := Available |}.
  split; [by do 2 right; left|]. split; [done|].
  split; [vm_compute; split; discriminate|]. split; reflexivity.
Defined.
