(* ===== verification/Heap.v ===== *)
(** * The kernel heap

    Models [kernel/src/memory/heap.rs]: a first-fit allocator over one region
    of frames, with block headers stored in the region and a doubly linked list
    of free blocks threaded through them.  The frames come from the interface
    [FrameAllocator] of [Physical].

    The memory of the heap is [headers], the map from the address of each block
    header to its contents; data bytes are not represented, but writing data
    ([write_bytes]) destroys every header it touches.  Reading or writing a
    header at an address where there is none, or at one that is not a multiple
    of 8, is undefined in Rust and is [Panic] here (with debug assertions the
    misaligned access does panic); the theorems show that it does not happen.

    A header is [repr(C)]: 40 bytes on a 64-bit target, 48 with the field
    [alloc_id] of debug builds. *)
From S2P Require Import Prelude Physical.

Definition MIN_ALLOC_SIZE : Z := 16.
Definition MAX_ALLOC_SIZE : Z := 1024 * 1024.
Definition HEAP_MAGIC : Z := 0xDEADBEEF.

(** [alloc_id] is only there in debug builds; in others it stays 0. *)
Record BlockHeader := {
  magic : Z;
  block_size : Z;
  next : option Z;
  prev : option Z;
  is_free : bool;
  alloc_id : Z;
}.

Definition header_new (size : Z) : BlockHeader :=
  {| magic := HEAP_MAGIC; block_size := size; next := None; prev := None; is_free := true; alloc_id := 0 |}.
Definition is_valid (h : BlockHeader) : bool := magic h =? HEAP_MAGIC.

(** Assignments to one field of a header. *)
Definition with_size (s : Z) (h : BlockHeader) : BlockHeader :=
  {| magic := magic h; block_size := s; next := next h; prev := prev h; is_free := is_free h; alloc_id := alloc_id h |}.
Definition with_next (n : option Z) (h : BlockHeader) : BlockHeader :=
  {| magic := magic h; block_size := block_size h; next := n; prev := prev h; is_free := is_free h; alloc_id := alloc_id h |}.
Definition with_prev (p : option Z) (h : BlockHeader) : BlockHeader :=
  {| magic := magic h; block_size := block_size h; next := next h; prev := p; is_free := is_free h; alloc_id := alloc_id h |}.
Definition with_free (b : bool) (h : BlockHeader) : BlockHeader :=
  {| magic := magic h; block_size := block_size h; next := next h; prev := prev h; is_free := b; alloc_id := alloc_id h |}.
Definition with_id (i : Z) (h : BlockHeader) : BlockHeader :=
  {| magic := magic h; block_size := block_size h; next := next h; prev := prev h; is_free := is_free h; alloc_id := i |}.

Record AllocationStats := {
  total_allocations : Z;
  total_deallocations : Z;
  current_allocations : Z;
  bytes_allocated : Z;
  bytes_deallocated : Z;
  current_bytes : Z;
  peak_bytes : Z;
  stat_heap_size : Z;
  free_bytes : Z;
}.
Definition stats_new : AllocationStats :=
  {| total_allocations := 0; total_deallocations := 0; current_allocations := 0; bytes_allocated := 0;
     bytes_deallocated := 0; current_bytes := 0; peak_bytes := 0; stat_heap_size := 0; free_bytes := 0 |}.

(** [KernelHeapAllocator], with the memory its pointers lead to. *)
Record KernelHeapAllocator := {
  headers : gmap Z BlockHeader;
  heap_start : Z;
  heap_size : Z;
  free_list_head : option Z;
  heap_stats : AllocationStats;
  next_alloc_id : Z;
}.
Definition heap_new : KernelHeapAllocator :=
  {| headers := ∅; heap_start := 0; heap_size := 0; free_list_head := None; heap_stats := stats_new;
     next_alloc_id := 1 |}.

Definition set_headers (w : KernelHeapAllocator) (hs : gmap Z BlockHeader) : KernelHeapAllocator :=
  {| headers := hs; heap_start := heap_start w; heap_size := heap_size w; free_list_head := free_list_head w;
     heap_stats := heap_stats w; next_alloc_id := next_alloc_id w |}.
Definition set_head (w : KernelHeapAllocator) (o : option Z) : KernelHeapAllocator :=
  {| headers := headers w; heap_start := heap_start w; heap_size := heap_size w; free_list_head := o;
     heap_stats := heap_stats w; next_alloc_id := next_alloc_id w |}.
Definition set_stats (w : KernelHeapAllocator) (s : AllocationStats) (i : Z) : KernelHeapAllocator :=
  {| headers := headers w; heap_start := heap_start w; heap_size := heap_size w;
     free_list_head := free_list_head w; heap_stats := s; next_alloc_id := i |}.

(** [NonNull::new]. *)
Definition non_null (a : Z) : option Z := if a =? 0 then None else Some a.

Section heap.
Context {P : Profile}.
Implicit Types w : KernelHeapAllocator.

(** [size_of::<BlockHeader>()]. *)
Definition block_header_size : Z := if debug_assertions then 48 else 40.
Definition data_ptr (block : Z) : Z := block + block_header_size.
Definition from_data_ptr (ptr : Z) : Z := ptr - block_header_size.
Definition total_size (h : BlockHeader) : outcome Z := uadd 64 block_header_size (block_size h).

(** [( *block_ptr)], [ptr::write(block_ptr, h)] and an assignment through a
    header pointer. *)
Definition load w (a : Z) : outcome BlockHeader :=
  if a mod 8 =? 0 then match headers w !! a with Some h => Val h | None => Panic end else Panic.
Definition store w (a : Z) (h : BlockHeader) : outcome KernelHeapAllocator :=
  if a mod 8 =? 0 then Val (set_headers w (<[a := h]> (headers w))) else Panic.
Definition modify w (a : Z) (f : BlockHeader → BlockHeader) : outcome KernelHeapAllocator :=
  h ← load w a; store w a (f h).

(** [ptr::write_bytes(a, _, n)]: no header that shares a byte with the range
    survives. *)
Definition write_bytes w (a n : Z) : KernelHeapAllocator :=
  set_headers w (filter (λ kh, ¬ (kh.1 < a + n ∧ a < kh.1 + block_header_size)) (headers w)).

(** ** The free list *)
Definition add_to_free_list w (block : Z) : outcome KernelHeapAllocator :=
  w ← modify w block (with_next (free_list_head w));
  w ← modify w block (with_prev None);
  w ← match free_list_head w with
      | Some head => modify w head (with_prev (Some block))
      | None => Val w
      end;
  Val (set_head w (Some block)).

Definition remove_from_free_list w (block : Z) : outcome KernelHeapAllocator :=
  h ← load w block;
  w ← match prev h with
      | Some p => modify w p (with_next (next h))
      | None => Val (set_head w (next h))
      end;
  h ← load w block;
  w ← match next h with
      | Some n => modify w n (with_prev (prev h))
      | None => Val w
      end;
  w ← modify w block (with_next None);
  modify w block (with_prev None).

(** ** Allocation *)

(** One round of the search: the loop variable is [current]. *)
Definition find_step w (size : Z) (current : option Z) : outcome (flow (option Z) (result Z string)) :=
  match current with
  | None => Val (Return (Err "Out of memory"))
  | Some block =>
      h ← load w block;
      if is_free h && (size <=? block_size h) then
        aligned_ptr ← align_up (data_ptr block);
        alignment_offset ← usub 64 aligned_ptr (data_ptr block);
        needed ← uadd 64 size alignment_offset;
        if needed <=? block_size h then Val (Return (Ok block)) else Val (Next (next h))
      else Val (Next (next h))
  end.
Definition find_free_block w (size align : Z) : outcome (result Z string) :=
  loop_fuel (base.size (headers w) + 1) (find_step w size) (free_list_head w).

Definition split_block w (block needed_size : Z) : outcome KernelHeapAllocator :=
  h ← load w block;
  let total := block_size h in
  n ← uadd 64 needed_size block_header_size;
  n ← uadd 64 n MIN_ALLOC_SIZE;
  if n <=? total then
    r ← usub 64 total needed_size;
    remaining_size ← usub 64 r block_header_size;
    new_block_ptr ← uadd 64 (data_ptr block) needed_size;
    w ← store w new_block_ptr (header_new remaining_size);
    w ← modify w block (with_size needed_size);
    match non_null new_block_ptr with
    | Some new_block => add_to_free_list w new_block
    | None => Panic
    end
  else Val w.

(** The statistics of an allocation. *)
Definition count_allocation (s : AllocationStats) (size : Z) : outcome AllocationStats :=
  total ← uadd 64 (total_allocations s) 1;
  current ← uadd 64 (current_allocations s) 1;
  bytes ← uadd 64 (bytes_allocated s) size;
  cur_bytes ← uadd 64 (current_bytes s) size;
  free ← usub 64 (free_bytes s) size;
  Val {| total_allocations := total; total_deallocations := total_deallocations s;
         current_allocations := current; bytes_allocated := bytes; bytes_deallocated := bytes_deallocated s;
         current_bytes := cur_bytes;
         peak_bytes := if peak_bytes s <? cur_bytes then cur_bytes else peak_bytes s;
         stat_heap_size := stat_heap_size s; free_bytes := free |}.

Definition allocate w (layout_size layout_align : Z) : outcome (result Z string * KernelHeapAllocator) :=
  let size := Z.max layout_size MIN_ALLOC_SIZE in
  if MAX_ALLOC_SIZE <? size then Val (Err "Allocation too large", w)
  else
    r ← find_free_block w size layout_align;
    match r with
    | Err e => Val (Err e, w)
    | Ok block =>
        w ← split_block w block size;
        w ← modify w block (with_free false);
        w ← (if debug_assertions then
               w ← modify w block (with_id (next_alloc_id w));
               i ← uadd 64 (next_alloc_id w) 1;
               Val (set_stats w (heap_stats w) i)
             else Val w);
        w ← remove_from_free_list w block;
        s ← count_allocation (heap_stats w) size;
        let w := set_stats w s (next_alloc_id w) in
        let ptr := data_ptr block in
        let w := if debug_assertions then write_bytes w ptr size else w in
        match non_null ptr with Some ptr => Val (Ok ptr, w) | None => Panic end
    end.

(** ** Release *)
Definition count_deallocation (s : AllocationStats) (size : Z) : outcome AllocationStats :=
  total ← uadd 64 (total_deallocations s) 1;
  current ← usub 64 (current_allocations s) 1;
  bytes ← uadd 64 (bytes_deallocated s) size;
  cur_bytes ← usub 64 (current_bytes s) size;
  free ← uadd 64 (free_bytes s) size;
  Val {| total_allocations := total_allocations s; total_deallocations := total;
         current_allocations := current; bytes_allocated := bytes_allocated s; bytes_deallocated := bytes;
         current_bytes := cur_bytes; peak_bytes := peak_bytes s;
         stat_heap_size := stat_heap_size s; free_bytes := free |}.

(** [coalesce_free_blocks] only reads the flag. *)
Definition coalesce_free_blocks w (block : Z) : outcome KernelHeapAllocator :=
  h ← load w block; Val w.

Definition deallocate w (ptr : Z) : outcome (result unit string * KernelHeapAllocator) :=
  match non_null (from_data_ptr ptr) with
  | None => Val (Err "Invalid pointer", w)
  | Some block =>
      h ← load w block;
      if negb (is_valid h) then Val (Err "Heap corruption detected: invalid magic number", w)
      else if is_free h then Val (Err "Double free detected", w)
      else
        let size := block_size h in
        w ← modify w block (with_free true);
        let w := if debug_assertions then write_bytes w ptr size else w in
        s ← count_deallocation (heap_stats w) size;
        let w := set_stats w s (next_alloc_id w) in
        w ← add_to_free_list w block;
        w ← coalesce_free_blocks w block;
        Val (Ok (), w)
  end.

(** [GlobalAlloc::alloc] and [dealloc] on the locked heap. *)
Definition global_alloc w (layout_size layout_align : Z) : outcome (Z * KernelHeapAllocator) :=
  '(r, w) ← allocate w layout_size layout_align;
  match r with Ok ptr => Val (ptr, w) | Err _ => Val (0, w) end.
Definition global_dealloc w (ptr : Z) : outcome KernelHeapAllocator :=
  match non_null ptr with
  | Some ptr => '(_, w) ← deallocate w ptr; Val w
  | None => Val w
  end.

(** ** Integrity check: the loop variable is [(current, blocks_checked)]. *)
Definition validate_step w (st : option Z * Z) : outcome (flow (option Z * Z) (result unit string)) :=
  let '(current, blocks_checked) := st in
  match current with
  | None => Val (Return (Ok ()))
  | Some block =>
      h ← load w block;
      if negb (is_valid h) then Val (Return (Err "Heap corruption: invalid magic number"))
      else if negb (is_free h) then Val (Return (Err "Heap corruption: non-free block in free list"))
      else
        total ← total_size h;
        block_end ← uadd 64 block total;
        heap_end ← uadd 64 (heap_start w) (heap_size w);
        if (block <? heap_start w) || (heap_end <? block_end)
        then Val (Return (Err "Heap corruption: block outside heap bounds"))
        else
          let blocks_checked := blocks_checked + 1 in
          if 10000 <? blocks_checked
          then Val (Return (Err "Heap corruption: possible circular free list"))
          else Val (Next (next h, blocks_checked))
  end.
Definition validate_heap w : outcome (result unit string) :=
  loop_fuel (Z.to_nat 10002) (validate_step w) (free_list_head w, 0).

(** ** Initialisation, over any frame allocator *)
Context {S : Type} {FA : FrameAllocator S}.

Definition heap_init w (fa : S) (heap_size_pages : Z) : outcome (result unit string * KernelHeapAllocator * S) :=
  if heap_size_pages =? 0 then Val (Err "Heap size cannot be zero", w, fa)
  else
    '(r, fa) ← fa_allocate fa heap_size_pages;
    match r with
    | None => Val (Err "Failed to allocate physical memory for heap", w, fa)
    | Some start_frame =>
        start ← frame_address start_frame;
        size ← umul 64 heap_size_pages PAGE_SIZE;
        let w := write_bytes w start size in
        initial_size ← usub 64 size block_header_size;
        w ← store w start (header_new initial_size);
        let s := heap_stats w in
        Val (Ok (),
             {| headers := headers w; heap_start := start; heap_size := size; free_list_head := non_null start;
                heap_stats := {| total_allocations := total_allocations s;
                  total_deallocations := total_deallocations s; current_allocations := current_allocations s;
                  bytes_allocated := bytes_allocated s; bytes_deallocated := bytes_deallocated s;
                  current_bytes := current_bytes s; peak_bytes := peak_bytes s; stat_heap_size := size;
                  free_bytes := initial_size |};
                next_alloc_id := next_alloc_id w |}, fa)
    end.
End heap.

(** ** Doubly linked lists in the header map *)

(** The part of a header the links do not touch. *)
Definition core (h : BlockHeader) : Z * Z * bool * Z := (magic h, block_size h, is_free h, alloc_id h).
Definition same_core (H H' : gmap Z BlockHeader) : Prop := ∀ a, core <$> H' !! a = core <$> H !! a.

#[export] Instance same_core_preorder : PreOrder same_core.
Proof. split; [done|]. intros H1 H2 H3 H12 H23 a. by rewrite H23, H12. Qed.

Lemma same_core_insert (H : gmap Z BlockHeader) a h h' : H !! a = Some h → core h' = core h → same_core H (<[a := h']> H).
Proof.
  intros Ha Hc b. destruct (decide (a = b)) as [<-|Hne].
  - rewrite lookup_insert_eq, Ha. simpl. by rewrite Hc.
  - by rewrite lookup_insert_ne.
Qed.
Lemma same_core_lookup H H' a h' : same_core H H' → H' !! a = Some h' →
  ∃ h, H !! a = Some h ∧ core h = core h'.
Proof.
  intros Hs Ha. specialize (Hs a). rewrite Ha in Hs. simpl in Hs.
  destruct (H !! a) as [h|]; simpl in Hs; [|done]. exists h. split; [done|congruence].
Qed.
Lemma same_core_sym H H' : same_core H H' → same_core H' H.
Proof. intros Hs a. by rewrite Hs. Qed.

Definition linked (H : gmap Z BlockHeader) (fl : list Z) : Prop := ∀ l1 a l2, fl = l1 ++ a :: l2 →
  ∃ h, H !! a = Some h ∧ prev h = last l1 ∧ next h = head l2.
Record dlist (H : gmap Z BlockHeader) (hd : option Z) (fl : list Z) : Prop := {
  dl_head : hd = head fl;
  dl_linked : linked H fl;
  dl_nodup : NoDup fl;
}.

Lemma dlist_lookup H hd fl a : dlist H hd fl → a ∈ fl → is_Some (H !! a).
Proof.
  intros [_ Hl _] (l1 & l2 & ->)%list_elem_of_split. destruct (Hl l1 a l2 eq_refl) as (h & ? & _). eauto.
Qed.

(** A header whose links are untouched keeps its place. *)
Lemma linked_mono H H' fl :
  (∀ a h, a ∈ fl → H !! a = Some h → ∃ h', H' !! a = Some h' ∧ prev h' = prev h ∧ next h' = next h) →
  linked H fl → linked H' fl.
Proof.
  intros HH Hl l1 a l2 ->. destruct (Hl l1 a l2 eq_refl) as (h & Ha & Hp & Hn).
  destruct (HH a h) as (h' & ? & ? & ?); [rewrite elem_of_app; right; left|done|]. exists h'. split_and!; congruence.
Qed.

(** Pushing [b]: its links are set, and the old head points back to it. *)
Lemma linked_push (H : gmap Z BlockHeader) fl b h : linked H fl → NoDup fl → b ∉ fl → prev h = None → next h = head fl →
  linked (match head fl with
          | Some x => match H !! x with
                      | Some hx => <[x := with_prev (Some b) hx]> (<[b := h]> H)
                      | None => <[b := h]> H
                      end
          | None => <[b := h]> H
          end) (b :: fl).
Proof.
  intros Hl Hnd Hb Hp Hn l1 a l2 Heq. destruct fl as [|x fl]; simpl in *.
  { destruct l1 as [|? [|? ?]]; simplify_eq/=. exists h. by rewrite lookup_insert_eq. }
  apply not_elem_of_cons in Hb as [Hbx Hb].
  destruct (Hl [] x fl eq_refl) as (hx & Hx & Hpx & Hnx). rewrite Hx.
  destruct l1 as [|b' l1]; simplify_eq/=.
  { exists h. rewrite lookup_insert_ne by done. by rewrite lookup_insert_eq. }
  destruct (Hl l1 a l2 H1) as (ha & Ha & Hpa & Hna). apply NoDup_cons in Hnd as [Hxfl Hnd].
  destruct l1 as [|y l1]; simplify_eq/=.
  { eexists. rewrite lookup_insert_eq. by split_and!. }
  exists ha. assert (a ≠ y) by (intros ->; apply Hxfl; rewrite elem_of_app; right; left).
  assert (a ≠ b') by (intros ->; apply Hb; rewrite elem_of_app; right; left).
  rewrite !lookup_insert_ne by done. done.
Qed.

(** Unlinking [b] from [l1 ++ b :: l2]: its neighbours point at each other. *)
Definition relink (o : option Z) (f : BlockHeader → BlockHeader) (H : gmap Z BlockHeader) : gmap Z BlockHeader :=
  match o with Some x => alter f x H | None => H end.

Lemma relink_core o f H : (∀ h, core (f h) = core h) → same_core H (relink o f H).
Proof.
  intros Hf a. destruct o as [x|]; simpl; [|done]. destruct (decide (x = a)) as [<-|Hne].
  - rewrite lookup_alter_eq. destruct (H !! x); simpl; [by rewrite Hf|done].
  - by rewrite lookup_alter_ne.
Qed.
Lemma relink_lookup o f H a : o ≠ Some a → relink o f H !! a = H !! a.
Proof. intros Ho. destruct o as [x|]; simpl; [|done]. apply lookup_alter_ne. congruence. Qed.

Lemma linked_unlink (H : gmap Z BlockHeader) l1 b l2 : linked H (l1 ++ b :: l2) → NoDup (l1 ++ b :: l2) →
  linked (relink (head l2) (with_prev (last l1)) (relink (last l1) (with_next (head l2)) H)) (l1 ++ l2).
Proof.
  intros Hl Hnd m1 a m2 Heq.
  apply NoDup_app in Hnd as (Hnd1 & Hdis & [Hb2 Hnd2]%NoDup_cons).
  assert (∀ x, last l1 = Some x → x ∉ l2) as Hlast.
  { intros x Hx%last_Some_elem_of Hx2. apply (Hdis x Hx). by right. }
  assert (∀ x, head l2 = Some x → x ∉ l1) as Hhead.
  { intros x Hx Hx1. apply (Hdis x Hx1). destruct l2; simplify_eq/=. by right; left. }
  assert ((∃ k, m1 = l1 ++ k ∧ l2 = k ++ a :: m2) ∨ ∃ k, l1 = m1 ++ a :: k ∧ m2 = k ++ l2)
    as [(k & -> & Hk)|(k & Hk & ->)].
  { apply app_eq_inv in Heq as [(k & -> & Hk)|(k & -> & Hk)]; [|eauto].
    destruct k as [|y k]; simplify_eq/=; [|eauto]. left. exists []. by rewrite !app_nil_r. }
  - destruct (Hl (l1 ++ b :: k) a m2) as (h & Ha & Hp & Hn); [rewrite Hk; by rewrite <-app_assoc|].
    assert (a ∈ l2) as Hal2 by (rewrite Hk, elem_of_app; right; left).
    assert (last l1 ≠ Some a) as Hna by (intros Hx%Hlast; done).
    destruct k as [|y k]; simpl in Hk.
    + exists (with_prev (last l1) h). rewrite Hk at 1. simpl. rewrite lookup_alter_eq, relink_lookup, Ha by done.
      rewrite app_nil_r. done.
    + exists h. assert (head l2 ≠ Some a) as Hha.
      { rewrite Hk. simpl. intros [= ->]. rewrite Hk in Hnd2. apply NoDup_cons in Hnd2 as [Hn2 _].
        apply Hn2. rewrite elem_of_app. right. left. }
      rewrite !relink_lookup by done. split_and!; [done| |done].
      rewrite Hp, !last_app_cons. by rewrite last_cons_cons.
  - destruct (Hl m1 a (k ++ b :: l2)) as (h & Ha & Hp & Hn); [rewrite Hk; by rewrite <-app_assoc|].
    assert (a ∈ l1) as Hal1 by (rewrite Hk, elem_of_app; right; left).
    assert (head l2 ≠ Some a) as Hna by (intros Hx%Hhead; done).
    destruct k as [|y k]; simpl in *.
    + exists (with_next (head l2) h). rewrite relink_lookup by done. rewrite Hk, last_snoc. simpl.
      by rewrite lookup_alter_eq, Ha.
    + exists h. assert (last l1 ≠ Some a) as Hha.
      { rewrite Hk, last_app_cons, last_cons_cons. intros Hx%last_Some_elem_of. rewrite Hk in Hnd1.
        apply NoDup_app in Hnd1 as (_ & _ & [Hn2 _]%NoDup_cons). done. }
      by rewrite !relink_lookup.
Qed.

(** ** The operations on the list *)
Lemma insert_as_alter {A} (m : gmap Z A) x f a : m !! x = Some a → <[x := f a]> m = alter f x m.
Proof.
  intros Hx. apply map_eq. intros i. destruct (decide (x = i)) as [<-|].
  - by rewrite lookup_insert_eq, lookup_alter_eq, Hx.
  - by rewrite lookup_insert_ne, lookup_alter_ne.
Qed.

Definition all_aligned (H : gmap Z BlockHeader) : Prop := ∀ a, is_Some (H !! a) → a mod 8 = 0.

Lemma all_aligned_core H H' : same_core H H' → all_aligned H → all_aligned H'.
Proof. intros Hs Hal a [h' Ha]. destruct (same_core_lookup H H' a h' Hs Ha) as (h & ? & _). eauto. Qed.

Section operations.
Context {P : Profile}.
Implicit Types w : KernelHeapAllocator.

Lemma load_val w a h : a mod 8 = 0 → headers w !! a = Some h → load w a = Val h.
Proof. intros Ha Hh. unfold load. by rewrite (proj2 (Z.eqb_eq _ _) Ha), Hh. Qed.
Lemma store_val w a h : a mod 8 = 0 → store w a h = Val (set_headers w (<[a := h]> (headers w))).
Proof. intros Ha. unfold store. by rewrite (proj2 (Z.eqb_eq _ _) Ha). Qed.
Lemma modify_val w a f h : a mod 8 = 0 → headers w !! a = Some h →
  modify w a f = Val (set_headers w (<[a := f h]> (headers w))).
Proof. intros Ha Hh. unfold modify. rewrite (load_val w a h) by done. simpl. by apply store_val. Qed.

Lemma add_to_free_list_spec w fl b : dlist (headers w) (free_list_head w) fl → all_aligned (headers w) →
  b ∉ fl → is_Some (headers w !! b) →
  ∃ H', add_to_free_list w b = Val (set_head (set_headers w H') (Some b)) ∧
    dlist H' (Some b) (b :: fl) ∧ same_core (headers w) H'.
Proof.
  intros [Hhd Hl Hnd] Hal Hb [h Hh]. unfold add_to_free_list.
  rewrite (modify_val _ _ _ h) by auto. simpl.
  rewrite (modify_val _ _ _ (with_next (free_list_head w) h)) by (simpl; rewrite ?lookup_insert_eq; auto). simpl.
  rewrite insert_insert_eq, Hhd.
  set (h' := with_prev None (with_next (head fl) h)).
  pose proof (linked_push (headers w) fl b h' Hl Hnd Hb eq_refl eq_refl) as Hpush.
  assert (same_core (headers w) (<[b := h']> (headers w))) as Hc by by apply (same_core_insert _ _ h).
  destruct fl as [|x fl]; simpl in *.
  { eexists. split; [reflexivity|]. split; [|done]. split; [done|done|by apply NoDup_singleton]. }
  apply not_elem_of_cons in Hb as [Hbx Hb].
  destruct (Hl [] x fl eq_refl) as (hx & Hx & _). rewrite Hx in Hpush.
  rewrite (modify_val _ _ _ hx); [|by eauto|by simpl; rewrite lookup_insert_ne]. simpl.
  eexists. split; [reflexivity|]. split; [split; [done|done|]|].
  - apply NoDup_cons. split; [|done]. by apply not_elem_of_cons.
  - etrans; [done|]. apply (same_core_insert _ _ hx); [|done]. by rewrite lookup_insert_ne.
Qed.

Lemma remove_from_free_list_spec w l1 b l2 : dlist (headers w) (free_list_head w) (l1 ++ b :: l2) →
  all_aligned (headers w) →
  ∃ w', remove_from_free_list w b = Val w' ∧ heap_start w' = heap_start w ∧ heap_size w' = heap_size w ∧
    heap_stats w' = heap_stats w ∧ next_alloc_id w' = next_alloc_id w ∧
    dlist (headers w') (free_list_head w') (l1 ++ l2) ∧ same_core (headers w) (headers w').
Proof.
  intros [Hhd Hl Hnd] Hal. destruct (Hl l1 b l2 eq_refl) as (h & Hb & Hp & Hn).
  pose proof (linked_unlink _ _ _ _ Hl Hnd) as Hun.
  pose proof Hnd as (Hnd1 & Hdis & [Hb2 Hnd2]%NoDup_cons)%NoDup_app.
  assert (b ∉ l1) as Hb1 by (intros Hb1; apply (Hdis b Hb1); by left).
  assert (last l1 ≠ Some b) as Hlb by (intros Hx%last_Some_elem_of; done).
  assert (head l2 ≠ Some b) as Hhb by (destruct l2; simpl; [done|]; intros [= ->]; apply Hb2; by left).
  unfold remove_from_free_list. rewrite (load_val _ _ h) by eauto. cbn [mbind outcome_bind]. rewrite Hp, Hn.
  set (M1 := relink (last l1) (with_next (head l2)) (headers w)) in *.
  assert (∃ w1, match last l1 with Some p => modify w p (with_next (head l2)) | None => Val (set_head w (head l2)) end
      = Val w1 ∧ headers w1 = M1 ∧ free_list_head w1 = head (l1 ++ l2) ∧ heap_start w1 = heap_start w ∧
      heap_size w1 = heap_size w ∧ heap_stats w1 = heap_stats w ∧ next_alloc_id w1 = next_alloc_id w)
    as (w1 & -> & Hw1 & Hhd1 & ? & ? & ? & ?).
  { destruct (last l1) as [p|] eqn:E; simpl in *.
    - apply last_Some in E as [l1' ->].
      destruct (Hl l1' p (b :: l2)) as (hp & Hhp & _); [by rewrite <-app_assoc|].
      rewrite (modify_val _ _ _ hp) by eauto. eexists. split; [reflexivity|]. split_and!; try done.
      + simpl. unfold M1. by apply insert_as_alter.
      + simpl. rewrite Hhd. by destruct l1'.
    - apply last_None in E as ->. eexists. by split. }
  assert (same_core (headers w) M1) as Hc1 by by apply relink_core.
  assert (M1 !! b = Some h) as Hb' by (unfold M1; by rewrite relink_lookup).
  assert (b mod 8 = 0) as Hb8 by eauto.
  cbn [mbind outcome_bind]. rewrite (load_val _ _ h) by (rewrite ?Hw1; done). cbn [mbind outcome_bind]. rewrite Hp, Hn.
  set (M2 := relink (head l2) (with_prev (last l1)) M1) in *.
  assert (match head l2 with Some n => modify w1 n (with_prev (last l1)) | None => Val w1 end
    = Val (set_headers w1 M2)) as ->.
  { destruct l2 as [|x l2]; simpl in *; [unfold M2; rewrite <-Hw1; by destruct w1|].
    destruct (Hl (l1 ++ [b]) x l2) as (hx & Hx & _); [by rewrite <-app_assoc|].
    assert (M1 !! x = Some hx) as Hx1.
    { unfold M1. rewrite relink_lookup; [done|]. intros Hx'%last_Some_elem_of. apply (Hdis x Hx'). right. left. }
    rewrite (modify_val _ _ _ hx); [|eauto|by rewrite Hw1]. rewrite Hw1. do 2 f_equal. unfold M2. simpl.
    by apply insert_as_alter. }
  assert (M2 !! b = Some h) as Hb2' by (unfold M2; by rewrite relink_lookup).
  cbn [mbind outcome_bind]. rewrite (modify_val _ _ _ h) by done. cbn [mbind outcome_bind].
  rewrite (modify_val _ _ _ (with_next None h)); [|done|by simpl; rewrite lookup_insert_eq].
  eexists. split; [reflexivity|]. simpl. rewrite insert_insert_eq. split_and!; try done.
  - split; [done| |].
    + apply (linked_mono M2); [|done]. intros a ha Ha Hha. exists ha. rewrite lookup_insert_ne; [done|].
      intros <-. apply elem_of_app in Ha as [?|?]; done.
    + apply NoDup_app. split_and!; [done| |done]. intros x Hx Hx2. apply (Hdis x Hx). by right.
  - etrans; [apply Hc1|]. etrans; [by apply (relink_core (head l2) (with_prev (last l1)))|]. by apply (same_core_insert _ _ h).
Qed.

(** ** Blocks *)

(** The blocks of a region [[s, e)]: sound headers, aligned, disjoint, and
    together covering every byte of the region. *)
Record blocks_ok (s e : Z) (H : gmap Z BlockHeader) : Prop := {
  bo_block a h : H !! a = Some h → magic h = HEAP_MAGIC ∧ s ≤ a ∧ data_ptr a + block_size h ≤ e ∧
    MIN_ALLOC_SIZE ≤ block_size h ∧ a mod 8 = 0 ∧ block_size h mod 8 = 0;
  bo_disjoint a h b h' : H !! a = Some h → H !! b = Some h' → a < b → data_ptr a + block_size h ≤ b;
  bo_cover x : s ≤ x < e → ∃ a h, H !! a = Some h ∧ a ≤ x < data_ptr a + block_size h;
}.

Lemma header_size_range : 40 ≤ block_header_size ≤ 48 ∧ block_header_size mod 8 = 0.
Proof. unfold block_header_size. destruct debug_assertions; split; done. Qed.

(** [blocks_ok] only looks at magic numbers and sizes. *)
Definition shape (h : BlockHeader) : Z * Z := (magic h, block_size h).
Lemma blocks_ok_shape s e H H' : (∀ a, shape <$> H' !! a = shape <$> H !! a) → blocks_ok s e H → blocks_ok s e H'.
Proof.
  intros Hs [Hb Hd Hc].
  assert (∀ a h', H' !! a = Some h' → ∃ h, H !! a = Some h ∧ magic h = magic h' ∧ block_size h = block_size h') as Hinv.
  { intros a h' Ha. specialize (Hs a). rewrite Ha in Hs. destruct (H !! a) as [h|]; [|done].
    injection Hs as -> ->. eauto. }
  split.
  - intros a h' (h & Hh & <- & <-)%Hinv. by apply Hb.
  - intros a h b h' (h1 & Hh1 & _ & <-)%Hinv (h2 & Hh2 & _)%Hinv. by eapply Hd.
  - intros x Hx. destruct (Hc x Hx) as (a & h & Ha & ?). specialize (Hs a). rewrite Ha in Hs.
    destruct (H' !! a) as [h'|] eqn:Ha'; [|done]. injection Hs as _ Hsz. exists a, h'. by rewrite Hsz.
Qed.
Lemma blocks_ok_core s e H H' : same_core H H' → blocks_ok s e H → blocks_ok s e H'.
Proof.
  intros Hs. apply blocks_ok_shape. intros a. specialize (Hs a).
  destruct (H !! a), (H' !! a); simpl in *; try done. unfold shape. by injection Hs as -> -> _ _.
Qed.
Lemma blocks_ok_insert s e H a h h' : H !! a = Some h → shape h' = shape h → blocks_ok s e H →
  blocks_ok s e (<[a := h']> H).
Proof.
  intros Ha Hs. apply blocks_ok_shape. intros b. destruct (decide (a = b)) as [<-|].
  - rewrite lookup_insert_eq, Ha. simpl. by rewrite Hs.
  - by rewrite lookup_insert_ne.
Qed.

Lemma blocks_ok_aligned s e H : blocks_ok s e H → all_aligned H.
Proof. intros Hok a [h Ha]. by apply (bo_block s e H Hok) in Ha as (_ & _ & _ & _ & ? & _). Qed.

(** Cutting a block in two. *)
Lemma blocks_ok_split s e H a h n : blocks_ok s e H → H !! a = Some h → n mod 8 = 0 →
  MIN_ALLOC_SIZE ≤ n → n + block_header_size + MIN_ALLOC_SIZE ≤ block_size h →
  H !! (data_ptr a + n) = None ∧
  blocks_ok s e (<[a := with_size n h]> (<[data_ptr a + n := header_new (block_size h - n - block_header_size)]> H)).
Proof.
  intros Hok Ha Hn Hmin Hfit. pose proof header_size_range as [Hhs Hhs8].
  pose proof (bo_block s e H Hok a h Ha) as (Hm & Hs & He & _ & Ha8 & Hsz8).
  unfold data_ptr, MIN_ALLOC_SIZE in *. set (b := a + block_header_size + n).
  assert (a < b) as Hab by (unfold b; lia).
  assert (H !! b = None) as Hbn.
  { destruct (H !! b) as [hb|] eqn:Hb; [|done]. pose proof (bo_disjoint s e H Hok a h b hb Ha Hb Hab).
    unfold data_ptr in *. unfold b in *. lia. }
  split; [done|].
  assert (∀ x hx, <[a := with_size n h]> (<[b := header_new (block_size h - n - block_header_size)]> H) !! x = Some hx →
    (x = a ∧ hx = with_size n h) ∨ (x = b ∧ hx = header_new (block_size h - n - block_header_size)) ∨
    (x ≠ a ∧ x ≠ b ∧ H !! x = Some hx)) as Hinv.
  { intros x hx. rewrite !lookup_insert_Some. naive_solver. }
  split.
  - intros x hx [[-> ->]|[[-> ->]|(? & ? & Hx)]]%Hinv; simpl; [| |by apply (bo_block s e H Hok)];
      unfold data_ptr, MIN_ALLOC_SIZE, b; split_and!; try done; try lia; divlia.
  - intros x hx y hy Hx%Hinv Hy%Hinv Hxy. unfold data_ptr.
    pose proof (λ z hz Hz, bo_disjoint s e H Hok z hz a h Hz Ha) as Hbefore.
    pose proof (λ z hz Hz, bo_disjoint s e H Hok a h z hz Ha Hz) as Hafter.
    unfold data_ptr in *.
    destruct Hx as [[-> ->]|[[-> ->]|(? & ? & Hx)]], Hy as [[-> ->]|[[-> ->]|(? & ? & Hy)]]; simpl; try lia.
    + specialize (Hafter y hy Hy Hxy). lia.
    + destruct (decide (y < a)) as [Hlt|]; [unfold b in *; lia|].
      specialize (Hafter y hy Hy ltac:(lia)). unfold b. lia.
    + specialize (Hbefore x hx Hx Hxy). lia.
    + destruct (decide (x < a)) as [Hlt|]; [specialize (Hbefore x hx Hx Hlt); unfold b; lia|].
      specialize (Hafter x hx Hx ltac:(lia)). unfold b in *. lia.
    + apply (bo_disjoint s e H Hok x hx y hy Hx Hy Hxy).
  - intros x Hx. destruct (bo_cover s e H Hok x Hx) as (c & hc & Hc & Hxc). unfold data_ptr in *.
    destruct (decide (c = a)) as [->|Hca].
    + simplify_eq. destruct (decide (x < b)).
      * exists a, (with_size n h). rewrite lookup_insert_eq. simpl. unfold b in *. split; [done|lia].
      * exists b, (header_new (block_size h - n - block_header_size)).
        rewrite lookup_insert_ne, lookup_insert_eq by lia. simpl. unfold b in *. split; [done|lia].
    + exists c, hc. rewrite !lookup_insert_ne by congruence. done.
Qed.

(** Data written inside a block leaves every header alone. *)
Lemma write_bytes_id w s e a h x n : blocks_ok s e (headers w) → headers w !! a = Some h →
  data_ptr a ≤ x → x + n ≤ data_ptr a + block_size h → write_bytes w x n = w.
Proof.
  intros Hok Ha Hx Hn. unfold write_bytes.
  rewrite map_filter_id; [by destruct w|]. intros k hk Hk [H1 H2]. simpl in *. unfold data_ptr in *.
  pose proof header_size_range as [Hhs _]. pose proof (bo_block s e _ Hok k hk Hk) as (_ & _ & _ & Hmin & _).
  unfold MIN_ALLOC_SIZE in Hmin. destruct (decide (k = a)) as [->|]; [lia|].
  destruct (decide (k < a)).
  - pose proof (bo_disjoint s e _ Hok k hk a h Hk Ha ltac:(lia)). unfold data_ptr in *. lia.
  - pose proof (bo_disjoint s e _ Hok a h k hk Ha Hk ltac:(lia)). unfold data_ptr in *. lia.
Qed.

(** ** The invariant and the abstraction

    [live w] maps the header address of every allocated block to its size. *)
Record heap_inv w : Prop := {
  hi_blocks : blocks_ok (heap_start w) (heap_start w + heap_size w) (headers w);
  hi_range : 0 < heap_start w ∧ heap_start w + heap_size w ≤ 2 ^ 64 - PAGE_SIZE;
  hi_list : ∃ fl, dlist (headers w) (free_list_head w) fl ∧
    ∀ a, a ∈ fl ↔ ∃ h, headers w !! a = Some h ∧ is_free h = true;
}.
Definition live w : gmap Z Z := omap (λ h, if is_free h then None else Some (block_size h)) (headers w).

Lemma lookup_live w a n : live w !! a = Some n ↔
  ∃ h, headers w !! a = Some h ∧ is_free h = false ∧ block_size h = n.
Proof.
  unfold live. rewrite lookup_omap. destruct (headers w !! a) as [h|]; simpl.
  - destruct (is_free h) eqn:E; split.
    + done.
    + intros (h' & [= <-] & ? & _). congruence.
    + intros [= <-]. eauto.
    + intros (h' & [= <-] & _ & ->). done.
  - split; [done|]. intros (h' & ? & _). done.
Qed.
Lemma live_core w w' : same_core (headers w) (headers w') → live w' = live w.
Proof.
  intros Hs. apply map_eq. intros a. unfold live. rewrite !lookup_omap. specialize (Hs a).
  destruct (headers w !! a) as [h|], (headers w' !! a) as [h'|]; simpl in *; try done.
  injection Hs as _ -> -> _. done.
Qed.

(** The bytes up to the next page boundary. *)
Definition page_gap (d : Z) : Z := (- d) mod PAGE_SIZE.
(** What [find_free_block] demands of a block. *)
Definition fits (size a : Z) (h : BlockHeader) : Prop := size + page_gap (data_ptr a) ≤ block_size h.
#[local] Instance fits_dec size a h : Decision (fits size a h).
Proof. unfold fits. apply _. Defined.

Lemma align_up_eq d : 0 ≤ d → d + PAGE_SIZE < 2 ^ 64 → align_up d = Val (d + page_gap d).
Proof.
  intros H0 H1. unfold align_up, page_gap. rewrite uadd_val by (unfold PAGE_SIZE in *; lia). simpl.
  rewrite usub_val by (unfold PAGE_SIZE in *; lia). simpl. f_equal.
  change (Z.land (d + PAGE_SIZE - 1) (unot 64 (PAGE_SIZE - 1))) with (align_down (d + PAGE_SIZE - 1)).
  rewrite align_down_eq by (unfold PAGE_SIZE in *; lia). unfold PAGE_SIZE. divlia.
Qed.

(** The list below the head is searched from the front. *)
Lemma find_loop w size : heap_inv w → 0 ≤ size ≤ MAX_ALLOC_SIZE →
  ∀ l2 l1 fuel, dlist (headers w) (free_list_head w) (l1 ++ l2) →
    (∀ a, a ∈ l2 → ∃ h, headers w !! a = Some h ∧ is_free h = true) → (length l2 < fuel)%nat →
  ∃ r, loop_fuel fuel (find_step w size) (head l2) = Val r ∧
    match r with
    | Ok b => ∃ m1 m2 h, l2 = m1 ++ b :: m2 ∧ headers w !! b = Some h ∧ fits size b h ∧
        ∀ a ha, a ∈ m1 → headers w !! a = Some ha → ¬ fits size a ha
    | Err e => e = "Out of memory" ∧ ∀ a ha, a ∈ l2 → headers w !! a = Some ha → ¬ fits size a ha
    end.
Proof.
  intros Hinv Hsize l2. induction l2 as [|x l2 IH]; intros l1 [|fuel] Hdl Hfree Hfuel; try (simpl in *; lia).
  { exists (Err "Out of memory"). split; [done|]. split; [done|]. by intros a ha Ha%not_elem_of_nil. }
  destruct (dl_linked _ _ _ Hdl l1 x l2 eq_refl) as (h & Hx & _ & Hn).
  destruct (Hfree x) as (h' & Hx' & Hf); [by left|]. simplify_eq.
  pose proof (bo_block _ _ _ (hi_blocks w Hinv) x h Hx) as (_ & Hs & He & Hmin & H8 & _).
  destruct (hi_range w Hinv) as [Hr1 Hr2]. pose proof header_size_range as [Hhs _].
  assert (0 ≤ page_gap (data_ptr x) < PAGE_SIZE) as Hgap by (apply Z.mod_pos_bound; done).
  assert (∃ o, find_step w size (Some x) = Val o ∧
    o = if decide (fits size x h) then Return (Ok x) else Next (head l2)) as (o & Hstep & ->).
  { eexists. split; [|reflexivity]. unfold find_step. rewrite (load_val _ _ h) by done.
    cbn [mbind outcome_bind]. rewrite Hf, Hn. simpl. unfold fits, data_ptr, PAGE_SIZE, MIN_ALLOC_SIZE, MAX_ALLOC_SIZE in *.
    destruct (Z.leb_spec size (block_size h)).
    - rewrite align_up_eq by (unfold PAGE_SIZE; lia). cbn [mbind outcome_bind]. rewrite usub_val by lia.
      cbn [mbind outcome_bind]. rewrite uadd_val by lia. cbn [mbind outcome_bind].
      destruct (Z.leb_spec (size + (x + block_header_size + page_gap (x + block_header_size) - (x + block_header_size)))
        (block_size h)); destruct (decide _); try done; lia.
    - destruct (decide _); [lia|done]. }
  cbn [loop_fuel head]. rewrite Hstep. destruct (decide (fits size x h)) as [Hfit|Hfit].
  { exists (Ok x). split; [done|]. exists [], l2, h. split_and!; try done. by intros a ha Ha%not_elem_of_nil. }
  destruct (IH (l1 ++ [x]) fuel) as (r & Hr & Hres); [by rewrite <-app_assoc| |simpl in *; lia|].
  { intros a Ha. apply Hfree. by right. }
  exists r. split; [done|]. destruct r as [b|e].
  - destruct Hres as (m1 & m2 & hb & -> & Hb & Hfb & Hno). exists (x :: m1), m2, hb. split_and!; try done.
    intros a ha [->|Ha]%elem_of_cons Hha; [by simplify_eq|eauto].
  - destruct Hres as [-> Hno]. split; [done|]. intros a ha [->|Ha]%elem_of_cons Hha; [by simplify_eq|eauto].
Qed.

Lemma dlist_length (H : gmap Z BlockHeader) hd fl : dlist H hd fl → (length fl ≤ size H)%nat.
Proof.
  intros Hdl. rewrite <-size_dom, <-(size_list_to_set (C:=gset Z) fl) by apply Hdl.
  apply subseteq_size. intros a Ha%elem_of_list_to_set. by eapply elem_of_dom, dlist_lookup.
Qed.

Lemma find_free_block_spec w sz al fl : heap_inv w → 0 ≤ sz ≤ MAX_ALLOC_SIZE →
  dlist (headers w) (free_list_head w) fl →
  (∀ a, a ∈ fl ↔ ∃ h, headers w !! a = Some h ∧ is_free h = true) →
  ∃ r, find_free_block w sz al = Val r ∧
    match r with
    | Ok b => ∃ m1 m2 h, fl = m1 ++ b :: m2 ∧ headers w !! b = Some h ∧ is_free h = true ∧ fits sz b h ∧
        ∀ a ha, a ∈ m1 → headers w !! a = Some ha → ¬ fits sz a ha
    | Err e => e = "Out of memory" ∧ ∀ a ha, headers w !! a = Some ha → is_free ha = true → ¬ fits sz a ha
    end.
Proof.
  intros Hinv Hsz Hdl Hfree. unfold find_free_block. pose proof (dlist_length _ _ _ Hdl).
  rewrite (dl_head _ _ _ Hdl).
  destruct (find_loop w sz Hinv Hsz fl [] (base.size (headers w) + 1)) as (r & -> & Hr);
    [done|intros a; apply Hfree|lia|].
  exists r. split; [done|]. destruct r as [b|e].
  - destruct Hr as (m1 & m2 & h & -> & Hb & ? & ?). destruct (proj1 (Hfree b)) as (h' & ? & ?);
      [rewrite elem_of_app; right; left|]. simplify_eq. eauto 10.
  - destruct Hr as [-> Hno]. split; [done|]. intros a ha Ha Hfa. apply (Hno a ha); [apply Hfree; eauto|done].
Qed.

(** ** Splitting *)
Definition free_at (H : gmap Z BlockHeader) (a : Z) : Prop := ∃ h, H !! a = Some h ∧ is_free h = true.
Lemma free_at_core H H' a : same_core H H' → free_at H' a ↔ free_at H a.
Proof.
  intros Hs. specialize (Hs a). unfold free_at.
  destruct (H !! a) as [h|], (H' !! a) as [h'|]; simpl in *; try done.
  injection Hs as _ _ Hf _. split; intros (h0 & [= <-] & ?); eexists; (split; [done|congruence]).
Qed.

Lemma split_block_spec w b h m1 m2 n : heap_inv w → headers w !! b = Some h → is_free h = true →
  dlist (headers w) (free_list_head w) (m1 ++ b :: m2) →
  (∀ a, a ∈ m1 ++ b :: m2 ↔ free_at (headers w) a) →
  n mod 8 = 0 → MIN_ALLOC_SIZE ≤ n ≤ MAX_ALLOC_SIZE → n ≤ block_size h →
  ∃ w' m1' h', split_block w b n = Val w' ∧
    (heap_start w' = heap_start w ∧ heap_size w' = heap_size w ∧ heap_stats w' = heap_stats w ∧
     next_alloc_id w' = next_alloc_id w) ∧
    blocks_ok (heap_start w) (heap_start w + heap_size w) (headers w') ∧
    dlist (headers w') (free_list_head w') (m1' ++ b :: m2) ∧
    (∀ a, a ∈ m1' ++ b :: m2 ↔ free_at (headers w') a) ∧
    headers w' !! b = Some h' ∧ n ≤ block_size h' ≤ block_size h ∧ live w' = live w.
Proof.
  intros Hinv Hb Hfb Hdl Hfree Hn8 Hn Hle. pose proof (hi_blocks w Hinv) as Hok. unfold split_block.
  pose proof (bo_block _ _ _ Hok b h Hb) as (_ & Hs & He & Hmin & Hb8 & Hsz8).
  destruct (hi_range w Hinv) as [Hr1 Hr2]. pose proof header_size_range as [Hhs Hhs8].
  rewrite (load_val _ _ h) by done. cbn [mbind outcome_bind].
  unfold data_ptr, PAGE_SIZE, MIN_ALLOC_SIZE, MAX_ALLOC_SIZE in *.
  rewrite (uadd_val 64 n block_header_size) by lia. cbn [mbind outcome_bind].
  rewrite (uadd_val 64 (n + block_header_size) 16) by lia. cbn [mbind outcome_bind].
  destruct (Z.leb_spec (n + block_header_size + 16) (block_size h)) as [Hsplit|Hsplit].
  2: { exists w, m1, h. split_and!; try done; lia. }
  rewrite usub_val by lia. cbn [mbind outcome_bind]. rewrite usub_val by lia. cbn [mbind outcome_bind].
  rewrite uadd_val by lia. cbn [mbind outcome_bind].
  set (nb := b + block_header_size + n). set (nh := header_new (block_size h - n - block_header_size)).
  destruct (blocks_ok_split _ _ _ b h n Hok Hb Hn8) as [Hnb Hok1]; [unfold MIN_ALLOC_SIZE; lia..|].
  unfold data_ptr in Hnb, Hok1. fold nb in Hnb, Hok1. fold nh in Hok1.
  assert (nb mod 8 = 0) as Hnb8 by (unfold nb; divlia). assert (nb ≠ b) as Hne by (unfold nb; lia).
  rewrite store_val by done. cbn [mbind outcome_bind].
  rewrite (modify_val _ _ _ h) by (simpl; rewrite ?lookup_insert_ne; done). cbn [mbind outcome_bind].
  unfold non_null. rewrite (proj2 (Z.eqb_neq nb 0)) by (unfold nb; lia).
  set (M := <[b := with_size n h]> (<[nb := nh]> (headers w))) in *.
  assert (nb ∉ m1 ++ b :: m2) as Hnfl.
  { intros (x & Hx & _)%Hfree. congruence. }
  assert (M !! nb = Some nh) as HMnb by (unfold M; by rewrite lookup_insert_ne, lookup_insert_eq).
  assert (M !! b = Some (with_size n h)) as HMb by (unfold M; by rewrite lookup_insert_eq).
  assert (∀ a, a ≠ b → a ≠ nb → M !! a = headers w !! a) as HMo.
  { intros a Ha1 Ha2. unfold M. by rewrite !lookup_insert_ne. }
  destruct (add_to_free_list_spec (set_headers w M) (m1 ++ b :: m2) nb) as (M' & Hadd & Hdl' & Hc).
  { split; [apply Hdl| |apply Hdl]. apply (linked_mono (headers w)); [|apply Hdl].
    intros a ha Ha Hha. simpl. destruct (decide (a = b)) as [->|]; [simplify_eq; eauto|].
    exists ha. rewrite HMo; [done|done|]. intros ->. done. }
  { by apply (blocks_ok_aligned _ _ _ Hok1). }
  { done. } { simpl. eauto. }
  simpl in Hc.
  assert (∀ a, free_at M' a ↔ a = nb ∨ free_at (headers w) a) as HfM.
  { intros a. rewrite (free_at_core M M' a Hc). unfold free_at.
    destruct (decide (a = nb)) as [->|]; [rewrite HMnb; naive_solver|].
    destruct (decide (a = b)) as [->|]; [rewrite HMb, Hb; naive_solver|]. rewrite HMo by done. naive_solver. }
  destruct (same_core_lookup M' M b (with_size n h) (same_core_sym _ _ Hc) HMb) as (hb & Hhb & [= _ Hsz Hf _]).
  eexists _, (nb :: m1), hb. split; [exact Hadd|]. split_and!; try done.
  - by eapply blocks_ok_core.
  - intros a. simpl. rewrite elem_of_cons, Hfree. by rewrite HfM.
  - simpl in Hsz. lia.
  - simpl in Hsz. lia.
  - rewrite (live_core (set_headers w M)) by done. apply map_eq. intros a. unfold live. rewrite !lookup_omap. simpl.
    destruct (decide (a = nb)) as [->|]; [by rewrite HMnb, Hnb|].
    destruct (decide (a = b)) as [->|]; [rewrite HMb, Hb; simpl; by rewrite Hfb|]. by rewrite HMo.
Qed.

(** ** Statistics

    The counters of [AllocationStats] can overflow: in builds with overflow
    checks that is a panic, in others they wrap.  [safe over Q o]: [o] returns a
    value in [Q], or panics, and then [over] holds.  The operations are [safe] with
    [over] saying which counters have no room: an access to an invalid or misaligned
    header, which is [Panic] in every build, is excluded. *)
Definition safe {A} (over : Prop) (Q : A → Prop) (o : outcome A) : Prop :=
  match o with Val a => Q a | Panic => over | Fuel => False end.

(** The counters have room for an allocation of [size] bytes, for the release of a
    block of [size] bytes. *)
Definition allocation_counted (s : AllocationStats) (size : Z) : Prop :=
  0 ≤ total_allocations s + 1 < 2 ^ 64 ∧ 0 ≤ current_allocations s + 1 < 2 ^ 64 ∧
  0 ≤ bytes_allocated s + size < 2 ^ 64 ∧ 0 ≤ current_bytes s + size < 2 ^ 64 ∧
  0 ≤ free_bytes s - size < 2 ^ 64.
Definition release_counted (s : AllocationStats) (size : Z) : Prop :=
  0 ≤ total_deallocations s + 1 < 2 ^ 64 ∧ 0 ≤ current_allocations s - 1 < 2 ^ 64 ∧
  0 ≤ bytes_deallocated s + size < 2 ^ 64 ∧ 0 ≤ current_bytes s - size < 2 ^ 64 ∧
  0 ≤ free_bytes s + size < 2 ^ 64.
Definition allocation_overflows w (size : Z) : Prop :=
  debug_assertions = true ∧
  ¬ (0 ≤ next_alloc_id w + 1 < 2 ^ 64 ∧ allocation_counted (heap_stats w) size).
Definition release_overflows w (size : Z) : Prop :=
  debug_assertions = true ∧ ¬ release_counted (heap_stats w) size.

Lemma safe_bind {A B} over (Q : B → Prop) (f : A → outcome B) o :
  safe over (λ a, safe over Q (f a)) o → safe over Q (o ≫= f).
Proof. by destruct o. Qed.
Lemma safe_impl {A} (over over' : Prop) (Q Q' : A → Prop) o :
  (over → over') → (∀ a, Q a → Q' a) → safe over Q o → safe over' Q' o.
Proof. destruct o; simpl; auto. Qed.
Lemma safe_arith (over : Prop) Q n z :
  (debug_assertions = true → ¬ (0 ≤ z < 2 ^ n) → over) → (∀ v, Q v) → safe over Q (arith n z).
Proof.
  intros Ho HQ. unfold arith, in_width. destruct (0 <=? z) eqn:E1, (z <? 2 ^ n) eqn:E2; simpl; auto;
    destruct debug_assertions eqn:E; simpl; auto; apply Ho; auto;
    [apply Z.ltb_ge in E2|apply Z.leb_gt in E1..]; lia.
Qed.
Lemma count_allocation_safe Q s n : (∀ s, Q s) →
  safe (debug_assertions = true ∧ ¬ allocation_counted s n) Q (count_allocation s n).
Proof.
  intros HQ. repeat (apply safe_bind, safe_arith;
    [intros; split; [done|unfold allocation_counted; tauto]|intros ?]). apply HQ.
Qed.
Lemma count_deallocation_safe Q s n : (∀ s, Q s) →
  safe (debug_assertions = true ∧ ¬ release_counted s n) Q (count_deallocation s n).
Proof.
  intros HQ. repeat (apply safe_bind, safe_arith;
    [intros; split; [done|unfold release_counted; tauto]|intros ?]). apply HQ.
Qed.

(** ** Allocation *)
Definition same_region w w' : Prop := heap_start w' = heap_start w ∧ heap_size w' = heap_size w.

(** Taking the block [b] out of the free list and marking it used. *)
Lemma take_block_spec w w0 b h hb m1 m2 : blocks_ok (heap_start w) (heap_start w + heap_size w) (headers w) →
  0 < heap_start w ∧ heap_start w + heap_size w ≤ 2 ^ 64 - PAGE_SIZE →
  headers w !! b = Some h →
  dlist (headers w) (free_list_head w) (m1 ++ b :: m2) → (∀ a, a ∈ m1 ++ b :: m2 ↔ free_at (headers w) a) →
  shape hb = shape h → prev hb = prev h → next hb = next h → is_free hb = false →
  headers w0 = <[b := hb]> (headers w) → free_list_head w0 = free_list_head w → same_region w w0 →
  ∃ w', remove_from_free_list w0 b = Val w' ∧
    heap_inv w' ∧ same_region w w' ∧ live w' = <[b := block_size h]> (live w) ∧ heap_stats w' = heap_stats w0.
Proof.
  intros Hok Hr Hb Hdl Hfree Hsh Hpv Hnx Hff Hw0 Hhd [Hst0 Hsz0]. set (M := <[b := hb]> (headers w)) in *.
  assert (blocks_ok (heap_start w) (heap_start w + heap_size w) M) as HokM by by apply (blocks_ok_insert _ _ _ _ h).
  destruct (remove_from_free_list_spec w0 m1 b m2) as (w' & Hrm & Hst & Hsz & Hstat & _ & Hdl' & Hc).
  { rewrite Hw0, Hhd. split; [apply Hdl| |apply Hdl]. apply (linked_mono (headers w)); [|apply Hdl].
    intros a ha Ha Hha. unfold M. destruct (decide (a = b)) as [->|].
    - simplify_eq. exists hb. by rewrite lookup_insert_eq.
    - exists ha. by rewrite lookup_insert_ne. }
  { rewrite Hw0. by eapply blocks_ok_aligned. }
  rewrite Hw0 in Hc. exists w'. split; [done|]. split_and!; [|split; congruence| |done].
  - split; rewrite ?Hst, ?Hsz, ?Hst0, ?Hsz0; [by eapply blocks_ok_core|done|]. exists (m1 ++ m2). split; [done|].
    intros a. change (a ∈ m1 ++ m2 ↔ free_at (headers w') a). rewrite (free_at_core M) by done.
    assert (a ∈ m1 ++ m2 ↔ a ∈ m1 ++ b :: m2 ∧ a ≠ b) as ->.
    { pose proof (dl_nodup _ _ _ Hdl) as Hnd. apply NoDup_app in Hnd as (_ & Hd1 & [Hd2 _]%NoDup_cons).
      rewrite !elem_of_app, elem_of_cons. split; [|naive_solver].
      intros [Ha|Ha]; (split; [by auto|]); intros ->; [apply (Hd1 b Ha); left|done]. }
    rewrite Hfree. unfold free_at, M. destruct (decide (a = b)) as [->|Hne].
    + rewrite lookup_insert_eq. split; [naive_solver|]. intros (? & [= <-] & ?). congruence.
    + rewrite lookup_insert_ne by done. naive_solver.
  - rewrite (live_core (set_headers w M)) by done. apply map_eq. intros a. unfold live. rewrite lookup_omap. simpl.
    unfold M. injection Hsh as _ Hbs. destruct (decide (a = b)) as [->|Hne].
    + rewrite !lookup_insert_eq. simpl. by rewrite Hff, Hbs.
    + by rewrite !lookup_insert_ne, lookup_omap by done.
Qed.

Lemma heap_inv_stats w s i : heap_inv w → heap_inv (set_stats w s i).
Proof. intros [? ? ?]. by split. Qed.

Lemma data_ptr_non_null w b h : heap_inv w → headers w !! b = Some h → non_null (data_ptr b) = Some (data_ptr b).
Proof.
  intros Hinv Hb. unfold non_null. pose proof header_size_range as [? _].
  pose proof (bo_block _ _ _ (hi_blocks w Hinv) b h Hb) as (_ & ? & _). destruct (hi_range w Hinv).
  by rewrite (proj2 (Z.eqb_neq (data_ptr b) 0)) by (unfold data_ptr; lia).
Qed.

(** The debug pattern stays inside the block it fills. *)
Lemma scribble_id w b n k : heap_inv w → live w !! b = Some n → k ≤ n →
  (if debug_assertions then write_bytes w (data_ptr b) k else w) = w.
Proof.
  intros Hinv (h & Hb & _ & <-)%lookup_live Hk. destruct debug_assertions; [|done].
  apply (write_bytes_id _ (heap_start w) (heap_start w + heap_size w) b h); [apply Hinv|done|lia|lia].
Qed.

(** What [allocate] does to the blocks. *)
Definition allocated (sz : Z) w (r : result Z string) w' : Prop :=
  heap_inv w' ∧ same_region w w' ∧
  let size := Z.max sz MIN_ALLOC_SIZE in
  match r with
  | Ok ptr => size ≤ MAX_ALLOC_SIZE ∧ ∃ b h n, ptr = data_ptr b ∧ headers w !! b = Some h ∧ is_free h = true ∧
      fits size b h ∧ size ≤ n ≤ block_size h ∧ live w' = <[b := n]> (live w)
  | Err e => w' = w ∧
      (e = "Allocation too large" ∧ MAX_ALLOC_SIZE < size ∨
       e = "Out of memory" ∧ ∀ a h, headers w !! a = Some h → is_free h = true → ¬ fits size a h)
  end.

Lemma allocate_spec w sz al : heap_inv w → 0 ≤ sz → sz mod 8 = 0 →
  safe (allocation_overflows w (Z.max sz MIN_ALLOC_SIZE)) (λ '(r, w'), allocated sz w r w') (allocate w sz al).
Proof.
  intros Hinv Hsz Hsz8. unfold allocate, allocated. set (size := Z.max sz MIN_ALLOC_SIZE).
  assert (size mod 8 = 0) as H8 by (unfold size, MIN_ALLOC_SIZE; destruct (Z.max_spec sz 16) as [[_ ->]|[_ ->]]; done).
  destruct (Z.ltb_spec MAX_ALLOC_SIZE size) as [Hbig|Hbig].
  { simpl. split_and!; try done. auto. }
  pose proof Hinv as [Hok Hr (fl & Hdl & Hfree)].
  destruct (find_free_block_spec w size al fl Hinv) as (r & -> & Hfind); [unfold size, MIN_ALLOC_SIZE in *; lia|done|done|].
  cbn [mbind outcome_bind]. destruct r as [b|e]; [|destruct Hfind as [-> ?]; simpl; split_and!; auto; done].
  destruct Hfind as (m1 & m2 & h & -> & Hb & Hfb & Hfit & _).
  assert (0 ≤ page_gap (data_ptr b)) as Hgap by (apply Z.mod_pos_bound; done).
  destruct (split_block_spec w b h m1 m2 size Hinv Hb Hfb Hdl Hfree H8)
    as (w1 & m1' & h1 & -> & (Hst & Hsiz & Hstat & Hid) & Hok1 & Hdl1 & Hfree1 & Hb1 & Hn & Hlive1).
  { unfold size, MIN_ALLOC_SIZE in *. lia. } { unfold fits in Hfit. lia. }
  rewrite <-Hst, <-Hsiz in Hok1, Hr.
  pose proof (blocks_ok_aligned _ _ _ Hok1 b ltac:(eauto)) as Hb8.
  cbn [mbind outcome_bind]. rewrite (modify_val _ _ _ h1) by done. cbn [mbind outcome_bind].
  pose proof (λ w0 hb, take_block_spec w1 w0 b h1 hb m1' m2 Hok1 Hr Hb1 Hdl1 Hfree1) as Htake.
  rewrite (data_ptr_non_null w b h Hinv Hb).
  assert (∀ w0 hb, shape hb = shape h1 → prev hb = prev h1 → next hb = next h1 → is_free hb = false →
    headers w0 = <[b := hb]> (headers w1) → free_list_head w0 = free_list_head w1 → same_region w1 w0 →
    heap_stats w0 = heap_stats w1 →
    safe (allocation_overflows w size) (λ '(r, w'), allocated sz w r w')
      (w ← remove_from_free_list w0 b; s ← count_allocation (heap_stats w) size;
       let w := set_stats w s (next_alloc_id w) in
       let w := if debug_assertions then write_bytes w (data_ptr b) size else w in
       Val (Ok (data_ptr b), w))) as Hend.
  { intros w0 hb H1 H2 H3 H4 H5 H6 H7 H9. destruct (Htake w0 hb H1 H2 H3 H4 H5 H6 H7) as (w' & -> & Hi & Hg & Hv & Hs).
    cbn [mbind outcome_bind]. apply safe_bind. rewrite Hs, H9, Hstat.
    eapply safe_impl; [|intros ? H; exact H|apply count_allocation_safe]; [intros [? Hno]; split; [done|tauto]|]. intros s.
    rewrite (scribble_id (set_stats w' s (next_alloc_id w')) b (block_size h1) size);
      [|by apply heap_inv_stats|change (live w' !! b = Some (block_size h1)); by rewrite Hv, lookup_insert_eq|lia].
    split; [by apply heap_inv_stats|]. destruct Hg as [? ?]. split; [split; simpl; congruence|]. fold size.
    split; [done|]. exists b, h, (block_size h1). split_and!; try done; [lia..|].
    change (live w' = <[b := block_size h1]> (live w)). congruence. }
  destruct debug_assertions eqn:Edbg.
  - rewrite (modify_val _ _ _ (with_free false h1)); [|done|by simpl; rewrite lookup_insert_eq].
    cbn [mbind outcome_bind]. apply safe_bind, safe_bind, safe_arith;
      [cbn; rewrite Hid; intros; split; [done|tauto]|]. intros i. cbn [safe].
    apply (Hend _ (with_id (next_alloc_id w1) (with_free false h1))); try done. simpl. by rewrite insert_insert_eq.
  - cbn [mbind outcome_bind]. by apply (Hend _ (with_free false h1)).
Qed.

(** ** Release *)
Lemma deallocate_spec w b n : heap_inv w → live w !! b = Some n →
  safe (release_overflows w n) (λ '(r, w'), r = Ok () ∧ heap_inv w' ∧ same_region w w' ∧ live w' = delete b (live w))
    (deallocate w (data_ptr b)).
Proof.
  intros Hinv (h & Hb & Hf & <-)%lookup_live. pose proof Hinv as [Hok Hr (fl & Hdl & Hfree)].
  pose proof (bo_block _ _ _ Hok b h Hb) as (Hm & Hs & He & Hmin & Hb8 & _). unfold deallocate, from_data_ptr.
  replace (data_ptr b - block_header_size) with b by (unfold data_ptr; lia).
  unfold non_null. rewrite (proj2 (Z.eqb_neq b 0)) by lia.
  rewrite (load_val _ _ h) by done. cbn [mbind outcome_bind]. unfold is_valid.
  rewrite (proj2 (Z.eqb_eq _ _) Hm), Hf. cbn [negb].
  rewrite (modify_val _ _ _ h) by done. cbn [mbind outcome_bind].
  set (M := <[b := with_free true h]> (headers w)).
  assert (blocks_ok (heap_start w) (heap_start w + heap_size w) M) as HokM by by apply (blocks_ok_insert _ _ _ _ h).
  assert (M !! b = Some (with_free true h)) as HMb by (unfold M; by rewrite lookup_insert_eq).
  assert ((if debug_assertions then write_bytes (set_headers w M) (data_ptr b) (block_size h) else set_headers w M)
    = set_headers w M) as ->.
  { destruct debug_assertions; [|done]. by apply (write_bytes_id _ (heap_start w) (heap_start w + heap_size w) b
      (with_free true h)). }
  apply safe_bind, count_deallocation_safe. intros s.
  assert (b ∉ fl) as Hbfl. { intros (h' & ? & ?)%Hfree. simplify_eq. congruence. }
  destruct (add_to_free_list_spec (set_stats (set_headers w M) s (next_alloc_id (set_headers w M))) fl b)
    as (M' & Hadd & Hdl' & Hc); simpl in *.
  { split; [apply Hdl| |apply Hdl]. apply (linked_mono (headers w)); [|apply Hdl]. intros a ha Ha Hha.
    exists ha. unfold M. rewrite lookup_insert_ne; [done|]. by intros <-. }
  { by eapply blocks_ok_aligned. } { done. } { eauto. }
  rewrite Hadd. cbn [mbind outcome_bind]. unfold coalesce_free_blocks.
  destruct (same_core_lookup M' M b _ (same_core_sym _ _ Hc) HMb) as (hb & Hhb & _).
  rewrite (load_val _ _ hb) by done. cbn [mbind outcome_bind safe]. split_and!; [done| |done|].
  - split; [by eapply blocks_ok_core|done|]. exists (b :: fl). split; [done|]. intros a. simpl.
    change (a ∈ b :: fl ↔ free_at M' a). rewrite (free_at_core M) by done. rewrite elem_of_cons, Hfree.
    unfold free_at, M. destruct (decide (a = b)) as [->|Hne].
    + rewrite lookup_insert_eq. naive_solver.
    + rewrite lookup_insert_ne by done. naive_solver.
  - rewrite (live_core (set_headers w M)) by done. apply map_eq. intros a. unfold live. rewrite lookup_omap. simpl.
    unfold M. destruct (decide (a = b)) as [->|Hne].
    + by rewrite lookup_insert_eq, lookup_delete_eq.
    + by rewrite lookup_insert_ne, lookup_delete_ne, lookup_omap by done.
Qed.

Lemma deallocate_twice w b h : heap_inv w → headers w !! b = Some h → is_free h = true →
  deallocate w (data_ptr b) = Val (Err "Double free detected", w).
Proof.
  intros Hinv Hb Hf. pose proof (bo_block _ _ _ (hi_blocks w Hinv) b h Hb) as (Hm & Hs & _ & _ & Hb8 & _).
  destruct (hi_range w Hinv). unfold deallocate, from_data_ptr.
  replace (data_ptr b - block_header_size) with b by (unfold data_ptr; lia).
  unfold non_null. rewrite (proj2 (Z.eqb_neq b 0)) by lia.
  rewrite (load_val _ _ h) by done. cbn [mbind outcome_bind]. unfold is_valid.
  by rewrite (proj2 (Z.eqb_eq _ _) Hm), Hf.
Qed.

(** ** The integrity check

    It accepts every well-formed heap with at most 10000 free blocks, and calls
    the list of a larger one circular. *)
Lemma validate_loop w : heap_inv w → ∀ l2 l1 fuel, dlist (headers w) (free_list_head w) (l1 ++ l2) →
  (∀ a, a ∈ l2 → free_at (headers w) a) → len l1 ≤ 10000 → 10001 - len l1 < Z.of_nat fuel →
  loop_fuel fuel (validate_step w) (head l2, len l1) =
    Val (if decide (len (l1 ++ l2) ≤ 10000) then Ok () else Err "Heap corruption: possible circular free list").
Proof.
  intros Hinv l2. induction l2 as [|x l2 IH]; intros l1 [|fuel] Hdl Hfree Hl1 Hfuel; try (unfold len in *; lia).
  { rewrite app_nil_r, decide_True by done. done. }
  destruct (dl_linked _ _ _ Hdl l1 x l2 eq_refl) as (h & Hx & _ & Hn).
  destruct (Hfree x) as (h' & Hx' & Hf); [by left|]. simplify_eq.
  pose proof (bo_block _ _ _ (hi_blocks w Hinv) x h Hx) as (Hm & Hs & He & Hmin & H8 & _).
  destruct (hi_range w Hinv) as [Hr1 Hr2]. pose proof header_size_range as [Hhs _].
  cbn [loop_fuel head]. unfold validate_step at 2. rewrite (load_val _ _ h) by done.
  cbn [mbind outcome_bind]. unfold is_valid, total_size, data_ptr, PAGE_SIZE, MIN_ALLOC_SIZE in *.
  rewrite (proj2 (Z.eqb_eq _ _) Hm), Hf. cbn [negb].
  rewrite uadd_val by lia. cbn [mbind outcome_bind]. rewrite uadd_val by lia. cbn [mbind outcome_bind].
  rewrite uadd_val by lia. cbn [mbind outcome_bind].
  rewrite (proj2 (Z.ltb_ge _ _)) by lia. rewrite (proj2 (Z.ltb_ge _ _)) by lia. cbn [orb].
  assert (len (l1 ++ x :: l2) = len l1 + 1 + len l2) as Hlen by (unfold len; rewrite length_app; simpl; lia).
  destruct (Z.ltb_spec 10000 (len l1 + 1)).
  { rewrite decide_False; [done|]. pose proof (len_nonneg l2). lia. }
  rewrite Hn. replace (len l1 + 1) with (len (l1 ++ [x])) by (unfold len; rewrite length_app; simpl; lia).
  cbn [mbind outcome_bind]. rewrite IH; [by rewrite <-app_assoc|by rewrite <-app_assoc|intros a Ha; apply Hfree; by right| |];
    unfold len in *; rewrite ?length_app in *; simpl in *; lia.
Qed.

Lemma validate_heap_spec w fl : heap_inv w → dlist (headers w) (free_list_head w) fl →
  (∀ a, a ∈ fl ↔ free_at (headers w) a) →
  validate_heap w =
    Val (if decide (len fl ≤ 10000) then Ok () else Err "Heap corruption: possible circular free list").
Proof.
  intros Hinv Hdl Hfree. unfold validate_heap. rewrite (dl_head _ _ _ Hdl).
  apply (validate_loop w Hinv fl []); [done|intros a; apply Hfree|unfold len; simpl; lia|].
  rewrite Z2Nat.id by lia. unfold len. simpl. lia.
Qed.

(** ** Initialisation *)
Context {S : Type} {FA : FrameAllocator S}.

Definition region_frames w : gset Z := list_to_set (seqZ (heap_start w / PAGE_SIZE) (heap_size w / PAGE_SIZE)).

Lemma region_frames_spec w x : heap_start w mod PAGE_SIZE = 0 → heap_size w mod PAGE_SIZE = 0 →
  heap_start w ≤ x < heap_start w + heap_size w → x / PAGE_SIZE ∈ region_frames w.
Proof.
  unfold region_frames, PAGE_SIZE. intros Hs Hz Hx. rewrite elem_of_list_to_set, elem_of_seqZ. divlia.
Qed.

Lemma heap_init_spec fa pages : fa_inv fa → (∀ f, f ∈ fa_free fa → 0 < f < 2 ^ 52 - 1) → 0 ≤ pages < 2 ^ 52 →
  ∃ r w fa', heap_init heap_new fa pages = Val (r, w, fa') ∧
    match r with
    | Ok _ => heap_inv w ∧ live w = ∅ ∧ heap_start w mod PAGE_SIZE = 0 ∧ heap_size w = pages * PAGE_SIZE ∧
        region_frames w ⊆ fa_free fa ∧ fa_free fa' = fa_free fa ∖ region_frames w
    | Err _ => w = heap_new ∧ fa' = fa
    end.
Proof.
  intros Hfa Hrange Hp. unfold heap_init. destruct (Z.eqb_spec pages 0) as [->|Hne].
  { eexists _, _, _. split; [done|]. done. }
  pose proof (fa_allocate_spec fa pages Hfa ltac:(lia)) as Halloc.
  destruct (fa_allocate fa pages) as [[[start|] fa']| |]; try done; cbn [mbind outcome_bind].
  2: { eexists _, _, _. split; [done|]. done. }
  destruct Halloc as (Hs0 & _ & Hsub & Hfree').
  assert (∀ f, start ≤ f < start + pages → 0 < f < 2 ^ 52 - 1) as Hfr.
  { intros f Hf. apply Hrange, Hsub. rewrite elem_of_list_to_set, elem_of_seqZ. lia. }
  pose proof (Hfr start ltac:(lia)). pose proof (Hfr (start + pages - 1) ltac:(lia)).
  pose proof header_size_range as [Hhs Hhs8]. unfold frame_address, PAGE_SIZE in *.
  rewrite umul_val by lia. cbn [mbind outcome_bind]. rewrite umul_val by lia. cbn [mbind outcome_bind].
  rewrite usub_val by lia. cbn [mbind outcome_bind]. rewrite store_val by divlia. cbn [mbind outcome_bind].
  eexists _, _, _. split; [reflexivity|].
  assert (∀ H : gmap Z BlockHeader, H = ∅ → filter (λ kh : Z * BlockHeader, ¬ (kh.1 < start * 4096 + pages * 4096 ∧
    start * 4096 < kh.1 + block_header_size)) H = ∅) as Hfil by (intros ? ->; apply map_filter_empty).
  assert (∀ a h, <[start * 4096 := header_new (pages * 4096 - block_header_size)]>
      (headers (write_bytes heap_new (start * 4096) (pages * 4096))) !! a = Some h →
      a = start * 4096 ∧ h = header_new (pages * 4096 - block_header_size)) as Hone.
  { intros a h. simpl. rewrite Hfil by done. rewrite lookup_insert_Some, lookup_empty. naive_solver. }
  split_and!; simpl.
  - split; simpl; [split|unfold PAGE_SIZE; lia|].
    + intros a h [-> ->]%Hone. simpl. unfold data_ptr, MIN_ALLOC_SIZE. split_and!; try done; try lia; divlia.
    + intros a h b h' [-> _]%Hone [-> _]%Hone. lia.
    + intros x Hx. eexists _, _. rewrite lookup_insert_eq. split; [done|]. unfold data_ptr. simpl. lia.
    + exists [start * 4096]. unfold non_null. rewrite (proj2 (Z.eqb_neq _ _)) by lia. split.
      * split; [done| |apply NoDup_singleton]. intros l1 a l2 Heq.
        destruct l1 as [|? [|? ?]]; simplify_eq/=. eexists. by rewrite lookup_insert_eq.
      * intros a. rewrite list_elem_of_singleton. split.
        -- intros ->. eexists. by rewrite lookup_insert_eq.
        -- by intros (h & [-> _]%Hone & _).
  - apply map_empty. intros a. unfold live. rewrite lookup_omap. simpl.
    destruct (_ !! a) as [h|] eqn:E; [|done]. by apply Hone in E as [_ ->].
  - divlia.
  - done.
  - unfold region_frames. simpl. unfold PAGE_SIZE. rewrite !Z.div_mul by lia. done.
  - unfold region_frames. simpl. unfold PAGE_SIZE. rewrite !Z.div_mul by lia. done.
Qed.

(** ** Clients

    One step of the kernel as a client of the global allocator: allocating (sizes
    are multiples of 8), freeing a live block, or writing inside a live block. *)
Inductive heap_step : KernelHeapAllocator → KernelHeapAllocator → Prop :=
  | step_alloc w sz al ptr w' :
      0 ≤ sz → sz mod 8 = 0 → global_alloc w sz al = Val (ptr, w') → heap_step w w'
  | step_free w b n w' :
      live w !! b = Some n → global_dealloc w (data_ptr b) = Val w' → heap_step w w'
  | step_write w b n x k :
      live w !! b = Some n → data_ptr b ≤ x → x + k ≤ data_ptr b + n → heap_step w (write_bytes w x k).

Lemma heap_step_inv w w' : heap_step w w' → heap_inv w → heap_inv w' ∧ same_region w w'.
Proof.
  intros [w0 sz al ptr w1 H0 H8 Ha|w0 b n w1 Hl Hd|w0 b n x k Hl Hx Hk] Hinv.
  - pose proof (allocate_spec w0 sz al Hinv H0 H8) as Hs. unfold global_alloc in Ha.
    destruct (allocate w0 sz al) as [[r w2]| |]; try done. destruct Hs as (Hi & Hg & _).
    destruct r; simpl in Ha; by simplify_eq.
  - pose proof (deallocate_spec w0 b n Hinv Hl) as Hs. apply lookup_live in Hl as (h & Hb & _).
    unfold global_dealloc in Hd. rewrite (data_ptr_non_null w0 b h Hinv Hb) in Hd.
    destruct (deallocate w0 (data_ptr b)) as [[r w2]| |]; try done. destruct Hs as (_ & Hi & Hg & _).
    simpl in Hd. by simplify_eq.
  - apply lookup_live in Hl as (h & Hb & _ & <-).
    by rewrite (write_bytes_id w0 (heap_start w0) (heap_start w0 + heap_size w0) b h x k (hi_blocks w0 Hinv) Hb Hx Hk).
Qed.

Lemma heap_reachable_inv w w' : rtc heap_step w w' → heap_inv w → heap_inv w' ∧ same_region w w'.
Proof.
  induction 1 as [w|w w1 w2 Hs _ IH]; intros Hinv; [done|].
  destruct (heap_step_inv w w1 Hs Hinv) as [Hi [? ?]]. destruct (IH Hi) as [? [? ?]]. split; [done|].
  split; congruence.
Qed.

(** ** Properties *)

(** C6: Memory safety of the heap.  After initialisation over a well-behaved
    frame allocator, whatever clients do that ask for multiples of 8 bytes
    (allocate, free blocks they hold, write anywhere inside their blocks), the
    headers and the free list stay intact and the blocks keep covering the region;
    live blocks are 8-aligned, do not overlap each other, and lie in frames that were
    free before and belong to nobody else now; and every further such allocation or
    release of a live block returns, in every build: no access to a header is invalid
    or misaligned.  The only exception is a build with overflow checks when one of
    the statistics counters has no room for the operation.  (For other request
    sizes the next header is misaligned, see [odd_size_misaligns_header].) *)
Theorem heap_memory_safe fa pages w0 fa' w :
  fa_inv fa → (∀ f, f ∈ fa_free fa → 0 < f < 2 ^ 52 - 1) → 0 ≤ pages < 2 ^ 52 →
  heap_init heap_new fa pages = Val (Ok (), w0, fa') → rtc heap_step w0 w →
  heap_inv w ∧
  (∀ b n, live w !! b = Some n → data_ptr b mod 8 = 0 ∧
     ∀ x, data_ptr b ≤ x < data_ptr b + n → x / PAGE_SIZE ∈ fa_free fa ∧ x / PAGE_SIZE ∉ fa_free fa') ∧
  (∀ b n b' n', live w !! b = Some n → live w !! b' = Some n' → b ≠ b' →
     data_ptr b + n ≤ b' ∨ data_ptr b' + n' ≤ b) ∧
  (∀ sz al, 0 ≤ sz → sz mod 8 = 0 → 
     safe (allocation_overflows w (Z.max sz MIN_ALLOC_SIZE)) (λ _, True) (global_alloc w sz al)) ∧
  (∀ b n, live w !! b = Some n → safe (release_overflows w n) (λ _, True) (global_dealloc w (data_ptr b))).
Proof.
  intros Hfa Hrange Hp Hinit Hsteps.
  destruct (heap_init_spec fa pages Hfa Hrange Hp) as (r & w1 & fa1 & Hi & Hr).
  rewrite Hinit in Hi. simplify_eq. destruct Hr as (Hinv0 & _ & Hal & Hsz & Hsub & Hfr).
  destruct (heap_reachable_inv _ _ Hsteps Hinv0) as [Hinv [Hst Hsz']]. pose proof Hinv as [Hok Hr _].
  pose proof header_size_range as [Hhs Hhs8]. split; [done|]. split_and!.
  - intros b n (h & Hb & _ & <-)%lookup_live.
    pose proof (bo_block _ _ _ Hok b h Hb) as (_ & ? & He & _ & ? & _).
    split; [unfold data_ptr; divlia|]. intros x Hx. unfold data_ptr in *.
    assert (x / PAGE_SIZE ∈ region_frames w1) as Hin.
    { apply region_frames_spec; [done|rewrite Hsz; unfold PAGE_SIZE; divlia|lia]. }
    split; [by apply Hsub|]. rewrite Hfr. set_solver.
  - intros b n b' n' (h & Hb & _ & <-)%lookup_live (h' & Hb' & _ & <-)%lookup_live Hne.
    destruct (decide (b < b')).
    + left. by apply (bo_disjoint _ _ _ Hok b h b' h').
    + right. apply (bo_disjoint _ _ _ Hok b' h' b h); [done..|lia].
  - intros sz al H0 H8. unfold global_alloc. pose proof (allocate_spec w sz al Hinv H0 H8) as Hs.
    apply safe_bind. destruct (allocate w sz al) as [[[?|?] ?]| |]; done.
  - intros b n Hl. pose proof (deallocate_spec w b n Hinv Hl) as Hs. apply lookup_live in Hl as (h & Hb & _).
    unfold global_dealloc. rewrite (data_ptr_non_null w b h Hinv Hb). apply safe_bind.
    destruct (deallocate w (data_ptr b)) as [[? ?]| |]; done.
Qed.

(** C35: Allocation refines a map of live blocks.  For a request of a multiple of
    8 bytes [allocate] either inserts one new block, carved out of a free block, at
    least as large as requested (and at least 16 bytes), or changes nothing and
    reports an error: exactly when the request exceeds 1 MiB, or else when no free
    block is large enough to hold the request plus the distance from its data to the
    next page boundary.  The latter is the criterion of the code, whatever alignment
    was asked for.  It returns in every build, unless overflow checks are on and a
    statistics counter has no room for the allocation. *)
Theorem heap_allocate_refines w sz al :
  heap_inv w → 0 ≤ sz → sz mod 8 = 0 →
  let size := Z.max sz MIN_ALLOC_SIZE in
  safe (allocation_overflows w size) (λ '(r, w'), heap_inv w' ∧ same_region w w' ∧
    match r with
    | Ok ptr => size ≤ MAX_ALLOC_SIZE ∧ ∃ b h n, ptr = data_ptr b ∧ headers w !! b = Some h ∧ is_free h = true ∧
        size + page_gap ptr ≤ block_size h ∧ size ≤ n ≤ block_size h ∧ live w' = <[b := n]> (live w)
    | Err e => w' = w ∧
        (e = "Allocation too large" ∧ MAX_ALLOC_SIZE < size ∨
         e = "Out of memory" ∧ ∀ b h, headers w !! b = Some h → is_free h = true →
           block_size h < size + page_gap (data_ptr b))
    end) (allocate w sz al).
Proof.
  intros Hinv H0 H8 size. pose proof (allocate_spec w sz al Hinv H0 H8) as Hs.
  destruct (allocate w sz al) as [[r w']| |]; try done. destruct Hs as (? & ? & Hs). split_and!; try done.
  destruct r as [ptr|e].
  - destruct Hs as (? & b & h & n & -> & ? & ? & ? & ? & ?). split; [done|]. by exists b, h, n.
  - destruct Hs as [-> [?|[-> Hno]]]; [by auto|]. split; [done|]. right. split; [done|].
    intros b h Hb Hf. specialize (Hno b h Hb Hf). unfold fits in Hno. unfold size. lia.
Qed.

(** Release refines the same map.  Freeing a live block removes exactly that
    block from the map of live blocks, and always succeeds (up to the overflow
    check of the statistics); freeing a block that is already free is detected
    and changes nothing. *)
Theorem heap_deallocate_refines w b h :
  heap_inv w → headers w !! b = Some h →
  if is_free h then deallocate w (data_ptr b) = Val (Err "Double free detected", w)
  else safe (release_overflows w (block_size h)) (λ '(r, w'), r = Ok () ∧ heap_inv w' ∧ same_region w w' ∧ live w' = delete b (live w))
         (deallocate w (data_ptr b)).
Proof.
  intros Hinv Hb. destruct (is_free h) eqn:Hf; [by eapply deallocate_twice|].
  apply (deallocate_spec w b (block_size h) Hinv). apply lookup_live. eauto.
Qed.
End operations.

(** ** Concrete instances

    A heap of two pages on the frames of a small manager. *)
Definition demo_heap `{Profile} (pages : Z) : KernelHeapAllocator :=
  match heap_init heap_new demo1 pages with Val (_, w, _) => w | _ => heap_new end.
Definition demo_frames `{Profile} (pages : Z) : PhysicalMemoryManager :=
  match heap_init heap_new demo1 pages with Val (_, _, fa) => fa | _ => demo1 end.

(** Two allocations that fill the heap, the second one 8 bytes short of its
    block, and their release. *)
Definition fill_and_free `{Profile} : outcome KernelHeapAllocator :=
  '(p, w) ← global_alloc (demo_heap 2) (PAGE_SIZE - 2 * block_header_size) 8;
  '(q, w) ← global_alloc w (PAGE_SIZE - 8) 8;
  w ← global_dealloc w p;
  global_dealloc w q.

(** The statistics count the requested size when a block is handed out and
    the size of the block when it comes back.  Two correct allocations and their
    releases therefore drive [current_bytes] below zero: the kernel panics in
    builds with overflow checks, and in release builds the counter wraps to
    2^64 - 8 although no block is live. *)
Theorem heap_statistics_underflow :
  fill_and_free (H:=dev) = Panic ∧
  ∃ w, fill_and_free (H:=release) = Val w ∧ current_bytes (heap_stats w) = 2 ^ 64 - 8 ∧ live w = ∅.
Proof. split; [vm_compute; reflexivity|]. eexists. split; [vm_compute; reflexivity|]. done. Qed.

(** Request sizes are not rounded: an odd one puts the next header at a
    misaligned address, which is undefined. *)
Lemma odd_size_misaligns_header : global_alloc (P:=dev) (demo_heap (H:=dev) 2) 17 1 = Panic ∧
  global_alloc (P:=release) (demo_heap (H:=release) 2) 17 1 = Panic.
Proof. split; vm_compute; reflexivity. Qed.

Lemma demo1_wf : wf (P:=dev) demo1.
Proof. by destruct (allocate_frame_spec (P:=dev) demo demo_wf) as (_ & _ & ? & _). Qed.
Lemma demo1_range f : f ∈ free_set demo1 → 0 < f < 2 ^ 52 - 1.
Proof.
  intros Hf. pose proof Hf as [Hf' _]%elem_of_free_set. simpl in Hf'.
  assert (f ≠ 0) by (intros ->; apply elem_of_free_set in Hf as [_ Hf]; vm_compute in Hf; done). lia.
Qed.

(** One live block of 64 bytes. *)
Definition demo_heap1 : KernelHeapAllocator :=
  match global_alloc (P:=dev) (demo_heap (H:=dev) 2) 64 8 with Val (_, w) => w | _ => heap_new end.
Lemma demo_heap_inv : heap_inv (P:=dev) (demo_heap (H:=dev) 2).
Proof.
  unfold demo_heap.
  destruct (heap_init_spec (P:=dev) (FA:=physical_frame_allocator (P:=dev)) demo1 2 demo1_wf demo1_range ltac:(lia)) as (r & w & fa & Hi & Hr).
  assert (is_ok <$> ((λ x, x.1.1) <$> heap_init (P:=dev) (FA:=physical_frame_allocator (P:=dev)) heap_new demo1 2) = Val true) as Hok
    by (vm_compute; reflexivity).
  rewrite Hi in *. simpl in Hok. destruct r; [|done]. apply Hr.
Qed.

Lemma heap_memory_safe_witness :
  heap_inv (P:=dev) demo_heap1 ∧
  (∀ b n, live demo_heap1 !! b = Some n → data_ptr (P:=dev) b mod 8 = 0 ∧
     ∀ x, data_ptr (P:=dev) b ≤ x < data_ptr (P:=dev) b + n →
       x / PAGE_SIZE ∈ free_set demo1 ∧ x / PAGE_SIZE ∉ free_set (demo_frames (H:=dev) 2)) ∧
  (∀ b n b' n', live demo_heap1 !! b = Some n → live demo_heap1 !! b' = Some n' → b ≠ b' →
     data_ptr (P:=dev) b + n ≤ b' ∨ data_ptr (P:=dev) b' + n' ≤ b) ∧
  (∃ r, global_alloc (P:=dev) demo_heap1 128 8 = Val r) ∧
  (∃ w, global_dealloc (P:=dev) demo_heap1 (data_ptr (P:=dev) PAGE_SIZE) = Val w).
Proof.
  destruct (heap_memory_safe (P:=dev) (FA:=physical_frame_allocator (P:=dev)) demo1 2 (demo_heap (H:=dev) 2)
    (demo_frames (H:=dev) 2) demo_heap1) as (Hinv & Hfr & Hdis & Hal & Hde).
  - apply demo1_wf.
  - apply demo1_range.
  - lia.
  - vm_compute. reflexivity.
  - apply rtc_once, (step_alloc _ 64 8 4144); [lia|done|vm_compute; reflexivity].
  - split; [exact Hinv|]. split; [exact Hfr|]. split; [exact Hdis|]. split.
    + specialize (Hal 128 8 ltac:(lia) eq_refl). destruct (global_alloc (P:=dev) demo_heap1 128 8) as [r| |].
      * by exists r.
      * destruct Hal as [_ Hno]. destruct Hno. unfold allocation_counted. vm_compute. repeat split; done.
      * destruct Hal.
    + specialize (Hde PAGE_SIZE 64 ltac:(vm_compute; reflexivity)).
      destruct (global_dealloc (P:=dev) demo_heap1 (data_ptr (P:=dev) PAGE_SIZE)) as [w| |].
      * by exists w.
      * destruct Hde as [_ Hno]. destruct Hno. unfold release_counted. vm_compute. repeat split; done.
      * destruct Hde.
Defined.

(** In a build with overflow checks. *)
Lemma heap_allocate_refines_witness :
  ∃ ptr w', allocate (P:=dev) (demo_heap (H:=dev) 2) 64 8 = Val (Ok ptr, w') ∧ heap_inv (P:=dev) w' ∧
    ∃ b n, ptr = data_ptr (P:=dev) b ∧ 64 ≤ n ∧ live w' = <[b := n]> (live (demo_heap (H:=dev) 2)).
Proof.
  pose proof (heap_allocate_refines (P:=dev) (demo_heap (H:=dev) 2) 64 8 demo_heap_inv ltac:(lia) eq_refl) as Hs.
  destruct (allocate (P:=dev) (demo_heap (H:=dev) 2) 64 8) as [[[ptr|e] w']| |] eqn:E.
  - destruct Hs as (Hi & _ & _ & b & h & n & Hb & _ & _ & _ & [Hn _] & Hl). exists ptr, w'.
    split; [reflexivity|]. split; [exact Hi|]. by exists b, n.
  - exfalso. vm_compute in E. discriminate E.
  - exfalso. vm_compute in E. discriminate E.
  - destruct Hs.
Defined.

Lemma heap_deallocate_refines_witness :
  deallocate (P:=dev) (demo_heap (H:=dev) 2) (data_ptr (P:=dev) PAGE_SIZE)
    = Val (Err "Double free detected", demo_heap (H:=dev) 2).
Proof.
  apply (heap_deallocate_refines (P:=dev) (demo_heap (H:=dev) 2) PAGE_SIZE
    (header_new (2 * PAGE_SIZE - block_header_size (P:=dev)))); [apply demo_heap_inv|vm_compute; reflexivity].
Defined.
