(* ===== verification/Vmm.v ===== *)
(** * Virtual memory

    Models [kernel/src/memory/vmm.rs]: virtual addresses, protections and
    regions, the address space with its page mapper, the kernel layout and the
    global functions.

    The page-table code is the [x86_64] crate: its addresses, flags and mapper
    are the class [X86_64], and what its documentation promises is the class
    [X86_64_Laws], stated over the map from pages to frames a table holds.  The
    mapper takes its frames from the physical memory manager through
    [KoshFrameAllocator], which is modelled.  [soft_mmu] is a four-level table
    that satisfies the laws. *)
From S2P Require Import Prelude Physical.

(** The errors of the crate's [map_to] and [unmap]. *)
Inductive MapToError :=
  | FrameAllocationFailed
  | ParentEntryHugePage
  | PageAlreadyMapped (frame : Z).
Inductive UnmapError :=
  | UnmapParentEntryHugePage
  | PageNotMapped
  | InvalidFrameAddress (addr : Z).

(** The global frame allocator. *)
Definition Frames : Type := option PhysicalMemoryManager.

(** What [vmm.rs] uses of the crate.  A [Page] and a [PhysFrame] are their
    start addresses. *)
Class X86_64 := {
  VirtAddr_new : Z → outcome Z;
  PhysAddr_new : Z → outcome Z;
  page_containing : Z → Z;
  frame_containing : Z → Z;
  PRESENT : Z;
  WRITABLE : Z;
  USER_ACCESSIBLE : Z;
  NO_EXECUTE : Z;
  Cr3_read : Z;
  OffsetPageTable : Type;
  OffsetPageTable_new : Z → Z → OffsetPageTable;
  map_to : (Frames → outcome (option Z * Frames)) →
    OffsetPageTable → Z → Z → Z → Frames →
    outcome (result unit MapToError * OffsetPageTable * Frames);
  unmap : OffsetPageTable → Z → result Z UnmapError * OffsetPageTable;
  translate_addr : OffsetPageTable → Z → option Z;
}.

(** ** Addresses, protections, regions *)
Record MemoryProtection := {
  readable : bool;
  writable : bool;
  executable : bool;
  user_accessible : bool;
}.
Definition read_only : MemoryProtection :=
  {| readable := true; writable := false; executable := false; user_accessible := false |}.
Definition read_write : MemoryProtection :=
  {| readable := true; writable := true; executable := false; user_accessible := false |}.
Definition read_execute : MemoryProtection :=
  {| readable := true; writable := false; executable := true; user_accessible := false |}.
Definition user_read_write : MemoryProtection :=
  {| readable := true; writable := true; executable := false; user_accessible := true |}.

Definition to_page_table_flags `{X86_64} (p : MemoryProtection) : Z :=
  let flags := PRESENT in
  let flags := if writable p then Z.lor flags WRITABLE else flags in
  let flags := if negb (executable p) then Z.lor flags NO_EXECUTE else flags in
  if user_accessible p then Z.lor flags USER_ACCESSIBLE else flags.

(** A [VirtualAddress] is the [usize] it wraps. *)
Definition as_virt_addr `{X86_64} (a : Z) : outcome Z := VirtAddr_new a.

Record VirtualMemoryRegion := {
  region_start : Z;
  region_size : Z;
  region_protection : MemoryProtection;
  region_name : string;
}.

Section regions.
Context {P : Profile}.

Definition region_end (r : VirtualMemoryRegion) : outcome Z :=
  uadd 64 (region_start r) (region_size r).
Definition region_contains (r : VirtualMemoryRegion) (addr : Z) : outcome bool :=
  if region_start r <=? addr
  then e ← uadd 64 (region_start r) (region_size r); Val (addr <? e)
  else Val false.
(** [(size + PAGE_SIZE - 1) / PAGE_SIZE], as it is written in [page_count],
    [map_range] and [unmap_range]. *)
Definition page_count (size : Z) : outcome Z :=
  s ← uadd 64 size PAGE_SIZE; s ← usub 64 s 1; udiv s PAGE_SIZE.
Definition region_page_count (r : VirtualMemoryRegion) : outcome Z := page_count (region_size r).

(** [regions.iter().find(|r| r.contains(addr))]. *)
Fixpoint find_in (l : list VirtualMemoryRegion) (addr : Z) : outcome (option VirtualMemoryRegion) :=
  match l with
  | [] => Val None
  | r :: l => c ← region_contains r addr; if c : bool then Val (Some r) else find_in l addr
  end.
End regions.

(** ** The address space *)
Section vas.
Context {P : Profile} {X : X86_64}.

Record VirtualAddressSpace := {
  mapper : OffsetPageTable;
  regions : list VirtualMemoryRegion;
  physical_memory_offset : Z;
}.
Implicit Types vas : VirtualAddressSpace.

Definition set_mapper vas pt : VirtualAddressSpace :=
  {| mapper := pt; regions := regions vas;
     physical_memory_offset := physical_memory_offset vas |}.

(** [KoshFrameAllocator]'s two methods. *)
Definition kosh_allocate_frame (fr : Frames) : outcome (option Z * Frames) :=
  '(r, fr) ← global_allocate_frame fr;
  match r with
  | None => Val (None, fr)
  | Some frame =>
      a ← frame_address frame; a ← PhysAddr_new a; Val (Some (frame_containing a), fr)
  end.
Definition kosh_deallocate_frame (fr : Frames) (start_address : Z) : outcome Frames :=
  global_deallocate_frame fr (from_address start_address).

Definition vas_new (level_4_table offset : Z) : VirtualAddressSpace :=
  {| mapper := OffsetPageTable_new level_4_table offset; regions := [];
     physical_memory_offset := offset |}.

Definition map_page vas (fr : Frames) (virt_addr phys_frame : Z) (protection : MemoryProtection) :
    outcome (result unit MapToError * VirtualAddressSpace * Frames) :=
  v ← as_virt_addr virt_addr;
  let page := page_containing v in
  a ← frame_address phys_frame; a ← PhysAddr_new a;
  let frame := frame_containing a in
  let flags := to_page_table_flags protection in
  '(r, pt, fr) ← map_to kosh_allocate_frame (mapper vas) page frame flags fr;
  Val (r, set_mapper vas pt, fr).

Definition map_range_step (virt_start phys_start : Z) (protection : MemoryProtection) (i : Z)
    (s : VirtualAddressSpace * Frames) :
    outcome (flow (VirtualAddressSpace * Frames)
                  (result unit MapToError * VirtualAddressSpace * Frames)) :=
  let '(vas, fr) := s in
  o ← umul 64 i PAGE_SIZE; virt_addr ← uadd 64 virt_start o;
  o ← umul 64 i PAGE_SIZE; phys_addr ← uadd 64 phys_start o;
  let phys_frame := from_address phys_addr in
  '(r, vas, fr) ← map_page vas fr virt_addr phys_frame protection;
  match r with
  | Ok _ => Val (Next (vas, fr))
  | Err e => Val (Return (Err e, vas, fr))
  end.
Definition map_range vas (fr : Frames) (virt_start phys_start size : Z)
    (protection : MemoryProtection) :
    outcome (result unit MapToError * VirtualAddressSpace * Frames) :=
  n ← page_count size;
  f ← for_loop (map_range_step virt_start phys_start protection) (seqZ 0 n) (vas, fr);
  match f with
  | Next (vas, fr) => Val (Ok (), vas, fr)
  | Return r => Val r
  end.

Definition unmap_page vas (virt_addr : Z) : outcome (result unit UnmapError * VirtualAddressSpace) :=
  v ← as_virt_addr virt_addr;
  let page := page_containing v in
  let '(r, pt) := unmap (mapper vas) page in
  match r with
  | Ok _ => Val (Ok (), set_mapper vas pt)
  | Err e => Val (Err e, set_mapper vas pt)
  end.
Definition unmap_range_step (virt_start i : Z) vas :
    outcome (flow VirtualAddressSpace (result unit UnmapError * VirtualAddressSpace)) :=
  o ← umul 64 i PAGE_SIZE; virt_addr ← uadd 64 virt_start o;
  '(r, vas) ← unmap_page vas virt_addr;
  match r with
  | Ok _ => Val (Next vas)
  | Err e => Val (Return (Err e, vas))
  end.
Definition unmap_range vas (virt_start size : Z) :
    outcome (result unit UnmapError * VirtualAddressSpace) :=
  n ← page_count size;
  f ← for_loop (unmap_range_step virt_start) (seqZ 0 n) vas;
  match f with
  | Next vas => Val (Ok (), vas)
  | Return r => Val r
  end.

Definition add_region vas (region : VirtualMemoryRegion) : VirtualAddressSpace :=
  {| mapper := mapper vas; regions := regions vas ++ [region];
     physical_memory_offset := physical_memory_offset vas |}.
Definition find_region vas (addr : Z) : outcome (option VirtualMemoryRegion) :=
  find_in (regions vas) addr.
Definition translate vas (virt_addr : Z) : outcome (option Z) :=
  v ← as_virt_addr virt_addr; Val (translate_addr (mapper vas) v).
Definition is_mapped vas (virt_addr : Z) : outcome bool :=
  t ← translate vas virt_addr; Val (bool_decide (is_Some t)).
End vas.

(** ** The kernel layout and the globals *)
Definition KERNEL_CODE_START : Z := 0xFFFFFFFF80000000.
Definition KERNEL_CODE_SIZE : Z := 16 * 1024 * 1024.
Definition KERNEL_DATA_START : Z := 0xFFFFFFFF81000000.
Definition KERNEL_DATA_SIZE : Z := 16 * 1024 * 1024.
Definition KERNEL_HEAP_START : Z := 0xFFFFFFFF82000000.
Definition KERNEL_HEAP_SIZE : Z := 64 * 1024 * 1024.
Definition PHYSICAL_MEMORY_OFFSET : Z := 0xFFFF800000000000.

Section globals.
Context {P : Profile} {X : X86_64}.

(** Printing a region computes its end. *)
Definition print_memory_layout (vas : VirtualAddressSpace) : outcome unit :=
  for_each (λ r _, _ ← region_end r; Val ()) (regions vas) ().

Definition kernel_code_region : VirtualMemoryRegion :=
  {| region_start := KERNEL_CODE_START; region_size := KERNEL_CODE_SIZE;
     region_protection := read_execute; region_name := "Kernel Code" |}.
Definition kernel_data_region : VirtualMemoryRegion :=
  {| region_start := KERNEL_DATA_START; region_size := KERNEL_DATA_SIZE;
     region_protection := read_write; region_name := "Kernel Data" |}.
Definition kernel_heap_region : VirtualMemoryRegion :=
  {| region_start := KERNEL_HEAP_START; region_size := KERNEL_HEAP_SIZE;
     region_protection := read_write; region_name := "Kernel Heap" |}.

Definition setup_kernel_memory_layout (vas : VirtualAddressSpace) :
    outcome (result unit string * VirtualAddressSpace) :=
  let vas := add_region vas kernel_code_region in
  let vas := add_region vas kernel_data_region in
  let vas := add_region vas kernel_heap_region in
  _ ← print_memory_layout vas; Val (Ok (), vas).

(** The address of the active level 4 table in the physical memory window. *)
Definition get_level_4_page_table : outcome Z := uadd 64 PHYSICAL_MEMORY_OFFSET Cr3_read.

Definition init_virtual_memory (g : option VirtualAddressSpace) :
    outcome (result unit string * option VirtualAddressSpace) :=
  level_4_table ← get_level_4_page_table;
  offset ← as_virt_addr PHYSICAL_MEMORY_OFFSET;
  '(r, vas) ← setup_kernel_memory_layout (vas_new level_4_table offset);
  match r with
  | Ok _ => Val (Ok (), Some vas)
  | Err e => Val (Err e, g)
  end.

Definition map_virtual_to_physical (g : option VirtualAddressSpace) (fr : Frames)
    (virt_addr phys_addr : Z) (protection : MemoryProtection) :
    outcome (result unit string * option VirtualAddressSpace * Frames) :=
  match g with
  | None => Val (Err "Virtual memory manager not initialized", g, fr)
  | Some vas =>
      let phys_frame := from_address phys_addr in
      '(r, vas, fr) ← map_page vas fr virt_addr phys_frame protection;
      match r with
      | Ok _ => Val (Ok (), Some vas, fr)
      | Err _ => Val (Err "Failed to map virtual page", Some vas, fr)
      end
  end.
Definition map_virtual_range (g : option VirtualAddressSpace) (fr : Frames)
    (virt_start phys_start size : Z) (protection : MemoryProtection) :
    outcome (result unit string * option VirtualAddressSpace * Frames) :=
  match g with
  | None => Val (Err "Virtual memory manager not initialized", g, fr)
  | Some vas =>
      '(r, vas, fr) ← map_range vas fr virt_start phys_start size protection;
      match r with
      | Ok _ => Val (Ok (), Some vas, fr)
      | Err _ => Val (Err "Failed to map virtual range", Some vas, fr)
      end
  end.
Definition unmap_virtual_address (g : option VirtualAddressSpace) (virt_addr : Z) :
    outcome (result unit string * option VirtualAddressSpace) :=
  match g with
  | None => Val (Err "Virtual memory manager not initialized", g)
  | Some vas =>
      '(r, vas) ← unmap_page vas virt_addr;
      match r with
      | Ok _ => Val (Ok (), Some vas)
      | Err _ => Val (Err "Failed to unmap virtual page", Some vas)
      end
  end.
Definition translate_virtual_address (g : option VirtualAddressSpace) (virt_addr : Z) :
    outcome (option Z) :=
  match g with None => Val None | Some vas => translate vas virt_addr end.
Definition is_virtual_address_mapped (g : option VirtualAddressSpace) (virt_addr : Z) :
    outcome bool :=
  match g with None => Val false | Some vas => is_mapped vas virt_addr end.
(** The sum of the region sizes, in MB. *)
Definition print_virtual_memory_stats (g : option VirtualAddressSpace) : outcome (option Z) :=
  match g with
  | None => Val None
  | Some vas =>
      _ ← print_memory_layout vas;
      total ← for_each (λ r s, uadd 64 s (region_size r)) (regions vas) 0;
      Val (Some (total / (1024 * 1024)))
  end.
End globals.

(** ** What the crate promises

    [mapping pt] is the map from pages to frames and flags a table holds,
    [huge pt page] says that a huge page of an upper level covers [page]. *)
Definition canonical (a : Z) : Prop := 0 ≤ a < 2 ^ 47 ∨ 2 ^ 64 - 2 ^ 47 ≤ a < 2 ^ 64.
Definition page_of (a : Z) : Z := a - a mod PAGE_SIZE.

Class X86_64_Laws (X : X86_64) := {
  mapping : OffsetPageTable → Z → option (Z * Z);
  huge : OffsetPageTable → Z → bool;
  VirtAddr_new_canonical a : canonical a → VirtAddr_new a = Val a;
  PhysAddr_new_valid a : 0 ≤ a < 2 ^ 52 → PhysAddr_new a = Val a;
  page_containing_spec a : canonical a → page_containing a = page_of a;
  frame_containing_spec a : 0 ≤ a < 2 ^ 52 → frame_containing a = page_of a;
  flag_bits : PRESENT = 2 ^ 0 ∧ WRITABLE = 2 ^ 1 ∧ USER_ACCESSIBLE = 2 ^ 2 ∧ NO_EXECUTE = 2 ^ 63;
  (* mapping a page that is in use is refused; no error changes a mapping *)
  map_to_spec alloc (I : Frames → Prop) pt page frame flags s :
    (∀ s, I s → ∃ r s', alloc s = Val (r, s') ∧ I s') → I s → Z.testbit flags 0 = true →
    ∃ r pt' s', map_to alloc pt page frame flags s = Val (r, pt', s') ∧ I s' ∧
      (∀ p, huge pt' p = huge pt p) ∧
      match r with
      | Ok _ => mapping pt page = None ∧
          ∀ p, mapping pt' p = if decide (p = page) then Some (frame, flags) else mapping pt p
      | Err e => (∀ p, mapping pt' p = mapping pt p) ∧
          match e with
          | PageAlreadyMapped f => ∃ fl, mapping pt page = Some (f, fl)
          | ParentEntryHugePage => huge pt page = true
          | FrameAllocationFailed => mapping pt page = None
          end
      end;
  (* a page needs at most three new tables *)
  map_to_progress alloc (J : nat → Frames → Prop) k pt page frame flags s :
    (∀ k s, J (S k) s → J k s ∧ ∃ f s', alloc s = Val (Some f, s') ∧ J k s') →
    J (3 + k)%nat s → huge pt page = false → mapping pt page = None →
    ∃ pt' s', map_to alloc pt page frame flags s = Val (Ok (), pt', s') ∧ J k s';
  unmap_spec pt page :
    match mapping pt page with
    | Some (f, _) => ∃ pt', unmap pt page = (Ok f, pt') ∧ (∀ p, huge pt' p = huge pt p) ∧
        ∀ p, mapping pt' p = if decide (p = page) then None else mapping pt p
    | None => ∃ e, unmap pt page = (Err e, pt)
    end;
  translate_addr_spec pt a : canonical a → huge pt (page_of a) = false →
    translate_addr pt a = (λ m, m.1 + a mod PAGE_SIZE) <$> mapping pt (page_of a);
}.

(** ** Lemmas *)
Section page_lemmas.
Context {P : Profile}.

(** The number of pages of a range. *)
Definition pages (size : Z) : Z := (size + 4095) / 4096.

Lemma page_count_val size : 0 ≤ size → size + PAGE_SIZE < 2 ^ 64 → page_count size = Val (pages size).
Proof.
  intros Hs Hb. unfold page_count, pages. rewrite uadd_val by (unfold PAGE_SIZE in *; lia).
  cbn [mbind outcome_bind]. rewrite usub_val by (unfold PAGE_SIZE in *; lia).
  cbn [mbind outcome_bind]. rewrite udiv_val by done. f_equal. unfold PAGE_SIZE. f_equal. lia.
Qed.

Lemma page_of_step a i : page_of (a + i * PAGE_SIZE) = page_of a + i * PAGE_SIZE.
Proof. unfold page_of, PAGE_SIZE. divlia. Qed.
Lemma page_of_aligned a : a mod PAGE_SIZE = 0 → page_of a = a.
Proof. unfold page_of. lia. Qed.
Lemma page_of_range a n : 0 ≤ a < n → 0 ≤ page_of a < n.
Proof. unfold page_of, PAGE_SIZE. divlia. Qed.
Lemma canonical_range a : canonical a → 0 ≤ a < 2 ^ 64.
Proof. unfold canonical. lia. Qed.

(** The frame of an address and the address of that frame. *)
Lemma frame_address_of a : 0 ≤ a < 2 ^ 52 → frame_address (from_address a) = Val (page_of a).
Proof.
  intros Ha. rewrite from_address_eq by lia. unfold frame_address.
  rewrite umul_val by (unfold PAGE_SIZE; divlia). f_equal. unfold page_of, PAGE_SIZE. divlia.
Qed.

Lemma offset_val a i : 0 ≤ i → 0 ≤ a → a + i * PAGE_SIZE < 2 ^ 64 →
  (o ← umul 64 i PAGE_SIZE; uadd 64 a o) = Val (a + i * PAGE_SIZE).
Proof.
  intros Hi Ha Hb. assert (0 ≤ i * PAGE_SIZE) by (unfold PAGE_SIZE; lia).
  rewrite umul_val by lia. cbn [mbind outcome_bind]. by rewrite uadd_val by lia.
Qed.
End page_lemmas.

Section vas_lemmas.
Context {P : Profile} {X : X86_64} {L : X86_64_Laws X}.
Implicit Types vas : VirtualAddressSpace.

(** The frame allocator is well formed and its frames are addressable. *)
Definition frames_ok (fr : Frames) : Prop :=
  match fr with Some m => wf m ∧ total_frames m ≤ 2 ^ 40 | None => True end.
(** [k] frames are left. *)
Definition frames_left (k : nat) (fr : Frames) : Prop :=
  frames_ok fr ∧ match fr with Some m => (k ≤ size (free_set m))%nat | None => k = O end.

Lemma frame_address_val f : 0 ≤ f < 2 ^ 40 →
  frame_address f = Val (f * PAGE_SIZE) ∧ 0 ≤ f * PAGE_SIZE < 2 ^ 52.
Proof.
  intros Hf. unfold PAGE_SIZE. split; [|lia]. unfold frame_address, PAGE_SIZE.
  rewrite umul_val by lia. done.
Qed.

Lemma kosh_allocate_frame_spec fr : frames_ok fr →
  ∃ r fr', kosh_allocate_frame fr = Val (r, fr') ∧ frames_ok fr'.
Proof.
  unfold kosh_allocate_frame, global_allocate_frame. destruct fr as [m|]; [|by eexists _, _].
  intros [Hwf Ht]. pose proof (allocate_frame_spec m Hwf) as Hspec.
  destruct (allocate_frame m) as [[[f|] m']| |]; try done; cbn [mbind outcome_bind].
  - destruct Hspec as ([Hf _]%elem_of_free_set & _ & Hwf' & [Ht' _] & _).
    destruct (frame_address_val f ltac:(lia)) as [-> Hr]. cbn [mbind outcome_bind].
    rewrite PhysAddr_new_valid by done. cbn [mbind outcome_bind]. eexists _, _. split; [done|].
    split; [done|lia].
  - destruct Hspec as [-> _]. by eexists _, _.
Qed.

Lemma kosh_allocate_frame_progress k fr : frames_left (S k) fr →
  frames_left k fr ∧ ∃ f fr', kosh_allocate_frame fr = Val (Some f, fr') ∧ frames_left k fr'.
Proof.
  intros [Hok Hk]. destruct fr as [m|]; [|done]. split; [split; [done|]; simpl in *; lia|].
  unfold kosh_allocate_frame, global_allocate_frame. destruct Hok as [Hwf Ht].
  pose proof (allocate_frame_spec m Hwf) as Hspec.
  destruct (allocate_frame m) as [[[f|] m']| |]; try done; cbn [mbind outcome_bind].
  - destruct Hspec as (Hin & _ & Hwf' & [Ht' _] & Hfs). pose proof Hin as [Hf _]%elem_of_free_set.
    destruct (frame_address_val f ltac:(lia)) as [-> Hr]. cbn [mbind outcome_bind].
    rewrite PhysAddr_new_valid by done. cbn [mbind outcome_bind]. eexists _, _. split; [done|].
    split; [split; [done|lia]|]. rewrite Hfs, size_difference by set_solver.
    rewrite size_singleton. lia.
  - destruct Hspec as [_ He]. rewrite He, size_empty in Hk. lia.
Qed.

Lemma flags_decode p :
  let f := to_page_table_flags p in
  Z.testbit f 0 = true ∧ Z.testbit f 1 = writable p ∧
  Z.testbit f 2 = user_accessible p ∧ Z.testbit f 63 = negb (executable p).
Proof.
  unfold to_page_table_flags. destruct flag_bits as (-> & -> & -> & ->).
  destruct p as [[] [] [] []]; vm_compute; repeat split.
Qed.

(** What mapping [n] consecutive pages from [base] on to the frames from
    [pbase] on makes of a map. *)
Definition range_map (m : Z → option (Z * Z)) (base pbase fl n p : Z) : option (Z * Z) :=
  if decide (base ≤ p < base + n * PAGE_SIZE ∧ (p - base) mod PAGE_SIZE = 0)
  then Some (pbase + (p - base), fl) else m p.

Lemma range_map_0 m base pbase fl p : range_map m base pbase fl 0 p = m p.
Proof. unfold range_map. destruct (decide _); [lia|done]. Qed.

Lemma range_map_last m base pbase fl n : 0 ≤ n →
  range_map m base pbase fl n (base + n * PAGE_SIZE) = m (base + n * PAGE_SIZE).
Proof. unfold range_map. intros. by rewrite decide_False by (unfold PAGE_SIZE; lia). Qed.

Lemma range_map_S m base pbase fl n p : 0 ≤ n →
  range_map m base pbase fl (n + 1) p =
    if decide (p = base + n * PAGE_SIZE) then Some (pbase + n * PAGE_SIZE, fl)
    else range_map m base pbase fl n p.
Proof.
  intros Hn. unfold range_map. destruct (decide (p = _)) as [->|Hne].
  - rewrite decide_True; [do 2 f_equal; lia|]. unfold PAGE_SIZE. split; [lia|].
    replace (base + n * 4096 - base) with (n * 4096) by lia. apply Z.mod_mul. lia.
  - destruct (decide (base ≤ p < base + n * _ ∧ _)) as [[]|Hn'].
    + rewrite decide_True; [done|]. split; [|done]. unfold PAGE_SIZE in *. lia.
    + rewrite decide_False; [done|]. intros [Hr Hm]. apply Hn'. split; [|done].
      unfold PAGE_SIZE in *. divlia.
Qed.

(** The state after the first [n] pages of a range were mapped. *)
Record mapped_prefix vas0 vas (base pbase fl n : Z) : Prop := {
  mp_vas : vas = set_mapper vas0 (mapper vas);
  mp_huge p : huge (mapper vas) p = huge (mapper vas0) p;
  mp_mapping p : mapping (mapper vas) p = range_map (mapping (mapper vas0)) base pbase fl n p;
  mp_free i : 0 ≤ i < n → mapping (mapper vas0) (base + i * PAGE_SIZE) = None;
}.

(** Why the page was refused. *)
Definition map_refused vas (page : Z) (e : MapToError) : Prop :=
  match e with
  | PageAlreadyMapped f => ∃ fl, mapping (mapper vas) page = Some (f, fl)
  | ParentEntryHugePage => huge (mapper vas) page = true
  | FrameAllocationFailed => mapping (mapper vas) page = None
  end.

Lemma mapped_prefix_refl vas base pbase fl : mapped_prefix vas vas base pbase fl 0.
Proof. split; [by destruct vas|done| |lia]. intros p. by rewrite range_map_0. Qed.

(** [map_page] on arguments that do not overflow. *)
Lemma map_page_unfold vas fr v a prot : canonical v → 0 ≤ a < 2 ^ 52 →
  map_page vas fr v (from_address a) prot =
    ('(r, pt, fr) ← map_to kosh_allocate_frame (mapper vas) (page_of v) (page_of a)
                     (to_page_table_flags prot) fr; Val (r, set_mapper vas pt, fr)).
Proof.
  intros Hv Ha. unfold map_page, as_virt_addr. rewrite VirtAddr_new_canonical by done.
  cbn [mbind outcome_bind]. rewrite frame_address_of by done. cbn [mbind outcome_bind].
  rewrite PhysAddr_new_valid by (apply page_of_range; lia). cbn [mbind outcome_bind].
  rewrite page_containing_spec, frame_containing_spec by (done || apply page_of_range; lia).
  replace (page_of (page_of a)) with (page_of a); [done|]. unfold page_of, PAGE_SIZE. divlia.
Qed.

Lemma map_step vas0 vas fr v a prot n :
  let base := page_of v in let fl := to_page_table_flags prot in
  canonical (v + n * PAGE_SIZE) → 0 ≤ v → 0 ≤ a → a + n * PAGE_SIZE < 2 ^ 52 → 0 ≤ n →
  frames_ok fr → mapped_prefix vas0 vas base (page_of a) fl n →
  match map_range_step v a prot n (vas, fr) with
  | Val (Next (vas', fr')) => frames_ok fr' ∧ mapped_prefix vas0 vas' base (page_of a) fl (n + 1)
  | Val (Return (Err e, vas', fr')) =>
      frames_ok fr' ∧ mapped_prefix vas0 vas' base (page_of a) fl n ∧
      map_refused vas0 (base + n * PAGE_SIZE) e
  | _ => False
  end.
Proof.
  intros base fl Hv Hv0 Ha Han Hn Hfr [Hvas Hhuge Hmap Hfree]. unfold map_range_step.
  pose proof (canonical_range _ Hv). assert (0 ≤ n * PAGE_SIZE) by (unfold PAGE_SIZE; lia).
  rewrite umul_val by lia. cbn [mbind outcome_bind].
  rewrite !(uadd_val _ _ (n * PAGE_SIZE)) by lia. cbn [mbind outcome_bind].
  rewrite map_page_unfold by (done || lia). rewrite !page_of_step. fold base fl.
  pose proof (proj1 (flags_decode prot)) as Hpres.
  destruct (map_to_spec kosh_allocate_frame frames_ok (mapper vas) (base + n * PAGE_SIZE)
    (page_of a + n * PAGE_SIZE) fl fr kosh_allocate_frame_spec Hfr Hpres)
    as (r & pt' & fr' & -> & Hfr' & Hhuge' & Hr).
  cbn [mbind outcome_bind]. rewrite Hvas. destruct r as [[]|e].
  - destruct Hr as [Hnone Hmap']. rewrite Hmap, range_map_last in Hnone by done.
    split; [done|]. split; [done| | |].
    + intros p. simpl. by rewrite Hhuge', Hhuge.
    + intros p. simpl. rewrite Hmap', range_map_S by done. by rewrite Hmap.
    + intros i Hi. destruct (decide (i = n)) as [->|]; [done|]. apply Hfree. lia.
  - destruct Hr as [Hmap' He]. split; [done|]. split; [split|].
    + done.
    + intros p. simpl. by rewrite Hhuge', Hhuge.
    + intros p. simpl. by rewrite Hmap', Hmap.
    + done.
    + destruct e; unfold map_refused; rewrite ?Hmap, ?range_map_last, ?Hhuge in He by done; done.
Qed.
(** A range whose pages are canonical, whose frames are addressable, and whose
    size does not overflow. *)
Record range_ok (v a sz : Z) : Prop := {
  ro_virt : 0 ≤ v;
  ro_phys : 0 ≤ a;
  ro_size : 0 ≤ sz ∧ sz + PAGE_SIZE < 2 ^ 64;
  ro_pages i : 0 ≤ i < pages sz → canonical (v + i * PAGE_SIZE) ∧ a + i * PAGE_SIZE < 2 ^ 52;
}.

Lemma pages_nonneg sz : 0 ≤ sz → 0 ≤ pages sz.
Proof. unfold pages. intros. apply Z.div_pos; lia. Qed.

Lemma map_range_spec vas fr v a sz prot : range_ok v a sz → frames_ok fr →
  let base := page_of v in let fl := to_page_table_flags prot in
  match map_range vas fr v a sz prot with
  | Val (Ok _, vas', fr') =>
      frames_ok fr' ∧ mapped_prefix vas vas' base (page_of a) fl (pages sz)
  | Val (Err e, vas', fr') => frames_ok fr' ∧ ∃ j, 0 ≤ j < pages sz ∧
      mapped_prefix vas vas' base (page_of a) fl j ∧ map_refused vas (base + j * PAGE_SIZE) e
  | _ => False
  end.
Proof.
  intros [Hv Ha [Hs Hb] Hpg] Hfr base fl. unfold map_range. rewrite page_count_val by done.
  cbn [mbind outcome_bind]. pose proof (pages_nonneg sz Hs).
  loop_inv (λ (d : list Z) '(vas', fr'),
      frames_ok fr' ∧ mapped_prefix vas vas' base (page_of a) fl (len d))
    (λ '(r, vas', fr'), frames_ok fr' ∧ ∃ e j, r = Err e ∧ 0 ≤ j < pages sz ∧
      mapped_prefix vas vas' base (page_of a) fl j ∧ map_refused vas (base + j * PAGE_SIZE) e)
    as Hloop.
  - destruct (for_loop _ _ _) as [[[vas' fr']|[[r vas'] fr']]| |]; try done; cbn [mbind outcome_bind].
    + by rewrite len_seqZ in Hloop.
    + destruct Hloop as (? & e & j & -> & ?). eauto.
  - split; [done|]. apply mapped_prefix_refl.
  - intros d i todo [vas' fr'] [-> Hd]%seqZ_split [Hfr' Hmp]. rewrite Z.add_0_l, len_snoc.
    pose proof (len_nonneg d). destruct (Hpg (len d) ltac:(lia)).
    pose proof (map_step vas vas' fr' v a prot (len d) ltac:(done) Hv Ha ltac:(done) ltac:(done)
      Hfr' Hmp) as Hstep.
    destruct (map_range_step _ _ _ _ _) as [[[vas'' fr'']|[[[?|e] vas''] fr'']]| |]; try done.
    destruct Hstep as (? & ? & ?). split; [done|]. eexists _, (len d). eauto.
Qed.

(** A page with room for its tables is mapped. *)
Lemma map_step_progress vas0 vas fr v a prot n k :
  let base := page_of v in let fl := to_page_table_flags prot in
  canonical (v + n * PAGE_SIZE) → 0 ≤ v → 0 ≤ a → a + n * PAGE_SIZE < 2 ^ 52 → 0 ≤ n →
  frames_left (3 + k)%nat fr → mapped_prefix vas0 vas base (page_of a) fl n →
  huge (mapper vas0) (base + n * PAGE_SIZE) = false →
  mapping (mapper vas0) (base + n * PAGE_SIZE) = None →
  ∃ vas' fr', map_range_step v a prot n (vas, fr) = Val (Next (vas', fr')) ∧
    frames_left k fr' ∧ mapped_prefix vas0 vas' base (page_of a) fl (n + 1).
Proof.
  intros base fl Hv Hv0 Ha Han Hn Hfr Hmp Hh Hnone.
  pose proof (map_step vas0 vas fr v a prot n Hv Hv0 Ha Han Hn (proj1 Hfr) Hmp) as Hstep.
  destruct Hmp as [Hvas Hhuge Hmap Hfree]. revert Hstep. unfold map_range_step.
  pose proof (canonical_range _ Hv). assert (0 ≤ n * PAGE_SIZE) by (unfold PAGE_SIZE; lia).
  rewrite umul_val by lia. cbn [mbind outcome_bind].
  rewrite !(uadd_val _ _ (n * PAGE_SIZE)) by lia. cbn [mbind outcome_bind].
  rewrite map_page_unfold by (done || lia). rewrite !page_of_step. fold base fl.
  destruct (map_to_progress kosh_allocate_frame frames_left k (mapper vas)
    (base + n * PAGE_SIZE) (page_of a + n * PAGE_SIZE) fl fr) as (pt' & fr' & -> & Hfr').
  - apply kosh_allocate_frame_progress.
  - done.
  - by rewrite Hhuge.
  - by rewrite Hmap, range_map_last.
  - cbn [mbind outcome_bind]. intros [_ ?]. by eexists _, _.
Qed.

Lemma map_range_progress vas fr v a sz prot :
  range_ok v a sz → frames_left (Z.to_nat (3 * pages sz)) fr →
  (∀ i, 0 ≤ i < pages sz →
     huge (mapper vas) (page_of v + i * PAGE_SIZE) = false ∧
     mapping (mapper vas) (page_of v + i * PAGE_SIZE) = None) →
  ∃ vas' fr', map_range vas fr v a sz prot = Val (Ok (), vas', fr').
Proof.
  intros [Hv Ha [Hs Hb] Hpg] Hfr Hpages. unfold map_range. rewrite page_count_val by done.
  cbn [mbind outcome_bind]. pose proof (pages_nonneg sz Hs).
  loop_inv (λ (d : list Z) '(vas', fr'),
      frames_left (Z.to_nat (3 * (pages sz - len d))) fr' ∧
      mapped_prefix vas vas' (page_of v) (page_of a) (to_page_table_flags prot) (len d))
    (λ _ : result unit MapToError * VirtualAddressSpace * Frames, False) as Hloop.
  - destruct (for_loop _ _ _) as [[[vas' fr']|]| |]; try done. by eexists _, _.
  - split; [|apply mapped_prefix_refl]. by rewrite Z.sub_0_r.
  - intros d i todo [vas' fr'] [-> Hd]%seqZ_split [Hfr' Hmp]. rewrite Z.add_0_l, len_snoc.
    pose proof (len_nonneg d). destruct (Hpg (len d) ltac:(lia)), (Hpages (len d) ltac:(lia)).
    replace (Z.to_nat (3 * (pages sz - len d)))
      with (3 + Z.to_nat (3 * (pages sz - (len d + 1))))%nat in Hfr' by lia.
    destruct (map_step_progress vas vas' fr' v a prot (len d) _ ltac:(done) Hv Ha ltac:(done)
      ltac:(done) Hfr' Hmp ltac:(done) ltac:(done)) as (vas'' & fr'' & -> & ?). done.
Qed.

(** ** Unmapping *)
Lemma unmap_page_mapped vas v f fl : canonical v → mapping (mapper vas) (page_of v) = Some (f, fl) →
  ∃ pt, unmap_page vas v = Val (Ok (), set_mapper vas pt) ∧
    (∀ p, huge pt p = huge (mapper vas) p) ∧
    ∀ p, mapping pt p = if decide (p = page_of v) then None else mapping (mapper vas) p.
Proof.
  intros Hv Hm. unfold unmap_page, as_virt_addr. rewrite VirtAddr_new_canonical by done.
  cbn [mbind outcome_bind]. rewrite page_containing_spec by done.
  pose proof (unmap_spec (mapper vas) (page_of v)) as Hu. rewrite Hm in Hu.
  destruct Hu as (pt & -> & Hh & Hmap). by exists pt.
Qed.

(** The first [n] pages from [base] on are gone from a map. *)
Definition range_unmap (m : Z → option (Z * Z)) (base n p : Z) : option (Z * Z) :=
  if decide (base ≤ p < base + n * PAGE_SIZE ∧ (p - base) mod PAGE_SIZE = 0) then None else m p.

Lemma range_unmap_S m base n p : 0 ≤ n →
  range_unmap m base (n + 1) p =
    if decide (p = base + n * PAGE_SIZE) then None else range_unmap m base n p.
Proof.
  intros Hn. pose proof (range_map_S (λ _, None) base 0 0 n p Hn) as H.
  unfold range_map, range_unmap in *.
  repeat match goal with |- context [decide ?Q] => destruct (decide Q) end; done.
Qed.

Lemma unmap_range_spec vas v sz :
  0 ≤ v → 0 ≤ sz → sz + PAGE_SIZE < 2 ^ 64 →
  (∀ i, 0 ≤ i < pages sz → canonical (v + i * PAGE_SIZE) ∧
     is_Some (mapping (mapper vas) (page_of v + i * PAGE_SIZE))) →
  ∃ pt, unmap_range vas v sz = Val (Ok (), set_mapper vas pt) ∧
    (∀ p, huge pt p = huge (mapper vas) p) ∧
    ∀ p, mapping pt p = range_unmap (mapping (mapper vas)) (page_of v) (pages sz) p.
Proof.
  intros Hv Hs Hb Hpg. unfold unmap_range. rewrite page_count_val by done.
  cbn [mbind outcome_bind]. pose proof (pages_nonneg sz Hs).
  loop_inv (λ (d : list Z) vas', vas' = set_mapper vas (mapper vas') ∧
      (∀ p, huge (mapper vas') p = huge (mapper vas) p) ∧
      ∀ p, mapping (mapper vas') p = range_unmap (mapping (mapper vas)) (page_of v) (len d) p)
    (λ _ : result unit UnmapError * VirtualAddressSpace, False) as Hloop.
  - destruct (for_loop _ _ _) as [[vas'|]| |]; try done. cbn [mbind outcome_bind].
    rewrite len_seqZ in Hloop by done. destruct Hloop as (Hvas & ? & ?).
    exists (mapper vas'). by rewrite <-Hvas.
  - split_and!; [by destruct vas|done|]. intros p. unfold range_unmap.
    destruct (decide _); [|done]. unfold len in *; simpl in *. lia.
  - intros d i todo vas' [-> Hd]%seqZ_split (Hvas & Hhuge & Hmap). rewrite Z.add_0_l, len_snoc.
    pose proof (len_nonneg d). destruct (Hpg (len d) ltac:(lia)) as [Hc [[f fl] Hm]].
    pose proof (canonical_range _ Hc). assert (0 ≤ len d * PAGE_SIZE) by (unfold PAGE_SIZE; lia).
    unfold unmap_range_step. rewrite umul_val by lia. cbn [mbind outcome_bind].
    rewrite uadd_val by lia. cbn [mbind outcome_bind].
    assert (mapping (mapper vas') (page_of (v + len d * PAGE_SIZE)) = Some (f, fl)) as Hm'.
    { rewrite page_of_step, Hmap. unfold range_unmap. rewrite decide_False; [done|]. lia. }
    destruct (unmap_page_mapped _ _ _ _ Hc Hm') as (pt & -> & Hh & Hmp).
    cbn [mbind outcome_bind]. split_and!; [by rewrite Hvas|intros p; simpl; congruence|].
    intros p. simpl. rewrite Hmp, page_of_step, range_unmap_S by done. by rewrite Hmap.
Qed.

Lemma translate_spec vas v : canonical v → huge (mapper vas) (page_of v) = false →
  translate vas v = Val ((λ m, m.1 + v mod PAGE_SIZE) <$> mapping (mapper vas) (page_of v)).
Proof.
  intros Hv Hh. unfold translate, as_virt_addr. rewrite VirtAddr_new_canonical by done.
  cbn [mbind outcome_bind]. by rewrite translate_addr_spec.
Qed.
End vas_lemmas.

(** ** Theorems *)
Section theorems.
Context {P : Profile} {X : X86_64} {L : X86_64_Laws X}.
Implicit Types vas : VirtualAddressSpace.

(** C13: [map_range] on a range that does not overflow never panics and maps the
    pages in order up to the first one that is refused: all of them on [Ok], and
    on an error exactly the [j] pages before the refused one, which stay mapped;
    no other page changes.  With three free frames per page and no page in use,
    it succeeds. *)
Theorem map_range_exact vas fr v a sz prot : range_ok v a sz → frames_ok fr →
  ∃ r vas' fr' j, map_range vas fr v a sz prot = Val (r, vas', fr') ∧ frames_ok fr' ∧
    (∀ p, mapping (mapper vas') p =
       range_map (mapping (mapper vas)) (page_of v) (page_of a) (to_page_table_flags prot) j p) ∧
    (∀ i, 0 ≤ i < j → mapping (mapper vas) (page_of v + i * PAGE_SIZE) = None) ∧
    match r with
    | Ok _ => j = pages sz
    | Err e => 0 ≤ j < pages sz ∧ map_refused vas (page_of v + j * PAGE_SIZE) e
    end ∧
    (frames_left (Z.to_nat (3 * pages sz)) fr →
     (∀ i, 0 ≤ i < pages sz →
        huge (mapper vas) (page_of v + i * PAGE_SIZE) = false ∧
        mapping (mapper vas) (page_of v + i * PAGE_SIZE) = None) → r = Ok ()).
Proof.
  intros Hr Hfr. pose proof (map_range_spec vas fr v a sz prot Hr Hfr) as Hspec.
  pose proof (map_range_progress vas fr v a sz prot Hr) as Hprog. cbn zeta in Hspec.
  destruct (map_range vas fr v a sz prot) as [[[[[]|e] vas'] fr']| |]; try done.
  - destruct Hspec as (Hfr' & [_ _ Hmap Hfree]). exists (Ok ()), vas', fr', (pages sz). split_and!; auto.
  - destruct Hspec as (Hfr' & j & Hj & [_ _ Hmap Hfree] & Hre). exists (Err e), vas', fr', j.
    split_and!; try (done || lia). intros Hleft Hpages. by destruct (Hprog Hleft Hpages) as (? & ? & ?).
Qed.

Lemma canonical_in_page v k : v mod PAGE_SIZE = 0 → 0 ≤ k < PAGE_SIZE → canonical v → canonical (v + k).
Proof. unfold canonical, PAGE_SIZE. intros. divlia. Qed.

(** The page of a byte of an aligned range. *)
Lemma byte_of_range v a sz k : range_ok v a sz → v mod PAGE_SIZE = 0 → 0 ≤ k < sz →
  0 ≤ k / PAGE_SIZE < pages sz ∧ canonical (v + k) ∧
  page_of (v + k) = v + k / PAGE_SIZE * PAGE_SIZE ∧ (v + k) mod PAGE_SIZE = k mod PAGE_SIZE.
Proof.
  intros Hr Hv Hk. assert (0 ≤ k / PAGE_SIZE < pages sz) as Hi by (unfold pages, PAGE_SIZE; divlia).
  destruct (ro_pages _ _ _ Hr _ Hi) as [Hc _]. split; [done|]. split.
  - replace (v + k) with (v + k / PAGE_SIZE * PAGE_SIZE + k mod PAGE_SIZE) by (unfold PAGE_SIZE; divlia).
    apply canonical_in_page; [|unfold PAGE_SIZE; divlia|done]. unfold PAGE_SIZE in *. divlia.
  - unfold page_of, PAGE_SIZE in *. split; divlia.
Qed.

(** C18: after [map_range] of page-aligned ranges returned [Ok], [translate] sends
    the byte at offset [k] of the virtual range to the byte at offset [k] of the
    physical one, and [unmap_range] of the same range succeeds and restores the
    map from pages to frames there was before. *)
Theorem map_translate_unmap vas fr v a sz prot vas' fr' :
  range_ok v a sz → frames_ok fr → v mod PAGE_SIZE = 0 → a mod PAGE_SIZE = 0 →
  (∀ i, 0 ≤ i < pages sz → huge (mapper vas) (v + i * PAGE_SIZE) = false) →
  map_range vas fr v a sz prot = Val (Ok (), vas', fr') →
  (∀ k, 0 ≤ k < sz → translate vas' (v + k) = Val (Some (a + k))) ∧
  ∃ vas'', unmap_range vas' v sz = Val (Ok (), vas'') ∧ regions vas'' = regions vas ∧
    ∀ p, mapping (mapper vas'') p = mapping (mapper vas) p.
Proof.
  intros Hr Hfr Hv Ha Hh Hm. pose proof (map_range_spec vas fr v a sz prot Hr Hfr) as Hspec.
  cbn zeta in Hspec. rewrite Hm in Hspec. destruct Hspec as [_ [Hvas Hhuge Hmap Hfree]].
  rewrite page_of_aligned in Hmap, Hfree by done.
  assert (∀ i, 0 ≤ i < pages sz → mapping (mapper vas') (v + i * PAGE_SIZE) =
    Some (page_of a + i * PAGE_SIZE, to_page_table_flags prot)) as Hin.
  { intros i Hi. rewrite Hmap. unfold range_map.
    rewrite decide_True; [do 2 f_equal; lia|]. unfold PAGE_SIZE. split; [lia|].
    replace (v + i * 4096 - v) with (i * 4096) by lia. apply Z.mod_mul. lia. }
  split.
  - intros k Hk. destruct (byte_of_range v a sz k Hr Hv Hk) as (Hi & Hc & Hpg & Hmod).
    rewrite translate_spec by (rewrite ?Hpg, ?Hhuge; auto).
    rewrite Hpg, Hin, Hmod by done. simpl. do 2 f_equal.
    unfold page_of, PAGE_SIZE in *. divlia.
  - destruct Hr as [Hv0 _ [Hs Hb] Hpg].
    destruct (unmap_range_spec vas' v sz Hv0 Hs Hb) as (pt & -> & _ & Hun).
    { intros i Hi. split; [by apply Hpg|]. rewrite page_of_aligned, Hin by done. eauto. }
    exists (set_mapper vas' pt). split; [done|]. split; [by rewrite Hvas|].
    intros p. simpl. rewrite Hun, page_of_aligned by done. unfold range_unmap. rewrite Hmap.
    unfold range_map. destruct (decide _) as [[Hp Hpm]|]; [|done].
    symmetry. replace p with (v + (p - v) / PAGE_SIZE * PAGE_SIZE) by (unfold PAGE_SIZE in *; divlia).
    apply Hfree. unfold PAGE_SIZE in *. divlia.
Qed.

(** A range that does not start at a page boundary can touch one page more than
    [map_range] maps: that page stays as it was. *)
Theorem unaligned_tail_unmapped vas fr v a sz prot vas' fr' :
  range_ok v a sz → frames_ok fr → pages sz * PAGE_SIZE < v mod PAGE_SIZE + sz →
  map_range vas fr v a sz prot = Val (Ok (), vas', fr') →
  mapping (mapper vas') (page_of (v + sz - 1)) = mapping (mapper vas) (page_of (v + sz - 1)).
Proof.
  intros Hr Hfr Hv Hm. pose proof (map_range_spec vas fr v a sz prot Hr Hfr) as Hspec.
  cbn zeta in Hspec. rewrite Hm in Hspec. destruct Hspec as [_ [_ _ Hmap _]]. rewrite Hmap.
  unfold range_map. rewrite decide_False; [done|]. intros [Hp _].
  unfold pages, page_of, PAGE_SIZE in *. divlia.
Qed.

(** A range that failed after its first page cannot be mapped by trying again:
    the pages mapped by the first attempt are in the way. *)
Theorem failed_range_blocks_retry vas fr v a sz prot e vas' fr' :
  range_ok v a sz → frames_ok fr →
  map_range vas fr v a sz prot = Val (Err e, vas', fr') →
  mapping (mapper vas') (page_of v) ≠ mapping (mapper vas) (page_of v) →
  ∃ f fr'' vas'', map_range vas' fr' v a sz prot = Val (Err f, vas'', fr'').
Proof.
  intros Hr Hfr Hm Hne. pose proof (map_range_spec vas fr v a sz prot Hr Hfr) as Hspec.
  cbn zeta in Hspec. rewrite Hm in Hspec. destruct Hspec as (Hfr' & j & Hj & [_ _ Hmap _] & _).
  rewrite Hmap in Hne. unfold range_map in Hne. destruct (decide _) as [Hp|]; [|done].
  pose proof (map_range_spec vas' fr' v a sz prot Hr Hfr') as Hspec'. cbn zeta in Hspec'.
  destruct (map_range vas' fr' v a sz prot) as [[[[[]|e'] vas''] fr'']| |]; try done; [|by eexists _, _, _].
  destruct Hspec' as (_ & [_ _ _ Hfree]).
  specialize (Hfree 0 ltac:(lia)). rewrite Z.add_0_r, Hmap in Hfree. unfold range_map in Hfree.
  by rewrite decide_True in Hfree.
Qed.

(** The page count of a size is its quotient by the page size rounded up
    whenever [size + PAGE_SIZE] fits; above that the build with overflow checks
    panics, and the other one counts no pages (but for the one size where the
    sum wraps to zero and back), so that [map_range] returns [Ok] having mapped
    nothing. *)
Theorem page_count_bounds vas fr v a sz prot : 0 ≤ sz < 2 ^ 64 →
  if sz + PAGE_SIZE <? 2 ^ 64
  then ∃ n, page_count sz = Val n ∧ sz ≤ n * PAGE_SIZE < sz + PAGE_SIZE
  else if debug_assertions then page_count sz = Panic ∧ map_range vas fr v a sz prot = Panic
  else if sz =? 2 ^ 64 - PAGE_SIZE then page_count sz = Val (2 ^ 52 - 1)
  else page_count sz = Val 0 ∧ map_range vas fr v a sz prot = Val (Ok (), vas, fr).
Proof.
  intros Hs. destruct (Z.ltb_spec (sz + PAGE_SIZE) (2 ^ 64)) as [Hlt|Hge].
  { exists (pages sz). rewrite page_count_val by lia. split; [done|].
    unfold pages, PAGE_SIZE. divlia. }
  unfold map_range, page_count. unfold uadd. rewrite arith_bad by lia.
  destruct debug_assertions eqn:D; [done|]. cbn [mbind outcome_bind].
  replace ((sz + PAGE_SIZE) mod 2 ^ 64) with (sz + PAGE_SIZE - 2 ^ 64)
    by (unfold PAGE_SIZE in *; divlia).
  destruct (Z.eqb_spec sz (2 ^ 64 - PAGE_SIZE)) as [->|Hne].
  - unfold usub. rewrite arith_bad, D by (unfold PAGE_SIZE; lia). done.
  - rewrite usub_val by (unfold PAGE_SIZE in *; lia). cbn [mbind outcome_bind].
    rewrite udiv_val by done. cbn [mbind outcome_bind].
    replace ((sz + PAGE_SIZE - 2 ^ 64 - 1) / PAGE_SIZE) with 0 by (unfold PAGE_SIZE in *; divlia).
    done.
Qed.

Lemma region_contains_val r addr :
  0 ≤ region_start r → 0 ≤ region_size r → region_start r + region_size r < 2 ^ 64 →
  region_contains r addr =
    Val ((region_start r <=? addr) && (addr <? region_start r + region_size r)).
Proof.
  intros. unfold region_contains. rewrite uadd_val by lia. by destruct (_ <=? _).
Qed.

Local Ltac layout_simpl :=
  cbn [region_start region_size kernel_code_region kernel_data_region kernel_heap_region];
  unfold KERNEL_CODE_START, KERNEL_CODE_SIZE, KERNEL_DATA_START, KERNEL_DATA_SIZE,
    KERNEL_HEAP_START, KERNEL_HEAP_SIZE.
Definition region_fits (r : VirtualMemoryRegion) : Prop :=
  0 ≤ region_start r ∧ 0 ≤ region_size r ∧ region_start r + region_size r < 2 ^ 64.
Definition holds (r : VirtualMemoryRegion) (addr : Z) : Prop :=
  region_start r ≤ addr < region_start r + region_size r.

(** The first region that holds an address is the only one, if regions are
    disjoint. *)
Lemma find_in_spec l addr r : Forall region_fits l →
  (∀ r1 r2, r1 ∈ l → r2 ∈ l → holds r1 addr → holds r2 addr → r1 = r2) →
  find_in l addr = Val (Some r) ↔ r ∈ l ∧ holds r addr.
Proof.
  induction l as [|r1 l IH]; simpl.
  { intros _ _. split; [done|]. by intros [?%not_elem_of_nil _]. }
  intros [(? & ? & ?) Hfit]%Forall_cons Hdis. rewrite region_contains_val by done.
  cbn [mbind outcome_bind].
  destruct (Z.leb_spec (region_start r1) addr), (Z.ltb_spec addr (region_start r1 + region_size r1));
    cbn [andb].
  1: { split; [intros [= <-]; split; [by left|done]|]. intros [Hin Hh].
    rewrite (Hdis r r1); [done|done|by left|done|done]. }
  all: (rewrite IH; [|done|intros; apply Hdis; auto; by right]).
  all: rewrite elem_of_cons; unfold holds in *; split; [naive_solver|].
  all: intros [[->|] ?]; [lia|done].
Qed.

(** Initialisation installs three regions that are page aligned, canonical
    and pairwise disjoint, none of them both writable and executable and none
    accessible to user code, and [find_region] returns the one region that
    holds an address. *)
Theorem kernel_layout_safe (g : option VirtualAddressSpace) : 0 ≤ Cr3_read < 2 ^ 47 →
  ∃ vas, init_virtual_memory g = Val (Ok (), Some vas) ∧
    (∀ r, r ∈ regions vas →
       region_start r mod PAGE_SIZE = 0 ∧ region_size r mod PAGE_SIZE = 0 ∧ 0 < region_size r ∧
       canonical (region_start r) ∧ canonical (region_start r + region_size r - 1) ∧
       (writable (region_protection r) && executable (region_protection r)) = false ∧
       user_accessible (region_protection r) = false) ∧
    ∀ addr r, 0 ≤ addr < 2 ^ 64 →
      (find_region vas addr = Val (Some r) ↔
       r ∈ regions vas ∧ region_start r ≤ addr < region_start r + region_size r).
Proof.
  intros Hcr. unfold init_virtual_memory, get_level_4_page_table.
  rewrite uadd_val by (unfold PHYSICAL_MEMORY_OFFSET; lia). cbn [mbind outcome_bind].
  unfold as_virt_addr. rewrite VirtAddr_new_canonical by (right; vm_compute; split; congruence).
  cbn [mbind outcome_bind]. unfold setup_kernel_memory_layout, print_memory_layout, add_region.
  cbn [regions vas_new app for_each]. unfold region_end.
  rewrite !uadd_val by (vm_compute; split; congruence). cbn [mbind outcome_bind].
  eexists. split; [done|]. split.
  { intros r. cbn [regions]. rewrite !elem_of_cons, elem_of_nil.
    intros [->|[->|[->|[]]]]; unfold canonical; vm_compute; intuition congruence. }
  intros addr r Haddr. apply find_in_spec; cbn [regions].
  - rewrite !Forall_cons, Forall_nil. unfold region_fits. layout_simpl. lia.
  - intros r1 r2. unfold holds. rewrite !elem_of_cons, !elem_of_nil.
    intros [->|[->|[->|[]]]] [->|[->|[->|[]]]]; try reflexivity; layout_simpl; lia.
Qed.
End theorems.

(** ** A concrete mapper

    A table is the set of the tables that exist at the three lower levels and
    the map of leaf entries; there are no huge pages. *)
Record SoftTable := {
  soft_tables : gset (Z * Z);
  soft_leaves : gmap Z (Z * Z);
}.
Definition soft_levels (page : Z) : list (Z * Z) :=
  [(3, page / 2 ^ 39); (2, page / 2 ^ 30); (1, page / 2 ^ 21)].

Fixpoint soft_walk (alloc : Frames → outcome (option Z * Frames)) (levels : list (Z * Z))
    (tables : gset (Z * Z)) (s : Frames) : outcome (bool * gset (Z * Z) * Frames) :=
  match levels with
  | [] => Val (true, tables, s)
  | t :: levels =>
      if decide (t ∈ tables) then soft_walk alloc levels tables s
      else '(f, s) ← alloc s;
           match f with
           | None => Val (false, tables, s)
           | Some _ => soft_walk alloc levels ({[t]} ∪ tables) s
           end
  end.
Definition soft_map_to alloc (pt : SoftTable) (page frame flags : Z) (s : Frames) :
    outcome (result unit MapToError * SoftTable * Frames) :=
  match soft_leaves pt !! page with
  | Some (f, _) => Val (Err (PageAlreadyMapped f), pt, s)
  | None =>
      '(ok, tables, s) ← soft_walk alloc (soft_levels page) (soft_tables pt) s;
      if ok : bool
      then Val (Ok (), {| soft_tables := tables; soft_leaves := <[page := (frame, flags)]> (soft_leaves pt) |}, s)
      else Val (Err FrameAllocationFailed, {| soft_tables := tables; soft_leaves := soft_leaves pt |}, s)
  end.
Definition soft_unmap (pt : SoftTable) (page : Z) : result Z UnmapError * SoftTable :=
  match soft_leaves pt !! page with
  | Some (f, _) => (Ok f, {| soft_tables := soft_tables pt; soft_leaves := delete page (soft_leaves pt) |})
  | None => (Err PageNotMapped, pt)
  end.

Definition canonicalb (a : Z) : bool :=
  (0 <=? a) && (a <? 2 ^ 47) || (2 ^ 64 - 2 ^ 47 <=? a) && (a <? 2 ^ 64).

#[export] Instance soft_mmu : X86_64 := {|
  VirtAddr_new a := if canonicalb a then Val a else Panic;
  PhysAddr_new a := if in_width 52 a then Val a else Panic;
  page_containing := page_of;
  frame_containing := page_of;
  PRESENT := 2 ^ 0; WRITABLE := 2 ^ 1; USER_ACCESSIBLE := 2 ^ 2; NO_EXECUTE := 2 ^ 63;
  Cr3_read := 0x1000;
  OffsetPageTable := SoftTable;
  OffsetPageTable_new _ _ := {| soft_tables := ∅; soft_leaves := ∅ |};
  map_to := soft_map_to;
  unmap := soft_unmap;
  translate_addr pt a := (λ m, m.1 + a mod PAGE_SIZE) <$> soft_leaves pt !! page_of a;
|}.

Lemma canonicalb_true a : canonical a → canonicalb a = true.
Proof. unfold canonical, canonicalb. intros. zcase; simpl; lia. Qed.

Lemma soft_walk_spec alloc (I : Frames → Prop) levels tables s :
  (∀ s, I s → ∃ r s', alloc s = Val (r, s') ∧ I s') → I s →
  ∃ ok tables' s', soft_walk alloc levels tables s = Val (ok, tables', s') ∧ I s'.
Proof.
  intros Halloc. revert tables s. induction levels as [|t levels IH]; intros tables s HI; simpl.
  { by eexists _, _, _. }
  destruct (decide (t ∈ tables)); [by apply IH|].
  destruct (Halloc s HI) as (r & s' & -> & HI'). cbn [mbind outcome_bind].
  destruct r; [by apply IH|]. by eexists _, _, _.
Qed.

Lemma soft_walk_progress alloc (J : nat → Frames → Prop) levels k tables s :
  (∀ k s, J (S k) s → J k s ∧ ∃ f s', alloc s = Val (Some f, s') ∧ J k s') →
  J (length levels + k)%nat s →
  ∃ tables' s', soft_walk alloc levels tables s = Val (true, tables', s') ∧ J k s'.
Proof.
  intros Halloc. revert tables s. induction levels as [|t levels IH]; intros tables s HJ; simpl in *.
  { by eexists _, _. }
  destruct (Halloc _ _ HJ) as [HJ' (f & s' & Hf & HJ'')].
  destruct (decide (t ∈ tables)); [by apply IH|].
  rewrite Hf. cbn [mbind outcome_bind]. by apply IH.
Qed.

#[export] Program Instance soft_mmu_laws : X86_64_Laws soft_mmu := {|
  mapping := λ (pt : @OffsetPageTable soft_mmu) (p : Z), soft_leaves pt !! p;
  huge := λ _ _, false;
|}.
Next Obligation. intros a Ha. simpl. by rewrite canonicalb_true. Qed.
Next Obligation.
  intros a Ha. simpl. unfold in_width.
  by rewrite (proj2 (Z.leb_le _ _)), (proj2 (Z.ltb_lt _ _)) by lia.
Qed.
Next Obligation. done. Qed.
Next Obligation. done. Qed.
Next Obligation. done. Qed.
Next Obligation.
  intros alloc I pt page frame flags s Halloc HI _. simpl. unfold soft_map_to.
  destruct (soft_leaves pt !! page) as [[f fl]|] eqn:E.
  { eexists _, _, _. split; [done|]. naive_solver. }
  destruct (soft_walk_spec alloc I (soft_levels page) (soft_tables pt) s Halloc HI)
    as (ok & tables & s' & -> & HI'). cbn [mbind outcome_bind].
  destruct ok; eexists _, _, _; (split; [done|]); split_and!; try done.
  intros p. simpl. destruct (decide (p = page)) as [->|]; simplify_map_eq; done.
Qed.
Next Obligation.
  intros alloc J k pt page frame flags s Halloc HJ _ E. simpl in *. unfold soft_map_to. rewrite E.
  destruct (soft_walk_progress alloc J (soft_levels page) k (soft_tables pt) s Halloc HJ)
    as (tables & s' & -> & ?). by eexists _, _.
Qed.
Next Obligation.
  intros pt page. simpl. unfold soft_unmap.
  destruct (soft_leaves pt !! page) as [[f fl]|]; [|by eexists].
  eexists. split; [done|]. split; [done|]. intros p. simpl.
  destruct (decide (p = page)) as [->|]; simplify_map_eq; done.
Qed.
Next Obligation. done. Qed.

(** ** Witnesses *)

(** An empty address space over the twelve-frame manager, and two pages of it. *)
Definition demo_vas : @VirtualAddressSpace soft_mmu := vas_new 0 0.
Definition demo_fr : Frames := Some demo.

Lemma demo_fr_ok : frames_ok (P := dev) demo_fr.
Proof. split; [apply demo_wf|done]. Qed.
Lemma demo_range : range_ok 0x400000 0x7000 8192.
Proof.
  split; try done. intros i Hi. change (pages 8192) with 2 in Hi.
  unfold canonical, PAGE_SIZE. lia.
Qed.
Lemma demo_map : ∃ vas' fr',
  map_range (P := dev) demo_vas demo_fr 0x400000 0x7000 8192 user_read_write = Val (Ok (), vas', fr').
Proof. by eexists _, _. Qed.

Lemma map_range_exact_witness :
  ∃ r vas' fr',
    map_range (P := dev) demo_vas demo_fr 0x400000 0x7000 8192 user_read_write = Val (r, vas', fr') ∧
    r = Ok ().
Proof.
  destruct (map_range_exact (P := dev) demo_vas demo_fr 0x400000 0x7000 8192 user_read_write
    demo_range demo_fr_ok) as (r & vas' & fr' & j & E & _ & _ & _ & Hr & _).
  exists r, vas', fr'. split; [exact E|]. destruct demo_map as (v2 & f2 & E2).
  rewrite E2 in E. by injection E.
Defined.

Lemma map_translate_unmap_witness :
  ∃ vas' fr' vas'',
    map_range (P := dev) demo_vas demo_fr 0x400000 0x7000 8192 user_read_write = Val (Ok (), vas', fr') ∧
    translate vas' (0x400000 + 4097) = Val (Some (0x7000 + 4097)) ∧
    unmap_range (P := dev) vas' 0x400000 8192 = Val (Ok (), vas'').
Proof.
  destruct demo_map as (vas' & fr' & E). exists vas', fr'.
  destruct (map_translate_unmap (P := dev) demo_vas demo_fr 0x400000 0x7000 8192 user_read_write
    vas' fr' demo_range demo_fr_ok ltac:(done) ltac:(done) ltac:(done) E) as [Ht (vas'' & Hu & _)].
  exists vas''. split; [exact E|]. split; [apply Ht; lia|exact Hu].
Defined.

(** The largest size counts no page in a build without overflow checks. *)
Lemma page_count_bounds_witness :
  page_count (P := dev) 4097 = Val 2 ∧
  map_range (P := release) demo_vas demo_fr 0x400000 0x7000 (2 ^ 64 - 1) read_write =
    Val (Ok (), demo_vas, demo_fr).
Proof.
  split; [reflexivity|].
  exact (proj2 (page_count_bounds (P := release) demo_vas demo_fr 0x400000 0x7000 (2 ^ 64 - 1)
    read_write ltac:(lia))).
Defined.

Definition demo_init : @VirtualAddressSpace soft_mmu :=
  add_region (add_region (add_region (vas_new (PHYSICAL_MEMORY_OFFSET + 0x1000)
    PHYSICAL_MEMORY_OFFSET) kernel_code_region) kernel_data_region) kernel_heap_region.
Lemma demo_init_eq : init_virtual_memory (P := dev) (X := soft_mmu) None = Val (Ok (), Some demo_init).
Proof. reflexivity. Qed.

Lemma kernel_layout_safe_witness :
  ∃ vas, init_virtual_memory (P := dev) (X := soft_mmu) None = Val (Ok (), Some vas) ∧
    find_region (P := dev) vas 0xFFFFFFFF81000010 = Val (Some kernel_data_region).
Proof.
  destruct (kernel_layout_safe (P := dev) (X := soft_mmu) None ltac:(done)) as (vas & E & _ & Hf).
  exists vas. split; [exact E|]. apply Hf; [lia|].
  rewrite demo_init_eq in E. injection E as <-.
  split; [right; left|]. cbn [region_start region_size kernel_data_region].
  unfold KERNEL_DATA_START, KERNEL_DATA_SIZE. lia.
Defined.
