(* ===== verification/Swap.v ===== *)
(** * Swap space

    Models [kernel/src/memory/swap.rs]: the slot allocator and the swap
    manager.  The devices of [swap_file.rs] are in [SwapFile].

    The trait [SwapDevice] is the class of the same name; [SwapManager] is
    verified against the class and its laws [SwapDeviceLaws], and the file
    and partition devices discharge the laws.  The abstraction of a manager is
    the map [swapped] from page frames to the data they were swapped out
    with; [swap_out_page] and [swap_in_page] are insertion into and removal
    from it. *)
From S2P Require Import Prelude Float Physical.

Inductive SwapError :=
  DeviceUnavailable | InvalidSlot | IoError | NoSpace | SlotInUse | SlotNotInUse.
#[export] Instance SwapError_eq_dec : EqDecision SwapError.
Proof. solve_decision. Defined.

Inductive SwapDeviceType := File | Partition.
#[export] Instance SwapDeviceType_eq_dec : EqDecision SwapDeviceType.
Proof. solve_decision. Defined.

(** A page buffer [[u8; PAGE_SIZE]]; a [SwapSlot] is its number. *)
Abbreviation Page := (list Z).

Definition slot_offset `{Profile} (slot : Z) : outcome Z := umul 64 slot PAGE_SIZE.

(** The trait. A method taking [&mut self] returns the new device. *)
Class SwapDevice (D : Type) := {
  device_type : D → SwapDeviceType;
  dev_size : D → Z;
  read_page `{Profile} : D → Z → outcome (result Page SwapError * D);
  write_page `{Profile} : D → Z → Page → outcome (result unit SwapError * D);
  is_available : D → bool;
}.
Definition slot_count `{SwapDevice D} (d : D) : Z := dev_size d / PAGE_SIZE.

(** What the manager relies on: a slot holds the last page successfully
    written to it, and failing operations change no slot. *)
Class SwapDeviceLaws (D : Type) `{SwapDevice D} := {
  dev_wf : D → Prop;
  contents : D → Z → option Page;
  dev_size_range d : dev_wf d → 0 ≤ dev_size d < 2 ^ 64;
  read_contents `{Profile} d s p : dev_wf d → 0 ≤ s → contents d s = Some p →
    ∃ d', read_page d s = Val (Ok p, d') ∧ dev_wf d' ∧ slot_count d' = slot_count d ∧
          ∀ t, 0 ≤ t → contents d' t = contents d t;
  write_contents `{Profile} d s p : dev_wf d → 0 ≤ s < slot_count d → len p = PAGE_SIZE →
    match write_page d s p with
    | Val (Ok _, d') => dev_wf d' ∧ slot_count d' = slot_count d ∧ contents d' s = Some p ∧
                        ∀ t, 0 ≤ t → t ≠ s → contents d' t = contents d t
    | Val (Err _, d') => dev_wf d' ∧ slot_count d' = slot_count d ∧
                         ∀ t, 0 ≤ t → contents d' t = contents d t
    | _ => False
    end;
}.

(** ** Slot allocator *)
Record SwapStats := { total_slots : Z; used_slots : Z; free_slots : Z }.

Record SwapAllocator := {
  sa_bitmap : list bool;
  sa_free_slots : Z;
  sa_total_slots : Z;
  sa_next_free_hint : Z;
}.

Definition new_allocator (total : Z) : SwapAllocator :=
  {| sa_bitmap := replicate (Z.to_nat total) false; sa_free_slots := total;
     sa_total_slots := total; sa_next_free_hint := 0 |}.

Section allocator.
Context {P : Profile}.
Implicit Types a : SwapAllocator.

Definition allocate_slot a : outcome (option Z * SwapAllocator) :=
  if sa_free_slots a =? 0 then Val (None, a)
  else
    r ← for_loop (λ i (_ : unit),
      n ← uadd 64 (sa_next_free_hint a) i;
      slot_idx ← urem n (sa_total_slots a);
      used ← index (sa_bitmap a) slot_idx;
      if (used : bool) then Val (Next ())
      else
        b ← index_set (sa_bitmap a) slot_idx true;
        free ← usub 64 (sa_free_slots a) 1;
        n ← uadd 64 slot_idx 1;
        hint ← urem n (sa_total_slots a);
        Val (Return (slot_idx,
          {| sa_bitmap := b; sa_free_slots := free;
             sa_total_slots := sa_total_slots a; sa_next_free_hint := hint |})))
      (seqZ 0 (sa_total_slots a)) ();
    match r with
    | Next _ => Val (None, a)
    | Return (slot, a') => Val (Some slot, a')
    end.

Definition deallocate_slot a (slot : Z) : outcome (result unit SwapError * SwapAllocator) :=
  if sa_total_slots a <=? slot then Val (Err InvalidSlot, a)
  else
    used ← index (sa_bitmap a) slot;
    if negb used then Val (Err SlotNotInUse, a)
    else
      b ← index_set (sa_bitmap a) slot false;
      free ← uadd 64 (sa_free_slots a) 1;
      Val (Ok (),
        {| sa_bitmap := b; sa_free_slots := free; sa_total_slots := sa_total_slots a;
           sa_next_free_hint :=
             if slot <? sa_next_free_hint a then slot else sa_next_free_hint a |}).

Definition is_slot_allocated a (slot : Z) : outcome bool :=
  if slot <? sa_total_slots a then index (sa_bitmap a) slot else Val false.

Definition allocator_stats a : outcome SwapStats :=
  used ← usub 64 (sa_total_slots a) (sa_free_slots a);
  Val {| total_slots := sa_total_slots a; used_slots := used; free_slots := sa_free_slots a |}.

(** [SwapStats::*_bytes] and [*_mb]. *)
Definition slots_bytes (slots : Z) : outcome Z := umul 64 slots PAGE_SIZE.
Definition slots_mb (slots : Z) : outcome Z := b ← slots_bytes slots; udiv b (1024 * 1024).
(** [SwapStats::usage_percent]. *)
Definition usage_percent (s : SwapStats) : f32 :=
  if total_slots s =? 0 then f32_of_int 0
  else f32_mul (f32_div (f32_of_int (used_slots s)) (f32_of_int (total_slots s))) (f32_of_int 100).
End allocator.

(** ** Manager *)
Record SwapManager (D : Type) := {
  devices : list D;
  allocators : list SwapAllocator;
  page_to_swap : gmap Z (Z * Z);
  swap_to_page : gmap (Z * Z) Z;
  total_stats : SwapStats;
}.
Arguments devices {_} _.
Arguments allocators {_} _.
Arguments page_to_swap {_} _.
Arguments swap_to_page {_} _.
Arguments total_stats {_} _.
Arguments Build_SwapManager {_} _ _ _ _ _.

Section manager.
Context {P : Profile} {D : Type} `{SwapDevice D}.
Implicit Types m : SwapManager D.

Definition new_manager : SwapManager D :=
  {| devices := []; allocators := []; page_to_swap := ∅; swap_to_page := ∅;
     total_stats := {| total_slots := 0; used_slots := 0; free_slots := 0 |} |}.

Definition set_allocators m al : SwapManager D :=
  {| devices := devices m; allocators := al; page_to_swap := page_to_swap m;
     swap_to_page := swap_to_page m; total_stats := total_stats m |}.
Definition set_devices m ds : SwapManager D :=
  {| devices := ds; allocators := allocators m; page_to_swap := page_to_swap m;
     swap_to_page := swap_to_page m; total_stats := total_stats m |}.

Definition add_device m (d : D) : outcome (result Z SwapError * SwapManager D) :=
  if negb (is_available d) then Val (Err DeviceUnavailable, m)
  else
    let device_index := len (devices m) in
    let slots := slot_count d in
    _ ← umul 64 slots PAGE_SIZE; (* the size in MB is printed *)
    total ← uadd 64 (total_slots (total_stats m)) slots;
    free ← uadd 64 (free_slots (total_stats m)) slots;
    Val (Ok device_index,
      {| devices := devices m ++ [d]; allocators := allocators m ++ [new_allocator slots];
         page_to_swap := page_to_swap m; swap_to_page := swap_to_page m;
         total_stats := {| total_slots := total;
           used_slots := used_slots (total_stats m); free_slots := free |} |}).

(** The loop renumbering [swap_to_page] after device [j] was removed. *)
Definition shift_key (j : Z) (k : Z * Z) : Z * Z :=
  (if j <? k.1 then k.1 - 1 else k.1, k.2).
Definition renumber (j : Z) (s2p : gmap (Z * Z) Z) : gmap (Z * Z) Z :=
  list_to_map (prod_map (shift_key j) id <$> map_to_list s2p).

Definition remove_device m (device_index : Z) : outcome (result unit SwapError * SwapManager D) :=
  if len (devices m) <=? device_index then Val (Err InvalidSlot, m)
  else
    allocator ← index (allocators m) device_index;
    stats ← allocator_stats allocator;
    if 0 <? used_slots stats then Val (Err SlotInUse, m)
    else
      let s2p := filter (λ '(k, _), k.1 ≠ device_index) (swap_to_page m) in
      total ← usub 64 (total_slots (total_stats m)) (total_slots stats);
      free ← usub 64 (free_slots (total_stats m)) (free_slots stats);
      Val (Ok (),
        {| devices := vec_remove (Z.to_nat device_index) (devices m);
           allocators := vec_remove (Z.to_nat device_index) (allocators m);
           page_to_swap := page_to_swap m; swap_to_page := renumber device_index s2p;
           total_stats := {| total_slots := total;
             used_slots := used_slots (total_stats m); free_slots := free |} |}).

(** One iteration of [swap_out_page]: try device [device_index]. *)
Definition try_device (page_frame : Z) (data : Page) (device_index : Z) m :
    outcome (flow (SwapManager D) (Z * SwapManager D)) :=
  allocator ← index (allocators m) device_index;
  '(slot, allocator) ← allocate_slot allocator;
  al ← index_set (allocators m) device_index allocator;
  let m := set_allocators m al in
  match slot with
  | None => Val (Next m)
  | Some slot =>
      device ← index (devices m) device_index;
      '(r, device) ← write_page device slot data;
      ds ← index_set (devices m) device_index device;
      let m := set_devices m ds in
      match r with
      | Ok _ =>
          used ← uadd 64 (used_slots (total_stats m)) 1;
          free ← usub 64 (free_slots (total_stats m)) 1;
          Val (Return (slot,
            {| devices := devices m; allocators := allocators m;
               page_to_swap := <[page_frame := (device_index, slot)]> (page_to_swap m);
               swap_to_page := <[(device_index, slot) := page_frame]> (swap_to_page m);
               total_stats := {| total_slots := total_slots (total_stats m);
                 used_slots := used; free_slots := free |} |}))
      | Err _ =>
          '(_, allocator) ← deallocate_slot allocator slot;
          al ← index_set (allocators m) device_index allocator;
          Val (Next (set_allocators m al))
      end
  end.

Definition swap_out_page m (page_frame : Z) (data : Page) :
    outcome (result Z SwapError * SwapManager D) :=
  if decide (is_Some (page_to_swap m !! page_frame)) then Val (Err SlotInUse, m)
  else
    r ← for_loop (try_device page_frame data) (seqZ 0 (len (allocators m))) m;
    match r with
    | Next m => Val (Err NoSpace, m)
    | Return (slot, m) => Val (Ok slot, m)
    end.

(** The [&mut] buffer is the result. *)
Definition swap_in_page m (page_frame : Z) : outcome (result Page SwapError * SwapManager D) :=
  match page_to_swap m !! page_frame with
  | None => Val (Err SlotNotInUse, m)
  | Some (device_index, slot) =>
      device ← index (devices m) device_index;
      '(r, device) ← read_page device slot;
      ds ← index_set (devices m) device_index device;
      let m := set_devices m ds in
      match r with
      | Err e => Val (Err e, m)
      | Ok data =>
          allocator ← index (allocators m) device_index;
          '(r, allocator) ← deallocate_slot allocator slot;
          al ← index_set (allocators m) device_index allocator;
          let m := set_allocators m al in
          match r with
          | Err e => Val (Err e, m)
          | Ok _ =>
              used ← usub 64 (used_slots (total_stats m)) 1;
              free ← uadd 64 (free_slots (total_stats m)) 1;
              Val (Ok data,
                {| devices := devices m; allocators := allocators m;
                   page_to_swap := delete page_frame (page_to_swap m);
                   swap_to_page := delete (device_index, slot) (swap_to_page m);
                   total_stats := {| total_slots := total_slots (total_stats m);
                     used_slots := used; free_slots := free |} |})
          end
      end
  end.

Definition is_page_swapped m (page_frame : Z) : bool :=
  bool_decide (is_Some (page_to_swap m !! page_frame)).
Definition device_count m : Z := len (devices m).
Definition device_stats m (device_index : Z) : outcome (option SwapStats) :=
  match allocators m !! Z.to_nat device_index with
  | None => Val None
  | Some a => Some <$> allocator_stats a
  end.
End manager.

(** ** The slot allocator on its set of used slots *)
Definition used_set (a : SwapAllocator) : gset Z :=
  list_to_set (List.filter (λ s, bool_decide (sa_bitmap a !! Z.to_nat s = Some true))
    (seqZ 0 (sa_total_slots a))).

Lemma elem_of_used_set a s :
  s ∈ used_set a ↔ 0 ≤ s < sa_total_slots a ∧ sa_bitmap a !! Z.to_nat s = Some true.
Proof.
  unfold used_set. rewrite elem_of_list_to_set, list_elem_of_In, filter_In,
    <-list_elem_of_In, elem_of_seqZ, Z.add_0_l, bool_decide_eq_true. done.
Qed.

Record alloc_wf (a : SwapAllocator) : Prop := {
  aw_total : 0 ≤ sa_total_slots a < 2 ^ 52;
  aw_len : len (sa_bitmap a) = sa_total_slots a;
  aw_free : sa_free_slots a = sa_total_slots a - Z.of_nat (size (used_set a));
  aw_hint : 0 ≤ sa_next_free_hint a < Z.max 1 (sa_total_slots a);
}.

Lemma used_set_size a : 0 ≤ sa_total_slots a →
  Z.of_nat (size (used_set a)) ≤ sa_total_slots a.
Proof.
  intros Ht. assert (used_set a ⊆ list_to_set (seqZ 0 (sa_total_slots a))) as Hsub.
  { intros s [? _]%elem_of_used_set. rewrite elem_of_list_to_set, elem_of_seqZ. lia. }
  apply subseteq_size in Hsub.
  rewrite size_list_to_set, length_seqZ in Hsub by apply NoDup_seqZ. lia.
Qed.

Lemma aw_bit a s : alloc_wf a → 0 ≤ s < sa_total_slots a →
  ∃ b, sa_bitmap a !! Z.to_nat s = Some b.
Proof.
  intros Hwf Hs. apply lookup_lt_is_Some_2. pose proof (aw_len a Hwf). unfold len in *. lia.
Qed.

Lemma used_set_update a s (b : bool) free hint : alloc_wf a → 0 ≤ s < sa_total_slots a →
  used_set {| sa_bitmap := <[Z.to_nat s := b]> (sa_bitmap a); sa_free_slots := free;
              sa_total_slots := sa_total_slots a; sa_next_free_hint := hint |} =
  if b then {[s]} ∪ used_set a else used_set a ∖ {[s]}.
Proof.
  intros Hwf Hs. apply set_eq. intros t.
  rewrite elem_of_used_set; simpl. pose proof (aw_len a Hwf) as Hlen. unfold len in Hlen.
  destruct (decide (t = s)) as [->|Hne].
  - rewrite list_lookup_insert_eq by lia. destruct b; set_solver.
  - destruct (decide (0 ≤ t)) as [Ht|Ht].
    + rewrite list_lookup_insert_ne by lia.
      destruct b; rewrite ?elem_of_union, ?elem_of_difference, ?elem_of_singleton,
        elem_of_used_set; tauto.
    + destruct b; rewrite ?elem_of_union, ?elem_of_difference, ?elem_of_singleton,
        elem_of_used_set; intuition lia.
Qed.

Section allocator_specs.
Context {P : Profile}.

Lemma allocate_slot_spec a : alloc_wf a →
  match allocate_slot a with
  | Val (Some s, a') =>
      0 ≤ s < sa_total_slots a ∧ (s ∉ used_set a) ∧ alloc_wf a' ∧
      used_set a' = {[s]} ∪ used_set a ∧
      sa_total_slots a' = sa_total_slots a ∧ sa_free_slots a' = sa_free_slots a - 1 ∧
      ∃ i : Z, s = (sa_next_free_hint a + i) mod sa_total_slots a ∧
           ∀ j, 0 ≤ j < i → ((sa_next_free_hint a + j) mod sa_total_slots a) ∈ used_set a
  | Val (None, a') => a' = a ∧ sa_free_slots a = 0
  | _ => False
  end.
Proof.
  intros Hwf. unfold allocate_slot. pose proof (aw_total a Hwf). pose proof (aw_hint a Hwf).
  pose proof (aw_free a Hwf) as Hfree. pose proof (used_set_size a ltac:(lia)).
  destruct (Z.eqb_spec (sa_free_slots a) 0) as [|Hne]; [done|].
  assert (0 < sa_total_slots a) by lia.
  loop_inv (λ (d : list Z) (_ : unit), ∀ j : Z, 0 ≤ j < len d →
      ((sa_next_free_hint a + j) mod sa_total_slots a) ∈ used_set a)
    (λ r : Z * SwapAllocator, let s := r.1 in let a' := r.2 in
      0 ≤ s < sa_total_slots a ∧ (s ∉ used_set a) ∧ alloc_wf a' ∧
      used_set a' = {[s]} ∪ used_set a ∧
      sa_total_slots a' = sa_total_slots a ∧ sa_free_slots a' = sa_free_slots a - 1 ∧
      ∃ i : Z, s = (sa_next_free_hint a + i) mod sa_total_slots a ∧
           ∀ j, 0 ≤ j < i → ((sa_next_free_hint a + j) mod sa_total_slots a) ∈ used_set a) as HI.
  - destruct (for_loop _ _ _) as [[[]|[s a']]| |]; try done; simpl in *.
    exfalso. apply Hne. rewrite len_seqZ in HI by lia.
    assert (list_to_set (seqZ 0 (sa_total_slots a)) ⊆ used_set a) as Hsub.
    { intros s. rewrite elem_of_list_to_set, elem_of_seqZ. intros Hs.
      specialize (HI ((s - sa_next_free_hint a) mod sa_total_slots a)
        ltac:(apply Z.mod_pos_bound; lia)).
      rewrite Zplus_mod_idemp_r in HI.
      replace (sa_next_free_hint a + (s - sa_next_free_hint a)) with s in HI by lia.
      by rewrite Z.mod_small in HI by lia. }
    apply subseteq_size in Hsub.
    rewrite size_list_to_set, length_seqZ in Hsub by apply NoDup_seqZ. lia.
  - unfold len; simpl. lia.
  - intros d i todo [] [-> Hd]%seqZ_split HI. rewrite Z.add_0_l. pose proof (len_nonneg d).
    rewrite uadd_val by lia. simpl. rewrite urem_val by lia. simpl.
    set (s := (sa_next_free_hint a + len d) mod sa_total_slots a).
    assert (0 ≤ s < sa_total_slots a) as Hs by (apply Z.mod_pos_bound; lia).
    destruct (aw_bit a s Hwf Hs) as [b Hb]. rewrite (index_val _ _ _ Hb). simpl.
    destruct b.
    + intros j Hj. rewrite len_snoc in Hj. destruct (decide (j = len d)) as [->|].
      * apply elem_of_used_set. done.
      * apply HI. lia.
    + pose proof (aw_len a Hwf) as Hlen. unfold len in Hlen.
      rewrite index_set_val by lia. simpl. rewrite usub_val by lia. simpl.
      rewrite uadd_val by lia. simpl. rewrite urem_val by lia. simpl.
      assert (s ∉ used_set a) as Hn by (rewrite elem_of_used_set, Hb; naive_solver).
      assert (∀ hint, used_set {| sa_bitmap := <[Z.to_nat s := true]> (sa_bitmap a);
        sa_free_slots := sa_free_slots a - 1; sa_total_slots := sa_total_slots a;
        sa_next_free_hint := hint |} = {[s]} ∪ used_set a) as Hus
        by (intros; by rewrite used_set_update by done).
      split_and!; try done; try lia; [|by exists (len d)].
      split; simpl; try lia.
      * unfold len. rewrite length_insert. lia.
      * rewrite Hus, size_union, size_singleton by set_solver. lia.
      * rewrite Z.max_r by lia. apply Z.mod_pos_bound. lia.
Qed.

Lemma deallocate_slot_spec a s : alloc_wf a → 0 ≤ s →
  match deallocate_slot a s with
  | Val (Ok _, a') =>
      s ∈ used_set a ∧ alloc_wf a' ∧ used_set a' = used_set a ∖ {[s]} ∧
      sa_total_slots a' = sa_total_slots a ∧ sa_free_slots a' = sa_free_slots a + 1
  | Val (Err e, a') =>
      a' = a ∧ (s ∉ used_set a) ∧
      e = if sa_total_slots a <=? s then InvalidSlot else SlotNotInUse
  | _ => False
  end.
Proof.
  intros Hwf Hs. unfold deallocate_slot. pose proof (aw_total a Hwf). pose proof (aw_hint a Hwf).
  pose proof (aw_free a Hwf) as Hfree. pose proof (used_set_size a ltac:(lia)).
  destruct (Z.leb_spec (sa_total_slots a) s).
  { split_and!; try done. rewrite elem_of_used_set. lia. }
  destruct (aw_bit a s Hwf ltac:(lia)) as [b Hb]. rewrite (index_val _ _ _ Hb). simpl.
  destruct b; simpl; [|by rewrite elem_of_used_set, Hb; split_and!; naive_solver].
  pose proof (aw_len a Hwf) as Hlen. unfold len in Hlen.
  assert (s ∈ used_set a) as Hin by (apply elem_of_used_set; auto with lia).
  assert (size (used_set a) ≠ 0)%nat by (intros E%size_empty_inv; set_solver).
  rewrite index_set_val by lia. simpl. rewrite uadd_val by lia. simpl.
  assert (∀ fr hint, used_set {| sa_bitmap := <[Z.to_nat s := false]> (sa_bitmap a);
    sa_free_slots := fr; sa_total_slots := sa_total_slots a;
    sa_next_free_hint := hint |} = used_set a ∖ {[s]}) as Hus
    by (intros; by rewrite used_set_update by auto with lia).
  split_and!; try done.
  split; simpl; try lia.
  - unfold len. rewrite length_insert. lia.
  - rewrite Hus, size_difference, size_singleton by set_solver. lia.
  - zcase; lia.
Qed.

Lemma new_allocator_wf n : 0 ≤ n < 2 ^ 52 → alloc_wf (new_allocator n) ∧ used_set (new_allocator n) = ∅.
Proof.
  intros Hn. assert (used_set (new_allocator n) = ∅) as Hus.
  { apply set_eq. intros s. rewrite elem_of_used_set; simpl.
    split; [|set_solver]. intros [_ Hl]. apply lookup_replicate in Hl as [? _]. done. }
  split; [|done]. split; simpl; try lia.
  - unfold len. rewrite length_replicate. lia.
  - rewrite Hus. rewrite size_empty. lia.
Qed.
End allocator_specs.

(** ** The manager's invariant and abstraction *)
Section manager_specs.
Context {P : Profile} {D : Type} `{SwapDeviceLaws D}.
Implicit Types m : SwapManager D.

(** The data a page frame was swapped out with. *)
Definition swapped m (f : Z) : option Page :=
  '(i, s) ← page_to_swap m !! f;
  d ← devices m !! Z.to_nat i;
  contents d s.

Record mgr_wf m : Prop := {
  mw_len : length (devices m) = length (allocators m);
  mw_alloc i a : allocators m !! i = Some a → alloc_wf a;
  mw_dev i d : devices m !! i = Some d → dev_wf d;
  mw_slots i a d : allocators m !! i = Some a → devices m !! i = Some d →
    sa_total_slots a ≤ slot_count d;
  mw_inverse f i s : page_to_swap m !! f = Some (i, s) ↔ swap_to_page m !! (i, s) = Some f;
  mw_used i s : is_Some (swap_to_page m !! (i, s)) ↔
    0 ≤ i ∧ ∃ a, allocators m !! Z.to_nat i = Some a ∧ s ∈ used_set a;
  mw_data f : is_Some (page_to_swap m !! f) → is_Some (swapped m f);
  mw_total : total_slots (total_stats m) = sumZ sa_total_slots (allocators m);
  mw_free : free_slots (total_stats m) = sumZ sa_free_slots (allocators m);
  mw_sum : used_slots (total_stats m) =
           sumZ (λ a, Z.of_nat (size (used_set a))) (allocators m);
  mw_bound : sumZ sa_total_slots (allocators m) < 2 ^ 64;
}.

Lemma swapped_Some m f p : swapped m f = Some p ↔
  ∃ i s d, page_to_swap m !! f = Some (i, s) ∧ devices m !! Z.to_nat i = Some d ∧
           contents d s = Some p.
Proof.
  unfold swapped. destruct (page_to_swap m !! f) as [[i s]|]; simpl; [|naive_solver].
  destruct (devices m !! Z.to_nat i) as [d|] eqn:E; simpl; naive_solver.
Qed.

Lemma swapped_None m f : mgr_wf m → swapped m f = None ↔ page_to_swap m !! f = None.
Proof.
  intros Hwf. split; intros Hn.
  - destruct (page_to_swap m !! f) as [e|] eqn:E; [|done].
    destruct (mw_data m Hwf f) as [p Hp]; [by rewrite E|congruence].
  - unfold swapped. by rewrite Hn.
Qed.

Lemma mw_entry m f i s : mgr_wf m → page_to_swap m !! f = Some (i, s) →
  0 ≤ i ∧ ∃ a d p, allocators m !! Z.to_nat i = Some a ∧ s ∈ used_set a ∧
    devices m !! Z.to_nat i = Some d ∧ contents d s = Some p.
Proof.
  intros Hwf Hf. destruct (mw_data m Hwf f) as [p Hp]; [by rewrite Hf|].
  apply swapped_Some in Hp as (i' & s' & d & Hf' & Hd & Hc). simplify_eq.
  destruct (proj1 (mw_used m Hwf i s)) as (Hi & a & Ha & Hs).
  { exists f. by apply (mw_inverse m Hwf). }
  split; [done|]. naive_solver.
Qed.

(** Frames on the same slot are the same frame. *)
Lemma mw_inj m f g e : mgr_wf m →
  page_to_swap m !! f = Some e → page_to_swap m !! g = Some e → f = g.
Proof.
  intros Hwf Hf Hg. destruct e as [i s].
  apply (mw_inverse m Hwf) in Hf, Hg. congruence.
Qed.

(** Sums of the three per-device counters. *)
Lemma mw_counts m : mgr_wf m →
  (∀ a, a ∈ allocators m → alloc_wf a) ∧
  sumZ sa_free_slots (allocators m) =
    sumZ sa_total_slots (allocators m) - sumZ (λ a, Z.of_nat (size (used_set a))) (allocators m).
Proof.
  intros Hwf. assert (∀ a, a ∈ allocators m → alloc_wf a) as Ha.
  { intros a [i Hi]%list_elem_of_lookup. by eapply (mw_alloc m Hwf). }
  split; [done|]. induction (allocators m) as [|a l IH]; simpl; [done|].
  rewrite (aw_free a (Ha a (list_elem_of_here _ _))).
  rewrite IH by (intros; apply Ha; by right). lia.
Qed.
(** Replacing the allocator and the device at one index by ones that hold the
    same slots and data changes nothing. *)
Lemma mgr_wf_same m i a a' d d' :
  mgr_wf m → allocators m !! i = Some a → devices m !! i = Some d →
  alloc_wf a' → used_set a' = used_set a → sa_total_slots a' = sa_total_slots a →
  sa_free_slots a' = sa_free_slots a → slot_count d' = slot_count d → dev_wf d' →
  (∀ t, 0 ≤ t → contents d' t = contents d t) →
  let m' := Build_SwapManager (<[i := d']> (devices m)) (<[i := a']> (allocators m))
    (page_to_swap m) (swap_to_page m) (total_stats m) in
  mgr_wf m' ∧ ∀ g, swapped m' g = swapped m g.
Proof.
  intros Hwf Ha Hd Hwf' Hus Ht Hfr Hsc Hdw Hc m'.
  assert (∀ g, swapped m' g = swapped m g) as Hsw.
  { intros g. unfold swapped; simpl.
    destruct (page_to_swap m !! g) as [[j s]|] eqn:Hg; simpl; [|done].
    destruct (mw_entry m g j s Hwf Hg) as (Hj & aj & dj & p & Haj & Hs & Hdj & Hp).
    destruct (decide (i = Z.to_nat j)) as [->|].
    - rewrite list_lookup_insert_eq, Hd by (by eapply lookup_lt_Some). simpl.
      apply Hc. apply elem_of_used_set in Hs. lia.
    - by rewrite list_lookup_insert_ne by done. }
  split; [|done]. destruct Hwf as [Hl Hal Hdv Hsl Hinv Hused Hdata Htot Hfree Hsum Hb].
  split; simpl; try done.
  - by rewrite !length_insert.
  - intros j b [(-> & -> & _)|[_ Hj]]%list_lookup_insert_Some; [done|eauto].
  - intros j b [(-> & -> & _)|[_ Hj]]%list_lookup_insert_Some; [done|eauto].
  - intros j b e Hb1 He1. destruct (decide (j = i)) as [->|Hne].
    + rewrite list_lookup_insert_eq in Hb1 by (by eapply lookup_lt_Some).
      rewrite list_lookup_insert_eq in He1 by (by eapply lookup_lt_Some).
      simplify_eq. rewrite Ht, Hsc. eauto.
    + rewrite list_lookup_insert_ne in Hb1 by done.
      rewrite list_lookup_insert_ne in He1 by done. eauto.
  - intros j s. rewrite Hused. f_equiv. split; intros (b & Hb1 & Hs).
    + destruct (decide (i = Z.to_nat j)) as [->|].
      * exists a'. rewrite list_lookup_insert_eq by (by eapply lookup_lt_Some).
        simplify_eq. by rewrite Hus.
      * exists b. by rewrite list_lookup_insert_ne by done.
    + apply list_lookup_insert_Some in Hb1 as [(-> & -> & _)|[_ Hb1]]; [|eauto].
      exists a. by rewrite <-Hus.
  - intros g Hg. change (is_Some (swapped m' g)). rewrite Hsw. eauto.
  - rewrite (sumZ_insert _ _ _ _ _ Ha), Ht. lia.
  - rewrite (sumZ_insert _ _ _ _ _ Ha), Hfr. lia.
  - rewrite (sumZ_insert _ _ _ _ _ Ha), Hus. lia.
  - rewrite (sumZ_insert _ _ _ _ _ Ha), Ht. lia.
Qed.

(** Recording a page at a fresh slot. *)
Lemma mgr_wf_insert m i a a' d d' f s data used free :
  mgr_wf m → allocators m !! i = Some a → devices m !! i = Some d →
  page_to_swap m !! f = None → s ∉ used_set a → 0 ≤ s < sa_total_slots a →
  alloc_wf a' → used_set a' = {[s]} ∪ used_set a → sa_total_slots a' = sa_total_slots a →
  sa_free_slots a' = sa_free_slots a - 1 → slot_count d' = slot_count d → dev_wf d' →
  contents d' s = Some data → (∀ t, 0 ≤ t → t ≠ s → contents d' t = contents d t) →
  used = used_slots (total_stats m) + 1 → free = free_slots (total_stats m) - 1 →
  let m' := Build_SwapManager (<[i := d']> (devices m)) (<[i := a']> (allocators m))
    (<[f := (Z.of_nat i, s)]> (page_to_swap m)) (<[(Z.of_nat i, s) := f]> (swap_to_page m))
    {| total_slots := total_slots (total_stats m); used_slots := used; free_slots := free |} in
  mgr_wf m' ∧ ∀ g, swapped m' g = if decide (g = f) then Some data else swapped m g.
Proof.
  intros Hwf Ha Hd Hnone Hns Hs Hwf' Hus Ht Hfr Hsc Hdw Hcs Hc -> -> m'.
  assert (swap_to_page m !! (Z.of_nat i, s) = None) as Hfresh.
  { apply eq_None_not_Some. rewrite (mw_used m Hwf), Nat2Z.id. naive_solver. }
  assert (∀ g, swapped m' g = if decide (g = f) then Some data else swapped m g) as Hsw.
  { intros g. unfold swapped; simpl. destruct (decide (g = f)) as [->|Hne].
    - rewrite lookup_insert_eq; simpl.
      by rewrite Nat2Z.id, list_lookup_insert_eq by (by eapply lookup_lt_Some).
    - rewrite lookup_insert_ne by done.
      destruct (page_to_swap m !! g) as [[j t]|] eqn:Hg; simpl; [|done].
      destruct (mw_entry m g j t Hwf Hg) as (Hj & aj & dj & p & Haj & Ht' & Hdj & Hp).
      destruct (decide (i = Z.to_nat j)) as [->|].
      + rewrite list_lookup_insert_eq, Hd by (by eapply lookup_lt_Some). simpl.
        apply Hc; [apply elem_of_used_set in Ht'; lia|]. intros ->.
        apply (mw_inverse m Hwf) in Hg. rewrite Z2Nat.id in Hfresh by done. congruence.
      + by rewrite list_lookup_insert_ne by done. }
  split; [|done]. destruct Hwf as [Hl Hal Hdv Hsl Hinv Hused Hdata Htot Hfree Hsum Hb].
  split; simpl; try done.
  - by rewrite !length_insert.
  - intros j b [(-> & -> & _)|[_ Hj]]%list_lookup_insert_Some; [done|eauto].
  - intros j b [(-> & -> & _)|[_ Hj]]%list_lookup_insert_Some; [done|eauto].
  - intros j b e Hb1 He1. destruct (decide (j = i)) as [->|Hne].
    + rewrite list_lookup_insert_eq in Hb1 by (by eapply lookup_lt_Some).
      rewrite list_lookup_insert_eq in He1 by (by eapply lookup_lt_Some).
      simplify_eq. rewrite Ht, Hsc. eauto.
    + rewrite list_lookup_insert_ne in Hb1 by done.
      rewrite list_lookup_insert_ne in He1 by done. eauto.
  - intros g j t. rewrite !lookup_insert_Some, Hinv. split.
    + intros [[-> [=<- <-]]|[Hne Hg]]; [by left|right]. split; [|done]. congruence.
    + intros [[[=<- <-] ->]|[Hne Hg]]; [by left|right]. split; [|done]. intros <-.
      apply Hinv in Hg. congruence.
  - intros j t. rewrite lookup_insert_is_Some', Hused. split.
    + intros [[=<- <-]|(Hj & b & Hb1 & Hin)].
      * split; [lia|]. exists a'. rewrite Nat2Z.id, list_lookup_insert_eq
          by (by eapply lookup_lt_Some). set_solver.
      * split; [done|]. destruct (decide (i = Z.to_nat j)) as [->|].
        -- exists a'. rewrite list_lookup_insert_eq by (by eapply lookup_lt_Some).
           simplify_eq. set_solver.
        -- exists b. by rewrite list_lookup_insert_ne by done.
    + intros (Hj & b & Hb1 & Hin).
      apply list_lookup_insert_Some in Hb1 as [(Hi & -> & _)|[_ Hb1]]; [|eauto].
      rewrite Hus in Hin. apply elem_of_union in Hin as [->%elem_of_singleton|Hin].
      * left. f_equal. lia.
      * right. split; [done|]. exists a. by rewrite <-Hi.
  - intros g Hg. change (is_Some (swapped m' g)). rewrite Hsw.
    destruct (decide (g = f)); [eauto|]. apply Hdata. by rewrite lookup_insert_ne in Hg by done.
  - rewrite (sumZ_insert _ _ _ _ _ Ha), Ht. lia.
  - rewrite (sumZ_insert _ _ _ _ _ Ha), Hfr. lia.
  - rewrite (sumZ_insert _ _ _ _ _ Ha), Hus, size_union, size_singleton by set_solver. lia.
  - rewrite (sumZ_insert _ _ _ _ _ Ha), Ht. lia.
Qed.

(** Forgetting a page and its slot. *)
Lemma mgr_wf_delete m i a a' d d' f s used free :
  mgr_wf m → allocators m !! i = Some a → devices m !! i = Some d →
  page_to_swap m !! f = Some (Z.of_nat i, s) → s ∈ used_set a →
  alloc_wf a' → used_set a' = used_set a ∖ {[s]} → sa_total_slots a' = sa_total_slots a →
  sa_free_slots a' = sa_free_slots a + 1 → slot_count d' = slot_count d → dev_wf d' →
  (∀ t, 0 ≤ t → contents d' t = contents d t) →
  used = used_slots (total_stats m) - 1 → free = free_slots (total_stats m) + 1 →
  let m' := Build_SwapManager (<[i := d']> (devices m)) (<[i := a']> (allocators m))
    (delete f (page_to_swap m)) (delete (Z.of_nat i, s) (swap_to_page m))
    {| total_slots := total_slots (total_stats m); used_slots := used; free_slots := free |} in
  mgr_wf m' ∧ ∀ g, swapped m' g = if decide (g = f) then None else swapped m g.
Proof.
  intros Hwf Ha Hd Hf Hin Hwf' Hus Ht Hfr Hsc Hdw Hc -> -> m'.
  pose proof (lookup_lt_Some _ _ _ Ha) as Hla. pose proof (lookup_lt_Some _ _ _ Hd) as Hld.
  assert (∀ g, swapped m' g = if decide (g = f) then None else swapped m g) as Hsw.
  { intros g. unfold swapped; simpl. destruct (decide (g = f)) as [->|Hne].
    - by rewrite lookup_delete_eq.
    - rewrite lookup_delete_ne by done.
      destruct (page_to_swap m !! g) as [[j t]|] eqn:Hg; simpl; [|done].
      destruct (mw_entry m g j t Hwf Hg) as (Hj & aj & dj & p & Haj & Ht' & Hdj & Hp).
      destruct (decide (i = Z.to_nat j)) as [->|].
      + rewrite list_lookup_insert_eq, Hd by done. simpl.
        apply Hc. apply elem_of_used_set in Ht'; lia.
      + by rewrite list_lookup_insert_ne by done. }
  split; [|done]. pose proof (λ g, mw_inj m f g _ Hwf Hf) as Hinj.
  destruct Hwf as [Hl Hal Hdv Hsl Hinv Hused Hdata Htot Hfree Hsum Hb].
  split; simpl; try done.
  - by rewrite !length_insert.
  - intros j b [(-> & -> & _)|[_ Hj]]%list_lookup_insert_Some; [done|eauto].
  - intros j b [(-> & -> & _)|[_ Hj]]%list_lookup_insert_Some; [done|eauto].
  - intros j b e [(-> & -> & _)|[Hne Hb1]]%list_lookup_insert_Some
      [(? & -> & _)|[Hne' He1]]%list_lookup_insert_Some; try done; [|eauto].
    rewrite Ht, Hsc. eauto.
  - intros g j t. rewrite !lookup_delete_Some, Hinv. split.
    + intros [Hne Hg]. split; [|done]. intros [= <- <-]. apply Hinv in Hg. by apply Hne, Hinj.
    + intros [Hne Hg]. split; [|done]. intros <-. apply Hinv in Hg. congruence.
  - intros j t. rewrite lookup_delete_is_Some, Hused. split.
    + intros (Hne & Hj & b & Hb1 & Hbin). split; [done|].
      destruct (decide (i = Z.to_nat j)) as [->|].
      * exists a'. rewrite list_lookup_insert_eq by done. simplify_eq.
        split; [done|]. rewrite Hus, elem_of_difference, elem_of_singleton.
        split; [done|]. intros ->. apply Hne. f_equal. lia.
      * exists b. by rewrite list_lookup_insert_ne by done.
    + intros (Hj & b & [(Hi & -> & _)|[Hne Hb1]]%list_lookup_insert_Some & Hbin).
      * rewrite Hus, elem_of_difference, elem_of_singleton in Hbin.
        split; [intros [= _ ->]; tauto|]. split; [done|]. exists a. rewrite <-Hi. tauto.
      * split; [intros [= <- _]; lia|]. eauto.
  - intros g Hg. change (is_Some (swapped m' g)). rewrite Hsw.
    apply lookup_delete_is_Some in Hg as [Hne Hg]. rewrite decide_False by done. eauto.
  - rewrite (sumZ_insert _ _ _ _ _ Ha), Ht. lia.
  - rewrite (sumZ_insert _ _ _ _ _ Ha), Hfr. lia.
  - rewrite (sumZ_insert _ _ _ _ _ Ha), Hus, size_difference, size_singleton
      by (by apply singleton_subseteq_l).
    assert (size (used_set a) ≠ 0)%nat; [|lia].
    intros E%size_empty_inv. apply (not_elem_of_empty (C:=gset Z) s), E, Hin.
  - rewrite (sumZ_insert _ _ _ _ _ Ha), Ht. lia.
Qed.

(** The counters of a well-formed manager stay in range when a page moves. *)
Lemma mw_range m i a : mgr_wf m → allocators m !! i = Some a →
  sa_free_slots a ≤ free_slots (total_stats m) < 2 ^ 64 ∧
  Z.of_nat (size (used_set a)) ≤ used_slots (total_stats m) ∧
  used_slots (total_stats m) + free_slots (total_stats m) < 2 ^ 64.
Proof.
  intros Hwf Ha. destruct (mw_counts m Hwf) as [Hall Hcnt].
  pose proof (mw_bound m Hwf). rewrite (mw_free m Hwf), (mw_sum m Hwf).
  assert (∀ b, b ∈ allocators m → 0 ≤ sa_free_slots b) as Hnn.
  { intros b Hb. pose proof (aw_free b (Hall b Hb)). pose proof (aw_total b (Hall b Hb)).
    pose proof (used_set_size b ltac:(lia)). lia. }
  apply list_elem_of_lookup_2 in Ha.
  pose proof (sumZ_elem sa_free_slots _ _ Hnn Ha).
  pose proof (sumZ_elem (λ b, Z.of_nat (size (used_set b))) (allocators m) a
    ltac:(intros; simpl; lia) Ha).
  pose proof (sumZ_nonneg (λ b, Z.of_nat (size (used_set b))) (allocators m)
    ltac:(intros; simpl; lia)). simpl in *. lia.
Qed.

(** Device [i] has no slot left, or refuses to write the slot its allocator hands out. *)
Definition device_rejects m (data : Page) (i : nat) : Prop :=
  ∀ a d, allocators m !! i = Some a → devices m !! i = Some d →
    sa_free_slots a = 0 ∨
    ∃ s a' e d', allocate_slot a = Val (Some s, a') ∧ write_page d s data = Val (Err e, d').

Lemma try_device_spec m f data (i : nat) :
  mgr_wf m → page_to_swap m !! f = None → len data = PAGE_SIZE →
  (i < length (allocators m))%nat →
  match try_device f data (Z.of_nat i) m with
  | Val (Next m') =>
      mgr_wf m' ∧ page_to_swap m' = page_to_swap m ∧ (∀ g, swapped m' g = swapped m g) ∧
      length (allocators m') = length (allocators m) ∧ device_rejects m data i ∧
      ∀ j, j ≠ i → allocators m' !! j = allocators m !! j ∧ devices m' !! j = devices m !! j
  | Val (Return (s, m')) =>
      mgr_wf m' ∧ page_to_swap m' !! f = Some (Z.of_nat i, s) ∧
      ∀ g, swapped m' g = if decide (g = f) then Some data else swapped m g
  | _ => False
  end.
Proof.
  intros Hwf Hnone Hdata Hi. pose proof Hi as Hi'. rewrite <-(mw_len m Hwf) in Hi'.
  destruct (lookup_lt_is_Some_2 _ _ Hi) as [a Ha].
  destruct (lookup_lt_is_Some_2 _ _ Hi') as [d Hd].
  pose proof (mw_alloc m Hwf _ _ Ha) as Hawf. pose proof (mw_dev m Hwf _ _ Hd) as Hdwf.
  unfold try_device, index_set. rewrite (index_val _ _ a) by (by rewrite Nat2Z.id). simpl.
  pose proof (allocate_slot_spec a Hawf) as Hal.
  destruct (allocate_slot a) as [[[s|] a']| |] eqn:Eal; try done; simpl; rewrite !Nat2Z.id.
  - destruct Hal as (Hs & Hns & Hwf' & Hus & Ht & Hfr & _).
    rewrite bool_decide_true by done. simpl.
    rewrite (index_val _ _ d) by (by rewrite Nat2Z.id). simpl.
    pose proof (mw_slots m Hwf _ _ _ Ha Hd) as Hsc.
    pose proof (write_contents d s data Hdwf ltac:(lia) Hdata) as Hw.
    destruct (mw_range m i a Hwf Ha) as (? & ? & ?).
    pose proof (aw_free a' Hwf'). pose proof (aw_total a' Hwf').
    pose proof (used_set_size a' ltac:(lia)).
    destruct (write_page d s data) as [[[[]|e] d']| |] eqn:Ew; try done; simpl.
    + destruct Hw as (Hdw & Hsc' & Hcs & Hct).
      rewrite bool_decide_true by done. simpl.
      rewrite uadd_val by lia. simpl. rewrite usub_val by lia. simpl.
      edestruct (mgr_wf_insert m i a a' d d' f s data) as [Hm Hsw]; eauto.
      split_and!; try done. apply lookup_insert_eq.
    + destruct Hw as (Hdw & Hsc' & Hct).
      rewrite bool_decide_true by done. simpl.
      pose proof (deallocate_slot_spec a' s Hwf' ltac:(lia)) as Hde.
      destruct (deallocate_slot a' s) as [[[[]|e'] a'']| |]; try done; simpl;
        [|exfalso; apply (proj1 (proj2 Hde)); rewrite Hus; set_solver].
      destruct Hde as (_ & Hwf'' & Hus'' & Ht'' & Hfr'').
      rewrite length_insert, bool_decide_true by done. simpl.
      rewrite list_insert_insert_eq.
      destruct (mgr_wf_same m i a a'' d d') as [Hm Hsw]; eauto; try lia.
      { rewrite Hus'', Hus. set_solver. }
      split_and!; try done; [by rewrite length_insert| |].
      * intros b e2 Hb He2. simplify_eq. right. by exists s, a', e, d'.
      * intros j Hj. by rewrite !list_lookup_insert_ne by done.
  - destruct Hal as [-> Hfr]. rewrite bool_decide_true by done. simpl.
    unfold set_allocators. rewrite list_insert_id by done.
    split_and!; try done; [by destruct m|].
    intros b e Hb He. simplify_eq. by left.
Qed.

Lemma swap_out_page_spec m f data :
  mgr_wf m → len data = PAGE_SIZE →
  match swap_out_page m f data with
  | Val (Ok s, m') =>
      swapped m f = None ∧ mgr_wf m' ∧
      (∃ i, page_to_swap m' !! f = Some (i, s)) ∧
      ∀ g, swapped m' g = if decide (g = f) then Some data else swapped m g
  | Val (Err SlotInUse, m') => m' = m ∧ is_Some (swapped m f)
  | Val (Err NoSpace, m') =>
      swapped m f = None ∧ mgr_wf m' ∧ (∀ g, swapped m' g = swapped m g) ∧
      ∀ i, (i < length (allocators m))%nat → device_rejects m data i
  | _ => False
  end.
Proof.
  intros Hwf Hdata. unfold swap_out_page.
  case_decide as Hf; [split; [done|by apply (mw_data m Hwf)]|].
  apply eq_None_not_Some in Hf. pose proof (proj2 (swapped_None m f Hwf) Hf) as Hsf.
  loop_inv (λ (dn : list Z) (m' : SwapManager D),
      mgr_wf m' ∧ page_to_swap m' = page_to_swap m ∧ (∀ g, swapped m' g = swapped m g) ∧
      length (allocators m') = length (allocators m) ∧
      (∀ i, (i < length dn)%nat → device_rejects m data i) ∧
      ∀ j, (length dn ≤ j)%nat →
        allocators m' !! j = allocators m !! j ∧ devices m' !! j = devices m !! j)
    (λ r : Z * SwapManager D, mgr_wf r.2 ∧ (∃ i, page_to_swap r.2 !! f = Some (i, r.1)) ∧
      ∀ g, swapped r.2 g = if decide (g = f) then Some data else swapped m g) as HI.
  - destruct (for_loop _ _ _) as [[m'|[s m']]| |]; simpl; try tauto.
    destruct HI as (? & ? & ? & ? & Hrej & _). rewrite length_seqZ in Hrej.
    unfold len in Hrej. rewrite Nat2Z.id in Hrej. done.
  - split_and!; try done. simpl. lia.
  - intros dn x todo m' [-> Hx]%seqZ_split (Hm & Hp & Hsw & Hl & Hrej & Hrest).
    unfold len in *. rewrite Z.add_0_l.
    pose proof (try_device_spec m' f data (length dn) Hm ltac:(by rewrite Hp) Hdata
      ltac:(lia)) as Ht.
    destruct (try_device _ _ _ _) as [[m''|[s m'']]| |]; try done; simpl.
    + destruct Ht as (Hm2 & Hp2 & Hsw2 & Hl2 & Hrej2 & Hrest2).
      rewrite length_app; simpl. split_and!; [done|congruence| |lia|..].
      * intros g. etrans; [apply Hsw2|apply Hsw].
      * intros i Hi. destruct (decide (i = length dn)) as [->|]; [|apply Hrej; lia].
        destruct (Hrest (length dn) ltac:(lia)) as [Ea Ed]. intros a d. rewrite <-Ea, <-Ed.
        apply Hrej2.
      * intros j Hj. destruct (Hrest2 j ltac:(lia)) as [-> ->]. apply Hrest. lia.
    + destruct Ht as (Hm2 & Hp2 & Hsw2). split_and!; [done|eauto|].
      intros g. rewrite Hsw2. case_decide; [done|apply Hsw].
Qed.

Lemma swap_in_page_spec m f : mgr_wf m →
  match swap_in_page m f with
  | Val (Ok data, m') =>
      swapped m f = Some data ∧ mgr_wf m' ∧
      used_slots (total_stats m') = used_slots (total_stats m) - 1 ∧
      ∀ g, swapped m' g = if decide (g = f) then None else swapped m g
  | Val (Err e, m') => e = SlotNotInUse ∧ m' = m ∧ swapped m f = None
  | _ => False
  end.
Proof.
  intros Hwf. unfold swap_in_page.
  destruct (page_to_swap m !! f) as [[i s]|] eqn:Hf;
    [|by rewrite (swapped_None m f Hwf)].
  destruct (mw_entry m f i s Hwf Hf) as (Hi & a & d & p & Ha & Hs & Hd & Hp).
  assert (swapped m f = Some p) as Hsf by (apply swapped_Some; eauto 7).
  pose proof (mw_dev m Hwf _ _ Hd) as Hdw. pose proof (mw_alloc m Hwf _ _ Ha) as Haw.
  pose proof Hs as [Hsr _]%elem_of_used_set.
  rewrite (index_val _ _ _ Hd). simpl. destruct (read_contents d s p Hdw ltac:(lia) Hp)
    as (d' & -> & Hdw' & Hsc & Hc); simpl.
  rewrite index_set_val by (by eapply lookup_lt_Some). simpl.
  rewrite (index_val _ _ _ Ha). simpl.
  pose proof (deallocate_slot_spec a s Haw ltac:(lia)) as Hde.
  destruct (deallocate_slot a s) as [[[[]|e] a']| |]; try done; simpl; [|tauto].
  destruct Hde as (_ & Haw' & Hus & Ht & Hfr).
  rewrite index_set_val by (by eapply lookup_lt_Some). simpl.
  destruct (mw_range m _ a Hwf Ha) as (? & ? & ?).
  pose proof (aw_free a Haw). pose proof (used_set_size a ltac:(lia)).
  assert (1 ≤ size (used_set a))%nat.
  { destruct (size (used_set a)) eqn:E; [|lia]. apply size_empty_inv in E.
    by apply E, not_elem_of_empty in Hs. }
  rewrite usub_val by lia. simpl. rewrite uadd_val by lia. simpl.
  rewrite <-(Z2Nat.id i Hi) in Hf.
  edestruct (mgr_wf_delete m (Z.to_nat i) a a' d d' f s) as [Hm Hsw]; eauto.
  rewrite Z2Nat.id in * by done. done.
Qed.

Lemma new_manager_wf : mgr_wf new_manager.
Proof.
  split; simpl; try done; intros.
  - rewrite lookup_empty. setoid_rewrite lookup_nil. split; [by intros []|naive_solver].
  - by rewrite lookup_empty in H1; destruct H1.
Qed.

Lemma slot_count_range d : dev_wf d →
  0 ≤ slot_count d < 2 ^ 52 ∧ slot_count d * PAGE_SIZE < 2 ^ 64.
Proof.
  intros Hd%dev_size_range. unfold slot_count, PAGE_SIZE. divlia.
Qed.

(** [add_device] registers an available device under the next index with an
    empty allocator over all its slots, and loses no page. *)
Lemma add_device_spec m d : mgr_wf m → dev_wf d →
  total_slots (total_stats m) + slot_count d < 2 ^ 64 →
  match add_device m d with
  | Val (Ok i, m') => is_available d = true ∧ i = device_count m ∧ mgr_wf m' ∧
      (∀ g, swapped m' g = swapped m g) ∧
      device_stats m' i = Val (Some {| total_slots := slot_count d; used_slots := 0;
                                       free_slots := slot_count d |})
  | Val (Err e, m') => e = DeviceUnavailable ∧ is_available d = false ∧ m' = m
  | _ => False
  end.
Proof.
  intros Hwf Hd Hb. unfold add_device. destruct (is_available d); simpl; [|done].
  destruct (slot_count_range d Hd) as [Hsc Hmul]. pose proof (mw_counts m Hwf) as [Hall Hcnt].
  pose proof (mw_free m Hwf). pose proof (mw_total m Hwf). pose proof (mw_sum m Hwf).
  pose proof (sumZ_nonneg (λ b, Z.of_nat (size (used_set b))) (allocators m)
    ltac:(intros; simpl; lia)).
  assert (0 ≤ sumZ sa_free_slots (allocators m)).
  { apply sumZ_nonneg. intros a Ha. pose proof (aw_free a (Hall a Ha)).
    pose proof (aw_total a (Hall a Ha)). pose proof (used_set_size a ltac:(lia)). lia. }
  rewrite umul_val by (unfold PAGE_SIZE in *; lia). simpl.
  rewrite !uadd_val by lia. simpl.
  destruct (new_allocator_wf (slot_count d) Hsc) as [Hawf Hus].
  assert (∀ g, swapped (Build_SwapManager (devices m ++ [d])
    (allocators m ++ [new_allocator (slot_count d)]) (page_to_swap m) (swap_to_page m)
    {| total_slots := total_slots (total_stats m) + slot_count d;
       used_slots := used_slots (total_stats m);
       free_slots := free_slots (total_stats m) + slot_count d |}) g = swapped m g) as Hsw.
  { intros g. unfold swapped; simpl. destruct (page_to_swap m !! g) as [[j t]|] eqn:Hg; [|done].
    destruct (mw_entry m g j t Hwf Hg) as (Hj & aj & dj & p & Haj & Ht' & Hdj & Hp); simpl.
    by rewrite lookup_app_l by (by eapply lookup_lt_Some). }
  split_and!; try done.
  - destruct Hwf as [Hl Hal Hdv Hsl Hinv Hused Hdata Htot Hfree Hsum Hbd].
    split; simpl; try done.
    + rewrite !length_app. simpl. lia.
    + intros i a [Ha|[_ Ha]]%lookup_app_Some; [eauto|]. by apply list_lookup_singleton_Some in Ha as [_ <-].
    + intros i e [He|[_ He]]%lookup_app_Some; [eauto|]. by apply list_lookup_singleton_Some in He as [_ <-].
    + intros i a e Ha He. apply lookup_app_Some in Ha as [Ha|[Hi Ha]].
      * rewrite lookup_app_l in He by (rewrite Hl; by eapply lookup_lt_Some). eauto.
      * rewrite lookup_app_r, Hl in He by lia.
        apply list_lookup_singleton_Some in Ha as [_ <-], He as [_ <-]. done.
    + intros j s. rewrite Hused. f_equiv. split; intros (a & Ha & Hs); exists a.
      * by rewrite lookup_app_l by (by eapply lookup_lt_Some).
      * apply lookup_app_Some in Ha as [Ha|[_ Ha]]; [done|].
        apply list_lookup_singleton_Some in Ha as [_ <-]. rewrite Hus in Hs. set_solver.
    + intros g Hg. rewrite Hsw. eauto.
    + rewrite sumZ_app. simpl. lia.
    + rewrite sumZ_app. simpl. lia.
    + rewrite sumZ_app. simpl. rewrite Hus, size_empty. lia.
    + rewrite sumZ_app. simpl. lia.
  - unfold device_stats, len; simpl. rewrite Nat2Z.id, (mw_len m Hwf), list_lookup_middle by done.
    unfold allocator_stats. simpl. rewrite usub_val by lia. simpl. by rewrite Z.sub_diag.
Qed.

(** A client's calls after boot. *)
Inductive swap_op := SwapOut (f : Z) (data : Page) | SwapIn (f : Z).
Definition op_frame (o : swap_op) : Z := match o with SwapOut f _ | SwapIn f => f end.
Definition op_ok (o : swap_op) : Prop :=
  match o with SwapOut _ data => len data = PAGE_SIZE | SwapIn _ => True end.
Definition swap_step m (o : swap_op) : outcome (SwapManager D) :=
  match o with
  | SwapOut f data => snd <$> swap_out_page m f data
  | SwapIn f => snd <$> swap_in_page m f
  end.

Lemma swap_step_spec m o : mgr_wf m → op_ok o →
  ∃ m', swap_step m o = Val m' ∧ mgr_wf m' ∧
        ∀ g, g ≠ op_frame o → swapped m' g = swapped m g.
Proof.
  intros Hwf Hok. destruct o as [f data|f]; simpl in *.
  - pose proof (swap_out_page_spec m f data Hwf Hok) as Hs.
    destruct (swap_out_page m f data) as [[[s|[]] m']| |]; try done; simpl;
      exists m'; (split; [done|]).
    + destruct Hs as (_ & ? & _ & Hsw). split; [done|]. intros g Hg. by rewrite Hsw, decide_False.
    + destruct Hs as (_ & ? & ? & _). auto.
    + destruct Hs as [-> _]. done.
  - pose proof (swap_in_page_spec m f Hwf) as Hs.
    destruct (swap_in_page m f) as [[[p|e] m']| |]; try done; simpl;
      exists m'; (split; [done|]).
    + destruct Hs as (_ & ? & _ & Hsw). split; [done|]. intros g Hg. by rewrite Hsw, decide_False.
    + by destruct Hs as (_ & -> & _).
Qed.

(** *** Refinement: the manager implements a partial map of pages *)
Definition spec_out (f : Z) (data : Page) (r : result Z SwapError)
    (σ σ' : Z → option Page) : Prop :=
  match r with
  | Ok _ => σ f = None ∧ ∀ g, σ' g = if decide (g = f) then Some data else σ g
  | Err SlotInUse => is_Some (σ f) ∧ ∀ g, σ' g = σ g
  | Err NoSpace => σ f = None ∧ ∀ g, σ' g = σ g
  | Err _ => False
  end.
Definition spec_in (f : Z) (r : result Page SwapError) (σ σ' : Z → option Page) : Prop :=
  match r with
  | Ok data => σ f = Some data ∧ ∀ g, σ' g = if decide (g = f) then None else σ g
  | Err SlotNotInUse => σ f = None ∧ ∀ g, σ' g = σ g
  | Err _ => False
  end.

(** C22: On a well-formed manager, [swap_out_page] is insertion into the map
    from frames to swapped-out data: it never panics; it succeeds only for a
    frame that is not swapped out, and then records exactly that frame with
    exactly the given page; it answers [SlotInUse] for a frame that is swapped
    out already; it answers [NoSpace] only if every device is full or refuses
    to write the slot its allocator handed out; and no failure loses or changes any swapped-out page. *)
Theorem swap_out_page_refines m f data :
  mgr_wf m → len data = PAGE_SIZE →
  ∃ r m', swap_out_page m f data = Val (r, m') ∧ mgr_wf m' ∧
    spec_out f data r (swapped m) (swapped m') ∧
    (r = Err NoSpace → ∀ i, (i < length (allocators m))%nat → device_rejects m data i).
Proof.
  intros Hwf Hdata. pose proof (swap_out_page_spec m f data Hwf Hdata) as Hs.
  destruct (swap_out_page m f data) as [[[s|[]] m']| |]; try done;
    eexists _, m'; (split; [done|]); unfold spec_out.
  - destruct Hs as (? & ? & _ & ?). done.
  - destruct Hs as (? & ? & ? & ?). done.
  - destruct Hs as [-> ?]. done.
Qed.

(** C23: On a well-formed manager, [swap_in_page] is removal from the map from
    frames to swapped-out data: it never panics, it fails exactly for a frame
    that is not swapped out, and otherwise it returns the page the frame was
    swapped out with and forgets that frame alone, giving its slot back. *)
Theorem swap_in_page_refines m f :
  mgr_wf m →
  ∃ r m', swap_in_page m f = Val (r, m') ∧ mgr_wf m' ∧
    spec_in f r (swapped m) (swapped m') ∧
    used_slots (total_stats m') = used_slots (total_stats m) - (if is_ok r then 1 else 0).
Proof.
  intros Hwf. pose proof (swap_in_page_spec m f Hwf) as Hs.
  destruct (swap_in_page m f) as [[[data|e] m']| |]; try done;
    eexists _, m'; (split; [done|]); unfold spec_in, is_ok.
  - destruct Hs as (? & ? & ? & ?). done.
  - destruct Hs as (-> & -> & ->). split_and!; try done. lia.
Qed.

(** C7: What is swapped out is what is swapped back in: after a successful
    [swap_out_page] of a frame, and any sequence of swap operations on other
    frames (none of which panics), [swap_in_page] returns the very page that
    was written. *)
Theorem swap_roundtrip m f data s m1 ops :
  mgr_wf m → len data = PAGE_SIZE →
  swap_out_page m f data = Val (Ok s, m1) →
  Forall op_ok ops → Forall (λ o, op_frame o ≠ f) ops →
  ∃ m2 m3, for_each (λ o m, swap_step m o) ops m1 = Val m2 ∧
           swap_in_page m2 f = Val (Ok data, m3).
Proof.
  intros Hwf Hdata Hout Hok Hne.
  pose proof (swap_out_page_spec m f data Hwf Hdata) as Hs. rewrite Hout in Hs.
  destruct Hs as (_ & Hwf1 & _ & Hsw1).
  destruct (for_each_inv (λ _ m', mgr_wf m' ∧ swapped m' f = Some data)
    (λ o m, swap_step m o) ops m1) as (m2 & Hm2 & Hwf2 & Hsw2).
  - intros d o todo m' -> [Hm' Hf'].
    apply Forall_app in Hok as [_ [Ho _]%Forall_cons], Hne as [_ [Hof _]%Forall_cons].
    destruct (swap_step_spec m' o Hm' Ho) as (m'' & ? & ? & Hsame).
    exists m''. by rewrite Hsame.
  - split; [done|]. rewrite Hsw1. by rewrite decide_True.
  - pose proof (swap_in_page_spec m2 f Hwf2) as Hi.
    destruct (swap_in_page m2 f) as [[[p|e] m3]| |] eqn:Hin; try done.
    + exists m2, m3. destruct Hi as (Hp & _). split; [done|]. rewrite Hin. congruence.
    + destruct Hi as (_ & _ & Hn). congruence.
Qed.

(** [remove_device] renumbers the reverse map but leaves [page_to_swap]
    alone: after an empty device is removed, a page that had been swapped out
    to the last device can no longer be swapped in: [swap_in_page] indexes past
    the end of the device vector and panics. *)
Theorem remove_device_strands_pages m m' j f s :
  0 ≤ j < device_count m - 1 →
  page_to_swap m !! f = Some (device_count m - 1, s) →
  remove_device m j = Val (Ok (), m') →
  swap_in_page m' f = Panic.
Proof.
  unfold device_count, len. intros Hj Hf Hr. unfold remove_device in Hr.
  destruct (Z.leb_spec (len (devices m)) j); [unfold len in *; lia|].
  inv_val. destruct (0 <? _); inv_val. unfold swap_in_page; simpl. rewrite Hf. unfold index.
  by rewrite (lookup_ge_None_2 (vec_remove _ (devices m)))
    by (rewrite length_vec_remove by lia; lia).
Qed.
End manager_specs.
