(* ===== verification/SwapFile.v ===== *)
(** * Swap devices

    Models [kernel/src/memory/swap_file.rs]: the file device (a byte vector)
    and the partition device (a placeholder whose I/O always fails), and shows
    that both discharge [SwapDeviceLaws], so that the theorems of [Swap] apply
    to a manager holding a mix of them ([Box<dyn SwapDevice>] is [SwapBox]).
    The concrete instances of the manager's theorems are here too. *)
From S2P Require Import Prelude Physical Swap.

(** ** The file device *)
Record FileSwapDevice := {
  fd_name : string;
  fd_size : Z;
  fd_storage : list Z;
  fd_available : bool;
}.

(** [size_mb * 1024 * 1024] rounded up to pages, shared by both constructors. *)
Definition aligned_size `{Profile} (size_mb : Z) : outcome Z :=
  kb ← umul 64 size_mb 1024;
  size ← umul 64 kb 1024;
  n ← uadd 64 size PAGE_SIZE;
  n ← usub 64 n 1;
  Val (Z.land n (unot 64 (PAGE_SIZE - 1))).

Definition file_new `{Profile} (name : string) (size_mb : Z) :
    outcome (result FileSwapDevice SwapError) :=
  if size_mb =? 0 then Val (Err InvalidSlot)
  else
    size ← aligned_size size_mb;
    storage ← vec_zeroed size;
    Val (Ok {| fd_name := name; fd_size := size; fd_storage := storage; fd_available := true |}).

Definition from_storage (name : string) (storage : list Z) : result FileSwapDevice SwapError :=
  if is_empty storage then Err InvalidSlot
  else
    let size := len storage in
    if negb (size mod PAGE_SIZE =? 0) then Err InvalidSlot
    else Ok {| fd_name := name; fd_size := size; fd_storage := storage; fd_available := true |}.

Definition file_set_available (d : FileSwapDevice) (available : bool) : FileSwapDevice :=
  {| fd_name := fd_name d; fd_size := fd_size d; fd_storage := fd_storage d;
     fd_available := available |}.

Definition file_read_page `{Profile} (d : FileSwapDevice) (slot : Z) :
    outcome (result Page SwapError * FileSwapDevice) :=
  if negb (fd_available d) then Val (Err DeviceUnavailable, d)
  else
    offset ← slot_offset slot;
    e ← uadd 64 offset PAGE_SIZE;
    if fd_size d <? e then Val (Err InvalidSlot, d)
    else
      buffer ← slice (fd_storage d) offset e;
      Val (Ok buffer, d).

Definition file_write_page `{Profile} (d : FileSwapDevice) (slot : Z) (buffer : Page) :
    outcome (result unit SwapError * FileSwapDevice) :=
  if negb (fd_available d) then Val (Err DeviceUnavailable, d)
  else
    offset ← slot_offset slot;
    e ← uadd 64 offset PAGE_SIZE;
    if fd_size d <? e then Val (Err InvalidSlot, d)
    else
      storage ← copy_from_slice (fd_storage d) offset e buffer;
      Val (Ok (), {| fd_name := fd_name d; fd_size := fd_size d; fd_storage := storage;
                     fd_available := fd_available d |}).

(** ** The partition device *)
Record PartitionSwapDevice := {
  pd_name : string;
  pd_size : Z;
  pd_partition_id : Z;
  pd_available : bool;
}.

Definition partition_new `{Profile} (name : string) (partition_id size_mb : Z) :
    outcome (result PartitionSwapDevice SwapError) :=
  if size_mb =? 0 then Val (Err InvalidSlot)
  else
    size ← aligned_size size_mb;
    Val (Ok {| pd_name := name; pd_size := size; pd_partition_id := partition_id;
               pd_available := true |}).

Definition partition_set_available (d : PartitionSwapDevice) (available : bool) :
    PartitionSwapDevice :=
  {| pd_name := pd_name d; pd_size := pd_size d; pd_partition_id := pd_partition_id d;
     pd_available := available |}.

(** Its [read_page] and [write_page]: I/O is not implemented in the kernel. *)
Definition partition_io (d : PartitionSwapDevice) : SwapError :=
  if negb (pd_available d) then DeviceUnavailable else IoError.

(** ** [Box<dyn SwapDevice>] *)
Inductive SwapBox := FileBox (d : FileSwapDevice) | PartitionBox (d : PartitionSwapDevice).

#[export] Instance SwapBox_device : SwapDevice SwapBox := {
  device_type b := match b with FileBox _ => File | PartitionBox _ => Partition end;
  dev_size b := match b with FileBox d => fd_size d | PartitionBox d => pd_size d end;
  read_page _ b slot :=
    match b with
    | FileBox d => '(r, d) ← file_read_page d slot; Val (r, FileBox d)
    | PartitionBox d => Val (Err (partition_io d), b)
    end;
  write_page _ b slot buffer :=
    match b with
    | FileBox d => '(r, d) ← file_write_page d slot buffer; Val (r, FileBox d)
    | PartitionBox d => Val (Err (partition_io d), b)
    end;
  is_available b := match b with FileBox d => fd_available d | PartitionBox d => pd_available d end;
}.

(** ** The devices keep the laws *)
Definition file_wf (d : FileSwapDevice) : Prop :=
  fd_size d = len (fd_storage d) ∧ fd_size d mod PAGE_SIZE = 0 ∧ fd_size d < 2 ^ 63.

(** The page in a slot of an available device. *)
Definition file_contents (d : FileSwapDevice) (s : Z) : option Page :=
  if fd_available d && ((s + 1) * PAGE_SIZE <=? fd_size d)
  then match slice (fd_storage d) (s * PAGE_SIZE) ((s + 1) * PAGE_SIZE) with
       | Val p => Some p | _ => None end
  else None.

Section file_laws.
Context {P : Profile}.

Lemma file_read_contents d s p : file_wf d → 0 ≤ s → file_contents d s = Some p →
  file_read_page d s = Val (Ok p, d).
Proof.
  intros (Hsz & _ & Hmax) Hs. unfold file_contents, file_read_page, slot_offset.
  destruct (fd_available d); simpl; [|done]. unfold PAGE_SIZE in *. zcase; [|done]. intros Hc.
  rewrite umul_val by lia. simpl. rewrite uadd_val by lia. simpl.
  rewrite (proj2 (Z.ltb_ge _ _)) by lia.
  replace (s * 4096 + 4096) with ((s + 1) * 4096) by lia.
  destruct (slice _ _ _); simplify_eq. done.
Qed.

Lemma file_write_contents d s p :
  file_wf d → 0 ≤ s < fd_size d / PAGE_SIZE → len p = PAGE_SIZE →
  match file_write_page d s p with
  | Val (Ok _, d') => file_wf d' ∧ fd_size d' = fd_size d ∧ file_contents d' s = Some p ∧
                      ∀ t, 0 ≤ t → t ≠ s → file_contents d' t = file_contents d t
  | Val (Err e, d') => d' = d ∧ fd_available d = false
  | _ => False
  end.
Proof.
  intros (Hsz & Hmod & Hmax) Hs Hp. unfold file_contents, file_write_page, slot_offset.
  destruct (fd_available d) eqn:Hav; simpl; [|done]. unfold PAGE_SIZE in *.
  assert ((s + 1) * 4096 ≤ fd_size d) by divlia.
  rewrite umul_val by lia. simpl. rewrite uadd_val by lia. simpl.
  rewrite (proj2 (Z.ltb_ge _ _)) by lia.
  replace (s * 4096 + 4096) with ((s + 1) * 4096) by lia.
  rewrite copy_from_slice_val by lia. simpl. unfold file_wf; simpl.
  rewrite len_copy by lia. split_and!; try done.
  - rewrite (proj2 (Z.leb_le _ _)) by done. simpl. by rewrite slice_copy_same by lia.
  - intros t Ht Hne. zcase; [|done].
    by rewrite slice_copy_other by lia.
Qed.
End file_laws.

Definition box_wf (b : SwapBox) : Prop :=
  match b with FileBox d => file_wf d | PartitionBox d => 0 ≤ pd_size d < 2 ^ 64 end.

#[export] Program Instance SwapBox_laws : SwapDeviceLaws SwapBox := {
  dev_wf := box_wf;
  contents b s := match b with FileBox d => file_contents d s | PartitionBox _ => None end;
}.
Next Obligation.
  intros [d|d]; simpl; [|done]. intros (Hsz & _ & Hmax). pose proof (len_nonneg (fd_storage d)). lia.
Qed.
Next Obligation.
  intros P [d|d] s p; simpl; [|done]. intros Hd Hs Hc.
  rewrite (file_read_contents d s p) by done. by exists (FileBox d).
Qed.
Next Obligation.
  intros P [d|d] s p Hd Hs Hp; simpl in *; [|done].
  pose proof (file_write_contents d s p Hd Hs Hp) as Hw.
  destruct (file_write_page d s p) as [[[[]|e] d']| |]; try done; simpl.
  - destruct Hw as (? & Hsz & ? & ?). unfold slot_count; simpl. by rewrite Hsz.
  - by destruct Hw as [-> _].
Qed.

(** On the kernel's devices a rejection means that the device is full, unavailable or
    a partition. *)
Lemma kernel_device_rejects `{Profile} (m : SwapManager SwapBox) data i a d :
  mgr_wf m → len data = PAGE_SIZE → allocators m !! i = Some a → devices m !! i = Some d →
  device_rejects m data i →
  sa_free_slots a = 0 ∨ match d with FileBox f => fd_available f = false | PartitionBox _ => True end.
Proof.
  intros Hm Hl Ha Hd Hr. destruct (Hr a d Ha Hd) as [?|(s & a' & e & d' & Hs & Hw)]; [by left|]. right.
  destruct d as [f|]; [|done]. pose proof (allocate_slot_spec a (mw_alloc m Hm _ _ Ha)) as Hal.
  rewrite Hs in Hal. destruct Hal as (Hrange & _). pose proof (mw_slots m Hm _ _ _ Ha Hd) as Hc.
  pose proof (file_write_contents f s data (mw_dev m Hm _ _ Hd)) as Hf.
  unfold slot_count in Hc. simpl in Hw, Hc.
  destruct (file_write_page f s data) as [[[?|?] ?]| |]; simplify_eq/=; by apply Hf; [lia|].
Qed.

(** ** Constructors *)
Lemma aligned_size_exact `{Profile} mb : 0 ≤ mb < 2 ^ 43 →
  aligned_size mb = Val (mb * 2 ^ 20).
Proof.
  intros Hmb. unfold aligned_size, PAGE_SIZE.
  rewrite umul_val by lia. simpl. rewrite umul_val by lia. simpl.
  rewrite uadd_val by lia. simpl. rewrite usub_val by lia. simpl.
  f_equal. change 4095 with (PAGE_SIZE - 1).
  etrans; [apply align_down_eq; lia|]. unfold PAGE_SIZE. divlia.
Qed.

(** A new device of [mb] megabytes has [256 * mb] zeroed slots. *)
Lemma file_new_spec `{Profile} name mb : 0 < mb < 2 ^ 43 →
  ∃ d, file_new name mb = Val (Ok d) ∧ file_wf d ∧ fd_available d = true ∧
       slot_count (FileBox d) = 256 * mb.
Proof.
  intros Hmb. unfold file_new. rewrite (proj2 (Z.eqb_neq mb 0)) by lia.
  rewrite aligned_size_exact by lia. simpl. unfold vec_zeroed, isize_max.
  rewrite (proj2 (Z.ltb_ge _ _)) by lia. simpl. eexists. split; [done|].
  unfold file_wf, slot_count, len; simpl. rewrite length_replicate.
  change (dev_size _) with (mb * 2 ^ 20). unfold PAGE_SIZE.
  split_and!; try done; try lia; divlia.
Qed.

Lemma from_storage_spec name storage : len storage < 2 ^ 63 →
  match from_storage name storage with
  | Ok d => file_wf d ∧ fd_storage d = storage ∧ fd_available d = true
  | Err e => e = InvalidSlot ∧ (storage = [] ∨ len storage mod PAGE_SIZE ≠ 0)
  end.
Proof.
  intros Hl. unfold from_storage. destruct storage as [|x l]; simpl; [by auto|].
  destruct (Z.eqb_spec (len (x :: l) mod PAGE_SIZE) 0); simpl; [|by auto]. done.
Qed.

(** ** Concrete managers

    A disk of one page, a manager with one such disk and one with two. *)
Definition disk : SwapBox :=
  FileBox {| fd_name := "swap0"; fd_size := PAGE_SIZE; fd_storage := replicate 4096 0;
             fd_available := true |}.
Definition page7 : Page := replicate 4096 7.
Definition state_of {A} (o : outcome (A * SwapManager SwapBox)) : SwapManager SwapBox :=
  match o with Val (_, m) => m | _ => new_manager end.
Definition mgr1 : SwapManager SwapBox := state_of (add_device (P:=dev) new_manager disk).
(** Two disks; the page on the first has been swapped in again. *)
Definition mgr2 : SwapManager SwapBox :=
  let m := state_of (add_device (P:=dev) mgr1 disk) in
  let m := state_of (swap_out_page (P:=dev) m 3 page7) in
  let m := state_of (swap_out_page (P:=dev) m 5 page7) in
  state_of (swap_in_page (P:=dev) m 3).

Lemma disk_wf : dev_wf disk.
Proof. simpl. unfold file_wf. simpl. split_and!; vm_compute; done. Qed.

Lemma mgr1_wf : mgr_wf mgr1.
Proof.
  pose proof (add_device_spec (P:=dev) new_manager disk new_manager_wf disk_wf ltac:(done)) as H.
  unfold mgr1. destruct (add_device new_manager disk) as [[[i|e] m]| |]; simpl in *; try done.
  - tauto.
  - by destruct H as (_ & ? & _).
Qed.

Lemma swap_out_page_refines_witness :
  ∃ r m', swap_out_page (P:=dev) mgr1 5 page7 = Val (r, m') ∧ mgr_wf m' ∧
    spec_out 5 page7 r (swapped mgr1) (swapped m') ∧
    (r = Err NoSpace → ∀ i, (i < length (allocators mgr1))%nat → device_rejects (P:=dev) mgr1 page7 i).
Proof. apply swap_out_page_refines; [apply mgr1_wf|reflexivity]. Defined.

(** The disk holds the page of frame 5. *)
Definition mgr_five : SwapManager SwapBox := state_of (swap_out_page (P:=dev) mgr1 5 page7).
Lemma mgr_five_wf : mgr_wf mgr_five.
Proof.
  pose proof (swap_out_page_spec (P:=dev) mgr1 5 page7 mgr1_wf ltac:(done)) as H. unfold mgr_five.
  assert (is_ok <$> (fst <$> swap_out_page (P:=dev) mgr1 5 page7) = Val true) as Hok by (vm_compute; done).
  destruct (swap_out_page mgr1 5 page7) as [[[s|e] m]| |]; simpl in *; try done. tauto.
Qed.

Lemma swap_in_page_refines_witness :
  ∃ m', swap_in_page (P:=dev) mgr_five 5 = Val (Ok page7, m') ∧ mgr_wf m' ∧ swapped m' 5 = None ∧
    used_slots (total_stats m') = 0.
Proof.
  destruct (swap_in_page_refines (P:=dev) mgr_five 5 mgr_five_wf) as (r & m' & Hr & Hwf & Hs & Hu).
  destruct r as [data|e].
  - destruct Hs as [Hd Hg]. assert (data = page7) as -> by (vm_compute in Hd; by injection Hd).
    exists m'. split_and!; [exact Hr|exact Hwf|by rewrite Hg|by rewrite Hu].
  - by destruct e.
Defined.

Lemma swap_roundtrip_witness :
  ∃ m2 m3, for_each (λ o m, swap_step (P:=dev) m o) [SwapIn 9; SwapOut 8 page7]
             (state_of (swap_out_page (P:=dev) mgr1 5 page7)) = Val m2 ∧
           swap_in_page (P:=dev) m2 5 = Val (Ok page7, m3).
Proof.
  apply (swap_roundtrip (P:=dev) mgr1 5 page7 0).
  - apply mgr1_wf.
  - reflexivity.
  - vm_compute. reflexivity.
  - repeat constructor.
  - repeat constructor; discriminate.
Defined.

Lemma remove_device_strands_pages_witness :
  swap_in_page (P:=dev) (state_of (remove_device (P:=dev) mgr2 0)) 5 = Panic.
Proof.
  apply (remove_device_strands_pages (P:=dev) mgr2 _ 0 5 0).
  - vm_compute. split; [discriminate|reflexivity].
  - vm_compute. reflexivity.
  - vm_compute. reflexivity.
Defined.
