(* ===== verification/Replacement.v ===== *)
(** * Page replacement

    Models [kernel/src/memory/swap_algorithm.rs]: the LRU, FIFO and clock
    replacers and the page swapper that drives them against the swap manager
    of [Swap].  Each replacer is related to a short reference definition: LRU
    to the list of pages by recency of use, FIFO to the list by arrival, the
    clock to the first unreferenced page in cyclic order from the hand. *)
From S2P Require Import Prelude Physical Swap SwapFile.

Inductive PageReplacementAlgorithm := LRU | FIFO | Clock | LFU.
#[export] Instance PageReplacementAlgorithm_eq_dec : EqDecision PageReplacementAlgorithm.
Proof. solve_decision. Defined.

(** ** LRU *)
Record LRUReplacer := {
  lru_pages : list Z;             (* most recent first *)
  page_positions : gmap Z Z;
  lru_max_pages : Z;
}.
Definition lru_new (max : Z) : LRUReplacer :=
  {| lru_pages := []; page_positions := ∅; lru_max_pages := max |}.

(** The loops decrementing the positions after a removed one. *)
Definition close_gap (position : Z) (ps : gmap Z Z) : gmap Z Z :=
  (λ pos, if position <? pos then pos - 1 else pos) <$> ps.

(** [for (i, &frame) in pages.iter().enumerate() { positions.insert(frame, i) }]. *)
Definition store_positions (ps : gmap Z Z) (entries : list (nat * Z)) : gmap Z Z :=
  foldl (λ ps '(i, f), <[f := Z.of_nat i]> ps) ps entries.

(** [while pages.len() > max { pop_back }]. *)
Definition lru_trim (max : Z) (pages : list Z) (ps : gmap Z Z) : outcome (list Z * gmap Z Z) :=
  loop_fuel (S (length pages)) (λ '(pages, ps),
    if max <? len pages then
      match last pages with
      | Some oldest => Val (Next (removelast pages, delete oldest ps))
      | None => Val (Next (pages, ps))
      end
    else Val (Return (pages, ps))) (pages, ps).

Definition lru_access_page (r : LRUReplacer) (page_frame : Z) : outcome LRUReplacer :=
  let '(pages, ps) :=
    match page_positions r !! page_frame with
    | Some position => (vec_remove (Z.to_nat position) (lru_pages r),
                        close_gap position (page_positions r))
    | None => (lru_pages r, page_positions r)
    end in
  let pages := page_frame :: pages in
  let ps := store_positions ps (imap pair pages) in
  '(pages, ps) ← lru_trim (lru_max_pages r) pages ps;
  Val {| lru_pages := pages; page_positions := ps; lru_max_pages := lru_max_pages r |}.

Definition lru_victim_page (r : LRUReplacer) : option Z := last (lru_pages r).

Definition lru_remove_page (r : LRUReplacer) (page_frame : Z) : LRUReplacer :=
  match page_positions r !! page_frame with
  | Some position =>
      {| lru_pages := vec_remove (Z.to_nat position) (lru_pages r);
         page_positions := close_gap position (delete page_frame (page_positions r));
         lru_max_pages := lru_max_pages r |}
  | None => r
  end.

(** ** FIFO *)
Record FIFOReplacer := { fifo_pages : list Z; fifo_max_pages : Z }.
Definition fifo_new (max : Z) : FIFOReplacer := {| fifo_pages := []; fifo_max_pages := max |}.

Definition fifo_trim (max : Z) (pages : list Z) : outcome (list Z) :=
  loop_fuel (S (length pages)) (λ pages,
    if max <? len pages then Val (Next (tail pages)) else Val (Return pages)) pages.

Definition fifo_add_page (r : FIFOReplacer) (page_frame : Z) : outcome FIFOReplacer :=
  if bool_decide (page_frame ∈ fifo_pages r) then Val r
  else
    pages ← fifo_trim (fifo_max_pages r) (fifo_pages r ++ [page_frame]);
    Val {| fifo_pages := pages; fifo_max_pages := fifo_max_pages r |}.

Definition fifo_victim_page (r : FIFOReplacer) : option Z := head (fifo_pages r).

Definition fifo_remove_page (r : FIFOReplacer) (page_frame : Z) : FIFOReplacer :=
  match position (λ p, p =? page_frame) (fifo_pages r) with
  | Some pos => {| fifo_pages := vec_remove pos (fifo_pages r); fifo_max_pages := fifo_max_pages r |}
  | None => r
  end.

(** ** Clock *)
Record ClockReplacer := {
  clock_pages : list (Z * bool);
  clock_hand : Z;
  clock_max_pages : Z;
}.
Definition clock_new (max : Z) : ClockReplacer :=
  {| clock_pages := []; clock_hand := 0; clock_max_pages := max |}.
Definition set_clock (r : ClockReplacer) pages hand : ClockReplacer :=
  {| clock_pages := pages; clock_hand := hand; clock_max_pages := clock_max_pages r |}.

(** [if clock_hand >= pages.len() { clock_hand = 0 }]. *)
Definition wrap_hand (n hand : Z) : Z := if n <=? hand then 0 else hand.

Section clock.
Context {P : Profile}.
Implicit Types r : ClockReplacer.

(** The [loop] of [replace_page]. *)
Definition replace_step (new_page : Z) (s : list (Z * bool) * Z) :
    outcome (flow (list (Z * bool) * Z) (list (Z * bool) * Z)) :=
  let '(pages, hand) := s in
  let hand := wrap_hand (len pages) hand in
  '(frame, referenced) ← index pages hand;
  if (referenced : bool) then
    pages ← index_set pages hand (frame, false);
    hand ← uadd 64 hand 1;
    Val (Next (pages, hand))
  else
    pages ← index_set pages hand (new_page, true);
    hand ← uadd 64 hand 1;
    Val (Return (pages, hand)).

(** One revolution clears every bit, so two are enough. *)
Definition replace_page r (new_page : Z) : outcome ClockReplacer :=
  '(pages, hand) ← loop_fuel (2 * length (clock_pages r) + 2) (replace_step new_page)
                     (clock_pages r, clock_hand r);
  Val (set_clock r pages hand).

Definition clock_access_page r (page_frame : Z) : outcome ClockReplacer :=
  match position (λ '(f, _), f =? page_frame) (clock_pages r) with
  | Some i =>
      pages ← index_set (clock_pages r) (Z.of_nat i) (page_frame, true);
      Val (set_clock r pages (clock_hand r))
  | None =>
      if len (clock_pages r) <? clock_max_pages r
      then Val (set_clock r (clock_pages r ++ [(page_frame, true)]) (clock_hand r))
      else replace_page r page_frame
  end.

(** The [loop] of [get_victim_page]: [Return] with a victim, or with the hand
    back at [start]. *)
Definition victim_step (start : Z) (s : list (Z * bool) * Z) :
    outcome (flow (list (Z * bool) * Z) (option Z * (list (Z * bool) * Z))) :=
  let '(pages, hand) := s in
  let hand := wrap_hand (len pages) hand in
  '(frame, referenced) ← index pages hand;
  if (referenced : bool) then
    pages ← index_set pages hand (frame, false);
    hand ← uadd 64 hand 1;
    if hand =? start then Val (Return (None, (pages, hand)))
    else Val (Next (pages, hand))
  else
    hand ← uadd 64 hand 1;
    Val (Return (Some frame, (pages, hand))).

Definition clock_victim_page r : outcome (option Z * ClockReplacer) :=
  if is_empty (clock_pages r) then Val (None, r)
  else
    '(v, (pages, hand)) ← loop_fuel (2 * length (clock_pages r) + 2)
        (victim_step (clock_hand r)) (clock_pages r, clock_hand r);
    let r := set_clock r pages hand in
    match v with
    | Some victim => Val (Some victim, r)
    | None => '(frame, _) ← index (clock_pages r) (clock_hand r); Val (Some frame, r)
    end.

Definition clock_remove_page r (page_frame : Z) : outcome ClockReplacer :=
  match position (λ '(f, _), f =? page_frame) (clock_pages r) with
  | None => Val r
  | Some pos =>
      let pages := vec_remove pos (clock_pages r) in
      if Z.of_nat pos <? clock_hand r then
        hand ← usub 64 (clock_hand r) 1;
        Val (set_clock r pages hand)
      else if (len pages <=? clock_hand r) && negb (is_empty pages)
      then Val (set_clock r pages 0)
      else Val (set_clock r pages (clock_hand r))
  end.
End clock.

(** ** LRU: the position map is the inverse of the page list *)
Definition positions_ok (pages : list Z) (ps : gmap Z Z) : Prop :=
  ∀ f i, ps !! f = Some i ↔ 0 ≤ i ∧ pages !! Z.to_nat i = Some f.

Record lru_wf (r : LRUReplacer) : Prop := {
  lru_nodup : NoDup (lru_pages r);
  lru_positions : positions_ok (lru_pages r) (page_positions r);
  lru_bounded : len (lru_pages r) ≤ lru_max_pages r;
}.

(** A position map determines and is determined by the list. *)
Lemma positions_key pages ps f : positions_ok pages ps → is_Some (ps !! f) ↔ f ∈ pages.
Proof.
  intros Hp. rewrite list_elem_of_lookup. split.
  - intros [i [_ Hi]%Hp]. eauto.
  - intros [i Hi]. exists (Z.of_nat i). apply Hp. by rewrite Nat2Z.id; split; [lia|].
Qed.

Lemma positions_insert (l : list Z) k ps f :
  let ps' := store_positions ps (imap (λ i, pair (k + i)%nat) l) in
  NoDup l →
  (∀ i, l !! i = Some f → ps' !! f = Some (Z.of_nat (k + i))) ∧
  (f ∉ l → ps' !! f = ps !! f).
Proof.
  simpl. revert k ps. induction l as [|x l IH]; intros k ps Hnd; simpl; [done|].
  apply NoDup_cons in Hnd as [Hx Hnd].
  rewrite (imap_ext _ (λ i, pair (S k + i)%nat)) by (intros; simpl; f_equal; lia).
  destruct (IH (S k) (<[x := Z.of_nat (k + 0)]> ps) Hnd) as [IH1 IH2]. split.
  - intros [|i] Hi; simplify_eq/=.
    + rewrite IH2 by done. apply lookup_insert_eq.
    + rewrite (IH1 i Hi). do 2 f_equal. lia.
  - intros [Hfx Hf]%not_elem_of_cons. rewrite IH2 by done. by apply lookup_insert_ne.
Qed.

Lemma positions_rebuilt pages ps :
  NoDup pages → (∀ f, f ∉ pages → ps !! f = None) →
  positions_ok pages (store_positions ps (imap pair pages)).
Proof.
  intros Hnd Hnone f i.
  destruct (positions_insert pages 0 ps f Hnd) as [Hin Hout]. simpl in *.
  rewrite (imap_ext _ pair) in Hin, Hout by done.
  destruct (decide (f ∈ pages)) as [[j Hj]%list_elem_of_lookup|Hf].
  - rewrite (Hin j Hj). split.
    + intros [= <-]. by rewrite Nat2Z.id; split; [lia|].
    + intros [Hi Hpi]. f_equal. rewrite (NoDup_lookup _ _ _ _ Hnd Hj Hpi). lia.
  - rewrite Hout, Hnone by done. split; [done|]. intros [_ Hi].
    by apply list_elem_of_lookup_2 in Hi.
Qed.

Lemma positions_snoc pages x ps :
  NoDup (pages ++ [x]) → positions_ok (pages ++ [x]) ps → positions_ok pages (delete x ps).
Proof.
  intros Hnd Hp f i. apply NoDup_app in Hnd as (_ & Hx & _).
  rewrite lookup_delete_Some, (Hp f i). split.
  - intros (Hne & Hi & Hl). split; [done|].
    apply lookup_app_Some in Hl as [?|[_ [_ ?]%list_lookup_singleton_Some]]; congruence.
  - intros [Hi Hl]. split_and!; [|done|by apply lookup_app_l_Some].
    intros ->. apply (Hx f); [by eapply list_elem_of_lookup_2|by left].
Qed.

Lemma positions_gap pages ps p i :
  NoDup pages → positions_ok pages ps → ps !! p = Some i →
  positions_ok (vec_remove (Z.to_nat i) pages) (close_gap i (delete p ps)).
Proof.
  intros Hnd Hp Hpi. pose proof Hpi as [Hi Hl]%Hp. intros f j.
  pose proof (lookup_lt_Some _ _ _ Hl) as Hlt.
  unfold close_gap. rewrite lookup_fmap, fmap_Some. setoid_rewrite lookup_delete_Some.
  assert (∀ j, 0 ≤ j → vec_remove (Z.to_nat i) pages !! Z.to_nat j =
    pages !! Z.to_nat (if j <? i then j else j + 1)) as Hrem.
  { intros k Hk. unfold vec_remove. zcase.
    - rewrite lookup_app_l, lookup_take_lt by (rewrite ?length_take; lia). done.
    - rewrite lookup_app_r, lookup_drop, length_take by (rewrite length_take; lia). f_equal. lia. }
  split.
  - intros (k & (Hne & [Hk Hkl]%Hp) & ->).
    assert (k ≠ i) by congruence.
    zcase; (split; [lia|]); rewrite Hrem by lia; zcase; try lia; [|done].
    by replace (k - 1 + 1) with k by lia.
  - intros [Hj Hjl]. rewrite Hrem in Hjl by done. exists (if j <? i then j else j + 1).
    split; [|zcase; lia]. split; [|apply Hp; split; [zcase; lia|done]].
    intros <-. pose proof (NoDup_lookup _ _ _ _ Hnd Hl Hjl). zcase; lia.
Qed.

Lemma lru_trim_spec max pages ps :
  0 ≤ max → NoDup pages → positions_ok pages ps →
  ∃ ps', lru_trim max pages ps = Val (take (Z.to_nat max) pages, ps') ∧
         positions_ok (take (Z.to_nat max) pages) ps'.
Proof.
  intros Hmax. unfold lru_trim. revert ps.
  induction pages as [|x pages IH] using rev_ind; intros ps Hnd Hp.
  - simpl. destruct (Z.ltb_spec max (len (@nil Z))); [unfold len in *; simpl in *; lia|].
    simpl. rewrite take_nil. eauto.
  - rewrite length_app, Nat.add_comm. simpl. destruct (Z.ltb_spec max (len (pages ++ [x]))).
    + rewrite last_snoc. simpl. rewrite removelast_last.
      destruct (IH (delete x ps)) as (ps' & Htrim & Hps').
      { by apply NoDup_app in Hnd as (? & _ & _). }
      { by eapply positions_snoc. }
      simpl in Htrim. rewrite Htrim. exists ps'.
      rewrite len_snoc in *. unfold len in *. by rewrite take_app_le by lia.
    + simpl. unfold len in *. rewrite take_ge by lia. eauto.
Qed.

(** [access_page] moves the page to the front and drops the oldest pages over
    the limit; it always returns. *)
Lemma lru_access_spec r p : 0 ≤ lru_max_pages r → lru_wf r →
  ∃ r', lru_access_page r p = Val r' ∧ lru_wf r' ∧ lru_max_pages r' = lru_max_pages r ∧
        lru_pages r' = take (Z.to_nat (lru_max_pages r)) (p :: filter (.≠ p) (lru_pages r)).
Proof.
  intros Hmax [Hnd Hpos Hb]. unfold lru_access_page.
  set (front := match page_positions r !! p with Some _ => _ | None => _ end).
  assert (front.1 = filter (.≠ p) (lru_pages r) ∧
          ∀ f, f ∉ p :: filter (.≠ p) (lru_pages r) → front.2 !! f = None) as [Hf1 Hf2].
  { unfold front. destruct (page_positions r !! p) as [i|] eqn:Hi; simpl.
    - split; [apply vec_remove_filter; [done|]; by apply Hpos in Hi as [_ ?]|].
      intros f [Hfp Hf]%not_elem_of_cons. unfold close_gap. rewrite lookup_fmap, fmap_None.
      apply eq_None_not_Some. rewrite (positions_key _ _ _ Hpos). intros Hin.
      apply Hf. by apply list_elem_of_filter.
    - assert (p ∉ lru_pages r) as Hp.
      { rewrite <-(positions_key _ _ _ Hpos), Hi. by intros []. }
      rewrite filter_ne_id by done. split; [done|]. intros f [_ Hf]%not_elem_of_cons.
      apply eq_None_not_Some. by rewrite (positions_key _ _ _ Hpos). }
  destruct front as [pages ps]; simpl in Hf1, Hf2. subst pages.
  assert (NoDup (p :: filter (.≠ p) (lru_pages r))) as Hnd'.
  { apply NoDup_cons. split; [by intros [? _]%list_elem_of_filter|by apply NoDup_filter]. }
  pose proof (positions_rebuilt _ ps Hnd' Hf2) as Hok.
  destruct (lru_trim_spec (lru_max_pages r) _ _ Hmax Hnd' Hok) as (ps' & -> & Hps').
  cbn [mbind outcome_bind]. eexists. split; [done|]. split_and!; try done.
  split; simpl; [by apply NoDup_prefix_take|done|]. unfold len. rewrite length_take. lia.
Qed.

Lemma lru_remove_spec r p : lru_wf r →
  lru_wf (lru_remove_page r p) ∧ lru_pages (lru_remove_page r p) = filter (.≠ p) (lru_pages r) ∧
  lru_max_pages (lru_remove_page r p) = lru_max_pages r.
Proof.
  intros [Hnd Hpos Hb]. unfold lru_remove_page.
  destruct (page_positions r !! p) as [i|] eqn:Hi; simpl.
  - assert (vec_remove (Z.to_nat i) (lru_pages r) = filter (.≠ p) (lru_pages r)) as Hv.
    { apply vec_remove_filter; [done|]. by apply Hpos in Hi as [_ ?]. }
    split; [|done]. split; simpl.
    + rewrite Hv. by apply NoDup_filter.
    + by apply positions_gap.
    + rewrite Hv. pose proof (length_filter (.≠ p) (lru_pages r)). unfold len in *. lia.
  - split; [done|]. rewrite filter_ne_id; [done|].
    rewrite <-(positions_key _ _ _ Hpos), Hi. by intros [].
Qed.

Lemma lru_new_wf max : 0 ≤ max → lru_wf (lru_new max).
Proof.
  intros. split; simpl; [constructor| |done]. intros f i. rewrite lookup_empty, lookup_nil. naive_solver.
Qed.

(** *** A trace of accesses *)

(** The distinct pages of a trace, most recently used first. *)
Definition recency (trace : list Z) : list Z :=
  foldl (λ acc p, p :: filter (.≠ p) acc) [] trace.

Lemma recency_snoc tr p : recency (tr ++ [p]) = p :: filter (.≠ p) (recency tr).
Proof. unfold recency. by rewrite foldl_app. Qed.

Lemma recency_NoDup tr : NoDup (recency tr).
Proof.
  induction tr as [|p tr IH] using rev_ind; [constructor|]. rewrite recency_snoc.
  apply NoDup_cons. split; [by intros [? _]%list_elem_of_filter|by apply NoDup_filter].
Qed.

Lemma elem_of_recency tr p : p ∈ recency tr ↔ p ∈ tr.
Proof.
  induction tr as [|q tr IH] using rev_ind; [done|].
  rewrite recency_snoc, elem_of_cons, list_elem_of_filter, IH, elem_of_app, list_elem_of_singleton.
  destruct (decide (p = q)); tauto.
Qed.

(** The pages ahead of [v] are exactly those used after its last use. *)
Lemma recency_split tr l1 v l2 : recency tr = l1 ++ v :: l2 →
  ∃ tr1 tr2, tr = tr1 ++ v :: tr2 ∧ (v ∉ tr2) ∧ ∀ q, q ∈ l1 ↔ q ∈ tr2.
Proof.
  revert l1 l2. induction tr as [|p tr IH] using rev_ind; intros l1 l2 Hr.
  { by destruct l1. }
  rewrite recency_snoc in Hr. destruct l1 as [|q l1]; simplify_eq/=.
  - exists tr, []. split_and!; [done|set_solver|done].
  - assert (v ∈ filter (.≠ q) (recency tr)) as [Hvq Hv]%list_elem_of_filter
      by (rewrite H0; set_solver).
    apply list_elem_of_split in Hv as (a & b & Hab). destruct (IH a b Hab)
      as (tr1 & tr2 & -> & Hv & Hiff). pose proof (recency_NoDup (tr1 ++ v :: tr2)) as Hnd.
    apply (NoDup_filter (.≠ q)) in Hnd.
    rewrite Hab, filter_app, filter_cons_True in H0, Hnd by done.
    destruct (NoDup_split_eq _ _ _ _ _ Hnd H0) as [<- _].
    exists tr1, (tr2 ++ [q]). split_and!.
    + by rewrite <-app_assoc.
    + rewrite elem_of_app, list_elem_of_singleton. naive_solver.
    + intros x. rewrite elem_of_cons, list_elem_of_filter, elem_of_app, list_elem_of_singleton, Hiff.
      destruct (decide (x = q)); tauto.
Qed.

(** Truncating before or after moving a page to the front is the same. *)
Lemma take_move_front n (l : list Z) p : NoDup l →
  take n (p :: filter (.≠ p) (take n l)) = take n (p :: filter (.≠ p) l).
Proof.
  destruct n as [|n]; [done|]. intros Hnd. simpl. f_equal.
  rewrite <-(take_drop (S n) l) in Hnd |- * at 2. rewrite filter_app.
  destruct (decide (S n ≤ length l)%nat) as [Hn|Hn].
  - rewrite take_app_le; [done|].
    destruct (decide (p ∈ take (S n) l)) as [[i Hi]%list_elem_of_lookup|Hp].
    + apply NoDup_app in Hnd as (Hnd & _). rewrite <-(vec_remove_filter _ _ _ Hnd Hi).
      pose proof (lookup_lt_Some _ _ _ Hi).
      rewrite length_vec_remove, length_take by done. lia.
    + rewrite filter_ne_id, length_take by done. lia.
  - rewrite (drop_ge l) by lia. by rewrite app_nil_r.
Qed.

Lemma lru_trace_spec max tr : 0 ≤ max →
  ∃ r, for_each (λ p r, lru_access_page r p) tr (lru_new max) = Val r ∧
       lru_pages r = take (Z.to_nat max) (recency tr).
Proof.
  intros Hmax. destruct (for_each_inv (λ d r, lru_wf r ∧ lru_max_pages r = max ∧
    lru_pages r = take (Z.to_nat max) (recency d)) (λ p r, lru_access_page r p) tr (lru_new max))
    as (r & ? & ? & ? & ?).
  - intros d p todo r -> (Hwf & Hm & Hp).
    destruct (lru_access_spec r p ltac:(lia) Hwf) as (r' & ? & ? & ? & Hp').
    exists r'. split_and!; try done; [congruence|].
    rewrite Hp', Hp, Hm, recency_snoc. apply take_move_front, recency_NoDup.
  - split_and!; [by apply lru_new_wf|done|]. unfold recency. simpl. by rewrite take_nil.
  - eauto.
Qed.

(** The pages by recency of use are the pages used. *)
Lemma len_recency tr : len (recency tr) = Z.of_nat (size (list_to_set tr : gset Z)).
Proof.
  unfold len. rewrite <-(size_list_to_set (C:=gset Z) (recency tr)) by apply recency_NoDup.
  do 2 f_equal. apply set_eq. intros x. by rewrite !elem_of_list_to_set, elem_of_recency.
Qed.

(** C21: After any trace of page accesses the LRU replacer, whatever its limit,
    tracks exactly as many pages as the limit and the number of different pages used
    allow, most recently used first; it has a victim as soon as the limit is
    positive and a page was used, and the victim is the least recently used of the
    tracked pages: every other tracked page was accessed after the victim's last
    access, and no page that was accessed later than it is left untracked. *)
Theorem lru_victim_is_least_recent max tr :
  0 ≤ max →
  ∃ r, for_each (λ p r, lru_access_page r p) tr (lru_new max) = Val r ∧
       len (lru_pages r) = Z.min max (Z.of_nat (size (list_to_set tr : gset Z))) ∧
       lru_pages r = take (Z.to_nat max) (recency tr) ∧
       (0 < max → tr ≠ [] →
        ∃ v tr1 tr2, lru_victim_page r = Some v ∧ tr = tr1 ++ v :: tr2 ∧ (v ∉ tr2) ∧
                     ∀ q, q ∈ lru_pages r ↔ q = v ∨ q ∈ tr2).
Proof.
  intros Hmax. destruct (lru_trace_spec max tr Hmax) as (r & Hr & Hp). exists r.
  split; [done|]. split; [rewrite Hp, <-len_recency; unfold len; rewrite length_take; lia|].
  split; [done|]. intros Hpos Hne. unfold lru_victim_page.
  destruct (last (lru_pages r)) as [v|] eqn:Hv.
  2: { apply last_None in Hv. rewrite Hp in Hv. destruct tr as [|p tr]; [done|].
       assert (p ∈ recency (p :: tr)) as Hin by (apply elem_of_recency; by left).
       destruct (recency (p :: tr)); [by apply not_elem_of_nil in Hin|].
       by destruct (Z.to_nat max) eqn:E; [lia|]. }
  exists v. apply last_Some in Hv as [l Hl].
  destruct (recency_split tr l v (drop (Z.to_nat max) (recency tr))) as (tr1 & tr2 & ? & ? & Hq).
  { rewrite <-(take_drop (Z.to_nat max) (recency tr)) at 1. by rewrite <-Hp, Hl, <-app_assoc. }
  exists tr1, tr2. split_and!; try done. intros q.
  rewrite Hl, elem_of_app, list_elem_of_singleton, Hq. tauto.
Qed.

Lemma lru_victim_is_least_recent_witness :
  ∃ r, for_each (λ p r, lru_access_page r p) [1; 2; 3; 2; 1; 4] (lru_new 3) = Val r ∧
       len (lru_pages r) = 3 ∧ lru_pages r = [4; 1; 2] ∧
       ∃ v tr1 tr2, lru_victim_page r = Some v ∧ [1; 2; 3; 2; 1; 4] = tr1 ++ v :: tr2 ∧ (v ∉ tr2) ∧
                     ∀ q, q ∈ lru_pages r ↔ q = v ∨ q ∈ tr2.
Proof.
  destruct (lru_victim_is_least_recent 3 [1; 2; 3; 2; 1; 4] ltac:(lia)) as (r & Hr & Hl & Hp & Hv).
  exists r. split_and!; [exact Hr|exact Hl|exact Hp|]. apply Hv; [lia|done].
Defined.

(** ** FIFO *)
Lemma fifo_trim_spec max pages : 0 ≤ max →
  fifo_trim max pages = Val (drop (length pages - Z.to_nat max) pages).
Proof.
  intros Hmax. unfold fifo_trim. induction pages as [|x pages IH]; simpl.
  - destruct (Z.ltb_spec max (len (@nil Z))); [unfold len in *; simpl in *; lia|done].
  - destruct (Z.ltb_spec max (len (x :: pages))) as [Hl|Hl]; unfold len in Hl; simpl in Hl; simpl.
    + simpl in IH. rewrite IH. f_equal.
      by replace (S (length pages) - Z.to_nat max)%nat
        with (S (length pages - Z.to_nat max)) by lia.
    + by replace (S (length pages) - Z.to_nat max)%nat with 0%nat by lia.
Qed.

Definition fifo_wf (r : FIFOReplacer) : Prop :=
  NoDup (fifo_pages r) ∧ len (fifo_pages r) ≤ fifo_max_pages r.

(** A new page goes to the back, the oldest one over the limit leaves. *)
Lemma fifo_add_spec r p : 0 ≤ fifo_max_pages r → fifo_wf r →
  ∃ r', fifo_add_page r p = Val r' ∧ fifo_wf r' ∧ fifo_max_pages r' = fifo_max_pages r ∧
        fifo_pages r' =
          (if decide (p ∈ fifo_pages r) then fifo_pages r
           else drop (length (fifo_pages r) + 1 - Z.to_nat (fifo_max_pages r))
                  (fifo_pages r ++ [p])).
Proof.
  intros Hmax [Hnd Hb]. unfold fifo_add_page. case_bool_decide as Hp.
  - exists r. by rewrite decide_True.
  - rewrite fifo_trim_spec by done. simpl. eexists. split; [done|]. rewrite decide_False by done.
    rewrite length_app; simpl. split_and!; try done. split; simpl.
    + assert (NoDup (fifo_pages r ++ [p])) as Hnd'.
      { apply NoDup_app. split_and!; [done|set_solver|apply NoDup_singleton]. }
      rewrite <-(take_drop (length (fifo_pages r) + 1 - Z.to_nat (fifo_max_pages r))) in Hnd'.
      by apply NoDup_app in Hnd' as (_ & _ & ?).
    + unfold len. rewrite length_drop, length_app. simpl. lia.
Qed.

Lemma fifo_remove_spec r p : fifo_wf r →
  fifo_wf (fifo_remove_page r p) ∧ fifo_pages (fifo_remove_page r p) = filter (.≠ p) (fifo_pages r) ∧
  fifo_max_pages (fifo_remove_page r p) = fifo_max_pages r.
Proof.
  intros [Hnd Hb]. unfold fifo_remove_page, fifo_wf.
  destruct (position _ _) as [i|] eqn:Hi; simpl.
  - apply position_Some in Hi as (x & Hx & ->%Z.eqb_eq & _).
    rewrite (vec_remove_filter _ _ _ Hnd Hx). split_and!; try done; [by apply NoDup_filter|].
    pose proof (length_filter (.≠ p) (fifo_pages r)). unfold len in *. lia.
  - rewrite filter_ne_id; [done|]. intros Hp. eapply position_None in Hi; [|done].
    by rewrite Z.eqb_refl in Hi.
Qed.

(** ** Clock *)

(** The reference bits of the first [k] pages from [h] on, in cyclic order,
    are cleared. *)
Definition cleared (h k : Z) (l : list (Z * bool)) : list (Z * bool) :=
  imap (λ i x, if (Z.of_nat i - h) mod len l <? k then (x.1, false) else x) l.

Lemma mod_dist n h i k : 0 ≤ i < n → 0 ≤ k < n → (i - h) mod n = k ↔ i = (h + k) mod n.
Proof.
  intros Hi Hk. split.
  - intros <-. rewrite Zplus_mod_idemp_r. replace (h + (i - h)) with i by lia.
    by rewrite Z.mod_small.
  - intros ->. rewrite Zminus_mod_idemp_l. replace (h + k - h) with k by lia.
    by rewrite Z.mod_small.
Qed.

Lemma length_cleared h k l : length (cleared h k l) = length l.
Proof. apply length_imap. Qed.

Lemma lookup_cleared h k l i : cleared h k l !! i =
  (λ x, if (Z.of_nat i - h) mod len l <? k then (x.1, false) else x) <$> l !! i.
Proof. unfold cleared. by rewrite list_lookup_imap. Qed.

Lemma cleared_0 h l : cleared h 0 l = l.
Proof.
  apply list_eq. intros i. rewrite lookup_cleared. destruct (l !! i) as [x|] eqn:Hi; [|done].
  simpl. apply lookup_lt_Some in Hi.
  pose proof (Z.mod_pos_bound (Z.of_nat i - h) (len l) ltac:(unfold len; lia)).
  zcase; [lia|done].
Qed.

Lemma cleared_step h k l f b :
  0 ≤ k < len l → l !! Z.to_nat ((h + k) mod len l) = Some (f, b) →
  <[Z.to_nat ((h + k) mod len l) := (f, false)]> (cleared h k l) = cleared h (k + 1) l.
Proof.
  intros Hk Hc. pose proof (Z.mod_pos_bound (h + k) (len l) ltac:(lia)) as Hr.
  apply list_eq. intros i. rewrite lookup_cleared.
  destruct (decide (i = Z.to_nat ((h + k) mod len l))) as [->|Hne].
  - rewrite list_lookup_insert_eq by (rewrite length_cleared; by eapply lookup_lt_Some).
    rewrite Hc, Z2Nat.id by lia. simpl.
    rewrite (proj2 (mod_dist (len l) h ((h + k) mod len l) k Hr Hk) eq_refl).
    by rewrite (proj2 (Z.ltb_lt k (k + 1))) by lia.
  - rewrite list_lookup_insert_ne, lookup_cleared by done.
    destruct (l !! i) as [x|] eqn:Hi; [|done]. simpl. apply lookup_lt_Some in Hi.
    assert ((Z.of_nat i - h) mod len l ≠ k).
    { intros E%mod_dist; unfold len in *; lia. }
    zcase; try done; lia.
Qed.

(** What the hand sees after [k] clearings. *)
Lemma cleared_at h k l : 0 ≤ h < len l → 0 ≤ k ≤ len l →
  ∃ f b, l !! Z.to_nat ((h + k) mod len l) = Some (f, b) ∧
    cleared h k l !! Z.to_nat ((h + k) mod len l) =
      Some (f, if k <? len l then b else false).
Proof.
  intros Hh Hk. pose proof (Z.mod_pos_bound (h + k) (len l) ltac:(lia)) as Hr.
  destruct (lookup_lt_is_Some_2 l (Z.to_nat ((h + k) mod len l))) as [[f b] Hc];
    [unfold len in *; lia|].
  exists f, b. split; [done|]. rewrite lookup_cleared, Hc, Z2Nat.id by lia. simpl.
  destruct (Z.ltb_spec k (len l)).
  - rewrite (proj2 (mod_dist (len l) h _ k Hr ltac:(lia)) eq_refl).
    by rewrite Z.ltb_irrefl.
  - replace k with (len l) by lia. rewrite Zminus_mod_idemp_l.
    replace (h + len l - h) with (len l) by lia. rewrite Z_mod_same_full.
    by rewrite (proj2 (Z.ltb_lt 0 (len l))) by lia.
Qed.

(** [j] is where a sweep from [h] stops: the pages before it are referenced,
    and either the page at [j] is not or the sweep has gone full circle. *)
Definition all_referenced (h : Z) (l : list (Z * bool)) (k : Z) : Prop :=
  ∀ i x, 0 ≤ i < k → l !! Z.to_nat ((h + i) mod len l) = Some x → x.2 = true.
Definition sweep_stops (h : Z) (l : list (Z * bool)) (j : Z) : Prop :=
  0 ≤ j ≤ len l ∧ all_referenced h l j ∧
  (j < len l → ∃ f, l !! Z.to_nat ((h + j) mod len l) = Some (f, false)).

Lemma all_referenced_S h l k f : all_referenced h l k →
  l !! Z.to_nat ((h + k) mod len l) = Some (f, true) → all_referenced h l (k + 1).
Proof.
  intros Hall Hk i x Hi Hx. destruct (decide (i = k)) as [->|].
  - rewrite Hk in Hx. by simplify_eq.
  - apply (Hall i); [lia|done].
Qed.

Lemma wrap_hand_next n c : 0 < n → wrap_hand n (c mod n + 1) = (c + 1) mod n.
Proof.
  intros Hn. pose proof (Z.mod_pos_bound c n Hn). unfold wrap_hand.
  rewrite <-(Zplus_mod_idemp_l c 1 n). generalize dependent (c mod n). intros m Hm. zcase.
  - replace (m + 1) with n by lia. by rewrite Z_mod_same_full.
  - by rewrite Z.mod_small by lia.
Qed.

Section clock_specs.
Context {P : Profile}.

Lemma replace_loop p l h k hand fuel :
  0 ≤ h < len l → 0 ≤ k ≤ len l → len l < 2 ^ 64 →
  wrap_hand (len l) hand = (h + k) mod len l → all_referenced h l k →
  (Z.to_nat (len l - k) < fuel)%nat →
  ∃ j, sweep_stops h l j ∧
    loop_fuel fuel (replace_step p) (cleared h k l, hand) =
      Val (<[Z.to_nat ((h + j) mod len l) := (p, true)]> (cleared h j l),
           (h + j) mod len l + 1).
Proof.
  intros Hh. revert k hand. induction fuel as [|fuel IH]; intros k hand Hk Hl Hhand Hall Hf; [lia|].
  cbn [loop_fuel]. unfold replace_step at 2. cbv beta iota zeta.
  assert (len (cleared h k l) = len l) as -> by (unfold len; by rewrite length_cleared).
  rewrite Hhand. destruct (cleared_at h k l Hh Hk) as (f & b & Hc & Hcl).
  pose proof (Z.mod_pos_bound (h + k) (len l) ltac:(lia)) as Hr.
  pose proof (lookup_lt_Some _ _ _ Hcl) as Hlt.
  rewrite (index_val _ _ _ Hcl). simpl.
  destruct (k <? len l) eqn:Hkl; [destruct b|]; simpl; rewrite index_set_val by done; simpl;
    rewrite uadd_val by lia; simpl.
  - rewrite (cleared_step h k l f true) by (done || lia). apply IH; try lia.
    + rewrite wrap_hand_next by lia. f_equal. lia.
    + by eapply all_referenced_S.
  - exists k. split; [|done]. split; [lia|]. split; [done|]. eauto.
  - apply Z.ltb_ge in Hkl. exists k. split; [|done]. split; [lia|]. split; [done|]. lia.
Qed.

Lemma victim_loop l h k start hand fuel :
  0 ≤ h < len l → 0 ≤ k ≤ len l → len l < 2 ^ 64 →
  h = wrap_hand (len l) start → 0 ≤ start ≤ len l →
  (k = len l → start = 0) →
  wrap_hand (len l) hand = (h + k) mod len l → all_referenced h l k →
  (Z.to_nat (len l - k) < fuel)%nat →
  ∃ j, sweep_stops h l j ∧ k ≤ j ∧
    loop_fuel fuel (victim_step start) (cleared h k l, hand) =
      Val (if (j =? len l) && negb (start =? 0) then (None, (cleared h j l, start))
           else (fst <$> l !! Z.to_nat ((h + j) mod len l),
                 (cleared h j l, (h + j) mod len l + 1))).
Proof.
  intros Hh Hk Hl Hst Hstart. revert k hand Hk.
  induction fuel as [|fuel IH]; intros k hand Hk Hkn Hhand Hall Hf; [lia|].
  cbn [loop_fuel]. unfold victim_step at 2. cbv beta iota zeta.
  assert (len (cleared h k l) = len l) as -> by (unfold len; by rewrite length_cleared).
  rewrite Hhand. destruct (cleared_at h k l Hh Hk) as (f & b & Hc & Hcl).
  pose proof (Z.mod_pos_bound (h + k) (len l) ltac:(lia)) as Hr.
  pose proof (lookup_lt_Some _ _ _ Hcl) as Hlt.
  rewrite (index_val _ _ _ Hcl). simpl.
  destruct (k <? len l) eqn:Hkl; [destruct b|]; simpl; rewrite ?index_set_val by done; simpl;
    rewrite uadd_val by lia; simpl.
  - rewrite (cleared_step h k l f true) by (done || lia). apply Z.ltb_lt in Hkl.
    pose proof (all_referenced_S h l k f Hall Hc) as Hall'.
    assert ((h + k) mod len l + 1 = start ↔ k + 1 = len l ∧ start ≠ 0) as Hiff.
    { unfold wrap_hand in Hst. destruct (Z.leb_spec (len l) start).
      - subst h. rewrite Z.add_0_l, Z.mod_small by lia. lia.
      - subst h. destruct (decide (start + k < len l)).
        + rewrite Z.mod_small by lia. lia.
        + replace (start + k) with (start + k - len l + 1 * len l) by lia.
          rewrite Z_mod_plus_full, Z.mod_small by lia. lia. }
    destruct (Z.eqb_spec ((h + k) mod len l + 1) start) as [He|He].
    + pose proof (proj1 Hiff He) as [Hk1 Hs0]. exists (k + 1). split; [|split; [lia|]].
      * split; [lia|]. split; [done|]. lia.
      * rewrite Hk1, Z.eqb_refl, (proj2 (Z.eqb_neq _ _)) by done. simpl. by rewrite He.
    + destruct (IH (k + 1) ((h + k) mod len l + 1)) as (j & ? & ? & Hj); try done; try lia.
      * rewrite wrap_hand_next by lia. f_equal. lia.
      * exists j. split_and!; [done|lia|done].
  - apply Z.ltb_lt in Hkl. exists k. split; [|split; [lia|]].
    + split; [lia|]. split; [done|]. eauto.
    + rewrite (proj2 (Z.eqb_neq k _)) by lia. simpl. by rewrite Hc.
  - apply Z.ltb_ge in Hkl. exists k. split; [|split; [lia|]].
    + split; [lia|]. split; [done|]. lia.
    + rewrite (Hkn ltac:(lia)). rewrite Z.eqb_refl, andb_false_r. by rewrite Hc.
Qed.

Record clock_wf (r : ClockReplacer) : Prop := {
  clock_nodup : NoDup (clock_pages r).*1;
  clock_bounded : len (clock_pages r) ≤ clock_max_pages r;
  clock_max : 0 < clock_max_pages r < 2 ^ 64;
  clock_hand_ok : 0 ≤ clock_hand r ≤ len (clock_pages r);
}.

Lemma wrap_hand_range n hand : 0 < n → 0 ≤ hand ≤ n → 0 ≤ wrap_hand n hand < n.
Proof. intros. unfold wrap_hand. zcase; lia. Qed.

Lemma wrap_hand_mod n hand : 0 < n → 0 ≤ hand ≤ n → wrap_hand n hand = (wrap_hand n hand + 0) mod n.
Proof. intros. rewrite Z.add_0_r, Z.mod_small; [done|by apply wrap_hand_range]. Qed.

Lemma replace_page_spec r p : clock_wf r → 0 < len (clock_pages r) →
  let l := clock_pages r in let h := wrap_hand (len l) (clock_hand r) in
  ∃ j, sweep_stops h l j ∧
    replace_page r p = Val (set_clock r (<[Z.to_nat ((h + j) mod len l) := (p, true)]> (cleared h j l))
                              ((h + j) mod len l + 1)).
Proof.
  intros [Hnd Hb Hm Hh] Hn l h. pose proof (wrap_hand_range _ _ Hn Hh) as Hr.
  fold l in Hn, Hb, Hh, Hr. fold h in Hr.
  destruct (replace_loop p l h 0 (clock_hand r) (2 * length l + 2)) as (j & Hj & Hloop).
  1-3: lia.
  - by apply wrap_hand_mod.
  - intros i x Hi. lia.
  - unfold len. lia.
  - rewrite cleared_0 in Hloop. exists j. split; [done|]. unfold replace_page.
    unfold l, h in *. rewrite Hloop. done.
Qed.

Lemma fst_cleared h k l : (cleared h k l).*1 = l.*1.
Proof.
  apply list_eq. intros i. rewrite !list_lookup_fmap, lookup_cleared.
  destruct (l !! i) as [[f b]|]; [|done]. simpl. by zcase.
Qed.

(** Every operation keeps the replacer well formed; an accessed page ends up
    tracked and referenced. *)
Lemma clock_access_wf r p : clock_wf r →
  ∃ r', clock_access_page r p = Val r' ∧ clock_wf r' ∧
        clock_max_pages r' = clock_max_pages r ∧ (p, true) ∈ clock_pages r'.
Proof.
  intros Hwf. pose proof Hwf as [Hnd Hb Hm Hh]. unfold clock_access_page.
  destruct (position _ _) as [i|] eqn:Hi.
  - pose proof Hi as Hlt%position_lt. apply position_Some in Hi as ([f b] & Hf & ->%Z.eqb_eq & _).
    rewrite index_set_val by (rewrite Nat2Z.id; done). simpl. eexists. split; [done|].
    rewrite Nat2Z.id. split_and!; [|done|].
    + split; simpl; try done; unfold len in *; rewrite ?length_insert; try lia.
      rewrite list_fmap_insert. simpl. rewrite list_insert_id; [done|].
      by rewrite list_lookup_fmap, Hf.
    + simpl. eapply list_elem_of_lookup_2. by apply list_lookup_insert_eq.
  - assert (p ∉ (clock_pages r).*1) as Hp.
    { intros ([f b] & -> & Hf)%list_elem_of_fmap. eapply position_None in Hi; [|done].
      simpl in Hi. by rewrite Z.eqb_refl in Hi. }
    destruct (Z.ltb_spec (len (clock_pages r)) (clock_max_pages r)).
    + eexists. split; [done|]. split_and!; [|done|simpl; set_solver].
      split; simpl; try done; rewrite ?len_snoc; try lia.
      rewrite fmap_app. apply NoDup_app. split_and!; [done|set_solver|apply NoDup_singleton].
    + destruct (replace_page_spec r p Hwf ltac:(lia)) as (j & Hj & ->).
      eexists. split; [done|]. set (n := len (clock_pages r)) in *.
      pose proof (Z.mod_pos_bound (wrap_hand n (clock_hand r) + j) n ltac:(lia)) as Hr.
      assert (Z.to_nat ((wrap_hand n (clock_hand r) + j) mod n) < length (clock_pages r))%nat as Hlt
        by (unfold n, len in *; lia).
      split_and!; [|done|].
      * split; simpl; unfold len; rewrite ?length_insert, ?length_cleared; try (unfold n, len in *; lia).
        rewrite list_fmap_insert, fst_cleared. simpl.
        apply NoDup_list_insert; done.
      * simpl. eapply list_elem_of_lookup_2, list_lookup_insert_eq. by rewrite length_cleared.
Qed.

Lemma clock_victim_spec r : clock_wf r → 0 < len (clock_pages r) →
  let l := clock_pages r in let h := wrap_hand (len l) (clock_hand r) in
  ∃ j, sweep_stops h l j ∧
    clock_victim_page r =
      (if (j =? len l) && negb (clock_hand r =? 0) then
         match l !! Z.to_nat (clock_hand r) with
         | Some (f, _) => Val (Some f, set_clock r (cleared h j l) (clock_hand r))
         | None => Panic
         end
       else match l !! Z.to_nat ((h + j) mod len l) with
            | Some (f, _) => Val (Some f, set_clock r (cleared h j l) ((h + j) mod len l + 1))
            | None => Panic
            end).
Proof.
  intros [Hnd Hb Hm Hh] Hn l h. pose proof (wrap_hand_range _ _ Hn Hh) as Hr.
  fold l in Hn, Hb, Hh, Hr. fold h in Hr.
  destruct (victim_loop l h 0 (clock_hand r) (clock_hand r) (2 * length l + 2))
    as (j & Hj & _ & Hloop).
  1-3: lia.
  - done.
  - lia.
  - lia.
  - by apply wrap_hand_mod.
  - intros i x Hi. lia.
  - unfold len. lia.
  - rewrite cleared_0 in Hloop. exists j. split; [done|]. unfold clock_victim_page. fold l.
    assert (is_empty l = false) as -> by (destruct l; [unfold len in Hn; simpl in Hn; lia|done]).
    rewrite Hloop. destruct (_ && _).
    + cbn [mbind outcome_bind]. unfold index. cbn [clock_pages clock_hand set_clock].
      rewrite lookup_cleared. destruct (l !! _) as [[f b]|]; [|done].
      simpl. by zcase.
    + pose proof (Z.mod_pos_bound (h + j) (len l) Hn).
      destruct (lookup_lt_is_Some_2 l (Z.to_nat ((h + j) mod len l))) as [[f b] ->]; [|done].
      unfold len in *; lia.
Qed.

(** In a full sweep every page is seen. *)
Lemma all_referenced_full h l : all_referenced h l (len l) ↔ ∀ x, x ∈ l → x.2 = true.
Proof.
  split.
  - intros Hall x [i Hi]%list_elem_of_lookup. pose proof (lookup_lt_Some _ _ _ Hi) as Hlt.
    apply (Hall ((Z.of_nat i - h) mod len l)); [apply Z.mod_pos_bound; unfold len; lia|].
    rewrite Zplus_mod_idemp_r. replace (h + (Z.of_nat i - h)) with (Z.of_nat i) by lia.
    rewrite Z.mod_small by (unfold len; lia). by rewrite Nat2Z.id.
  - intros Hall i x _ Hx. apply Hall. by eapply list_elem_of_lookup_2.
Qed.

(** The outcomes of a search for a victim. *)
Lemma clock_victim_cases r :
  clock_wf r →
  let l := clock_pages r in let h := wrap_hand (len l) (clock_hand r) in
  match clock_victim_page r with
  | Val (None, r') => l = [] ∧ r' = r
  | Val (Some v, r') =>
      ∃ j, sweep_stops h l j ∧ clock_pages r' = cleared h j l ∧
           fst <$> l !! Z.to_nat ((h + j) mod len l) = Some v ∧ clock_wf r'
  | Panic => l ≠ [] ∧ clock_hand r = len l ∧ ∀ x, x ∈ l → x.2 = true
  | Fuel => False
  end.
Proof.
  intros Hwf l h. destruct (decide (l = [])) as [El|El].
  { unfold clock_victim_page. fold l. by rewrite El. }
  assert (0 < len l) as Hn by (destruct l; [done|unfold len; simpl; lia]).
  destruct (clock_victim_spec r Hwf Hn) as (j & Hj & ->). fold l h in Hj |- *.
  pose proof Hj as (Hjr & Hall & _). destruct Hwf as [Hnd Hb Hm Hh].
  pose proof (wrap_hand_range _ _ Hn Hh) as Hr. fold l h in Hr, Hh, Hb.
  assert (∀ k hand, 0 ≤ hand ≤ len l → clock_wf (set_clock r (cleared h k l) hand)) as Hwf'.
  { intros. split; simpl; rewrite ?fst_cleared; unfold len; rewrite ?length_cleared; done. }
  pose proof (Z.mod_pos_bound (h + j) (len l) Hn) as Hmod.
  destruct ((j =? len l) && negb (clock_hand r =? 0)) eqn:Hc.
  - apply andb_true_iff in Hc as [->%Z.eqb_eq _].
    destruct (l !! Z.to_nat (clock_hand r)) as [[v b]|] eqn:Hv.
    + assert (clock_hand r < len l) as Hlt by (apply lookup_lt_Some in Hv; unfold len in *; lia).
      exists (len l). split_and!; [done..| |by apply Hwf'].
      replace (h + len l) with (h + 1 * len l) by lia. rewrite Z_mod_plus_full, Z.mod_small by done.
      unfold h, wrap_hand. rewrite (proj2 (Z.leb_gt _ _)) by done. by rewrite Hv.
    + split_and!; [done| |by apply (all_referenced_full h)].
      apply lookup_ge_None in Hv. unfold len in *. lia.
  - destruct (lookup_lt_is_Some_2 l (Z.to_nat ((h + j) mod len l))) as [[v b] Hv];
      [unfold len in *; lia|].
    rewrite Hv. exists j. split_and!; [done..|by rewrite Hv|]. apply Hwf'. lia.
Qed.

(** All pages referenced and the hand just past the last one. *)
Definition hand_past_referenced (r : ClockReplacer) : Prop :=
  clock_pages r ≠ [] ∧ clock_hand r = len (clock_pages r) ∧ ∀ x, x ∈ clock_pages r → x.2 = true.

Lemma clock_victim_panics_at r : clock_wf r → hand_past_referenced r → clock_victim_page r = Panic.
Proof.
  intros Hwf (Hne & Hh & Hall).
  assert (0 < len (clock_pages r)) as Hn by (destruct (clock_pages r); [done|unfold len; simpl; lia]).
  destruct (clock_victim_spec r Hwf Hn) as (j & (Hjr & _ & Hstop) & ->).
  assert (j = len (clock_pages r)) as ->.
  { destruct (decide (j = len (clock_pages r))) as [|Hj]; [done|]. exfalso.
    destruct (Hstop ltac:(lia)) as [f Hf]. by apply list_elem_of_lookup_2, Hall in Hf. }
  rewrite Z.eqb_refl, Hh, (proj2 (Z.eqb_neq _ 0)) by lia. cbn [andb negb].
  by rewrite lookup_ge_None_2 by (unfold len; lia).
Qed.

(** C37: [get_victim_page] of the clock replacer always terminates.  It panics
    exactly when pages are tracked, all of them are referenced and the hand
    rests just past the last page (the sweep then ends with the hand out of
    range, and the fallback indexes there).  In every other case it returns a
    tracked page: the first one, in cyclic order from the hand, whose reference
    bit is clear, or the page under the hand if all bits were set; the bits of
    the pages it passed, and only those, are cleared. *)
Theorem clock_victim_second_chance r :
  clock_wf r →
  let l := clock_pages r in let h := wrap_hand (len l) (clock_hand r) in
  (clock_victim_page r = Panic ↔ l ≠ [] ∧ clock_hand r = len l ∧ ∀ x, x ∈ l → x.2 = true) ∧
  match clock_victim_page r with
  | Val (None, r') => l = [] ∧ r' = r
  | Val (Some v, r') =>
      ∃ j, sweep_stops h l j ∧ clock_pages r' = cleared h j l ∧
           fst <$> l !! Z.to_nat ((h + j) mod len l) = Some v ∧ clock_wf r'
  | Panic => True
  | Fuel => False
  end.
Proof.
  intros Hwf l h. pose proof (clock_victim_cases r Hwf) as Hc. fold l h in Hc.
  split; [split|].
  - intros E. by rewrite E in Hc.
  - by apply clock_victim_panics_at.
  - by destruct (clock_victim_page r) as [[[v|] r']| |].
Qed.

(** The panic is reachable from a fresh replacer: one page, accessed,
    chosen as victim, accessed again and chosen again. *)
Theorem clock_victim_panics max p :
  0 < max →
  (r ← clock_access_page (clock_new max) p;
   '(_, r) ← clock_victim_page r;
   r ← clock_access_page r p;
   clock_victim_page r) = Panic.
Proof.
  intros Hmax. destruct max as [|q|q]; [lia| |lia]. unfold clock_access_page. simpl.
  by rewrite Z.eqb_refl.
Qed.

Lemma clock_remove_wf r p : clock_wf r →
  ∃ r', clock_remove_page r p = Val r' ∧ clock_wf r' ∧ clock_max_pages r' = clock_max_pages r ∧
        (clock_pages r').*1 = filter (.≠ p) (clock_pages r).*1.
Proof.
  intros Hwf. pose proof Hwf as [Hnd Hb Hm Hh]. unfold clock_remove_page.
  destruct (position _ _) as [i|] eqn:Hi.
  - pose proof Hi as Hlt%position_lt. apply position_Some in Hi as ([f b] & Hf & ->%Z.eqb_eq & _).
    set (l := clock_pages r) in *. pose proof (length_vec_remove l i Hlt) as Hlen.
    assert ((vec_remove i l).*1 = filter (.≠ p) l.*1) as Hfst.
    { rewrite <-(vec_remove_filter _ i p Hnd) by (by rewrite list_lookup_fmap, Hf).
      unfold vec_remove. by rewrite fmap_app, fmap_take, fmap_drop. }
    assert (∀ hand, 0 ≤ hand ≤ len (vec_remove i l) → clock_wf (set_clock r (vec_remove i l) hand)) as Hwf'.
    { intros hand Hhand. split; simpl; [rewrite Hfst; by apply NoDup_filter| |done..].
      unfold len in *. lia. }
    assert (len (vec_remove i l) = len l - 1) as Hln by (unfold len; lia).
    pose proof (len_nonneg (vec_remove i l)).
    destruct (Z.ltb_spec (Z.of_nat i) (clock_hand r)).
    + rewrite usub_val by lia. simpl. eexists. split_and!; [done| |done..]. apply Hwf'. lia.
    + assert (clock_hand r ≤ len l - 1 ∨ clock_hand r = len l) as [|] by lia.
      * destruct (_ && _); eexists; split_and!; try done; apply Hwf'; lia.
      * unfold len in *. lia.
  - exists r. rewrite filter_ne_id; [done|]. intros ([f b] & -> & Hf)%list_elem_of_fmap.
    eapply position_None in Hi; [|done]. simpl in Hi. by rewrite Z.eqb_refl in Hi.
Qed.
End clock_specs.

Lemma clock_wf_demo : clock_wf {| clock_pages := [(7, true); (8, false); (9, true)]; clock_hand := 2;
                                  clock_max_pages := 3 |}.
Proof.
  split; simpl; [|unfold len; simpl; lia..]. repeat constructor; set_solver.
Qed.

Lemma clock_victim_second_chance_witness :
  let l := [(7, true); (8, false); (9, true)] in
  match clock_victim_page (P:=dev) {| clock_pages := l; clock_hand := 2; clock_max_pages := 3 |} with
  | Val (Some v, r') =>
      ∃ j, sweep_stops 2 l j ∧ clock_pages r' = cleared 2 j l ∧
           fst <$> l !! Z.to_nat ((2 + j) mod len l) = Some v ∧ clock_wf r'
  | _ => False
  end.
Proof. exact (proj2 (clock_victim_second_chance (P:=dev) _ clock_wf_demo)). Defined.

Lemma clock_victim_panics_witness :
  (r ← clock_access_page (P:=release) (clock_new 4) 7;
   '(_, r) ← clock_victim_page (P:=release) r;
   r ← clock_access_page (P:=release) r 7;
   clock_victim_page (P:=release) r) = Panic.
Proof. apply clock_victim_panics. lia. Defined.
