(* ===== verification/Swapper.v ===== *)
(** * The page swapper

    Models [PageSwapper] of [kernel/src/memory/swap_algorithm.rs] and the
    locked globals of [swap.rs] it calls ([SWAP_MANAGER], a
    [Mutex<Option<SwapManager>>], is an optional manager passed explicitly:
    every caller holds the lock for the whole call), and the global swapper
    itself.  Victims are chosen by the
    replacers of [Replacement]; pages move to and from the manager of [Swap]. *)
From S2P Require Import Prelude Physical Swap SwapFile Replacement.

(** ** The global swap manager *)
Section global_manager.
Context {P : Profile} {D : Type} `{SwapDevice D}.
Abbreviation Global := (option (SwapManager D)).

Definition init_swap_manager (_ : Global) : result unit SwapError * Global :=
  (Ok (), Some new_manager).

(** [manager_guard.as_mut().ok_or(DeviceUnavailable)?] followed by the call. *)
Definition with_manager {T} (g : Global)
    (f : SwapManager D → outcome (result T SwapError * SwapManager D)) :
    outcome (result T SwapError * Global) :=
  match g with
  | None => Val (Err DeviceUnavailable, None)
  | Some m => '(r, m) ← f m; Val (r, Some m)
  end.
Definition add_swap_device (g : Global) (d : D) := with_manager g (λ m, add_device m d).
Definition remove_swap_device (g : Global) (i : Z) := with_manager g (λ m, remove_device m i).
Definition global_swap_out_page (g : Global) (f : Z) (data : Page) :=
  with_manager g (λ m, swap_out_page m f data).
Definition global_swap_in_page (g : Global) (f : Z) := with_manager g (λ m, swap_in_page m f).
Definition global_is_page_swapped (g : Global) (f : Z) : bool :=
  match g with Some m => is_page_swapped m f | None => false end.
Definition swap_stats (g : Global) : option SwapStats := total_stats <$> g.
End global_manager.

(** ** The swapper's state *)
Record PageAccessInfo := {
  virtual_address : Z;
  page_frame : Z;
  last_access : Z;
  access_count : Z;
  referenced : bool;
  dirty : bool;
}.

Record SwapperStats := {
  pages_swapped_out : Z;
  pages_swapped_in : Z;
  page_faults : Z;
  algorithm_switches : Z;
}.

Record PageSwapper := {
  algorithm : PageReplacementAlgorithm;
  lru_replacer : LRUReplacer;
  fifo_replacer : FIFOReplacer;
  clock_replacer : ClockReplacer;
  page_info : gmap Z PageAccessInfo;
  current_timestamp : Z;
  memory_pressure_threshold : Z;
  swapper_stats : SwapperStats;
}.

Definition swapper_stats_new : SwapperStats :=
  {| pages_swapped_out := 0; pages_swapped_in := 0; page_faults := 0; algorithm_switches := 0 |}.
Definition new_swapper (a : PageReplacementAlgorithm) (max_pages : Z) : PageSwapper :=
  {| algorithm := a; lru_replacer := lru_new max_pages; fifo_replacer := fifo_new max_pages;
     clock_replacer := clock_new max_pages; page_info := ∅; current_timestamp := 0;
     memory_pressure_threshold := max_pages;
     swapper_stats := swapper_stats_new |}.

Definition with_trackers (s : PageSwapper) l f c : PageSwapper :=
  {| algorithm := algorithm s; lru_replacer := l; fifo_replacer := f; clock_replacer := c;
     page_info := page_info s; current_timestamp := current_timestamp s;
     memory_pressure_threshold := memory_pressure_threshold s; swapper_stats := swapper_stats s |}.
Definition with_info (s : PageSwapper) info t : PageSwapper :=
  {| algorithm := algorithm s; lru_replacer := lru_replacer s; fifo_replacer := fifo_replacer s;
     clock_replacer := clock_replacer s; page_info := info; current_timestamp := t;
     memory_pressure_threshold := memory_pressure_threshold s; swapper_stats := swapper_stats s |}.
Definition with_stats (s : PageSwapper) st : PageSwapper :=
  {| algorithm := algorithm s; lru_replacer := lru_replacer s; fifo_replacer := fifo_replacer s;
     clock_replacer := clock_replacer s; page_info := page_info s;
     current_timestamp := current_timestamp s;
     memory_pressure_threshold := memory_pressure_threshold s; swapper_stats := st |}.
Definition set_memory_pressure_threshold (s : PageSwapper) (t : Z) : PageSwapper :=
  {| algorithm := algorithm s; lru_replacer := lru_replacer s; fifo_replacer := fifo_replacer s;
     clock_replacer := clock_replacer s; page_info := page_info s;
     current_timestamp := current_timestamp s; memory_pressure_threshold := t;
     swapper_stats := swapper_stats s |}.

(** [iter().min_by_key(access_count)] over a [BTreeMap]: the first, by frame
    number, of the entries with the least count. *)
Definition min_by_count (l : list (Z * PageAccessInfo)) : option Z :=
  match l with
  | [] => None
  | e :: l => Some (foldl (λ best x,
      if access_count x.2 <? access_count best.2 then x else best) e l).1
  end.
Section swapper.
Context {P : Profile} {D : Type} `{SwapDevice D}.
Implicit Types (s : PageSwapper) (g : option (SwapManager D)).

(** ** Operations *)
Definition info_new (va frame : Z) : PageAccessInfo :=
  {| virtual_address := va; page_frame := frame; last_access := 0; access_count := 0;
     referenced := false; dirty := false |}.

Definition update_access (i : PageAccessInfo) (timestamp : Z) (is_write : bool) :
    outcome PageAccessInfo :=
  n ← uadd 64 (access_count i) 1;
  Val {| virtual_address := virtual_address i; page_frame := page_frame i;
         last_access := timestamp; access_count := n; referenced := true;
         dirty := is_write || dirty i |}.

Definition clear_reference (i : PageAccessInfo) : PageAccessInfo :=
  {| virtual_address := virtual_address i; page_frame := page_frame i;
     last_access := last_access i; access_count := access_count i; referenced := false;
     dirty := dirty i |}.

Definition set_algorithm s (a : PageReplacementAlgorithm) : outcome PageSwapper :=
  if decide (algorithm s = a) then Val s
  else
    let st := swapper_stats s in
    n ← uadd 64 (algorithm_switches st) 1;
    Val {| algorithm := a; lru_replacer := lru_replacer s; fifo_replacer := fifo_replacer s;
           clock_replacer := clock_replacer s; page_info := page_info s;
           current_timestamp := current_timestamp s;
           memory_pressure_threshold := memory_pressure_threshold s;
           swapper_stats := {| pages_swapped_out := pages_swapped_out st;
             pages_swapped_in := pages_swapped_in st; page_faults := page_faults st;
             algorithm_switches := n |} |}.

Definition access_page s (va frame : Z) (is_write : bool) : outcome PageSwapper :=
  t ← uadd 64 (current_timestamp s) 1;
  i ← update_access (default (info_new va frame) (page_info s !! frame)) t is_write;
  let s := with_info s (<[frame := i]> (page_info s)) t in
  match algorithm s with
  | LRU => l ← lru_access_page (lru_replacer s) frame;
           Val (with_trackers s l (fifo_replacer s) (clock_replacer s))
  | FIFO => f ← fifo_add_page (fifo_replacer s) frame;
            Val (with_trackers s (lru_replacer s) f (clock_replacer s))
  | Clock => c ← clock_access_page (clock_replacer s) frame;
             Val (with_trackers s (lru_replacer s) (fifo_replacer s) c)
  | LFU => Val s
  end.

Definition handle_page_fault s g (va frame : Z) :
    outcome (result unit SwapError * PageSwapper * option (SwapManager D)) :=
  let st := swapper_stats s in
  n ← uadd 64 (page_faults st) 1;
  let st := {| pages_swapped_out := pages_swapped_out st; pages_swapped_in := pages_swapped_in st;
               page_faults := n; algorithm_switches := algorithm_switches st |} in
  let s := with_stats s st in
  if global_is_page_swapped g frame then
    '(r, g) ← global_swap_in_page g frame;
    match r with
    | Err e => Val (Err e, s, g)
    | Ok page_data => (* the buffer goes out of scope *)
        n ← uadd 64 (pages_swapped_in st) 1;
        let st := {| pages_swapped_out := pages_swapped_out st; pages_swapped_in := n;
                     page_faults := page_faults st;
                     algorithm_switches := algorithm_switches st |} in
        s ← access_page (with_stats s st) va frame false;
        Val (Ok (), s, g)
    end
  else Val (Ok (), s, g).

Definition select_victim_page s : outcome (option Z * PageSwapper) :=
  match algorithm s with
  | LRU => Val (lru_victim_page (lru_replacer s), s)
  | FIFO => Val (fifo_victim_page (fifo_replacer s), s)
  | Clock => '(v, c) ← clock_victim_page (clock_replacer s);
             Val (v, with_trackers s (lru_replacer s) (fifo_replacer s) c)
  | LFU => Val (min_by_count (btree_entries (page_info s)), s)
  end.

Definition remove_page_from_tracking s (frame : Z) : outcome PageSwapper :=
  c ← clock_remove_page (clock_replacer s) frame;
  Val (with_trackers s (lru_remove_page (lru_replacer s) frame)
         (fifo_remove_page (fifo_replacer s) frame) c).

Definition get_current_page_count s : Z :=
  match algorithm s with
  | LRU => len (lru_pages (lru_replacer s))
  | FIFO => len (fifo_pages (fifo_replacer s))
  | Clock => len (clock_pages (clock_replacer s))
  | LFU => Z.of_nat (size (page_info s))
  end.

(** The buffer written for every victim. *)
Definition zero_page : Page := replicate 4096 0.

(** One iteration of [swap_out_pages]; [Return] is [break]. *)
Definition swap_out_step (st : Z * PageSwapper * option (SwapManager D)) :
    outcome (flow (Z * PageSwapper * option (SwapManager D))
                  (Z * PageSwapper * option (SwapManager D))) :=
  let '(count, s, g) := st in
  '(victim, s) ← select_victim_page s;
  match victim with
  | None => Val (Return (count, s, g))
  | Some victim_page =>
      match page_info s !! victim_page with
      | None => Val (Next (count, s, g))
      | Some _ =>
          '(r, g) ← global_swap_out_page g victim_page zero_page;
          match r with
          | Err _ => Val (Return (count, s, g))
          | Ok _ =>
              s ← remove_page_from_tracking s victim_page;
              let s := with_info s (delete victim_page (page_info s)) (current_timestamp s) in
              let st := swapper_stats s in
              n ← uadd 64 (pages_swapped_out st) 1;
              count ← uadd 64 count 1;
              Val (Next (count, with_stats s
                {| pages_swapped_out := n; pages_swapped_in := pages_swapped_in st;
                   page_faults := page_faults st;
                   algorithm_switches := algorithm_switches st |}, g))
          end
      end
  end.

Definition swap_out_pages s g (count : Z) :
    outcome (result Z SwapError * PageSwapper * option (SwapManager D)) :=
  r ← for_loop (λ _ st, swap_out_step st) (seqZ 0 count) (0, s, g);
  match r with
  | Next (n, s, g) | Return (n, s, g) => Val (Ok n, s, g)
  end.

Definition check_memory_pressure s g :
    outcome (result Z SwapError * PageSwapper * option (SwapManager D)) :=
  let current := get_current_page_count s in
  if memory_pressure_threshold s <? current then
    n ← usub 64 current (memory_pressure_threshold s);
    swap_out_pages s g n
  else Val (Ok 0, s, g).
End swapper.

(** ** The global page swapper

    [PAGE_SWAPPER] and [SWAP_MANAGER] are locked one inside the other; a call
    without a swapper answers [DeviceUnavailable]. *)
Record SwapGlobals (D : Type) := { page_swapper : option PageSwapper; swap_manager : option (SwapManager D) }.
Arguments page_swapper {D}.
Arguments swap_manager {D}.

Section global_swapper.
Context {P : Profile} {D : Type} `{SwapDevice D}.
Implicit Types w : SwapGlobals D.

Definition set_swapper w (s : PageSwapper) : SwapGlobals D := {| page_swapper := Some s; swap_manager := swap_manager w |}.
Definition set_manager w (g : option (SwapManager D)) : SwapGlobals D := {| page_swapper := page_swapper w; swap_manager := g |}.

(** [swapper_guard.as_mut()] with the call on it, or the error. *)
Definition with_swapper {T} w
    (f : PageSwapper → option (SwapManager D) → outcome (result T SwapError * PageSwapper * option (SwapManager D))) :
    outcome (result T SwapError * SwapGlobals D) :=
  match page_swapper w with
  | None => Val (Err DeviceUnavailable, w)
  | Some s => '(r, s, g) ← f s (swap_manager w); Val (r, {| page_swapper := Some s; swap_manager := g |})
  end.

Definition init_page_swapper w (a : PageReplacementAlgorithm) (max_pages : Z) : result unit SwapError * SwapGlobals D :=
  (Ok (), set_swapper w (new_swapper a max_pages)).
Definition record_page_access w (va frame : Z) (is_write : bool) : outcome (SwapGlobals D) :=
  match page_swapper w with
  | None => Val w
  | Some s => s ← access_page s va frame is_write; Val (set_swapper w s)
  end.
Definition global_handle_page_fault w (va frame : Z) := with_swapper w (λ s g, handle_page_fault s g va frame).
Definition global_check_memory_pressure w := with_swapper w check_memory_pressure.
Definition global_swap_out_pages w (count : Z) := with_swapper w (λ s g, swap_out_pages s g count).
Definition set_page_replacement_algorithm w (a : PageReplacementAlgorithm) :=
  with_swapper w (λ s g, s ← set_algorithm s a; Val (Ok (), s, g)).
Definition global_set_memory_pressure_threshold w (t : Z) :=
  with_swapper w (λ s g, Val (Ok (), set_memory_pressure_threshold s t, g)).
Definition get_swapper_stats w : option SwapperStats := swapper_stats <$> page_swapper w.
End global_swapper.

(** ** Invariant *)
Record trackers_wf (max : Z) (s : PageSwapper) : Prop := {
  tw_max : 0 < max < 2 ^ 64;
  tw_lru : lru_wf (lru_replacer s);
  tw_lru_max : lru_max_pages (lru_replacer s) = max;
  tw_fifo : fifo_wf (fifo_replacer s);
  tw_fifo_max : fifo_max_pages (fifo_replacer s) = max;
  tw_clock : clock_wf (clock_replacer s);
  tw_clock_max : clock_max_pages (clock_replacer s) = max;
}.

(** Counters that a further [n] accesses or swaps cannot overflow. *)
Record counters_ok (n : Z) (s : PageSwapper) : Prop := {
  co_time : 0 ≤ current_timestamp s ∧ current_timestamp s + n < 2 ^ 64;
  co_count f i : page_info s !! f = Some i → 0 ≤ access_count i ≤ current_timestamp s;
}.

Section swapper_specs.
Context {P : Profile} {D : Type} `{SwapDeviceLaws D}.
Implicit Types (s : PageSwapper) (g : option (SwapManager D)).

Lemma new_swapper_wf a max : 0 < max < 2 ^ 64 → trackers_wf max (new_swapper a max).
Proof.
  intros Hm. split; simpl; try done.
  - apply lru_new_wf. lia.
  - split; simpl; [constructor|unfold len; simpl; lia].
  - split; simpl; [constructor|unfold len; simpl; lia..].
Qed.

(** Only the tracker of the current algorithm changes. *)
Lemma access_page_spec max n s va f w : trackers_wf max s → counters_ok n s → 1 ≤ n →
  ∃ s', access_page s va f w = Val s' ∧ trackers_wf max s' ∧ counters_ok (n - 1) s' ∧
        algorithm s' = algorithm s ∧ is_Some (page_info s' !! f) ∧
        (∀ f', is_Some (page_info s !! f') → is_Some (page_info s' !! f')) ∧
        memory_pressure_threshold s' = memory_pressure_threshold s ∧
        swapper_stats s' = swapper_stats s ∧
        (algorithm s = LRU → lru_pages (lru_replacer s') =
           take (Z.to_nat max) (f :: filter (.≠ f) (lru_pages (lru_replacer s)))).
Proof.
  intros [Hm Hl Hlm Hf Hfm Hc Hcm] [Ht Hcnt] Hn. unfold access_page.
  rewrite uadd_val by lia. simpl. unfold update_access.
  assert (0 ≤ access_count (default (info_new va f) (page_info s !! f)) ≤ current_timestamp s) as Hac.
  { destruct (page_info s !! f) as [i|] eqn:Hi; simpl; [eauto|lia]. }
  rewrite uadd_val by lia. simpl.
  destruct (lru_access_spec (lru_replacer s) f ltac:(lia) Hl) as (l & El & ? & ? & Hlp).
  destruct (fifo_add_spec (fifo_replacer s) f ltac:(lia) Hf) as (q & Eq & ? & ? & _).
  destruct (clock_access_wf (clock_replacer s) f Hc) as (c & Ec & ? & ? & _).
  destruct (algorithm s) eqn:Ea; rewrite ?El, ?Eq, ?Ec; simpl; eexists; (split; [done|]);
    (split; [split; simpl; done || congruence|]);
    (split; [split; simpl; [lia|]; intros f' i;
       rewrite lookup_insert_Some; intros [[-> <-]|[_ Hi]]; simpl; [lia|];
       specialize (Hcnt f' i Hi); lia|]);
    (split; [done|]); (split; [simpl; rewrite lookup_insert_eq; eauto|]);
    (split; [simpl; intros f' Hf'; rewrite lookup_insert_is_Some'; eauto|]);
    (split; [done|]); (split; [done|]); try done.
  intros _. simpl. by rewrite Hlp, Hlm.
Qed.

Lemma page_count_bound max s : trackers_wf max s → algorithm s ≠ LFU → get_current_page_count s ≤ max.
Proof.
  intros [Hm Hl Hlm [_ Hf] Hfm Hc Hcm] Ha. unfold get_current_page_count.
  pose proof (lru_bounded _ Hl). pose proof (clock_bounded _ Hc).
  destruct (algorithm s); try done; lia.
Qed.

(** A swapper created for [max_pages] pages with LRU, FIFO or the clock
    never detects memory pressure: each replacer itself forgets pages beyond
    [max_pages], which is also the pressure threshold, so after any trace of
    page accesses [check_memory_pressure] answers [Ok(0)] and swaps nothing
    out. *)
Theorem default_threshold_never_pressures a max trace g :
  0 < max < 2 ^ 64 → a ≠ LFU → len trace < 2 ^ 64 →
  ∃ s, for_each (λ '(va, f, w) s, access_page s va f w) trace (new_swapper a max) = Val s ∧
       check_memory_pressure s g = Val (Ok 0, s, g).
Proof.
  intros Hm Ha Hlen.
  destruct (for_each_inv (λ d s, trackers_wf max s ∧ counters_ok (len trace - len d) s ∧
      algorithm s = a ∧ memory_pressure_threshold s = max)
    (λ '(va, f, w) s, access_page s va f w) trace (new_swapper a max)) as (s & Hs & Hw & _ & Has & Ht).
  - intros d [[va f] w] todo s Htr (Hw & Hcnt & Has & Ht).
    assert (len d + 1 ≤ len trace) by (rewrite Htr; unfold len; rewrite length_app; simpl; lia).
    destruct (access_page_spec max _ s va f w Hw Hcnt ltac:(lia))
      as (s' & Hs' & Hw' & Hcnt' & Has' & _ & _ & Ht' & _).
    exists s'. rewrite len_snoc. split_and!; try done; try congruence.
    by replace (len trace - (len d + 1)) with (len trace - len d - 1) by lia.
  - split_and!; try done; [by apply new_swapper_wf|]. pose proof (len_nonneg trace).
    split; simpl; [unfold len at 2; simpl; lia|]. intros f i. by rewrite lookup_empty.
  - exists s. split; [done|]. unfold check_memory_pressure.
    pose proof (page_count_bound max s Hw ltac:(congruence)).
    by rewrite (proj2 (Z.ltb_ge _ _)) by lia.
Qed.

(** A page fault on a swapped-out page swaps it in: the page becomes the
    most recently used one and its swap slot is given back.  (The bytes read
    from the device are nowhere in the resulting state: the handler reads them
    into a local buffer and returns.) *)
Theorem page_fault_swaps_in max n s m va f data :
  trackers_wf max s → counters_ok n s → 1 ≤ n → algorithm s = LRU →
  page_faults (swapper_stats s) + 1 < 2 ^ 64 → pages_swapped_in (swapper_stats s) + 1 < 2 ^ 64 →
  0 ≤ page_faults (swapper_stats s) → 0 ≤ pages_swapped_in (swapper_stats s) →
  mgr_wf m → swapped m f = Some data →
  ∃ s' m', handle_page_fault s (Some m) va f = Val (Ok (), s', Some m') ∧
    trackers_wf max s' ∧ mgr_wf m' ∧ head (lru_pages (lru_replacer s')) = Some f ∧
    (∀ q, swapped m' q = if decide (q = f) then None else swapped m q) ∧
    pages_swapped_in (swapper_stats s') = pages_swapped_in (swapper_stats s) + 1.
Proof.
  intros Hw Hcnt Hn Ha Hpf Hpi Hpf0 Hpi0 Hm Hf. unfold handle_page_fault.
  rewrite uadd_val by lia. simpl. unfold is_page_swapped.
  pose proof (swap_in_page_spec m f Hm) as Hin.
  destruct (swap_in_page m f) as [[[d|e] m']| |] eqn:Ein; try done; [|by destruct Hin as (_ & _ & ?); congruence].
  destruct Hin as (_ & Hm' & _ & Hsw).
  rewrite bool_decide_true.
  2: { apply not_eq_None_Some. intros Hn'%(swapped_None m f Hm). congruence. }
  simpl. rewrite uadd_val by lia. simpl.
  set (s1 := with_stats _ _).
  destruct (access_page_spec max n s1 va f false) as (s' & -> & Hw' & _ & _ & _ & _ & _ & Hst & Hp);
    [by destruct Hw; split|by destruct Hcnt; split|done|]. simpl.
  exists s', m'. split_and!; try done; [|by rewrite Hst].
  rewrite Hp by done. destruct (Z.to_nat max) eqn:E; [destruct Hw; lia|]. done.
Qed.

(** *** Swapping out in LRU order *)
Record swap_inv (max : Z) s (m : SwapManager D) : Prop := {
  si_wf : trackers_wf max s;
  si_mgr : mgr_wf m;
  si_lru : algorithm s = LRU;
  si_tracked f : f ∈ lru_pages (lru_replacer s) → is_Some (page_info s !! f) ∧ swapped m f = None;
  si_stat : 0 ≤ pages_swapped_out (swapper_stats s);
}.

Lemma remove_tracking_wf max s f : trackers_wf max s →
  ∃ s', remove_page_from_tracking s f = Val s' ∧ trackers_wf max s' ∧
    lru_pages (lru_replacer s') = filter (.≠ f) (lru_pages (lru_replacer s)) ∧
    algorithm s' = algorithm s ∧ page_info s' = page_info s ∧ swapper_stats s' = swapper_stats s.
Proof.
  intros [Hm Hl Hlm Hf Hfm Hc Hcm]. unfold remove_page_from_tracking.
  destruct (clock_remove_wf (clock_replacer s) f Hc) as (c & -> & ? & ? & _). simpl.
  destruct (lru_remove_spec _ f Hl) as (? & ? & ?). destruct (fifo_remove_spec _ f Hf) as (? & ? & ?).
  eexists. split; [done|]. split_and!; try done. split; simpl; done || congruence.
Qed.

Lemma swap_out_step_spec max n s m : swap_inv max s m →
  0 ≤ n < 2 ^ 64 - 1 → pages_swapped_out (swapper_stats s) < 2 ^ 64 - 1 →
  match swap_out_step (n, s, Some m) with
  | Val (Return (n', s', Some m')) =>
      n' = n ∧ s' = s ∧ swap_inv max s' m' ∧ (∀ q, swapped m' q = swapped m q) ∧
      (lru_pages (lru_replacer s) = [] ∨
       ∃ v, lru_victim_page (lru_replacer s) = Some v ∧
         swap_out_page m v zero_page = Val (Err NoSpace, m'))
  | Val (Next (n', s', Some m')) =>
      n' = n + 1 ∧ swap_inv max s' m' ∧
      pages_swapped_out (swapper_stats s') = pages_swapped_out (swapper_stats s) + 1 ∧
      ∃ v, lru_pages (lru_replacer s) = lru_pages (lru_replacer s') ++ [v] ∧
        ∀ q, swapped m' q = if decide (q = v) then Some zero_page else swapped m q
  | _ => False
  end.
Proof.
  intros [Hw Hm Ha Htr Hst] Hn Hso. unfold swap_out_step, select_victim_page, global_swap_out_page.
  rewrite Ha. cbn [mbind outcome_bind with_manager].
  destruct (lru_victim_page (lru_replacer s)) as [v|] eqn:Hv; unfold lru_victim_page in Hv.
  2: { apply last_None in Hv. split_and!; try done. by left. }
  apply last_Some in Hv as [l Hl].
  destruct (Htr v) as [[i Hi] Hnone]; [rewrite Hl; set_solver|]. rewrite Hi.
  pose proof (swap_out_page_spec m v zero_page Hm eq_refl) as Hout.
  destruct (swap_out_page m v zero_page) as [[[slot|[]] m']| |] eqn:Eo; try done;
    cbn [mbind outcome_bind].
  - destruct Hout as (_ & Hm' & _ & Hsw).
    destruct (remove_tracking_wf max s v Hw) as (s1 & -> & Hw1 & Hl1 & Ha1 & Hi1 & Hs1).
    cbn [mbind outcome_bind with_info swapper_stats]. rewrite Hs1.
    rewrite uadd_val by lia. cbn [mbind outcome_bind]. rewrite uadd_val by lia.
    cbn [mbind outcome_bind].
    assert (NoDup (l ++ [v])) as Hnd by (rewrite <-Hl; apply (lru_nodup _ (tw_lru _ _ Hw))).
    assert (v ∉ l) as Hvl by (apply NoDup_app in Hnd as (_ & Hd & _); intros Hin; apply (Hd v Hin); by left).
    assert (lru_pages (lru_replacer s1) = l) as Hl1'.
    { rewrite Hl1, Hl, filter_app, filter_ne_id, filter_cons_False by naive_solver.
      by rewrite filter_nil, app_nil_r. }
    split_and!; [done| |done|].
    + split; simpl; [by destruct Hw1; split|done|congruence| |lia].
      rewrite Hl1'. intros f Hf. destruct (Htr f) as [Hfi Hfn]; [rewrite Hl; set_solver|].
      assert (f ≠ v) by (intros ->; done).
      rewrite Hi1, lookup_delete_ne, Hsw, decide_False by done. done.
    + exists v. simpl. by rewrite Hl1', Hl.
  - destruct Hout as (_ & Hm' & Hsw & _). split_and!; try done.
    + split; try done. intros f Hf. rewrite Hsw. auto.
    + right. by exists v.
  - destruct Hout as [_ [? ?]]. congruence.
Qed.

(** [n] pages have left the tail of the tracked pages for the swap manager. *)
Definition moved_out max (s : PageSwapper) (m : SwapManager D) (n : Z) (s' : PageSwapper)
    (g' : option (SwapManager D)) : Prop := ∃ m',
  g' = Some m' ∧ swap_inv max s' m' ∧
  pages_swapped_out (swapper_stats s') = pages_swapped_out (swapper_stats s) + n ∧
  ∃ out, lru_pages (lru_replacer s) = lru_pages (lru_replacer s') ++ out ∧ len out = n ∧
    ∀ q, swapped m' q = if decide (q ∈ out) then Some zero_page else swapped m q.
(** Why [swap_out_pages] stops early. *)
Definition stuck (s' : PageSwapper) (g' : option (SwapManager D)) : Prop :=
  lru_pages (lru_replacer s') = [] ∨ ∃ v m0 m2,
    lru_victim_page (lru_replacer s') = Some v ∧ mgr_wf m0 ∧ g' = Some m2 ∧
    swap_out_page m0 v zero_page = Val (Err NoSpace, m2).

Lemma swap_out_step_moves max s m n s' g' : swap_inv max s m → moved_out max s m n s' g' → 0 ≤ n →
  pages_swapped_out (swapper_stats s) + n + 1 < 2 ^ 64 →
  match swap_out_step (n, s', g') with
  | Val (Next (n2, s2, g2)) => n2 = n + 1 ∧ moved_out max s m n2 s2 g2
  | Val (Return (n2, s2, g2)) => n2 = n ∧ moved_out max s m n s2 g2 ∧ stuck s2 g2
  | _ => False
  end.
Proof.
  intros Hinv (m' & -> & Hi & Hst & out & Hp & Ho & Hsw) Hn Hroom. pose proof (si_stat _ _ _ Hinv).
  pose proof (swap_out_step_spec max n s' m' Hi ltac:(lia) ltac:(lia)) as Hs.
  destruct (swap_out_step _) as [[[[n2 s2] [m2|]]|[[n2 s2] [m2|]]]| |]; try done.
  - destruct Hs as (-> & Hi2 & Hst2 & v & Hl2 & Hsw2). split; [done|].
    exists m2. split_and!; try done; [lia|]. exists (v :: out). split_and!.
    + by rewrite Hp, Hl2, <-app_assoc.
    + unfold len in *. simpl. lia.
    + intros q. rewrite Hsw2, Hsw. destruct (decide (q = v)) as [->|].
      * rewrite decide_True by (by left). done.
      * destruct (decide (q ∈ out)); [rewrite decide_True by (by right)|
          rewrite decide_False by (intros [?|?]%elem_of_cons; done)]; done.
  - destruct Hs as (-> & -> & Hi2 & Hsw2 & Hwhy). split; [done|]. split.
    + exists m2. split_and!; try done. exists out. split_and!; try done. intros q. by rewrite Hsw2, Hsw.
    + destruct Hwhy as [?|(v & Hv & He)]; [by left|right]. exists v, m', m2. split_and!; try done. apply Hi.
Qed.

(** C38: [swap_out_pages] under LRU moves the least recently used pages to the
    swap manager, last first, and nothing else: if it reports [n] pages, the
    last [n] tracked pages are now swapped out (as pages of zeroes: the code
    writes a zeroed buffer), the others are still tracked in the same order,
    and every other frame's swapped data is untouched.  It stops short of
    [count] only if no page is left or the manager has no space for the next victim;
    it never panics. *)
Theorem lru_swap_out_pages max s m count :
  swap_inv max s m → 0 ≤ count → pages_swapped_out (swapper_stats s) + count < 2 ^ 64 →
  let pages := lru_pages (lru_replacer s) in
  ∃ n s' m', swap_out_pages s (Some m) count = Val (Ok n, s', Some m') ∧
    0 ≤ n ≤ count ∧ swap_inv max s' m' ∧
    ∃ out, pages = lru_pages (lru_replacer s') ++ out ∧ len out = n ∧
      (∀ q, swapped m' q = if decide (q ∈ out) then Some zero_page else swapped m q) ∧
      (n < count → lru_pages (lru_replacer s') = [] ∨
        ∃ v m0, lru_victim_page (lru_replacer s') = Some v ∧ mgr_wf m0 ∧
          swap_out_page m0 v zero_page = Val (Err NoSpace, m')).
Proof.
  intros Hinv Hc Hso pages. unfold swap_out_pages.
  loop_inv (λ (d : list Z) (st : Z * PageSwapper * option (SwapManager D)),
      st.1.1 = len d ∧ moved_out max s m st.1.1 st.1.2 st.2)
    (λ (st : Z * PageSwapper * option (SwapManager D)),
      0 ≤ st.1.1 ≤ count ∧ moved_out max s m st.1.1 st.1.2 st.2 ∧ stuck st.1.2 st.2) as HI.
  - destruct (for_loop _ _ _) as [[[[n s'] g']|[[n s'] g']]| |]; try done; simpl in HI |- *.
    + rewrite len_seqZ in HI by done. destruct HI as (-> & m' & -> & Hi & _ & out & ? & ? & ?).
      exists count, s', m'. split_and!; try done; try lia. exists out. split_and!; try done. lia.
    + destruct HI as (? & (m' & -> & Hi & _ & out & ? & ? & ?) & Hwhy).
      exists n, s', m'. split_and!; try done; try lia. exists out. split_and!; try done.
      intros _. destruct Hwhy as [?|(v & m0 & m2 & ? & ? & [= <-] & ?)]; [by left|right; eauto].
  - split; [done|]. exists m. split_and!; try done; [simpl; lia|]. exists []. by rewrite app_nil_r.
  - intros d x todo [[n s'] g'] [-> Hd]%seqZ_split [Hn HJ]. simpl in Hn, HJ. subst n. pose proof (len_nonneg d).
    pose proof (swap_out_step_moves max s m (len d) s' g' Hinv HJ ltac:(lia) ltac:(lia)) as Hs.
    destruct (swap_out_step _) as [[[[n2 s2] g2]|[[n2 s2] g2]]| |]; try done; simpl.
    + destruct Hs as [-> ?]. by rewrite len_snoc.
    + destruct Hs as (-> & ? & ?). split; [lia|done].
Qed.
End swapper_specs.

(** ** Concrete instances *)
Lemma default_threshold_never_pressures_witness :
  ∃ s, for_each (λ '(va, f, w) s, access_page (P:=dev) s va f w)
         [(0, 1, true); (4096, 2, false); (8192, 3, false)] (new_swapper Clock 2) = Val s ∧
       check_memory_pressure (P:=dev) s (Some mgr1) = Val (Ok 0, s, Some mgr1).
Proof. apply default_threshold_never_pressures; [lia|discriminate|unfold len; simpl; lia]. Defined.

(** A swapper tracking pages 5 and 6, with page 6 least recent. *)
Definition swapper56 : PageSwapper :=
  match for_each (λ '(va, f, w) s, access_page (P:=dev) s va f w)
          [(0, 6, true); (4096, 5, false)] (new_swapper LRU 4) with
  | Val s => s | _ => new_swapper LRU 4 end.

Lemma swapper56_wf : trackers_wf 4 swapper56 ∧ counters_ok 10 swapper56.
Proof.
  unfold swapper56.
  destruct (for_each_inv (λ d s, trackers_wf 4 s ∧ counters_ok (12 - len d) s)
    (λ '(va, f, w) s, access_page (P:=dev) s va f w) [(0, 6, true); (4096, 5, false)]
    (new_swapper LRU 4)) as (s & -> & ? & ?); [..|done].
  - intros d [[va f] w] todo s Htr (Hw & Hcnt).
    assert (len d < 2) by (apply (f_equal len) in Htr; unfold len in *; rewrite length_app in Htr; simpl in *; lia).
    destruct (access_page_spec (P:=dev) 4 _ s va f w Hw Hcnt ltac:(lia)) as (s' & -> & Hw' & Hcnt' & _).
    exists s'. rewrite len_snoc. split_and!; try done.
    by replace (12 - (len d + 1)) with (12 - len d - 1) by lia.
  - split; [by apply new_swapper_wf|]. split; simpl; [unfold len; simpl; lia|].
    intros f i. by rewrite lookup_empty.
Qed.

Lemma lru_swap_out_pages_witness :
  ∃ n s' m', swap_out_pages (P:=dev) swapper56 (Some mgr1) 2 = Val (Ok n, s', Some m') ∧
    0 ≤ n ≤ 2 ∧ swap_inv 4 s' m' ∧
    ∃ out, [5; 6] = lru_pages (lru_replacer s') ++ out ∧ len out = n ∧
      (∀ q, swapped m' q = if decide (q ∈ out) then Some zero_page else swapped mgr1 q) ∧
      (n < 2 → lru_pages (lru_replacer s') = [] ∨
        ∃ v m0, lru_victim_page (lru_replacer s') = Some v ∧ mgr_wf m0 ∧
          swap_out_page (P:=dev) m0 v zero_page = Val (Err NoSpace, m')).
Proof.
  apply (lru_swap_out_pages (P:=dev) 4 swapper56 mgr1 2).
  - split; [apply swapper56_wf|apply mgr1_wf|reflexivity| |vm_compute; discriminate].
    change (lru_pages (lru_replacer swapper56)) with [5; 6]. intros f Hf.
    rewrite !elem_of_cons, elem_of_nil in Hf.
    destruct Hf as [->|[->|[]]]; (split; [vm_compute; eauto|reflexivity]).
  - lia.
  - reflexivity.
Defined.

(** The manager after page 9 was swapped out. *)
Definition mgr9 : SwapManager SwapBox := state_of (swap_out_page (P:=dev) mgr1 9 page7).
Lemma mgr9_wf : mgr_wf mgr9 ∧ swapped mgr9 9 = Some page7.
Proof.
  pose proof (swap_out_page_spec (P:=dev) mgr1 9 page7 mgr1_wf eq_refl) as Hs. unfold mgr9.
  destruct (swap_out_page mgr1 9 page7) as [[[s|[]] m]| |] eqn:E; simpl in *; try done.
  - destruct Hs as (_ & ? & _ & Hsw). split; [done|]. by rewrite Hsw.
Qed.

Lemma page_fault_swaps_in_witness :
  ∃ s' m', handle_page_fault (P:=dev) swapper56 (Some mgr9) 12288 9 = Val (Ok (), s', Some m') ∧
    trackers_wf 4 s' ∧ mgr_wf m' ∧ head (lru_pages (lru_replacer s')) = Some 9 ∧
    (∀ q, swapped m' q = if decide (q = 9) then None else swapped mgr9 q) ∧
    pages_swapped_in (swapper_stats s') = pages_swapped_in (swapper_stats swapper56) + 1.
Proof.
  apply (page_fault_swaps_in (P:=dev) 4 10 swapper56 mgr9 12288 9 page7);
    [apply swapper56_wf|apply swapper56_wf|lia|reflexivity|reflexivity|reflexivity
    |vm_compute; discriminate|vm_compute; discriminate|apply mgr9_wf|apply mgr9_wf].
Defined.
