(* ===== verification/SwapConfig.v ===== *)
(** * Swap configuration

    Models [kernel/src/memory/swap_config.rs]: the list of configured swap
    devices, their activation in the global swap manager of [Swap] and
    [Swapper], and the active list sorted by priority. *)
From S2P Require Import Prelude Physical Swap SwapFile Swapper.

Inductive SwapDeviceConfig :=
  | FileConfig (path : string) (size_mb : Z)
  | PartitionConfig (device_path : string) (partition_id size_mb : Z).
Record SwapConfig := {
  cfg_device : SwapDeviceConfig;
  cfg_priority : Z;
  cfg_enabled : bool;
}.
Record SwapConfigManager := {
  configs : list SwapConfig;
  active_devices : list Z;
}.
Definition manager_new : SwapConfigManager := {| configs := []; active_devices := [] |}.
Definition set_enabled (c : SwapConfig) b : SwapConfig :=
  {| cfg_device := cfg_device c; cfg_priority := cfg_priority c; cfg_enabled := b |}.

(** A stable sort by descending priority: each element goes behind those of at
    least its priority. *)
Fixpoint insert_by {A} (le : A → A → bool) (x : A) (l : list A) : list A :=
  match l with
  | [] => [x]
  | y :: l => if le y x then y :: insert_by le x l else x :: y :: l
  end.
Definition sort_by {A} (le : A → A → bool) (l : list A) : list A := foldl (λ acc x, insert_by le x acc) [] l.

Section config.
Context {P : Profile}.
Implicit Types (m : SwapConfigManager) (g : option (SwapManager SwapBox)).

Definition add_config m (c : SwapConfig) : Z * SwapConfigManager :=
  (len (configs m), {| configs := configs m ++ [c]; active_devices := active_devices m |}).
Definition remove_config m (config_index : Z) : result unit SwapError * SwapConfigManager :=
  if len (configs m) <=? config_index then (Err InvalidSlot, m)
  else
    let active := filter (λ i, i ≠ config_index) (active_devices m) in
    (Ok (), {| configs := vec_remove (Z.to_nat config_index) (configs m);
               active_devices := (λ i, if config_index <? i then i - 1 else i) <$> active |}).

(** [FileSwapDevice::new(..)?] or [PartitionSwapDevice::new(..)?], boxed. *)
Definition create_device (c : SwapDeviceConfig) : outcome (result SwapBox SwapError) :=
  match c with
  | FileConfig path size_mb =>
      r ← file_new path size_mb; Val (match r with Ok d => Ok (FileBox d) | Err e => Err e end)
  | PartitionConfig device_path partition_id size_mb =>
      r ← partition_new device_path partition_id size_mb;
      Val (match r with Ok d => Ok (PartitionBox d) | Err e => Err e end)
  end.
(** [configs[b].priority.cmp(&configs[a].priority)] is not greater. *)
Definition not_before (cs : list SwapConfig) (a b : Z) : bool :=
  match cs !! Z.to_nat a, cs !! Z.to_nat b with
  | Some ca, Some cb => cfg_priority cb <=? cfg_priority ca
  | _, _ => false
  end.
(** Sorting compares every element with another one, if there is one: an index
    out of range panics. *)
Definition sort_active (cs : list SwapConfig) (l : list Z) : outcome (list Z) :=
  if (1 <? len l) && existsb (λ i, len cs <=? i) l then Panic else Val (sort_by (not_before cs) l).
Definition activate_device m g (config_index : Z) :
    outcome (result unit SwapError * SwapConfigManager * option (SwapManager SwapBox)) :=
  match configs m !! Z.to_nat config_index with
  | None => Val (Err InvalidSlot, m, g)
  | Some config =>
      if negb (cfg_enabled config) then Val (Err DeviceUnavailable, m, g)
      else
        r ← create_device (cfg_device config);
        match r with
        | Err e => Val (Err e, m, g)
        | Ok device =>
            '(r, g) ← add_swap_device g device;
            match r with
            | Err e => Val (Err e, m, g)
            | Ok _ =>
                active ← sort_active (configs m) (active_devices m ++ [config_index]);
                Val (Ok (), {| configs := configs m; active_devices := active |}, g)
            end
        end
  end.
Definition set_config_enabled m (config_index : Z) b : SwapConfigManager :=
  {| configs := alter (λ c, set_enabled c b) (Z.to_nat config_index) (configs m);
     active_devices := active_devices m |}.
Definition enable_config m g (config_index : Z) :
    outcome (result unit SwapError * SwapConfigManager * option (SwapManager SwapBox)) :=
  if len (configs m) <=? config_index then Val (Err InvalidSlot, m, g)
  else activate_device (set_config_enabled m config_index true) g config_index.
Definition disable_config m (config_index : Z) : result unit SwapError * SwapConfigManager :=
  if len (configs m) <=? config_index then (Err InvalidSlot, m)
  else let m := set_config_enabled m config_index false in
       (Ok (), {| configs := configs m;
                  active_devices := filter (λ i, i ≠ config_index) (active_devices m) |}).

(** One round of [initialize_all]; the last component counts activations. *)
Definition initialize_step (i : Z) (st : SwapConfigManager * option (SwapManager SwapBox) * Z) :
    outcome (SwapConfigManager * option (SwapManager SwapBox) * Z) :=
  let '(m, g, n) := st in
  c ← index (configs m) i;
  if cfg_enabled c then
    '(r, m, g) ← activate_device m g i;
    match r with
    | Ok _ => n ← uadd 64 n 1; Val (m, g, n)
    | Err _ => Val (m, g, n)
    end
  else Val (m, g, n).
Definition initialize_all m g : outcome (result Z SwapError * SwapConfigManager * option (SwapManager SwapBox)) :=
  '(m, g, n) ← for_each initialize_step (seqZ 0 (len (configs m))) (m, g, 0);
  Val (Ok n, m, g).
Definition config_count m : Z := len (configs m).
Definition active_count m : Z := len (active_devices m).
Definition get_config m (i : Z) : option SwapConfig := configs m !! Z.to_nat i.
End config.

Definition create_default_config : SwapConfigManager :=
  (add_config manager_new {| cfg_device := FileConfig "/swap/swapfile" 16; cfg_priority := 10;
                             cfg_enabled := true |}).2.
Definition detect_swap_devices : SwapConfigManager :=
  let m := (add_config manager_new {| cfg_device := FileConfig "/var/swap/swapfile" 64;
                                      cfg_priority := 5; cfg_enabled := false |}).2 in
  (add_config m {| cfg_device := PartitionConfig "/dev/sda2" 2 128; cfg_priority := 10;
                   cfg_enabled := false |}).2.

(** ** Sorting *)
Lemma insert_by_Permutation {A} (le : A → A → bool) x l : insert_by le x l ≡ₚ x :: l.
Proof.
  induction l as [|y l IH]; simpl; [done|]. destruct (le y x); [|done]. rewrite IH. by rewrite Permutation_swap.
Qed.
Lemma insert_by_sorted {A} (le : A → A → bool) (R : A → A → Prop) x l :
  (∀ y, le y x = true → R y x) → (∀ y, le y x = false → R x y) → Sorted R l → Sorted R (insert_by le x l).
Proof.
  intros Ht Hf. induction 1 as [|y l Hl IH Hy]; simpl; [by repeat constructor|].
  destruct (le y x) eqn:E; [|repeat constructor; auto]. constructor; [done|].
  destruct l as [|z l]; simpl; [constructor; auto|]. inversion Hy; subst. destruct (le z x); constructor; auto.
Qed.
Lemma sort_by_spec {A} (le : A → A → bool) (R : A → A → Prop) l :
  (∀ x y, le y x = true → R y x) → (∀ x y, le y x = false → R x y) →
  sort_by le l ≡ₚ l ∧ Sorted R (sort_by le l).
Proof.
  intros Ht Hf. unfold sort_by.
  cut (∀ acc, Sorted R acc → foldl (λ acc x, insert_by le x acc) acc l ≡ₚ acc ++ l ∧
    Sorted R (foldl (λ acc x, insert_by le x acc) acc l)); [intros Hc; apply (Hc []); constructor|].
  induction l as [|x l IH]; intros acc Hacc; simpl; [by rewrite app_nil_r|].
  destruct (IH (insert_by le x acc)) as [Hp Hs]; [apply insert_by_sorted; auto|].
  split; [|done]. rewrite Hp, insert_by_Permutation. apply Permutation_middle.
Qed.

(** ** Initialisation of all devices *)
Definition size_of (c : SwapDeviceConfig) : Z :=
  match c with FileConfig _ n => n | PartitionConfig _ _ n => n end.
(** The configuration leads to a device: it is enabled and has a size. *)
Definition activates (c : SwapConfig) : Prop := cfg_enabled c = true ∧ size_of (cfg_device c) ≠ 0.
#[export] Instance activates_dec c : Decision (activates c).
Proof. unfold activates. apply _. Defined.
Definition activates_at (cs : list SwapConfig) (i : Z) : Prop :=
  match cs !! Z.to_nat i with Some c => activates c | None => False end.
#[export] Instance activates_at_dec cs i : Decision (activates_at cs i).
Proof. unfold activates_at. destruct (cs !! _); apply _. Defined.
(** Higher priority first. *)
Definition by_priority (cs : list SwapConfig) (a b : Z) : Prop :=
  ∀ ca cb, cs !! Z.to_nat a = Some ca → cs !! Z.to_nat b = Some cb → cfg_priority cb ≤ cfg_priority ca.

Section config_theorems.
Context {P : Profile}.

Lemma create_device_spec c : 0 ≤ size_of c < 2 ^ 20 →
  if decide (size_of c = 0) then create_device c = Val (Err InvalidSlot)
  else ∃ d, create_device c = Val (Ok d) ∧ dev_wf d ∧ is_available d = true ∧ slot_count d = 256 * size_of c.
Proof.
  intros Hc. destruct c as [path mb|path id mb]; simpl in *; case_decide as H0.
  - by rewrite H0.
  - destruct (file_new_spec path mb) as (d & -> & Hd & Ha & Hs); [lia|]. by exists (FileBox d).
  - by rewrite H0.
  - unfold partition_new. rewrite (proj2 (Z.eqb_neq mb 0)) by done. rewrite aligned_size_exact by lia.
    simpl. eexists. split; [done|]. split; [simpl; lia|]. split; [done|].
    unfold slot_count. simpl. unfold PAGE_SIZE. divlia.
Qed.
Lemma add_swap_device_val (sm : SwapManager SwapBox) d : mgr_wf sm → dev_wf d → is_available d = true →
  total_slots (total_stats sm) + slot_count d < 2 ^ 64 →
  ∃ sm', add_swap_device (Some sm) d = Val (Ok (device_count sm), Some sm') ∧ mgr_wf sm' ∧
    device_count sm' = device_count sm + 1 ∧
    total_slots (total_stats sm') = total_slots (total_stats sm) + slot_count d.
Proof.
  intros Hsm Hd Ha Hroom. destruct (slot_count_range d Hd) as [Hsc _]. pose proof (add_device_spec sm d Hsm Hd Hroom) as Hadd.
  unfold add_swap_device, with_manager. destruct (add_device sm d) as [[[i|e] sm']| |] eqn:E; try done.
  - destruct Hadd as (_ & -> & Hwf & _). exists sm'. split; [done|]. split; [done|].
    unfold add_device in E. rewrite Ha in E. simpl in E. inv_val.
    unfold device_count. simpl. rewrite len_app. split; [done|].
    pose proof (mw_total sm Hsm). rewrite uadd_val in Hb0; [by inv_val|]. split; [|done].
    rewrite H.
    assert (0 ≤ sumZ sa_total_slots (allocators sm)); [|lia]. apply sumZ_nonneg. intros al Hin.
    apply list_elem_of_lookup_1 in Hin as [j Hj]. destruct (mw_alloc sm Hsm j al Hj). lia.
  - destruct Hadd as (_ & Hna & _). congruence.
Qed.
Lemma sort_active_val cs l : Forall (λ i, 0 ≤ i < len cs) l → sort_active cs l = Val (sort_by (not_before cs) l).
Proof.
  intros Hl. unfold sort_active. destruct (existsb _ l) eqn:E; [|by rewrite andb_false_r].
  exfalso. apply existsb_exists in E. destruct E as (i & Hi & Hge%Z.leb_le). revert Hi.
  intros Hi%list_elem_of_In. rewrite Forall_forall in Hl. specialize (Hl i Hi). lia.
Qed.
Lemma sort_active_sorted cs l : sort_by (not_before cs) l ≡ₚ l ∧ Sorted (by_priority cs) (sort_by (not_before cs) l).
Proof.
  apply sort_by_spec; unfold not_before, by_priority; intros x y.
  - destruct (cs !! Z.to_nat y) as [cy|], (cs !! Z.to_nat x) as [cx|]; try done.
    intros H%Z.leb_le ? ? [= <-] [= <-]. done.
  - destruct (cs !! Z.to_nat y) as [cy|], (cs !! Z.to_nat x) as [cx|]; try naive_solver.
    intros H%Z.leb_gt ? ? [= <-] [= <-]. lia.
Qed.

(** The state after the configurations of [dn]. *)
Definition init_inv (cs : list SwapConfig) (dn : list Z)
    (st : SwapConfigManager * option (SwapManager SwapBox) * Z) : Prop :=
  let '(m, g, n) := st in
  configs m = cs ∧ n = len (filter (activates_at cs) dn) ∧
  active_devices m ≡ₚ filter (activates_at cs) dn ∧ Sorted (by_priority cs) (active_devices m) ∧
  ∃ sm, g = Some sm ∧ mgr_wf sm ∧ device_count sm = n ∧ total_slots (total_stats sm) ≤ 2 ^ 28 * len dn.

Lemma initialize_step_val cs dn i todo st :
  Forall (λ c, 0 ≤ size_of (cfg_device c) < 2 ^ 20) cs → len cs < 2 ^ 32 →
  seqZ 0 (len cs) = dn ++ i :: todo → init_inv cs dn st →
  ∃ st', initialize_step i st = Val st' ∧ init_inv cs (dn ++ [i]) st'.
Proof.
  intros Hsizes Hlen Hseq. destruct st as [[m g] n]. intros (Hcs & Hn & Hperm & Hsort & sm & -> & Hsm & Hcnt & Htot).
  assert (0 ≤ i < len cs) as Hi.
  { apply (elem_of_seqZ 0 (len cs)). rewrite Hseq. set_solver. }
  assert (len dn < len cs) as Hdn.
  { apply (f_equal len) in Hseq. rewrite len_seqZ, len_app in Hseq by apply len_nonneg.
    change (i :: todo) with ([i] ++ todo) in Hseq. rewrite len_app, len_singleton in Hseq.
    pose proof (len_nonneg todo). lia. }
  destruct (lookup_lt_is_Some_2 cs (Z.to_nat i)) as [c Hc]; [unfold len in Hi; lia|].
  pose proof (proj1 (Forall_lookup _ _) Hsizes _ _ Hc) as Hsz. simpl in Hsz.
  unfold initialize_step. rewrite Hcs, (index_val _ _ _ Hc). cbn [mbind outcome_bind].
  assert (Hskip : ¬ activates c → init_inv cs (dn ++ [i]) (m, Some sm, n)).
  { intros Hna. unfold init_inv. rewrite filter_app, filter_cons_False, filter_nil, app_nil_r, len_snoc;
      [|unfold activates_at; by rewrite Hc]. split_and!; try done. exists sm. split_and!; try done. lia. }
  destruct (cfg_enabled c) eqn:Hen; [|eexists; split; [done|]; apply Hskip; intros [? _]; congruence].
  unfold activate_device. rewrite Hcs, Hc. rewrite Hen. cbn [negb].
  pose proof (create_device_spec (cfg_device c) Hsz) as Hd. case_decide as H0.
  { rewrite Hd. cbn [mbind outcome_bind]. eexists. split; [done|]. apply Hskip. by intros [_ ?]. }
  destruct Hd as (d & -> & Hdwf & Hav & Hslots). cbn [mbind outcome_bind].
  destruct (add_swap_device_val sm d) as (sm' & -> & Hsm' & Hcnt' & Htot'); [done..|lia|].
  cbn [mbind outcome_bind]. pose proof (len_nonneg dn).
  assert (∀ l, l ≡ₚ filter (activates_at cs) dn → Forall (λ j, 0 ≤ j < len cs) (l ++ [i])) as Hall.
  { intros l Hl. apply Forall_app. split; [|by apply Forall_singleton]. rewrite Forall_forall. intros j Hj.
    rewrite Hl in Hj. apply list_elem_of_filter in Hj as [_ Hj]. apply (elem_of_seqZ 0 (len cs)).
    rewrite Hseq. set_solver. }
  rewrite sort_active_val by by apply Hall. cbn [mbind outcome_bind].
  assert (len (filter (activates_at cs) dn) ≤ len dn) as Hfl.
  { unfold len. pose proof (length_filter (activates_at cs) dn). lia. }
  rewrite uadd_val by (pose proof (len_nonneg (filter (activates_at cs) dn)); lia).
  eexists. split; [done|]. unfold init_inv.
  rewrite filter_app, filter_cons_True, filter_nil, !len_snoc by (unfold activates_at; by rewrite Hc).
  destruct (sort_active_sorted cs (active_devices m ++ [i])) as [Hp Hs].
  split_and!; [done|lia|simpl; by rewrite Hp, Hperm|done|]. exists sm'. split_and!; try done; lia.
Qed.

(** Initialising the configured swap devices activates every usable one.
    With a fresh swap manager, each configuration that is enabled and has a size
    becomes a device, the others are skipped; the result is their number, the
    swap manager has exactly that many devices and is well formed, and the
    active list holds exactly their indices with the highest priorities first. *)
Theorem initialize_all_activates cs :
  Forall (λ c, 0 ≤ size_of (cfg_device c) < 2 ^ 20) cs → len cs < 2 ^ 32 →
  let usable := filter (activates_at cs) (seqZ 0 (len cs)) in
  ∃ m sm, initialize_all {| configs := cs; active_devices := [] |} (Some new_manager) =
      Val (Ok (len usable), m, Some sm) ∧
    configs m = cs ∧ active_devices m ≡ₚ usable ∧ Sorted (by_priority cs) (active_devices m) ∧
    mgr_wf sm ∧ device_count sm = len usable.
Proof.
  intros Hsizes Hlen usable. unfold initialize_all. cbn [configs].
  destruct (for_each_inv (init_inv cs) initialize_step (seqZ 0 (len cs))
    ({| configs := cs; active_devices := [] |}, Some new_manager, 0)) as ([[m g] n] & -> & Hinv).
  - intros dn i todo st Hseq Hst. by eapply initialize_step_val.
  - split_and!; try done. exists new_manager. split_and!; try done. apply new_manager_wf.
  - destruct Hinv as (Hcs & -> & Hp & Hs & sm & -> & Hsm & Hc & _). exists m, sm. done.
Qed.

(** Enabling a configuration twice adds a second device for it. *)
Example enable_twice :
  (let '(r1, m1, g1) := match enable_config detect_swap_devices (Some new_manager) 1 with
                        | Val x => x | _ => (Err IoError, manager_new, None) end in
   let '(r2, m2, g2) := match enable_config m1 g1 1 with
                        | Val x => x | _ => (Err IoError, manager_new, None) end in
   (r1, r2, active_devices m2, device_count <$> g2)) = (Ok (), Ok (), [1; 1], Some 2).
Proof. destruct P; vm_compute; reflexivity. Qed.
(** A disabled configuration leaves its device in the swap manager. *)
Example disable_keeps_device :
  (let '(r1, m1, g1) := match enable_config detect_swap_devices (Some new_manager) 1 with
                        | Val x => x | _ => (Err IoError, manager_new, None) end in
   let '(r2, m2) := disable_config m1 1 in
   (r2, active_devices m2, device_count <$> g1)) = (Ok (), [], Some 1).
Proof. destruct P; vm_compute; reflexivity. Qed.
End config_theorems.

Lemma initialize_all_activates_witness :
  ∃ m sm, @initialize_all dev create_default_config (Some new_manager) = Val (Ok 1, m, Some sm) ∧
    configs m = configs create_default_config ∧ active_devices m ≡ₚ [0] ∧
    Sorted (by_priority (configs create_default_config)) (active_devices m) ∧
    mgr_wf sm ∧ device_count sm = 1.
Proof.
  refine (@initialize_all_activates dev (configs create_default_config) _ _);
    [|vm_compute; reflexivity]. repeat constructor; vm_compute; congruence.
Defined.
