(* ===== verification/Capability.v ===== *)
(** * Capabilities and the security policy

    Models [kernel/src/ipc/capability.rs] and [kernel/src/ipc/security.rs].

    The globals [NEXT_CAPABILITY_ID] and [CAPABILITY_MANAGER] are the fields of
    [CapState]; [get_current_time_ms] is the constant 0 of the source.  The
    abstraction of a state is the finite map [grants] from live capability
    identifiers to what they permit; creation, revocation and checks are
    insertion, deletion and search in it. *)
From S2P Require Import Prelude.

(** ** Data *)
Inductive CapabilityType :=
  | Read | Write | Execute | Create | Delete | SendMessage | ReceiveMessage | SystemCall
  | DeviceAccess | MemoryManagement | ProcessManagement | FileSystem | Network | Admin.
#[export] Instance CapabilityType_eq_dec : EqDecision CapabilityType.
Proof. solve_decision. Defined.

Inductive ResourceId :=
  | AnyResource
  | ProcessResource (pid : Z)
  | DeviceResource (name : string)
  | FileResource (path : string)
  | NetworkResource (endpoint : string)
  | SystemResource (name : string).
#[export] Instance ResourceId_eq_dec : EqDecision ResourceId.
Proof. solve_decision. Defined.

Inductive CapabilityError :=
  | CapabilityNotFound | PermissionDenied | CapabilityExpired | NotDelegatable
  | InvalidCapability | ResourceExhausted.
#[export] Instance CapabilityError_eq_dec : EqDecision CapabilityError.
Proof. solve_decision. Defined.

Record Capability := {
  cap_id : Z;
  capability_type : CapabilityType;
  cap_resource : ResourceId;
  cap_owner : Z;
  cap_granter : option Z;
  delegatable : bool;
  expires_at : option Z;
  created_at : Z;
}.

(** A [CapabilitySet] is its vector. *)
Abbreviation CapabilitySet := (list Capability).

Record CapabilityManager := {
  process_capabilities : gmap Z CapabilitySet;
  total_capabilities_created : Z;
  checks_performed : Z;
  checks_failed : Z;
}.

Record CapabilityStatistics := {
  st_total_capabilities : Z;
  st_expired_capabilities : Z;
  st_processes_with_capabilities : Z;
  st_total_created : Z;
  st_checks_performed : Z;
  st_checks_failed : Z;
}.

Record CapState := {
  next_capability_id : Z;
  cap_manager : option CapabilityManager;
}.

Definition get_current_time_ms : Z := 0.

(** ** One capability *)
Definition is_expired (c : Capability) : bool :=
  match expires_at c with Some t => t <? get_current_time_ms | None => false end.

(** The [match] on the two resources. *)
Definition resource_matches (have want : ResourceId) : bool :=
  match have with AnyResource => true | _ => bool_decide (have = want) end.

Definition matches (c : Capability) (ty : CapabilityType) (res : ResourceId) : bool :=
  if is_expired c then false
  else if bool_decide (capability_type c ≠ ty) then false
  else resource_matches (cap_resource c) res.

Definition set_expiration (c : Capability) (t : Z) : Capability :=
  {| cap_id := cap_id c; capability_type := capability_type c; cap_resource := cap_resource c;
     cap_owner := cap_owner c; cap_granter := cap_granter c; delegatable := delegatable c;
     expires_at := Some t; created_at := created_at c |}.
Definition make_delegatable (c : Capability) : Capability :=
  {| cap_id := cap_id c; capability_type := capability_type c; cap_resource := cap_resource c;
     cap_owner := cap_owner c; cap_granter := cap_granter c; delegatable := true;
     expires_at := expires_at c; created_at := created_at c |}.

(** ** A process's set *)
Definition set_remove (s : CapabilitySet) (id : Z) : option Capability * CapabilitySet :=
  match position (λ c, cap_id c =? id) s with
  | Some pos => (s !! pos, vec_remove pos s)
  | None => (None, s)
  end.
Definition has_capability (s : CapabilitySet) (ty : CapabilityType) (res : ResourceId) : bool :=
  existsb (λ c, matches c ty res) s.
Definition get_capabilities_by_type (s : CapabilitySet) (ty : CapabilityType) : CapabilitySet :=
  List.filter (λ c, bool_decide (capability_type c = ty) && negb (is_expired c)) s.
Definition get_capabilities_by_resource (s : CapabilitySet) (res : ResourceId) : CapabilitySet :=
  List.filter (λ c, matches c (capability_type c) res) s.
Definition cleanup_expired (s : CapabilitySet) : Z * CapabilitySet :=
  let s' := List.filter (λ c, negb (is_expired c)) s in (len s - len s', s').

(** ** The manager *)
Definition new_cap_manager : CapabilityManager :=
  {| process_capabilities := ∅; total_capabilities_created := 0; checks_performed := 0;
     checks_failed := 0 |}.

Section manager.
Context {P : Profile}.
Implicit Types (m : CapabilityManager) (next : Z).

Definition generate_capability_id next : outcome (Z * Z) :=
  next' ← uadd 64 next 1; Val (next, next').

(** [Capability::new]; the second component is the counter after it. *)
Definition capability_new next ty res (owner : Z) (granter : option Z) : outcome (Capability * Z) :=
  '(id, next) ← generate_capability_id next;
  Val ({| cap_id := id; capability_type := ty; cap_resource := res; cap_owner := owner;
          cap_granter := granter; delegatable := false; expires_at := None;
          created_at := get_current_time_ms |}, next).

(** [entry(pid).or_insert_with(new)] and [add], counted. *)
Definition add_capability m (pid : Z) (c : Capability) : outcome CapabilityManager :=
  total ← uadd 64 (total_capabilities_created m) 1;
  Val {| process_capabilities :=
           <[pid := default [] (process_capabilities m !! pid) ++ [c]]> (process_capabilities m);
         total_capabilities_created := total; checks_performed := checks_performed m;
         checks_failed := checks_failed m |}.

Definition grant_capability next m (pid : Z) ty res granter :
    outcome (result Z CapabilityError * Z * CapabilityManager) :=
  '(c, next) ← capability_new next ty res pid granter;
  m ← add_capability m pid c;
  Val (Ok (cap_id c), next, m).

Definition count_check m (failed : bool) : outcome CapabilityManager :=
  n ← uadd 64 (checks_performed m) 1;
  f ← (if failed then uadd 64 (checks_failed m) 1 else Val (checks_failed m));
  Val {| process_capabilities := process_capabilities m;
         total_capabilities_created := total_capabilities_created m;
         checks_performed := n; checks_failed := f |}.

Definition manager_check m (pid : Z) ty res : outcome (bool * CapabilityManager) :=
  match process_capabilities m !! pid with
  | Some s =>
      let has := has_capability s ty res in
      m ← count_check m (negb has); Val (has, m)
  | None => m ← count_check m true; Val (false, m)
  end.

Definition manager_delegate next m (from to id : Z) :
    outcome (result Z CapabilityError * Z * CapabilityManager) :=
  match process_capabilities m !! from with
  | None => Val (Err CapabilityNotFound, next, m)
  | Some s =>
      match List.find (λ c, cap_id c =? id) s with
      | None => Val (Err CapabilityNotFound, next, m)
      | Some src =>
          if negb (delegatable src) then Val (Err NotDelegatable, next, m)
          else if is_expired src then Val (Err CapabilityExpired, next, m)
          else
            '(c, next) ← capability_new next (capability_type src) (cap_resource src) to (Some from);
            let c := {| cap_id := cap_id c; capability_type := capability_type c;
                        cap_resource := cap_resource c; cap_owner := cap_owner c;
                        cap_granter := cap_granter c; delegatable := delegatable src;
                        expires_at := expires_at src; created_at := created_at c |} in
            m ← add_capability m to c;
            Val (Ok (cap_id c), next, m)
      end
  end.

Definition manager_revoke m (pid id : Z) : result unit CapabilityError * CapabilityManager :=
  match process_capabilities m !! pid with
  | None => (Err CapabilityNotFound, m)
  | Some s =>
      let '(removed, s) := set_remove s id in
      let m := {| process_capabilities := <[pid := s]> (process_capabilities m);
                  total_capabilities_created := total_capabilities_created m;
                  checks_performed := checks_performed m; checks_failed := checks_failed m |} in
      (match removed with Some _ => Ok () | None => Err CapabilityNotFound end, m)
  end.

Definition get_statistics m : CapabilityStatistics :=
  let sets := (map_to_list (process_capabilities m)).*2 in
  {| st_total_capabilities := sumZ len sets;
     st_expired_capabilities := sumZ (λ s, len (List.filter is_expired s)) sets;
     st_processes_with_capabilities := Z.of_nat (size (process_capabilities m));
     st_total_created := total_capabilities_created m;
     st_checks_performed := checks_performed m; st_checks_failed := checks_failed m |}.

Definition manager_cleanup m : Z * CapabilityManager :=
  (sumZ (λ s, (cleanup_expired s).1) (map_to_list (process_capabilities m)).*2,
   {| process_capabilities := (λ s, (cleanup_expired s).2) <$> process_capabilities m;
      total_capabilities_created := total_capabilities_created m;
      checks_performed := checks_performed m; checks_failed := checks_failed m |}).

(** ** The global interface *)
Definition init_capability_system (st : CapState) : CapState :=
  {| next_capability_id := next_capability_id st; cap_manager := Some new_cap_manager |}.

Definition create_capability (st : CapState) (pid : Z) ty res granter :
    outcome (result Z CapabilityError * CapState) :=
  match cap_manager st with
  | None => Val (Err ResourceExhausted, st)
  | Some m =>
      '(r, next, m) ← grant_capability (next_capability_id st) m pid ty res granter;
      Val (r, {| next_capability_id := next; cap_manager := Some m |})
  end.

Definition check_capability (st : CapState) (pid : Z) ty res : outcome (bool * CapState) :=
  match cap_manager st with
  | None => Val (false, st)
  | Some m =>
      '(b, m) ← manager_check m pid ty res;
      Val (b, {| next_capability_id := next_capability_id st; cap_manager := Some m |})
  end.

Definition delegate_capability (st : CapState) (from to id : Z) :
    outcome (result Z CapabilityError * CapState) :=
  match cap_manager st with
  | None => Val (Err ResourceExhausted, st)
  | Some m =>
      '(r, next, m) ← manager_delegate (next_capability_id st) m from to id;
      Val (r, {| next_capability_id := next; cap_manager := Some m |})
  end.

Definition revoke_capability (st : CapState) (pid id : Z) : result unit CapabilityError * CapState :=
  match cap_manager st with
  | None => (Err ResourceExhausted, st)
  | Some m =>
      let '(r, m) := manager_revoke m pid id in
      (r, {| next_capability_id := next_capability_id st; cap_manager := Some m |})
  end.

Definition cleanup_expired_capabilities (st : CapState) : Z * CapState :=
  match cap_manager st with
  | None => (0, st)
  | Some m =>
      let '(n, m) := manager_cleanup m in
      (n, {| next_capability_id := next_capability_id st; cap_manager := Some m |})
  end.

Definition get_capability_statistics (st : CapState) : CapabilityStatistics :=
  match cap_manager st with
  | Some m => get_statistics m
  | None => {| st_total_capabilities := 0; st_expired_capabilities := 0;
               st_processes_with_capabilities := 0; st_total_created := 0;
               st_checks_performed := 0; st_checks_failed := 0 |}
  end.

(** ** Security policy *)
Record SecurityPolicy := {
  system_capabilities : list (CapabilityType * ResourceId);
  user_capabilities : list (CapabilityType * ResourceId);
  restricted_operations : list CapabilityType;
}.

Definition new_policy : SecurityPolicy :=
  {| system_capabilities :=
       [(SendMessage, AnyResource); (ReceiveMessage, AnyResource); (SystemCall, AnyResource);
        (MemoryManagement, AnyResource); (ProcessManagement, AnyResource);
        (FileSystem, AnyResource)];
     user_capabilities :=
       [(SendMessage, SystemResource "services"); (ReceiveMessage, AnyResource);
        (SystemCall, SystemResource "user_syscalls")];
     restricted_operations := [Admin; DeviceAccess; ProcessManagement; MemoryManagement] |}.

(** The loop of [grant_system_capabilities] and [grant_user_capabilities]. *)
Definition grant_all (pid : Z) (caps : list (CapabilityType * ResourceId)) (st : CapState) :
    outcome (result (list Z) CapabilityError * CapState) :=
  r ← for_loop (λ '(ty, res) '(granted, st),
        '(r, st) ← create_capability st pid ty res None;
        match r with
        | Ok id => Val (Next (granted ++ [id], st))
        | Err e => Val (Return (e, st))
        end) caps ([], st);
  match r with
  | Next (granted, st) => Val (Ok granted, st)
  | Return (e, st) => Val (Err e, st)
  end.
Definition grant_system_capabilities (p : SecurityPolicy) (pid : Z) := grant_all pid (system_capabilities p).
Definition grant_user_capabilities (p : SecurityPolicy) (pid : Z) := grant_all pid (user_capabilities p).

Definition is_restricted_operation (p : SecurityPolicy) (ty : CapabilityType) : bool :=
  bool_decide (ty ∈ restricted_operations p).

(** [check(a) || check(b)]: the second check happens only if the first fails. *)
Definition check_either (st : CapState) (pid : Z) ty res1 res2 : outcome (bool * CapState) :=
  '(b, st) ← check_capability st pid ty res1;
  if (b : bool) then Val (true, st) else check_capability st pid ty res2.

Definition validate_capability_request (p : SecurityPolicy) (st : CapState) (pid : Z) ty res :
    outcome (bool * CapState) :=
  if is_restricted_operation p ty then check_capability st pid Admin AnyResource
  else
    match ty with
    | SendMessage => check_either st pid SendMessage res AnyResource
    | ReceiveMessage => Val (true, st)
    | SystemCall => check_either st pid SystemCall res AnyResource
    | _ => check_capability st pid ty res
    end.

Definition create_secure_ipc_channel (st : CapState) (a b : Z) :
    outcome (result unit CapabilityError * CapState) :=
  '(r, st) ← create_capability st a SendMessage (ProcessResource b) None;
  match r with
  | Err e => Val (Err e, st)
  | Ok _ =>
      '(r, st) ← create_capability st b SendMessage (ProcessResource a) None;
      match r with Err e => Val (Err e, st) | Ok _ => Val (Ok (), st) end
  end.

(** Logs and changes nothing. *)
Definition revoke_process_capabilities (st : CapState) (pid : Z) : result unit CapabilityError * CapState :=
  (Ok (), st).
End manager.

(** ** Abstraction *)

(** What a live capability permits: owner, type and resource. *)
Abbreviation Grant := (Z * CapabilityType * ResourceId)%type.
Definition permits (e : Grant) (pid : Z) (ty : CapabilityType) (res : ResourceId) : Prop :=
  e.1.1 = pid ∧ e.1.2 = ty ∧ resource_matches e.2 res = true.
Definition grant_of (pid : Z) (c : Capability) : Grant := (pid, capability_type c, cap_resource c).

Definition cap_sets (st : CapState) : gmap Z CapabilitySet :=
  match cap_manager st with Some m => process_capabilities m | None => ∅ end.

Record cap_wf (st : CapState) : Prop := {
  cw_next : 0 < next_capability_id st;
  cw_id pid s c : cap_sets st !! pid = Some s → c ∈ s → 0 < cap_id c < next_capability_id st;
  cw_unique pid1 s1 i1 c1 pid2 s2 i2 c2 :
    cap_sets st !! pid1 = Some s1 → s1 !! i1 = Some c1 →
    cap_sets st !! pid2 = Some s2 → s2 !! i2 = Some c2 →
    cap_id c1 = cap_id c2 → pid1 = pid2 ∧ i1 = i2;
  cw_plain pid s c : cap_sets st !! pid = Some s → c ∈ s →
    cap_owner c = pid ∧ delegatable c = false ∧ expires_at c = None;
}.

Record cap_rel (σ : gmap Z Grant) (st : CapState) : Prop := {
  cr_wf : cap_wf st;
  cr_grants id e : σ !! id = Some e ↔
    ∃ pid s c, cap_sets st !! pid = Some s ∧ c ∈ s ∧ cap_id c = id ∧ e = grant_of pid c;
}.

(** The counters can still be incremented [n] times. *)
Definition cap_room (n : Z) (st : CapState) : Prop :=
  next_capability_id st + n < 2 ^ 64 ∧
  ∃ m, cap_manager st = Some m ∧
    0 ≤ total_capabilities_created m ∧ total_capabilities_created m + n < 2 ^ 64 ∧
    0 ≤ checks_failed m ≤ checks_performed m ∧ checks_performed m + n < 2 ^ 64.

(** *** Single capabilities *)
Lemma plain_matches c ty res : expires_at c = None →
  matches c ty res = true ↔ capability_type c = ty ∧ resource_matches (cap_resource c) res = true.
Proof.
  intros He. unfold matches, is_expired. rewrite He. case_bool_decide; simpl; naive_solver.
Qed.

Lemma has_capability_iff s ty res :
  has_capability s ty res = true ↔ ∃ c, c ∈ s ∧ matches c ty res = true.
Proof.
  unfold has_capability. rewrite existsb_exists. by setoid_rewrite list_elem_of_In.
Qed.

Lemma cleanup_plain s : (∀ c, c ∈ s → expires_at c = None) → cleanup_expired s = (0, s).
Proof.
  intros Hs. unfold cleanup_expired. assert (List.filter (λ c, negb (is_expired c)) s = s) as ->.
  { induction s as [|c s IH]; simpl; [done|]. unfold is_expired at 1.
    rewrite (Hs c) by (by left). simpl. f_equal. apply IH. intros. apply Hs. by right. }
  by rewrite Z.sub_diag.
Qed.

(** *** Adding a fresh capability *)
Lemma cap_rel_add σ st pid c m' :
  cap_rel σ st → cap_id c = next_capability_id st → cap_owner c = pid →
  delegatable c = false → expires_at c = None →
  process_capabilities m' = <[pid := default [] (cap_sets st !! pid) ++ [c]]> (cap_sets st) →
  σ !! cap_id c = None ∧
  cap_rel (<[cap_id c := grant_of pid c]> σ)
    {| next_capability_id := next_capability_id st + 1; cap_manager := Some m' |}.
Proof.
  intros [[Hn Hid Huniq Hpl] Hg] Hc Ho Hd He Hm.
  set (s0 := default [] (cap_sets st !! pid)) in *.
  assert (∀ d, d ∈ s0 → cap_sets st !! pid = Some s0) as Hs0.
  { intros d Hin. unfold s0 in *. destruct (cap_sets st !! pid); [done|by apply not_elem_of_nil in Hin]. }
  assert (∀ p s d, <[pid := s0 ++ [c]]> (cap_sets st) !! p = Some s → d ∈ s →
    (p = pid ∧ d = c) ∨ ∃ s', cap_sets st !! p = Some s' ∧ d ∈ s') as Hin.
  { intros p s d Hp Hd'. apply lookup_insert_Some in Hp as [[-> <-]|[_ ?]]; [|eauto].
    apply elem_of_app in Hd' as [?| ->%list_elem_of_singleton]; [right; eauto|by left]. }
  assert (∀ p s d, cap_sets st !! p = Some s → d ∈ s → cap_id d ≠ cap_id c) as Hfresh.
  { intros p s d Hp Hd'. pose proof (Hid p s d Hp Hd'). lia. }
  split.
  { apply eq_None_not_Some. intros [e (p & s & d & Hp & Hd' & He' & _)%Hg].
    by apply (Hfresh p s d). }
  split; [split|]; unfold cap_sets; simpl; rewrite ?Hm; try lia.
  - intros p s d Hp Hd'. destruct (Hin p s d Hp Hd') as [[-> ->]|(s' & Hp' & Hin')]; [lia|].
    pose proof (Hid p s' d Hp' Hin'). lia.
  - intros p1 s1 i1 c1 p2 s2 i2 c2 H1 L1 H2 L2 Heq.
    rewrite lookup_insert_Some in H1, H2.
    assert (∀ s i d, s0 ++ [c] = s → s !! i = Some d →
      (i = length s0 ∧ d = c) ∨ s0 !! i = Some d) as Hsnoc.
    { intros s i d <- Hl. apply lookup_app_Some in Hl as [?|[Hge Hl]]; [by right|left].
      apply list_lookup_singleton_Some in Hl as [Hz <-]. split; [lia|done]. }
    destruct H1 as [[-> H1]|[Hne1 H1]], H2 as [[-> H2]|[Hne2 H2]].
    + destruct (Hsnoc _ _ _ H1 L1) as [[-> ->]|L1'], (Hsnoc _ _ _ H2 L2) as [[-> ->]|L2']; try done.
      * exfalso. apply (Hfresh p2 s0 c2); [eapply Hs0| |done]; by eapply list_elem_of_lookup_2.
      * exfalso. apply (Hfresh p2 s0 c1); [eapply Hs0| |done]; by eapply list_elem_of_lookup_2.
      * eapply Huniq; [eapply Hs0; by eapply list_elem_of_lookup_2|exact L1'|
          eapply Hs0; by eapply list_elem_of_lookup_2|exact L2'|done].
    + destruct (Hsnoc _ _ _ H1 L1) as [[-> ->]|L1'].
      * exfalso. eapply (Hfresh p2 s2 c2); [done| |done]. by eapply list_elem_of_lookup_2.
      * eapply Huniq; [eapply Hs0; by eapply list_elem_of_lookup_2|exact L1'|done..].
    + destruct (Hsnoc _ _ _ H2 L2) as [[-> ->]|L2'].
      * exfalso. eapply (Hfresh p1 s1 c1); [done| |done]. by eapply list_elem_of_lookup_2.
      * eapply Huniq; [done|done|eapply Hs0; by eapply list_elem_of_lookup_2|exact L2'|done].
    + by eapply Huniq.
  - intros p s d Hp Hd'. destruct (Hin p s d Hp Hd') as [[-> ->]|(s' & Hp' & Hin')]; [done|eauto].
  - intros id e. rewrite lookup_insert_Some, Hg. split.
    + intros [[<- <-]|(Hne & p & s & d & Hp & Hd' & He' & ->)].
      * exists pid, (s0 ++ [c]), c. rewrite lookup_insert_eq. split_and!; [done|set_solver|done..].
      * destruct (decide (p = pid)) as [->|].
        -- exists pid, (s0 ++ [c]), d. rewrite lookup_insert_eq. split_and!; [done| |done..].
           unfold s0. rewrite Hp. set_solver.
        -- exists p, s, d. by rewrite lookup_insert_ne.
    + intros (p & s & d & Hp & Hd' & He' & ->).
      destruct (Hin p s d Hp Hd') as [[-> ->]|(s' & Hp' & Hin')]; [by left|right].
      split; [|by exists p, s', d]. rewrite <-He'. intros E. by eapply (Hfresh p s' d).
Qed.

(** *** Removing a capability *)
Lemma set_remove_spec s id : NoDup (cap_id <$> s) →
  match set_remove s id with
  | (Some c, s') => c ∈ s ∧ cap_id c = id ∧ s' = filter (λ d, cap_id d ≠ id) s
  | (None, s') => s' = s ∧ ∀ c, c ∈ s → cap_id c ≠ id
  end.
Proof.
  intros Hnd. unfold set_remove. destruct (position _ _) as [i|] eqn:Hi.
  - apply position_Some in Hi as (c & Hc & Hid%Z.eqb_eq & _). rewrite Hc.
    split_and!; [by eapply list_elem_of_lookup_2|done|].
    clear - Hnd Hc Hid. revert i Hc. induction s as [|d s IH]; intros [|i] Hc; simplify_eq/=;
      apply NoDup_cons in Hnd as [Hd Hnd].
    + unfold vec_remove; simpl. rewrite drop_0, filter_cons_False by naive_solver.
      symmetry. clear IH. induction s as [|x s IH]; [done|]. simpl in *.
      apply not_elem_of_cons in Hd as [Hx Hd]. apply NoDup_cons in Hnd as [_ Hnd].
      rewrite filter_cons_True by congruence. by rewrite IH.
    + rewrite filter_cons_True.
      2: { intros E. apply Hd. rewrite E. apply list_elem_of_fmap. exists c. split; [done|].
           by eapply list_elem_of_lookup_2. }
      unfold vec_remove in *; simpl. f_equal. by apply IH.
  - split; [done|]. intros c Hc. eapply position_None in Hi; [|done]. by apply Z.eqb_neq in Hi.
Qed.

Lemma cap_ids_NoDup st pid s : cap_wf st → cap_sets st !! pid = Some s → NoDup (cap_id <$> s).
Proof.
  intros Hwf Hs. apply NoDup_alt. intros i j id Hi Hj.
  rewrite list_lookup_fmap in Hi, Hj.
  apply fmap_Some in Hi as (c & Hc & ->), Hj as (d & Hd & Heq).
  by apply (cw_unique st Hwf pid s i c pid s j d).
Qed.

Section cap_specs.
Context {P : Profile}.

Lemma revoke_spec σ st pid id : cap_rel σ st → is_Some (cap_manager st) →
  let '(r, st') := revoke_capability st pid id in
  match r with
  | Ok _ => (∃ ty res, σ !! id = Some (pid, ty, res)) ∧ cap_rel (delete id σ) st'
  | Err e => e = CapabilityNotFound ∧ (∀ ty res, σ !! id ≠ Some (pid, ty, res)) ∧ cap_rel σ st'
  end ∧ next_capability_id st' = next_capability_id st.
Proof.
  intros [Hwf Hg] [m Hm]. unfold revoke_capability, manager_revoke. rewrite Hm.
  assert (cap_sets st = process_capabilities m) as Hsets by (unfold cap_sets; by rewrite Hm).
  destruct (process_capabilities m !! pid) as [s|] eqn:Hs; simpl.
  2: { split; [|done]. split_and!; [done| |].
       - intros ty res (p & s & c & Hp & _ & _ & [= <- _ _])%Hg. congruence.
       - destruct st; simpl in *; subst. by split. }
  rewrite <-Hsets in Hs. pose proof (cap_ids_NoDup st pid s Hwf Hs) as Hnd.
  pose proof (set_remove_spec s id Hnd) as Hrem. destruct (set_remove s id) as [[c|] s'] eqn:Er.
  - destruct Hrem as (Hc & Hid & ->). split; [|done]. split.
    { exists (capability_type c), (cap_resource c). apply Hg. by exists pid, s, c. }
    set (s' := filter _ s).
    assert (∀ p t d, <[pid := s']> (cap_sets st) !! p = Some t → d ∈ t →
      ∃ t', cap_sets st !! p = Some t' ∧ d ∈ t' ∧ cap_id d ≠ id) as Hin.
    { intros p t d [[-> <-]|[Hne Hp]]%lookup_insert_Some Hd.
      - unfold s' in Hd. apply list_elem_of_filter in Hd as [? ?]. eauto.
      - exists t. split_and!; try done. intros Heq. apply list_elem_of_lookup in Hd as [i Hi], Hc as [j Hj].
        destruct (cw_unique st Hwf p t i d pid s j c) as [-> _]; try done. congruence. }
    destruct Hwf as [Hn Hids Hu Hpl].
    split; [split|]; cbn -[lookup insert]; rewrite <-?Hsets; try done.
    + intros p t d Hp (t' & ? & ? & _)%(Hin p t d Hp). eauto.
    + intros p1 s1 i1 c1 p2 s2 i2 c2 H1 L1 H2 L2 Heq.
      assert (∀ t, <[pid := s']> (cap_sets st) !! p1 = Some t → NoDup (cap_id <$> t)) as Hnd1.
      { intros t [[-> <-]|[_ Hp]]%lookup_insert_Some.
        - eapply sublist_NoDup; [exact Hnd|]. unfold s'. apply fmap_sublist, sublist_filter.
        - eapply cap_ids_NoDup; [|exact Hp]. by split. }
      destruct (Hin p1 s1 c1 H1 (list_elem_of_lookup_2 _ _ _ L1)) as (t1 & T1 & [j1 J1]%list_elem_of_lookup & _).
      destruct (Hin p2 s2 c2 H2 (list_elem_of_lookup_2 _ _ _ L2)) as (t2 & T2 & [j2 J2]%list_elem_of_lookup & _).
      destruct (Hu _ _ _ _ _ _ _ _ T1 J1 T2 J2 Heq) as [-> _]. split; [done|].
      rewrite H1 in H2. simplify_eq.
      apply (NoDup_lookup _ _ _ (cap_id c1) (Hnd1 _ H1)); rewrite list_lookup_fmap, ?L1, ?L2; simpl; congruence.
    + intros p t d Hp (t' & ? & ? & _)%(Hin p t d Hp). eauto.
    + intros id' e. rewrite lookup_delete_Some, Hg. split.
      * intros (Hne & p & t & d & Hp & Hd & Hid' & ->). destruct (decide (p = pid)) as [->|].
        -- exists pid, s', d. rewrite lookup_insert_eq. split_and!; try done. simplify_eq.
           unfold s'. apply list_elem_of_filter. split; [congruence|done].
        -- exists p, t, d. by rewrite lookup_insert_ne.
      * intros (p & t & d & Hp & Hd & Hid' & ->).
        destruct (Hin p t d Hp Hd) as (t' & ? & ? & ?). split; [congruence|]. by exists p, t', d.
  - destruct Hrem as [-> Hno]. split; [|done]. split_and!; [done| |].
    + intros ty res (p & t & c & Hp & Hc & Hid & [= <- _ _])%Hg. simplify_eq. by eapply Hno.
    + rewrite insert_id by congruence. destruct st as [n mg]; simpl in *; subst mg.
      destruct m; simpl. by split.
Qed.

Lemma create_spec σ st n pid ty res granter : cap_rel σ st → cap_room n st → 1 ≤ n →
  ∃ st', create_capability st pid ty res granter = Val (Ok (next_capability_id st), st') ∧
    σ !! next_capability_id st = None ∧
    cap_rel (<[next_capability_id st := (pid, ty, res)]> σ) st' ∧ cap_room (n - 1) st'.
Proof.
  intros Hrel (Hn & m & Hm & Ht & Ht' & Hc & Hc') Hn1.
  unfold create_capability, grant_capability, capability_new, generate_capability_id, add_capability.
  pose proof (cw_next st (cr_wf σ st Hrel)).
  rewrite Hm, uadd_val by lia. simpl. rewrite uadd_val by lia. simpl. eexists. split; [done|].
  edestruct (cap_rel_add σ st pid {| cap_id := next_capability_id st; capability_type := ty;
    cap_resource := res; cap_owner := pid; cap_granter := granter; delegatable := false;
    expires_at := None; created_at := get_current_time_ms |}) as [Hf Hr]; [done..| |].
  2: split_and!; [exact Hf|exact Hr|]; repeat split; simpl; eauto; try lia.
  - unfold cap_sets. rewrite Hm. done.
  - eexists. split; [done|]. simpl. lia.
Qed.

(** The answer of a check, and that it changes counters only. *)
Lemma check_spec σ st n pid ty res : cap_rel σ st → cap_room n st → 1 ≤ n →
  ∃ b st', check_capability st pid ty res = Val (b, st') ∧ cap_rel σ st' ∧ cap_room (n - 1) st' ∧
    next_capability_id st' = next_capability_id st ∧
    (b = true ↔ ∃ id e, σ !! id = Some e ∧ permits e pid ty res).
Proof.
  intros [Hwf Hg] (Hn & m & Hm & Ht & Ht' & Hc & Hc') Hn1.
  unfold check_capability, manager_check, count_check. rewrite Hm.
  assert (cap_sets st = process_capabilities m) as Hsets by (unfold cap_sets; by rewrite Hm).
  set (b := match process_capabilities m !! pid with Some s => has_capability s ty res | None => false end).
  assert (b = true ↔ ∃ id e, σ !! id = Some e ∧ permits e pid ty res) as Hb.
  { unfold b. rewrite <-Hsets. split.
    - destruct (cap_sets st !! pid) as [s|] eqn:Hs; [|done].
      intros (c & Hc1 & Hmt)%has_capability_iff.
      destruct (cw_plain st Hwf pid s c Hs Hc1) as (_ & _ & He).
      apply plain_matches in Hmt as [? ?]; [|done].
      exists (cap_id c), (grant_of pid c). split; [apply Hg; by exists pid, s, c|]. done.
    - intros (id & e & (p & s & c & Hs & Hc1 & _ & ->)%Hg & Hp & Hty & Hr). simpl in *. subst p.
      rewrite Hs. apply has_capability_iff. exists c. split; [done|].
      apply plain_matches; [|done]. by destruct (cw_plain st Hwf pid s c Hs Hc1) as (_ & _ & ?). }
  exists b. destruct (process_capabilities m !! pid) as [s|] eqn:Es;
    [destruct (has_capability s ty res)|]; simpl; rewrite ?uadd_val by lia; simpl;
    rewrite ?uadd_val by lia; simpl;
    (eexists; split; [done|]); (split; [split; [|by rewrite Hsets in Hg]; rewrite Hsets in *;
      destruct Hwf as [? H1 H2 H3]; rewrite Hsets in *; by split|]);
    (split; [|done]); (split; [simpl; lia|]); eexists; (split; [done|]); simpl; lia.
Qed.

Lemma check_true σ st pid ty res st' : cap_rel σ st →
  check_capability st pid ty res = Val (true, st') →
  ∃ id e, σ !! id = Some e ∧ permits e pid ty res.
Proof.
  intros [Hwf Hg]. unfold check_capability, manager_check.
  destruct (cap_manager st) as [m|] eqn:Hm; [|done].
  assert (cap_sets st = process_capabilities m) as Hsets by (unfold cap_sets; by rewrite Hm).
  destruct (process_capabilities m !! pid) as [s|] eqn:Hs; intros Hr;
    apply bind_val in Hr as ([b m'] & Hr & Hb); inv_val.
  rewrite <-Hsets in Hs. apply has_capability_iff in Hr as (c & Hc & Hmt).
  destruct (cw_plain st Hwf pid s c Hs Hc) as (_ & _ & He).
  apply plain_matches in Hmt as [? ?]; [|done].
  exists (cap_id c), (grant_of pid c). split; [apply Hg; by exists pid, s, c|]. done.
Qed.

(** In a well-formed state no capability can be delegated. *)
Lemma delegate_spec σ st from to id : cap_rel σ st → is_Some (cap_manager st) →
  ∃ e, delegate_capability st from to id = Val (Err e, st) ∧
       (e = NotDelegatable ∧ (∃ ty res, σ !! id = Some (from, ty, res)) ∨
        e = CapabilityNotFound ∧ ∀ ty res, σ !! id ≠ Some (from, ty, res)).
Proof.
  intros [Hwf Hg] [m Hm]. unfold delegate_capability, manager_delegate. rewrite Hm.
  assert (cap_sets st = process_capabilities m) as Hsets by (unfold cap_sets; by rewrite Hm).
  assert (Some m = cap_manager st) as Hm' by done.
  destruct (process_capabilities m !! from) as [s|] eqn:Hs; rewrite <-Hsets in Hs; simpl.
  - destruct (List.find (λ c, cap_id c =? id) s) as [c|] eqn:Hf.
    + apply List.find_some in Hf as [Hc Hid%Z.eqb_eq]. rewrite <-list_elem_of_In in Hc.
      destruct (cw_plain st Hwf from s c Hs Hc) as (_ & -> & _). simpl.
      eexists. split; [rewrite Hm'; by destruct st|]. left. split; [done|].
      exists (capability_type c), (cap_resource c). apply Hg. by exists from, s, c.
    + simpl. eexists. split; [rewrite Hm'; by destruct st|]. right. split; [done|].
      intros ty res (p & t & c & Hp & Hc & Hid & [= <- _ _])%Hg. simplify_eq.
      rewrite list_elem_of_In in Hc. eapply List.find_none in Hf; [|exact Hc]. simpl in Hf.
      by rewrite Z.eqb_refl in Hf.
  - eexists. split; [rewrite Hm'; by destruct st|]. right. split; [done|].
    intros ty res (p & t & c & Hp & _ & _ & [= <- _ _])%Hg. congruence.
Qed.

Lemma cleanup_spec σ st : cap_rel σ st → cleanup_expired_capabilities st = (0, st).
Proof.
  intros [Hwf _]. unfold cleanup_expired_capabilities, manager_cleanup.
  destruct (cap_manager st) as [m|] eqn:Hm; [|done].
  assert (∀ pid s, process_capabilities m !! pid = Some s → cleanup_expired s = (0, s)) as Hc.
  { intros pid s Hs. apply cleanup_plain. intros c Hin.
    by destruct (cw_plain st Hwf pid s c) as (_ & _ & ?); [unfold cap_sets; rewrite Hm|..]. }
  assert (sumZ (λ s, (cleanup_expired s).1) (map_to_list (process_capabilities m)).*2 = 0) as ->.
  { apply sumZ_zero. intros s ([pid s'] & -> & Hin)%list_elem_of_fmap.
    apply elem_of_map_to_list in Hin. change ((cleanup_expired s').1 = 0). by rewrite (Hc _ _ Hin). }
  rewrite (map_fmap_ext _ id), map_fmap_id by (intros pid s Hs; by rewrite (Hc pid s Hs)).
  destruct st, m; simpl in *. by subst.
Qed.
End cap_specs.

(** ** Histories

    A client-visible call, the answer the code gives, and what the abstract
    map allows as answer and successor. *)
Inductive cap_op :=
  | OpCreate (pid : Z) (ty : CapabilityType) (res : ResourceId) (granter : option Z)
  | OpCheck (pid : Z) (ty : CapabilityType) (res : ResourceId)
  | OpDelegate (from to id : Z)
  | OpRevoke (pid id : Z)
  | OpCleanup.
Inductive cap_answer :=
  | AnsId (r : result Z CapabilityError)
  | AnsBool (b : bool)
  | AnsUnit (r : result unit CapabilityError)
  | AnsCount (n : Z).

Definition cap_step {P : Profile} (st : CapState) (o : cap_op) : outcome (cap_answer * CapState) :=
  match o with
  | OpCreate pid ty res granter => '(r, st) ← create_capability st pid ty res granter; Val (AnsId r, st)
  | OpCheck pid ty res => '(b, st) ← check_capability st pid ty res; Val (AnsBool b, st)
  | OpDelegate from to id => '(r, st) ← delegate_capability st from to id; Val (AnsId r, st)
  | OpRevoke pid id => let '(r, st) := revoke_capability st pid id in Val (AnsUnit r, st)
  | OpCleanup => let '(n, st) := cleanup_expired_capabilities st in Val (AnsCount n, st)
  end.

Inductive spec_step (σ : gmap Z Grant) : cap_op → cap_answer → gmap Z Grant → Prop :=
  | spec_create pid ty res granter id : σ !! id = None →
      spec_step σ (OpCreate pid ty res granter) (AnsId (Ok id)) (<[id := (pid, ty, res)]> σ)
  | spec_check pid ty res (b : bool) :
      (b = true ↔ ∃ id e, σ !! id = Some e ∧ permits e pid ty res) →
      spec_step σ (OpCheck pid ty res) (AnsBool b) σ
  | spec_delegate from to id e : spec_step σ (OpDelegate from to id) (AnsId (Err e)) σ
  | spec_revoke pid id ty res : σ !! id = Some (pid, ty, res) →
      spec_step σ (OpRevoke pid id) (AnsUnit (Ok ())) (delete id σ)
  | spec_revoke_unknown pid id : (∀ ty res, σ !! id ≠ Some (pid, ty, res)) →
      spec_step σ (OpRevoke pid id) (AnsUnit (Err CapabilityNotFound)) σ
  | spec_cleanup : spec_step σ OpCleanup (AnsCount 0) σ.

Inductive spec_run : gmap Z Grant → list (cap_op * cap_answer) → gmap Z Grant → Prop :=
  | spec_nil σ : spec_run σ [] σ
  | spec_snoc σ1 tr σ2 o a σ3 :
      spec_run σ1 tr σ2 → spec_step σ2 o a σ3 → spec_run σ1 (tr ++ [(o, a)]) σ3.

(** Running the code, collecting the answers. *)
Definition cap_run {P : Profile} (ops : list cap_op) (st : CapState) :
    outcome (list (cap_op * cap_answer) * CapState) :=
  for_each (λ o '(tr, st), '(a, st) ← cap_step st o; Val (tr ++ [(o, a)], st)) ops ([], st).

(** The state after [init_capability_system] at boot. *)
Definition boot_caps : CapState :=
  init_capability_system {| next_capability_id := 1; cap_manager := None |}.

Section histories.
Context {P : Profile}.

Lemma boot_caps_rel : cap_rel ∅ boot_caps.
Proof.
  split; [split|]; unfold cap_sets; simpl; try done.
  intros id e. rewrite lookup_empty. split; [done|]. intros (p & s & c & Hp & _).
  by rewrite lookup_empty in Hp.
Qed.

Lemma cap_step_simulates σ st n o : cap_rel σ st → cap_room n st → 1 ≤ n →
  ∃ a st' σ', cap_step st o = Val (a, st') ∧ spec_step σ o a σ' ∧ cap_rel σ' st' ∧ cap_room (n - 1) st'.
Proof.
  intros Hrel Hroom Hn. pose proof Hroom as (Hnx & m & Hm & Hroom').
  assert (is_Some (cap_manager st)) as Hsome by eauto.
  assert (cap_room (n - 1) st) as Hr1 by (split; [lia|]; exists m; split; [done|lia]).
  destruct o as [pid ty res gr|pid ty res|from to id|pid id|]; simpl.
  - destruct (create_spec σ st n pid ty res gr Hrel Hroom Hn) as (st' & -> & ? & ? & ?); simpl.
    eexists _, _, _. split; [done|]. split; [by constructor|done].
  - destruct (check_spec σ st n pid ty res Hrel Hroom Hn) as (b & st' & -> & ? & ? & _ & ?); simpl.
    eexists _, _, _. split; [done|]. split; [by constructor|done].
  - destruct (delegate_spec σ st from to id Hrel Hsome) as (e & -> & _); simpl.
    eexists _, _, _. split; [done|]. split; [by constructor|done].
  - pose proof (revoke_spec σ st pid id Hrel Hsome) as Hr.
    unfold revoke_capability, manager_revoke in Hr |- *. rewrite Hm in Hr |- *.
    assert (∀ m', checks_performed m' = checks_performed m → checks_failed m' = checks_failed m →
      total_capabilities_created m' = total_capabilities_created m →
      cap_room (n - 1) {| next_capability_id := next_capability_id st; cap_manager := Some m' |}) as Hr2.
    { intros m' E1 E2 E3. split; [simpl; lia|]. exists m'. split; [done|]. lia. }
    destruct (process_capabilities m !! pid) as [s|]; simpl in Hr |- *.
    + destruct (set_remove s id) as [[c|] s']; simpl in Hr |- *.
      * destruct Hr as [[(ty & res & Hl) ?] _]. eexists _, _, _. split; [done|].
        split; [by eapply spec_revoke|]. split; [done|]. by apply Hr2.
      * destruct Hr as [(_ & ? & ?) _]. eexists _, _, _. split; [done|].
        split; [by eapply spec_revoke_unknown|]. split; [done|]. by apply Hr2.
    + destruct Hr as [(_ & ? & ?) _]. eexists _, _, _. split; [done|].
      split; [by eapply spec_revoke_unknown|]. split; [done|]. by apply Hr2.
  - rewrite (cleanup_spec σ st Hrel). eexists _, _, _. split; [done|].
    split; [by constructor|done].
Qed.

Lemma cap_run_simulates ops : len ops < 2 ^ 64 - 1 →
  ∃ tr st σ, cap_run ops boot_caps = Val (tr, st) ∧ tr.*1 = ops ∧
             spec_run ∅ tr σ ∧ cap_rel σ st ∧ is_Some (cap_manager st).
Proof.
  intros Hlen. unfold cap_run.
  destruct (for_each_inv (λ d (s : list (cap_op * cap_answer) * CapState),
      ∃ σ, s.1.*1 = d ∧ spec_run ∅ s.1 σ ∧ cap_rel σ s.2 ∧ cap_room (len ops - len d) s.2)
    (λ o '(tr, st), '(a, st) ← cap_step st o; Val (tr ++ [(o, a)], st)) ops ([], boot_caps))
    as ([tr st] & Hr & σ & Htr & Hs & Hrel & Hroom).
  - intros d o todo [tr st] Hops (σ & Htr & Hs & Hrel & Hroom); simpl in *.
    assert (len d + 1 ≤ len ops) by (rewrite Hops; unfold len; rewrite length_app; simpl; lia).
    destruct (cap_step_simulates σ st _ o Hrel Hroom ltac:(lia)) as (a & st' & σ' & -> & Hsp & Hrel' & Hroom').
    simpl. eexists. split; [done|]. exists σ'. simpl. rewrite fmap_app, Htr, len_snoc. split_and!; try done.
    + by econstructor.
    + by replace (len ops - (len d + 1)) with (len ops - len d - 1) by lia.
  - exists ∅. split_and!; try done; [constructor|apply boot_caps_rel|].
    split; [simpl; unfold len at 2; simpl; lia|]. exists new_cap_manager. simpl.
    pose proof (len_nonneg ops). unfold len at 2 4; simpl. split; [done|]. lia.
  - exists tr, st, σ. split_and!; try done. destruct Hroom as (_ & m & Hm & _). by exists m.
Qed.

(** C2: The capability system implements a finite map from capability
    identifiers to grants.  For every sequence of calls after boot (shorter
    than the 64-bit counters), the code never panics and every answer is the
    one the map allows: creation returns a fresh identifier and adds exactly
    that grant; a check answers yes iff a live grant of that process covers the
    request; revocation removes exactly the named grant and only from its
    owner; clean-up removes nothing. *)
Theorem capability_system_refines_map ops :
  len ops < 2 ^ 64 - 1 →
  ∃ tr st σ, cap_run ops boot_caps = Val (tr, st) ∧ tr.*1 = ops ∧
             spec_run ∅ tr σ ∧ cap_rel σ st.
Proof.
  intros Hlen. destruct (cap_run_simulates ops Hlen) as (tr & st & σ & ? & ? & ? & ? & _). eauto 8.
Qed.

(** Every live grant was created in the history and has not been revoked since. *)
Lemma spec_run_provenance tr σ id pid ty res : spec_run ∅ tr σ → σ !! id = Some (pid, ty, res) →
  ∃ granter tr1 tr2, tr = tr1 ++ (OpCreate pid ty res granter, AnsId (Ok id)) :: tr2 ∧
    (OpRevoke pid id, AnsUnit (Ok ())) ∉ tr2.
Proof.
  remember ∅ as σ0 eqn:Hσ0. intros Hrun. revert id pid ty res.
  induction Hrun as [σ|σ1 tr σ2 o a σ3 Hrun IH Hstep]; intros id pid ty res Hl.
  { subst. by rewrite lookup_empty in Hl. }
  assert (∀ e, (o, a) ≠ (OpRevoke pid id, AnsUnit (Ok ())) → σ2 !! id = Some (pid, ty, res) → e = tr →
    ∃ granter tr1 tr2, tr ++ [(o, a)] = tr1 ++ (OpCreate pid ty res granter, AnsId (Ok id)) :: tr2 ∧
      (OpRevoke pid id, AnsUnit (Ok ())) ∉ tr2) as Hold.
  { intros _ Hne Hl2 _. destruct (IH Hσ0 id pid ty res Hl2) as (g & tr1 & tr2 & -> & Hno).
    exists g, tr1, (tr2 ++ [(o, a)]). rewrite <-app_assoc. split; [done|].
    rewrite elem_of_app, list_elem_of_singleton. intros [?|?]; [done|congruence]. }
  inversion Hstep; subst; try (by eapply Hold).
  - apply lookup_insert_Some in Hl as [[<- [= <- <- <-]]|[Hne Hl]]; [|by eapply Hold].
    exists granter, tr, []. split; [done|set_solver].
  - apply lookup_delete_Some in Hl as [Hne Hl]. eapply Hold; [|done|done]. congruence.
Qed.

(** C14: No authority is forged: after any sequence of calls from boot, if a
    check of a process's authority succeeds then the history contains the
    creation, for that very process, of a capability of that type whose
    resource covers the request, and that capability has not been revoked
    since. *)
Theorem no_forged_authority ops tr st pid ty res st' :
  len ops < 2 ^ 64 - 1 →
  cap_run ops boot_caps = Val (tr, st) →
  check_capability st pid ty res = Val (true, st') →
  ∃ have granter id tr1 tr2,
    tr = tr1 ++ (OpCreate pid ty have granter, AnsId (Ok id)) :: tr2 ∧
    resource_matches have res = true ∧ (OpRevoke pid id, AnsUnit (Ok ())) ∉ tr2.
Proof.
  intros Hlen Hrun Hchk.
  destruct (cap_run_simulates ops Hlen) as (tr' & s' & σ & Hrun' & _ & Hspec & Hrel & [m Hm]).
  rewrite Hrun in Hrun'. simplify_eq.
  destruct (check_true σ s' pid ty res st' Hrel Hchk) as (id & [[p t] have] & Hl & Hp & Ht & Hr);
    simpl in *; subst.
  destruct (spec_run_provenance _ _ _ _ _ _ Hspec Hl) as (g & tr1 & tr2 & ? & ?). eauto 9.
Qed.

(** The delegation interface can never succeed: nothing in the system
    makes a capability delegatable, so after any sequence of calls from boot,
    delegating a capability that the process does own answers
    [NotDelegatable], and delegating any other identifier answers
    [CapabilityNotFound]; the state does not change. *)
Theorem delegation_never_succeeds ops tr st from to id :
  len ops < 2 ^ 64 - 1 →
  cap_run ops boot_caps = Val (tr, st) →
  ∃ e, delegate_capability st from to id = Val (Err e, st) ∧
       (e = NotDelegatable ∨ e = CapabilityNotFound).
Proof.
  intros Hlen Hrun.
  destruct (cap_run_simulates ops Hlen) as (tr' & s' & σ & Hrun' & _ & _ & Hrel & Hm).
  rewrite Hrun in Hrun'. simplify_eq.
  destruct (delegate_spec σ s' from to id Hrel Hm) as (e & ? & [[-> _]|[-> _]]); eauto.
Qed.
End histories.

(** ** Delegation in any state, and the policy *)
Section policy.
Context {P : Profile}.

(** Delegation never amplifies authority, whatever the state: if it
    succeeds, the delegator holds an unexpired delegatable capability with that
    identifier, the target's set gains exactly one capability, of the same type,
    resource and expiry and naming the delegator as granter, and no other
    process's set changes. *)
Theorem delegation_never_amplifies st from to id nid st' :
  delegate_capability st from to id = Val (Ok nid, st') →
  ∃ s src new, cap_sets st !! from = Some s ∧ src ∈ s ∧ cap_id src = id ∧
    delegatable src = true ∧ is_expired src = false ∧
    cap_sets st' = <[to := default [] (cap_sets st !! to) ++ [new]]> (cap_sets st) ∧
    cap_id new = nid ∧ nid = next_capability_id st ∧ cap_owner new = to ∧ cap_granter new = Some from ∧
    ∀ ty res, matches new ty res = matches src ty res.
Proof.
  unfold delegate_capability, manager_delegate, capability_new, generate_capability_id, add_capability, cap_sets.
  destruct (cap_manager st) as [m|]; [|done].
  destruct (process_capabilities m !! from) as [s|] eqn:Hs; [|done].
  destruct (List.find _ s) as [src|] eqn:Hf; [|done].
  apply List.find_some in Hf as [Hc Hid%Z.eqb_eq]. rewrite <-list_elem_of_In in Hc.
  destruct (delegatable src) eqn:Hd; [|done]. destruct (is_expired src) eqn:He; [done|]. simpl.
  intros Hr. apply bind_val in Hr as ([[r next] m'] & Hr & Hb). inv_val.
  eexists s, src, _. split_and!; try done.
Qed.

(** The policy lets a process request a restricted operation (admin,
    device access, process or memory management) iff it holds the [Admin]
    capability on the wildcard resource; it lets every process receive; any
    other request is allowed iff the process holds a capability of that type
    covering the resource (or the wildcard).  Validation only counts checks:
    it changes nobody's capabilities. *)
Theorem policy_decision σ st n pid ty res :
  cap_rel σ st → cap_room n st → 2 ≤ n →
  ∃ b st', validate_capability_request new_policy st pid ty res = Val (b, st') ∧ cap_rel σ st' ∧
    (b = true ↔
       if decide (ty ∈ [Admin; DeviceAccess; ProcessManagement; MemoryManagement])
       then ∃ id e, σ !! id = Some e ∧ permits e pid Admin AnyResource
       else ty = ReceiveMessage ∨ ∃ id e, σ !! id = Some e ∧ permits e pid ty res).
Proof.
  intros Hrel Hroom Hn. unfold validate_capability_request, is_restricted_operation.
  change (restricted_operations new_policy) with [Admin; DeviceAccess; ProcessManagement; MemoryManagement].
  assert (∀ ty, ty ≠ ReceiveMessage → ∃ b st',
    check_capability st pid ty res = Val (b, st') ∧ cap_rel σ st' ∧
    (b = true ↔ ty = ReceiveMessage ∨ ∃ id e, σ !! id = Some e ∧ permits e pid ty res)) as Hsingle.
  { intros t Ht. destruct (check_spec σ st n pid t res Hrel Hroom ltac:(lia)) as (b & st' & ? & ? & _ & _ & Hb).
    exists b, st'. split_and!; try done. rewrite Hb. tauto. }
  assert (∀ ty, ty ≠ ReceiveMessage → ∃ b st',
    check_either st pid ty res AnyResource = Val (b, st') ∧ cap_rel σ st' ∧
    (b = true ↔ ty = ReceiveMessage ∨ ∃ id e, σ !! id = Some e ∧ permits e pid ty res)) as Heither.
  { intros t Ht. unfold check_either.
    destruct (check_spec σ st n pid t res Hrel Hroom ltac:(lia)) as (b & st1 & -> & Hrel1 & Hroom1 & _ & Hb).
    simpl. destruct b; [exists true, st1; split_and!; try done; tauto|].
    destruct (check_spec σ st1 (n - 1) pid t AnyResource Hrel1 Hroom1 ltac:(lia))
      as (b2 & st2 & -> & Hrel2 & _ & _ & Hb2).
    exists b2, st2. split_and!; try done. rewrite Hb2. split.
    - intros (id & e & Hl & Hp & Hty & Hr). right. exists id, e. split; [done|].
      split_and!; try done. destruct e as [[p t'] []]; simpl in *; try done; by case_bool_decide.
    - intros [?|Hex]; [done|]. by apply Hb in Hex. }
  case_bool_decide as Hres.
  - rewrite decide_True by done.
    destruct (check_spec σ st n pid Admin AnyResource Hrel Hroom ltac:(lia)) as (b & st' & ? & ? & _ & _ & ?).
    eauto.
  - rewrite decide_False by done.
    destruct ty; try (exfalso; apply Hres; rewrite !elem_of_cons; tauto).
    1-5, 9-10: by apply Hsingle.
    1, 3: by apply Heither.
    exists true, st. split_and!; try done. tauto.
Qed.
End policy.

(** ** Concrete instances *)
Lemma capability_system_refines_map_witness :
  ∃ tr st σ, cap_run (P:=dev) [OpCreate 1 SendMessage (ProcessResource 2) None; OpRevoke 1 1] boot_caps = Val (tr, st) ∧
    tr.*1 = [OpCreate 1 SendMessage (ProcessResource 2) None; OpRevoke 1 1] ∧
    spec_run ∅ tr σ ∧ cap_rel σ st.
Proof. apply capability_system_refines_map. reflexivity. Defined.

Definition demo_caps : CapState :=
  match create_capability (P:=dev) boot_caps 1 SendMessage (ProcessResource 2) None with
  | Val (_, st) => st | _ => boot_caps end.

Lemma no_forged_authority_witness :
  ∃ have granter id tr1 tr2,
    [(OpCreate 1 SendMessage (ProcessResource 2) None, AnsId (Ok 1))] =
      tr1 ++ (OpCreate 1 SendMessage have granter, AnsId (Ok id)) :: tr2 ∧
    resource_matches have (ProcessResource 2) = true ∧ (OpRevoke 1 id, AnsUnit (Ok ())) ∉ tr2.
Proof.
  eapply (no_forged_authority (P:=dev) [OpCreate 1 SendMessage (ProcessResource 2) None] _ demo_caps
    1 SendMessage (ProcessResource 2)); [reflexivity|vm_compute; reflexivity|vm_compute; reflexivity].
Defined.

Lemma delegation_never_succeeds_witness :
  ∃ e, delegate_capability (P:=dev) demo_caps 1 3 1 = Val (Err e, demo_caps) ∧
       (e = NotDelegatable ∨ e = CapabilityNotFound).
Proof.
  eapply (delegation_never_succeeds (P:=dev) [OpCreate 1 SendMessage (ProcessResource 2) None]);
    [reflexivity|vm_compute; reflexivity].
Defined.

(** A state with one delegatable capability. *)
Definition delegatable_caps : CapState :=
  {| next_capability_id := 2;
     cap_manager := Some {| process_capabilities :=
       {[1 := [make_delegatable {| cap_id := 1; capability_type := Read; cap_resource := FileResource "/etc";
                  cap_owner := 1; cap_granter := None; delegatable := false; expires_at := None;
                  created_at := 0 |}]]};
       total_capabilities_created := 1; checks_performed := 0; checks_failed := 0 |} |}.

Lemma delegation_never_amplifies_witness :
  ∃ s src new, cap_sets delegatable_caps !! 1 = Some s ∧ src ∈ s ∧ cap_id src = 1 ∧
    delegatable src = true ∧ is_expired src = false ∧
    cap_sets (match delegate_capability (P:=dev) delegatable_caps 1 7 1 with Val (_, st) => st | _ => boot_caps end)
      = <[7 := default [] (cap_sets delegatable_caps !! 7) ++ [new]]> (cap_sets delegatable_caps) ∧
    cap_id new = 2 ∧ 2 = next_capability_id delegatable_caps ∧ cap_owner new = 7 ∧ cap_granter new = Some 1 ∧
    ∀ ty res, matches new ty res = matches src ty res.
Proof. apply (delegation_never_amplifies (P:=dev)). vm_compute. reflexivity. Defined.

Lemma policy_decision_witness :
  ∃ b st', validate_capability_request (P:=dev) new_policy boot_caps 4 Admin AnyResource = Val (b, st') ∧
    cap_rel ∅ st' ∧
    (b = true ↔
       if decide (Admin ∈ [Admin; DeviceAccess; ProcessManagement; MemoryManagement])
       then ∃ id e, (∅ : gmap Z Grant) !! id = Some e ∧ permits e 4 Admin AnyResource
       else Admin = ReceiveMessage ∨ ∃ id e, (∅ : gmap Z Grant) !! id = Some e ∧ permits e 4 Admin AnyResource).
Proof.
  apply (policy_decision (P:=dev) ∅ boot_caps 10); [apply boot_caps_rel| |lia].
  split; [simpl; lia|]. exists new_cap_manager. simpl. split; [reflexivity|lia].
Defined.
