(* ===== verification/Bytes.v ===== *)
(** * Byte memory

    The memory functions the compiler calls ([kernel/src/main.rs]: [memcmp],
    [memset], [memcpy], [memmove]) and little-endian access to words in memory,
    on a memory that maps every address to a byte.  Two memories are compared
    address by address. *)
From stdpp Require Import functions.
From S2P Require Import Prelude.
Local Open Scope kosh_scope.

Abbreviation memory := (Z → Z).

(** The values of an [i32] as a [u8]. *)
Definition as_u8 (c : Z) : Z := c mod 256.

(** [for i in 0..n { *dest.add(i) = *src.add(i) }], the indices in some order. *)
Definition copy_step (dest src : Z) (m : memory) (i : Z) : memory := <[dest + i := m (src + i)]> m.
Definition memcpy (m : memory) (dest src n : Z) : memory := foldl (copy_step dest src) m (seqZ 0 n).
Definition memmove (m : memory) (dest src n : Z) : memory :=
  if src <? dest then foldl (copy_step dest src) m (reverse (seqZ 0 n))
  else foldl (copy_step dest src) m (seqZ 0 n).
Definition memset (m : memory) (s c n : Z) : memory := foldl (λ m i, <[s + i := as_u8 c]> m) m (seqZ 0 n).

(** The first index at which the two ranges differ decides. *)
Fixpoint first_difference (m : memory) (s1 s2 : Z) (ix : list Z) : Z :=
  match ix with
  | [] => 0
  | i :: ix => if m (s1 + i) =? m (s2 + i) then first_difference m s1 s2 ix else m (s1 + i) - m (s2 + i)
  end.
Definition memcmp (m : memory) (s1 s2 n : Z) : Z := first_difference m s1 s2 (seqZ 0 n).

(** Words of [n] bytes, least significant byte first. *)
Fixpoint read_le (m : memory) (a : Z) (n : nat) : Z :=
  match n with O => 0 | S n => m a + 256 * read_le m (a + 1) n end.
Fixpoint write_le (m : memory) (a : Z) (n : nat) (v : Z) : memory :=
  match n with O => m | S n => write_le (<[a := v mod 256]> m) (a + 1) n (v / 256) end.

(** ** Specifications *)
Definition range (a n x : Z) : Prop := a ≤ x < a + n.
#[export] Instance range_dec a n x : Decision (range a n x).
Proof. unfold range. apply _. Defined.

(** The effect of a copy: the destination holds what the source held before. *)
Definition copied (m : memory) (dest src n : Z) (m' : memory) : Prop :=
  ∀ a, m' a = if decide (range dest n a) then m (src + (a - dest)) else m a.
Definition disjoint_ranges (a b n : Z) : Prop := ∀ x, range a n x → ¬ range b n x.

(** The list of a range, and the lexicographic order of [memcmp]. *)
Definition bytes_at (m : memory) (a n : Z) : list Z := (λ i, m (a + i)) <$> seqZ 0 n.
Inductive lex_lt : list Z → list Z → Prop :=
  | lex_here x y l k : x < y → lex_lt (x :: l) (y :: k)
  | lex_later x l k : lex_lt l k → lex_lt (x :: l) (x :: k).

(** Copying the indices of [is] one after the other: correct as long as no
    write goes to a byte that is still to be read. *)
Lemma copy_fold dest src ix : ∀ m, NoDup ix →
  (∀ l1 i l2 j, ix = l1 ++ i :: l2 → j ∈ l2 → dest + i ≠ src + j) →
  ∀ a, foldl (copy_step dest src) m ix a = if decide (a - dest ∈ ix) then m (src + (a - dest)) else m a.
Proof.
  induction ix as [|i ix IH]; intros m Hnd Hsafe a; cbn [foldl]; [by rewrite decide_False by apply not_elem_of_nil|].
  apply NoDup_cons in Hnd as [Hi Hnd]. rewrite IH; [|done|].
  2: { intros l1 x l2 j ->. by apply (Hsafe (i :: l1)). }
  unfold copy_step. destruct (decide (a - dest ∈ ix)) as [Ha|Ha].
  - rewrite fn_lookup_insert_ne by (by apply (Hsafe [] i ix)). rewrite decide_True by (by right). done.
  - destruct (decide (a - dest = i)) as [<-|Hne].
    + replace (dest + (a - dest)) with a by lia. rewrite fn_lookup_insert, decide_True by left. done.
    + rewrite fn_lookup_insert_ne by lia. rewrite decide_False; [done|]. by intros [?|?]%elem_of_cons.
Qed.

(** Increasing and decreasing orders of the indices. *)
Lemma seqZ_split_lt n l1 i l2 j : seqZ 0 n = l1 ++ i :: l2 → j ∈ l2 → i < j.
Proof.
  intros Hs (k & Hk)%list_elem_of_lookup.
  assert (seqZ 0 n !! length l1 = Some i) as Hi by (by rewrite Hs, list_lookup_middle).
  assert (seqZ 0 n !! (length l1 + S k)%nat = Some j) as Hj.
  { rewrite Hs, lookup_app_r by lia. by replace (length l1 + S k - length l1)%nat with (S k) by lia. }
  apply lookup_seqZ in Hi, Hj. lia.
Qed.

Lemma reverse_split {A} (l l1 l2 : list A) x : reverse l = l1 ++ x :: l2 → l = reverse l2 ++ x :: reverse l1.
Proof.
  intros H. rewrite <-(reverse_involutive l), H, reverse_app, reverse_cons, <-app_assoc. done.
Qed.

Lemma seqZ_reverse_split_lt n l1 i l2 j : reverse (seqZ 0 n) = l1 ++ i :: l2 → j ∈ l2 → j < i.
Proof.
  intros Hs Hj. apply reverse_split in Hs. apply list_elem_of_split in Hj as (k1 & k2 & ->).
  rewrite reverse_app, reverse_cons, <-!app_assoc in Hs. apply (seqZ_split_lt _ _ _ _ i) in Hs; [done|].
  apply elem_of_app. right. by left.
Qed.

Lemma range_seqZ dest n a : a - dest ∈ seqZ 0 n ↔ range dest n a.
Proof. rewrite elem_of_seqZ. unfold range. lia. Qed.

Lemma copied_of_fold m dest src n ix : (∀ x, x ∈ ix ↔ x ∈ seqZ 0 n) → NoDup ix →
  (∀ l1 i l2 j, ix = l1 ++ i :: l2 → j ∈ l2 → dest + i ≠ src + j) →
  copied m dest src n (foldl (copy_step dest src) m ix).
Proof.
  intros Hperm Hnd Hsafe a. rewrite copy_fold by done.
  destruct (decide (a - dest ∈ ix)) as [H|H], (decide (range dest n a)) as [H'|H']; try done; exfalso;
    rewrite Hperm, range_seqZ in H; done.
Qed.

(** Where ranges overlap in the harmful direction [memcpy] is not a copy. *)
Example memcpy_overlap : memcpy (λ a, a) 1 0 3 3 = 0 ∧ memmove (λ a, a) 1 0 3 3 = 2.
Proof. done. Qed.

Lemma memcpy_forward m dest src n : dest ≤ src ∨ disjoint_ranges dest src n → copied m dest src n (memcpy m dest src n).
Proof.
  intros Hd. apply copied_of_fold; [done|apply NoDup_seqZ|]. intros l1 i l2 j Hs Hj.
  pose proof (seqZ_split_lt _ _ _ _ _ Hs Hj). destruct Hd as [?|Hd]; [lia|]. intros E.
  assert (i ∈ seqZ 0 n ∧ j ∈ seqZ 0 n) as [Hi%elem_of_seqZ Hj'%elem_of_seqZ].
  { rewrite Hs, !elem_of_app, !elem_of_cons. auto. }
  apply (Hd (dest + i)); unfold range; lia.
Qed.

Lemma memmove_copies m dest src n : copied m dest src n (memmove m dest src n).
Proof.
  unfold memmove. destruct (Z.ltb_spec src dest) as [H|H]; [|by apply memcpy_forward; left].
  apply copied_of_fold; [intros x; by rewrite elem_of_reverse|rewrite reverse_Permutation; apply NoDup_seqZ|].
  intros l1 i l2 j Hs Hj. pose proof (seqZ_reverse_split_lt _ _ _ _ _ Hs Hj). lia.
Qed.

Lemma memset_fold s c ix : ∀ m a, foldl (λ m i, <[s + i := as_u8 c]> m) m ix a =
  if decide (a - s ∈ ix) then as_u8 c else m a.
Proof.
  induction ix as [|i ix IH]; intros m a; cbn [foldl]; [by rewrite decide_False by apply not_elem_of_nil|].
  rewrite IH. destruct (decide (a - s ∈ ix)) as [Ha|Ha]; [by rewrite decide_True by (by right)|].
  destruct (decide (a - s = i)) as [<-|Hne].
  - replace (s + (a - s)) with a by lia. rewrite fn_lookup_insert, decide_True by left. done.
  - rewrite fn_lookup_insert_ne by lia. rewrite decide_False; [done|]. by intros [?|?]%elem_of_cons.
Qed.

Lemma first_difference_lex m s1 s2 ix :
  let r := first_difference m s1 s2 ix in
  let l1 := (λ i, m (s1 + i)) <$> ix in let l2 := (λ i, m (s2 + i)) <$> ix in
  (r = 0 ↔ l1 = l2) ∧ (r < 0 ↔ lex_lt l1 l2) ∧ (0 < r ↔ lex_lt l2 l1).
Proof.
  cbv zeta. induction ix as [|i ix IH]; simpl.
  { split_and!; split; try done; try lia; by inversion 1. }
  destruct (Z.eqb_spec (m (s1 + i)) (m (s2 + i))) as [->|Hne].
  - destruct IH as (H0 & H1 & H2). split_and!.
    + rewrite H0. split; [intros E; by f_equal|by intros [= ?]].
    + rewrite H1. split; [by constructor 2|]. inversion 1; subst; [lia|done].
    + rewrite H2. split; [by constructor 2|]. inversion 1; subst; [lia|done].
  - split_and!; split; try (intros [=]; lia); try lia.
    + intros ?. constructor 1. lia.
    + inversion 1; subst; lia.
    + intros ?. constructor 1. lia.
    + inversion 1; subst; lia.
Qed.

(** ** Words *)
Lemma write_le_below n : ∀ m a v x, x < a → write_le m a n v x = m x.
Proof.
  induction n as [|n IH]; intros m a v x Hx; [done|]. cbn [write_le].
  rewrite IH by lia. by rewrite fn_lookup_insert_ne by lia.
Qed.
Lemma write_le_outside n : ∀ m a v x, ¬ range a (Z.of_nat n) x → write_le m a n v x = m x.
Proof.
  induction n as [|n IH]; intros m a v x Hx; [done|]. cbn [write_le]. unfold range in *.
  rewrite IH by lia. by rewrite fn_lookup_insert_ne by lia.
Qed.
Lemma read_le_ext n : ∀ m m' a, (∀ x, range a (Z.of_nat n) x → m x = m' x) → read_le m a n = read_le m' a n.
Proof.
  induction n as [|n IH]; intros m m' a He; [done|]. cbn [read_le]. unfold range in *.
  rewrite (He a) by lia. f_equal. f_equal. apply IH. intros x Hx. apply He. lia.
Qed.
Lemma read_write_le n : ∀ m a v, 0 ≤ v < 256 ^ Z.of_nat n → read_le (write_le m a n v) a n = v.
Proof.
  induction n as [|n IH]; intros m a v Hv; [change (256 ^ Z.of_nat 0) with 1 in Hv; cbn; lia|].
  rewrite Nat2Z.inj_succ, Z.pow_succ_r in Hv by lia. cbn [read_le write_le].
  rewrite write_le_below by lia. rewrite fn_lookup_insert, IH; [divlia|].
  split; [divlia|]. apply Z.div_lt_upper_bound; lia.
Qed.

(** ** Properties *)

(** C29: [memmove] is a copy for every pair of ranges, overlapping or not: the
    destination holds what the source held before, no other byte changes.
    [memcpy] is the same function whenever the ranges do not overlap. *)
Theorem memmove_memcpy_correct m dest src n :
  copied m dest src n (memmove m dest src n) ∧
  (disjoint_ranges dest src n → ∀ a, memcpy m dest src n a = memmove m dest src n a).
Proof.
  split; [apply memmove_copies|]. intros Hd a.
  rewrite (memcpy_forward m dest src n) by auto. by rewrite (memmove_copies m dest src n).
Qed.

(** [memset] fills exactly its range with the low byte of its argument, and
    [memcmp] is zero exactly on equal ranges and otherwise has the sign of their
    lexicographic comparison. *)
Theorem memset_memcmp_correct m s c n s1 s2 :
  (∀ a, memset m s c n a = if decide (range s n a) then as_u8 c else m a) ∧
  let r := memcmp m s1 s2 n in
  (r = 0 ↔ bytes_at m s1 n = bytes_at m s2 n) ∧
  (r < 0 ↔ lex_lt (bytes_at m s1 n) (bytes_at m s2 n)) ∧ (0 < r ↔ lex_lt (bytes_at m s2 n) (bytes_at m s1 n)).
Proof.
  split; [|apply first_difference_lex]. intros a. unfold memset. rewrite memset_fold.
  destruct (decide (a - s ∈ seqZ 0 n)) as [H|H], (decide (range s n a)) as [H'|H']; try done; exfalso;
    rewrite range_seqZ in H; done.
Qed.
