(* ===== verification/Text.v ===== *)
(** * Strings as the parsers see them

    A string is the list of its Unicode scalar values ([text]), because the
    parsers of the shell and of the boot command line split at Unicode white
    space; [txt] reads an ASCII literal.  The operations are those of [str]. *)
From stdpp Require Import strings pretty.
From S2P Require Import Prelude.

(** ** Strings *)
Definition text : Type := list Z.
Fixpoint txt (s : string) : text :=
  match s with
  | EmptyString => []
  | String a s => Z.of_nat (Ascii.nat_of_ascii a) :: txt s
  end.
(** A number in decimal. *)
Definition number (z : Z) : text := txt (pretty z).
Definition newline : Z := 10.
Definition blank : Z := 32.

(** [char::is_whitespace]: the Unicode property [White_Space]. *)
Definition is_whitespace (c : Z) : bool :=
  ((9 <=? c) && (c <=? 13)) || (c =? 32) || (c =? 0x85) || (c =? 0xa0) || (c =? 0x1680)
  || ((0x2000 <=? c) && (c <=? 0x200a)) || (c =? 0x2028) || (c =? 0x2029) || (c =? 0x202f)
  || (c =? 0x205f) || (c =? 0x3000).

(** [str::trim], [str::split_whitespace] (the non-empty pieces between white
    space) and [join]. *)
Fixpoint trim_start (s : text) : text :=
  match s with
  | [] => []
  | c :: s' => if is_whitespace c then trim_start s' else s
  end.
Definition trim (s : text) : text := reverse (trim_start (reverse (trim_start s))).

Fixpoint split_white (s : text) : list text :=
  match s with
  | [] => [[]]
  | c :: s =>
      if is_whitespace c then [] :: split_white s
      else match split_white s with
           | w :: ws => (c :: w) :: ws
           | [] => [[c]]
           end
  end.
Definition non_empty (ws : list text) : list text := filter (λ w, is_empty w = false) ws.
Definition split_whitespace (s : text) : list text := non_empty (split_white s).

Fixpoint join (sep : text) (ws : list text) : text :=
  match ws with
  | [] => []
  | [w] => w
  | w :: ws => w ++ sep ++ join sep ws
  end.

(** [str::split_once] at a character: before and after its first occurrence. *)
Fixpoint split_once (c : Z) (s : text) : option (text * text) :=
  match s with
  | [] => None
  | x :: s => if x =? c then Some ([], s) else (λ '(k, v), (x :: k, v)) <$> split_once c s
  end.

(** ** Words

    [spaced ws s]: [s] is the words [ws], separated by white space and possibly
    surrounded by it. *)
Definition white (u : text) : Prop := Forall (λ c, is_whitespace c = true) u.
Definition word (w : text) : Prop := w ≠ [] ∧ Forall (λ c, is_whitespace c = false) w.
Definition starts_white (s : text) : Prop := match s with [] => True | c :: _ => is_whitespace c = true end.

Inductive spaced : list text → text → Prop :=
  | spaced_nil u : white u → spaced [] u
  | spaced_cons u w ws s : white u → word w → starts_white s → spaced ws s → spaced (w :: ws) (u ++ w ++ s).

Lemma non_empty_nil ws : non_empty ([] :: ws) = non_empty ws.
Proof. done. Qed.
Lemma non_empty_cons w ws : w ≠ [] → non_empty (w :: ws) = w :: non_empty ws.
Proof. by destruct w. Qed.

Lemma split_white_cons s : ∃ w ws, split_white s = w :: ws ∧ (w = [] ↔ starts_white s).
Proof.
  induction s as [|c s (w & ws & IH & _)]; simpl; [by exists [], []|].
  destruct (is_whitespace c); [by exists [], (split_white s)|]. rewrite IH. by exists (c :: w), ws.
Qed.

Lemma split_white_skip u s : white u → split_whitespace (u ++ s) = split_whitespace s.
Proof.
  unfold split_whitespace. induction 1 as [|c u Hc _ IH]; [done|]. cbn [app split_white]. rewrite Hc.
  by rewrite non_empty_nil.
Qed.

Lemma split_white_word w s : word w → starts_white s → split_whitespace (w ++ s) = w :: split_whitespace s.
Proof.
  intros [Hne Hw] Hs. unfold split_whitespace. destruct (split_white_cons s) as (w0 & ws & Hsp & Hw0).
  rewrite (proj2 Hw0 Hs) in Hsp. rewrite Hsp, non_empty_nil.
  assert (split_white (w ++ s) = w :: ws) as ->; [|by apply non_empty_cons].
  clear Hne. induction Hw as [|c w Hc _ IH]; [done|]. cbn [app split_white]. by rewrite Hc, IH.
Qed.

Lemma spaced_split ws s : spaced ws s → split_whitespace s = ws.
Proof.
  induction 1 as [u Hu|u w ws s Hu Hw Hs _ IH].
  - rewrite <-(app_nil_r u). by rewrite split_white_skip.
  - rewrite split_white_skip, split_white_word by done. by rewrite IH.
Qed.

Lemma spaced_white c ws s : is_whitespace c = true → spaced ws s → spaced ws (c :: s).
Proof.
  intros Hc. destruct 1 as [u Hu|u w ws s Hu Hw Hs H]; [by repeat constructor|].
  apply (spaced_cons (c :: u)); [by constructor|done..].
Qed.

(** Every string is the words it splits into, with white space between. *)
Lemma split_spaced s : spaced (split_whitespace s) s.
Proof.
  induction s as [|c s IH]; [repeat constructor|]. unfold split_whitespace in *. cbn [split_white].
  destruct (is_whitespace c) eqn:Hc; [rewrite non_empty_nil; by apply spaced_white|].
  destruct (split_white_cons s) as (w & ws & Hsp & Hw). rewrite Hsp in *. rewrite non_empty_cons by done.
  destruct (decide (w = [])) as [->|Hne].
  - rewrite non_empty_nil in IH.
    apply (spaced_cons [] [c]); [constructor|split; [done|by repeat constructor]|by apply Hw|done].
  - rewrite non_empty_cons in IH by done. inversion IH as [|u w' ws' s' Hu Hword Hs' Hrest Heq1 Heq2]; subst.
    destruct Hu as [|x u Hx Hu].
    + apply (spaced_cons [] (c :: w)); [constructor| |done|done]. destruct Hword. split; [done|by constructor].
    + exfalso. by apply Hne, Hw.
Qed.

Lemma spaced_trailing ws s u : white u → spaced ws s → spaced ws (s ++ u).
Proof.
  intros Hu. induction 1 as [v Hv|v w ws s Hv Hw Hs _ IH].
  - constructor. by apply Forall_app.
  - rewrite <-!app_assoc. constructor; try done. destruct s; simpl in *; [|done]. destruct Hu; simpl; done.
Qed.

Lemma trim_start_spec s : ∃ u, white u ∧ s = u ++ trim_start s.
Proof.
  induction s as [|c s (u & Hu & IH)]; simpl; [by repeat econstructor|].
  destruct (is_whitespace c) eqn:Hc; [|by exists []; repeat constructor]. exists (c :: u). split; [by constructor|]. simpl. by f_equal.
Qed.

Lemma trim_start_white s : white s → trim_start s = [].
Proof. induction 1 as [|c s Hc _ IH]; simpl; [done|]. by rewrite Hc. Qed.

Lemma trim_spec s : split_whitespace (trim s) = split_whitespace s ∧ (trim s = [] ↔ split_whitespace s = []).
Proof.
  destruct (trim_start_spec s) as (u & Hu & Hs). destruct (trim_start_spec (reverse (trim_start s))) as (v & Hv & Ht).
  apply (f_equal reverse) in Ht. rewrite reverse_app, reverse_involutive in Ht.
  change (trim_start s = trim s ++ reverse v) in Ht.
  assert (white (reverse v)) as Hv' by (by apply Forall_reverse).
  assert (split_whitespace s = split_whitespace (trim s)) as E.
  { trans (split_whitespace (trim_start s)); [rewrite Hs at 1; by apply split_white_skip|].
    rewrite Ht. by apply spaced_split, spaced_trailing, split_spaced. }
  split; [done|]. rewrite E. split; [by intros ->|]. intros E'.
  pose proof (split_spaced (trim s)) as H. rewrite E' in H. inversion H as [u' Hu'|]; subst.
  assert (white s) as Hw. { rewrite Hs, Ht. by apply Forall_app_2, Forall_app_2. }
  unfold trim. by rewrite (trim_start_white s Hw).
Qed.

Lemma split_once_Some c s k v : split_once c s = Some (k, v) ↔ s = k ++ c :: v ∧ c ∉ k.
Proof.
  revert k. induction s as [|x s IH]; intros k; simpl; [split; [done|intros [E _]; by destruct k]|].
  destruct (Z.eqb_spec x c) as [->|Hne].
  - split; [intros [= <- <-]; split; [done|apply not_elem_of_nil]|]. intros [E Hk].
    destruct k as [|y k]; [by injection E as ->|]. injection E as -> _. exfalso. apply Hk. by left.
  - rewrite fmap_Some. split.
    + intros ([k' v'] & H & [= -> ->]). apply IH in H as [-> H]. split; [done|]. by rewrite not_elem_of_cons.
    + intros [E Hk]. destruct k as [|y k]; [injection E as -> ->; done|]. injection E as <- ->.
      apply not_elem_of_cons in Hk as [_ Hk]. exists (k, v). split; [by apply IH|done].
Qed.
Lemma split_once_None c s : split_once c s = None ↔ c ∉ s.
Proof.
  induction s as [|x s IH]; simpl; [split; [intros _; apply not_elem_of_nil|done]|].
  rewrite not_elem_of_cons. destruct (Z.eqb_spec x c) as [->|Hne]; [split; [done|by intros []]|].
  rewrite fmap_None, IH. split; [|by intros []]. by split.
Qed.
