(* ===== verification/Context.v ===== *)
(** * CPU contexts and the context switch

    Models [kernel/src/process/context.rs]: the register image of a process, its
    constructors, and the two assembly blocks that save and restore it, run on a
    small x86-64 machine with the sixteen general registers, the flags and the
    mapped words of memory.

    An [asm!] block names its operands by position; the compiler chooses the
    register of each.  The choice is the parameter [operand], constrained only by
    what Rust promises: the stack pointer is never chosen, nor is a register the
    block declares as an output. *)
From S2P Require Import Prelude.
Local Open Scope kosh_scope.

(** ** [CpuContext] *)
Record CpuContext := {
  c_rax : Z; c_rbx : Z; c_rcx : Z; c_rdx : Z; c_rsi : Z; c_rdi : Z; c_rbp : Z; c_rsp : Z;
  c_r8 : Z; c_r9 : Z; c_r10 : Z; c_r11 : Z; c_r12 : Z; c_r13 : Z; c_r14 : Z; c_r15 : Z;
  c_rip : Z; c_rflags : Z;
  c_cs : Z; c_ds : Z; c_es : Z; c_fs : Z; c_gs : Z; c_ss : Z;
}.

Definition context_new : CpuContext :=
  {| c_rax := 0; c_rbx := 0; c_rcx := 0; c_rdx := 0; c_rsi := 0; c_rdi := 0; c_rbp := 0; c_rsp := 0;
     c_r8 := 0; c_r9 := 0; c_r10 := 0; c_r11 := 0; c_r12 := 0; c_r13 := 0; c_r14 := 0; c_r15 := 0;
     c_rip := 0; c_rflags := 0x202;
     c_cs := 0x08; c_ds := 0x10; c_es := 0x10; c_fs := 0x10; c_gs := 0x10; c_ss := 0x10 |}.

Definition set_instruction_pointer (c : CpuContext) (rip : Z) : CpuContext :=
  {| c_rax := c_rax c; c_rbx := c_rbx c; c_rcx := c_rcx c; c_rdx := c_rdx c; c_rsi := c_rsi c; c_rdi := c_rdi c;
     c_rbp := c_rbp c; c_rsp := c_rsp c; c_r8 := c_r8 c; c_r9 := c_r9 c; c_r10 := c_r10 c; c_r11 := c_r11 c;
     c_r12 := c_r12 c; c_r13 := c_r13 c; c_r14 := c_r14 c; c_r15 := c_r15 c; c_rip := rip; c_rflags := c_rflags c;
     c_cs := c_cs c; c_ds := c_ds c; c_es := c_es c; c_fs := c_fs c; c_gs := c_gs c; c_ss := c_ss c |}.
Definition set_stack_pointer (c : CpuContext) (rsp : Z) : CpuContext :=
  {| c_rax := c_rax c; c_rbx := c_rbx c; c_rcx := c_rcx c; c_rdx := c_rdx c; c_rsi := c_rsi c; c_rdi := c_rdi c;
     c_rbp := rsp; c_rsp := rsp; c_r8 := c_r8 c; c_r9 := c_r9 c; c_r10 := c_r10 c; c_r11 := c_r11 c;
     c_r12 := c_r12 c; c_r13 := c_r13 c; c_r14 := c_r14 c; c_r15 := c_r15 c; c_rip := c_rip c; c_rflags := c_rflags c;
     c_cs := c_cs c; c_ds := c_ds c; c_es := c_es c; c_fs := c_fs c; c_gs := c_gs c; c_ss := c_ss c |}.
Definition instruction_pointer (c : CpuContext) : Z := c_rip c.
Definition stack_pointer (c : CpuContext) : Z := c_rsp c.

(** Both constructors set [rip], [rsp] and [rbp] of a fresh context. *)
Definition new_kernel_thread (entry_point sp : Z) : CpuContext :=
  set_stack_pointer (set_instruction_pointer context_new entry_point) sp.
Definition new_user_process (entry_point sp : Z) : CpuContext :=
  let c := set_stack_pointer (set_instruction_pointer context_new entry_point) sp in
  {| c_rax := c_rax c; c_rbx := c_rbx c; c_rcx := c_rcx c; c_rdx := c_rdx c; c_rsi := c_rsi c; c_rdi := c_rdi c;
     c_rbp := c_rbp c; c_rsp := c_rsp c; c_r8 := c_r8 c; c_r9 := c_r9 c; c_r10 := c_r10 c; c_r11 := c_r11 c;
     c_r12 := c_r12 c; c_r13 := c_r13 c; c_r14 := c_r14 c; c_r15 := c_r15 c; c_rip := c_rip c; c_rflags := 0x202;
     c_cs := 0x1b; c_ds := 0x23; c_es := 0x23; c_fs := 0x23; c_gs := 0x23; c_ss := 0x23 |}.

(** The eighteen 64-bit fields in the order of [repr(C)]: field [k] is at offset
    [8 * k]. *)
Definition context_words (c : CpuContext) : list Z :=
  [c_rax c; c_rbx c; c_rcx c; c_rdx c; c_rsi c; c_rdi c; c_rbp c; c_rsp c;
   c_r8 c; c_r9 c; c_r10 c; c_r11 c; c_r12 c; c_r13 c; c_r14 c; c_r15 c; c_rip c; c_rflags c].

(** ** The machine

    Memory is the map of the mapped words by address; an access to an address
    that is not in the map faults.  (The blocks access words only, at addresses
    that are multiples of 8 whenever the pointers are.) *)
Inductive reg :=
  | RAX | RBX | RCX | RDX | RSI | RDI | RBP | RSP | R8 | R9 | R10 | R11 | R12 | R13 | R14 | R15.
#[export] Instance reg_eq_dec : EqDecision reg.
Proof. solve_decision. Defined.

Record Cpu := { regs : reg → Z; flags : Z; mem : gmap Z Z }.
Definition set_reg (m : Cpu) (r : reg) (v : Z) : Cpu :=
  {| regs := λ r', if decide (r' = r) then v else regs m r'; flags := flags m; mem := mem m |}.
Definition set_mem (m : Cpu) (g : gmap Z Z) : Cpu := {| regs := regs m; flags := flags m; mem := g |}.
Definition set_flags (m : Cpu) (f : Z) : Cpu := {| regs := regs m; flags := f; mem := mem m |}.

(** [Store k off r]: "mov [{}+off], r" with the [k]-th operand, and so on. *)
Inductive instr :=
  | Store (k : nat) (off : Z) (r : reg)
  | Load (r : reg) (k : nat) (off : Z)
  | LoadTop (r : reg)
  | Pushfq
  | Popfq
  | Push (r : reg)
  | Pop (r : reg)
  | Jmp (k : nat) (off : Z).

(** How a block ends: it falls through, jumps, or faults. *)
Inductive ending :=
  | Falls (m : Cpu)
  | Jumps (m : Cpu) (target : Z)
  | Faults.

Section machine.
Context (operand : nat → reg).

Definition read (m : Cpu) (a : Z) (k : Z → ending) : ending :=
  match mem m !! a with Some v => k v | None => Faults end.
Definition write (m : Cpu) (a v : Z) (k : Cpu → ending) : ending :=
  match mem m !! a with Some _ => k (set_mem m (<[a := v]> (mem m))) | None => Faults end.
Definition push (m : Cpu) (v : Z) (k : Cpu → ending) : ending :=
  let m := set_reg m RSP (regs m RSP - 8) in write m (regs m RSP) v k.
Definition pop (m : Cpu) (k : Z → Cpu → ending) : ending :=
  read m (regs m RSP) (λ v, k v (set_reg m RSP (regs m RSP + 8))).

Fixpoint exec (p : list instr) (m : Cpu) : ending :=
  match p with
  | [] => Falls m
  | i :: p =>
      match i with
      | Store k off r => write m (regs m (operand k) + off) (regs m r) (exec p)
      | Load r k off => read m (regs m (operand k) + off) (λ v, exec p (set_reg m r v))
      | LoadTop r => read m (regs m RSP) (λ v, exec p (set_reg m r v))
      | Pushfq => push m (flags m) (exec p)
      | Popfq => pop m (λ v m, exec p (set_flags m v))
      | Push r => push m (regs m r) (exec p)
      | Pop r => pop m (λ v m, exec p (set_reg m r v))
      | Jmp k off => read m (regs m (operand k) + off) (λ v, Jumps m v)
      end
  end.
End machine.

(** ** The two blocks *)
Definition save_stores : list (nat * Z * reg) :=
  [(0%nat, 0, RAX); (1%nat, 8, RBX); (2%nat, 16, RCX); (3%nat, 24, RDX); (4%nat, 32, RSI); (5%nat, 40, RDI);
   (6%nat, 48, RBP); (7%nat, 56, RSP); (8%nat, 64, R8); (9%nat, 72, R9); (10%nat, 80, R10); (11%nat, 88, R11);
   (12%nat, 96, R12); (13%nat, 104, R13); (14%nat, 112, R14); (15%nat, 120, R15)].
Definition save_current_context : list instr :=
  ((λ x, Store x.1.1 x.1.2 x.2) <$> save_stores) ++
  [LoadTop RAX; Store 16 128 RAX; Pushfq; Pop RAX; Store 17 136 RAX].

Definition restore_loads : list (reg * nat * Z) :=
  [(RAX, 0%nat, 0); (RBX, 1%nat, 8); (RCX, 2%nat, 16); (RDX, 3%nat, 24); (RSI, 4%nat, 32); (RDI, 5%nat, 40);
   (RBP, 6%nat, 48); (R8, 7%nat, 64); (R9, 8%nat, 72); (R10, 9%nat, 80); (R11, 10%nat, 88); (R12, 11%nat, 96);
   (R13, 12%nat, 104); (R14, 13%nat, 112); (R15, 14%nat, 120)].
Definition restore_context : list instr :=
  ((λ x, Load x.1.1 x.1.2 x.2) <$> restore_loads) ++
  [Load RAX 15 136; Push RAX; Popfq; Load RSP 16 56; Jmp 17 128].

(** [switch_context]: the two blocks in turn.  Between them the compiler places
    the new pointer in the operand registers of the second. *)
Definition enter_block (operand : nat → reg) (p : Z) (n : nat) (m : Cpu) : Cpu :=
  foldr (λ k m, set_reg m (operand k) p) m (seq 0 n).
Definition switch_context (op1 op2 : nat → reg) (old_context new_context : Z) (m : Cpu) : ending :=
  match exec op1 save_current_context (enter_block op1 old_context 18 m) with
  | Falls m => exec op2 restore_context (enter_block op2 new_context 18 m)
  | e => e
  end.

(** ** Lemmas *)
Definition words_at (g : gmap Z Z) (c : Z) (ws : list Z) : Prop :=
  ∀ k w, ws !! k = Some w → g !! (c + 8 * Z.of_nat k) = Some w.

(** Storing [ws] word by word from [c]. *)
Fixpoint store_words (c : Z) (ws : list Z) (g : gmap Z Z) : gmap Z Z :=
  match ws with
  | [] => g
  | w :: ws => store_words (c + 8) ws (<[c := w]> g)
  end.

Lemma lookup_store_words ws : ∀ c g a, (∀ k, (k < length ws)%nat → a ≠ c + 8 * Z.of_nat k) →
  store_words c ws g !! a = g !! a.
Proof.
  induction ws as [|w ws IH]; intros c g a Ha; [done|]. cbn [store_words]. rewrite IH.
  - rewrite lookup_insert_ne; [done|]. specialize (Ha 0%nat). simpl in Ha. lia.
  - intros k Hk. specialize (Ha (S k)). simpl in Ha. lia.
Qed.

Lemma words_at_store ws : ∀ c g, words_at (store_words c ws g) c ws.
Proof.
  induction ws as [|w ws IH]; intros c g k x Hk; [done|]. cbn [store_words]. destruct k as [|k].
  - injection Hk as ->. rewrite lookup_store_words by lia. replace (c + 8 * Z.of_nat 0) with c by lia.
    apply lookup_insert_eq.
  - replace (c + 8 * Z.of_nat (S k)) with (c + 8 + 8 * Z.of_nat k) by lia. by apply IH.
Qed.

Lemma words_at_app g c l1 l2 : words_at g c (l1 ++ l2) ↔
  words_at g c l1 ∧ words_at g (c + 8 * Z.of_nat (length l1)) l2.
Proof.
  split.
  - intros H. split; intros k w Hk; [apply H; by apply lookup_app_l_Some|].
    replace (c + 8 * Z.of_nat (length l1) + 8 * Z.of_nat k) with (c + 8 * Z.of_nat (length l1 + k)) by lia.
    apply H. by rewrite lookup_app_r, Nat.add_comm, Nat.add_sub by lia.
  - intros [H1 H2] k w [Hk|[Hle Hk]]%lookup_app_Some; [by apply H1|].
    specialize (H2 _ _ Hk). replace (c + 8 * Z.of_nat k)
      with (c + 8 * Z.of_nat (length l1) + 8 * Z.of_nat (k - length l1)) by lia. done.
Qed.

Section blocks.
Context (operand : nat → reg).

(** A run of stores through operands that all hold [c]. *)
Lemma exec_stores (l : list (nat * Z * reg)) p : ∀ j m c,
  (∀ k x, l !! k = Some x → regs m (operand x.1.1) = c ∧ x.1.2 = 8 * (j + Z.of_nat k) ∧
     is_Some (mem m !! (c + 8 * (j + Z.of_nat k)))) →
  exec operand (((λ x, Store x.1.1 x.1.2 x.2) <$> l) ++ p) m
    = exec operand p (set_mem m (store_words (c + 8 * j) ((λ x, regs m x.2) <$> l) (mem m))).
Proof.
  induction l as [|[[k off] r] l IH]; intros j m c Hl; [by destruct m|]. rewrite !fmap_cons. cbn [app exec fst snd].
  destruct (Hl 0%nat _ eq_refl) as (Hc & Hoff & [v Hv]). simpl in Hc, Hoff. replace (j + Z.of_nat 0) with j in * by lia.
  rewrite Hc, Hoff. unfold write. rewrite Hv. rewrite (IH (j + 1) _ c).
  - cbn [set_mem regs mem store_words fst snd]. by replace (c + 8 * (j + 1)) with (c + 8 * j + 8) by lia.
  - intros i x Hx. destruct (Hl (S i) x Hx) as (H1 & H2 & H3). simpl.
    replace (j + Z.of_nat (S i)) with (j + 1 + Z.of_nat i) in * by lia. split_and!; [done|done|].
    rewrite lookup_insert_is_Some. destruct (decide (c + 8 * j = c + 8 * (j + 1 + Z.of_nat i))); auto.
Qed.

Definition mapped (g : gmap Z Z) (a : Z) : Prop := is_Some (g !! a).
Definition saved_words (m : Cpu) (ret : Z) : list Z :=
  ((λ x, regs m x.2) <$> save_stores) ++ [ret; flags m].

Lemma save_stores_lookup k x : save_stores !! k = Some x → (k < 16)%nat ∧ x.1.1 = k ∧ x.1.2 = 8 * Z.of_nat k.
Proof. do 16 (destruct k as [|k]; [by intros [= <-]; split; [lia|]|]). done. Qed.

(** The memory after the block. *)
Definition saved_memory (m : Cpu) (c ret : Z) : gmap Z Z :=
  <[c + 136 := flags m]> (<[regs m RSP - 8 := flags m]> (<[c + 128 := ret]>
    (store_words c ((λ x, regs m x.2) <$> save_stores) (mem m)))).

Lemma lookup_saved_registers m c a : (∀ k, 0 ≤ k < 16 → a ≠ c + 8 * k) →
  store_words c ((λ x, regs m x.2) <$> save_stores) (mem m) !! a = mem m !! a.
Proof. intros Ha. apply lookup_store_words. intros k Hk. apply Ha. change (k < 16)%nat in Hk. lia. Qed.

Lemma saved_memory_words m c ret :
  (∀ k, 0 ≤ k < 18 → regs m RSP ≠ c + 8 * k ∧ regs m RSP - 8 ≠ c + 8 * k) →
  words_at (saved_memory m c ret) c (saved_words m ret).
Proof.
  intros Hd. unfold saved_memory, saved_words. apply words_at_app. split.
  - intros k w Hk. assert (k < 16)%nat as Hlt by (by apply lookup_lt_Some in Hk).
    specialize (Hd (Z.of_nat k) ltac:(lia)). rewrite !lookup_insert_ne by lia. by apply words_at_store.
  - change (length ((λ x, regs m x.2) <$> save_stores)) with 16%nat.
    pose proof (Hd 16 ltac:(lia)). intros [|[|k]] w Hk; [| |done]; injection Hk as <-.
    + rewrite !lookup_insert_ne by lia. by replace (c + 8 * Z.of_nat 16 + 8 * Z.of_nat 0) with (c + 128) by lia;
        rewrite lookup_insert_eq.
    + replace (c + 8 * Z.of_nat 16 + 8 * Z.of_nat 1) with (c + 136) by lia. apply lookup_insert_eq.
Qed.

(** The instructions after the stores. *)
Lemma save_tail m c ret :
  operand 16%nat ≠ RAX → regs m (operand 16%nat) = c → operand 17%nat ≠ RAX → regs m (operand 17%nat) = c →
  operand 17%nat ≠ RSP → mem m !! regs m RSP = Some ret → regs m RSP - 8 ≠ c + 128 → regs m RSP - 8 ≠ c + 136 →
  mapped (mem m) (c + 128) → mapped (mem m) (c + 136) → mapped (mem m) (regs m RSP - 8) →
  ∃ m', exec operand [LoadTop RAX; Store 16 128 RAX; Pushfq; Pop RAX; Store 17 136 RAX] m = Falls m' ∧
    mem m' = <[c + 136 := flags m]> (<[regs m RSP - 8 := flags m]> (<[c + 128 := ret]> (mem m))) ∧
    (∀ r, r ≠ RAX → regs m' r = regs m r) ∧ flags m' = flags m.
Proof.
  intros N16 O16 N17 O17 NS Hret D1 D2 [v16 H16] [v17 H17] [v0 Hb].
  cbn [exec]. unfold read, push, pop, write, read. cbn [set_mem set_reg mem regs flags].
  rewrite Hret, (decide_False (P:=operand 16%nat = RAX)), O16, H16 by done.
  rewrite (decide_True (P:=RSP = RSP)), (decide_True (P:=RAX = RAX)), (decide_False (P:=RSP = RAX)) by done.
  rewrite (lookup_insert_ne _ (c + 128)), Hb, lookup_insert_eq by lia.
  rewrite !(decide_False (P:=operand 17%nat = RAX)), !(decide_False (P:=operand 17%nat = RSP)), O17 by done.
  rewrite !lookup_insert_ne, H17 by lia. eexists. split; [done|]. split_and!; [done| |done].
  intros r Hr. cbn [set_mem set_reg regs]. rewrite !(decide_False (P:=r = RAX)) by done.
  destruct (decide (r = RSP)) as [->|]; [lia|done].
Qed.

(** Saving a context is exact.  Whatever registers the compiler chooses for
    the operands (other than [rax], which the block declares as an output), if
    they hold the address [c] of mapped memory that the two words around the top of
    the stack are not part of, the block stores the sixteen registers as they are
    on entry, the word on top of the stack as [rip] and the flags, in the layout of
    [CpuContext]; it changes no register but [rax] and no other memory than the word
    below the stack. *)
Lemma save_context_spec m c ret :
  (∀ k, (k < 18)%nat → operand k ≠ RAX ∧ regs m (operand k) = c) →
  (∀ k, 0 ≤ k < 18 → mapped (mem m) (c + 8 * k) ∧ regs m RSP ≠ c + 8 * k ∧ regs m RSP - 8 ≠ c + 8 * k) →
  mem m !! regs m RSP = Some ret → mapped (mem m) (regs m RSP - 8) →
  ∃ m', exec operand save_current_context m = Falls m' ∧ words_at (mem m') c (saved_words m ret) ∧
    (∀ r, r ≠ RAX → regs m' r = regs m r) ∧ flags m' = flags m ∧
    ∀ a, (∀ k, 0 ≤ k < 18 → a ≠ c + 8 * k) → a ≠ regs m RSP - 8 → mem m' !! a = mem m !! a.
Proof.
  intros Hop Hmap Hret Hbelow. unfold save_current_context. rewrite (exec_stores save_stores _ 0 m c).
  2: { intros k x Hx. destruct (save_stores_lookup k x Hx) as (Hk & -> & ->). rewrite Z.add_0_l.
       destruct (Hop k ltac:(lia)). destruct (Hmap (Z.of_nat k) ltac:(lia)) as [? _]. done. }
  replace (c + 8 * 0) with c by lia. pose proof (lookup_saved_registers m c) as Hg. set (g := store_words _ _ _) in *.
  destruct (Hop 16%nat ltac:(lia)) as [N16 O16]. destruct (Hop 17%nat ltac:(lia)) as [N17 O17].
  destruct (Hmap 16 ltac:(lia)) as (H16 & D1 & D2). destruct (Hmap 17 ltac:(lia)) as (H17 & D3 & D4).
  destruct (save_tail (set_mem m g) c ret) as (m' & -> & Hm & Hr & Hf); cbn [set_mem regs mem flags]; try done.
  - intros E. rewrite E in O17. destruct (Hmap 0); lia.
  - rewrite Hg; [done|]. intros k Hk. apply Hmap. lia.
  - unfold mapped. rewrite Hg by lia. exact H16.
  - unfold mapped. rewrite Hg by lia. exact H17.
  - unfold mapped. rewrite Hg; [done|]. intros k Hk. apply Hmap. lia.
  - exists m'. cbn [set_mem regs mem flags] in *. split_and!; [done| |done|done|].
    + rewrite Hm. apply saved_memory_words. intros k Hk. by apply Hmap.
    + intros a Ha Hne. rewrite Hm. pose proof (Ha 16). pose proof (Ha 17).
      rewrite !lookup_insert_ne by lia. apply Hg. intros k Hk. apply Ha. lia.
Qed.
(** A run of loads from a context whose registers are 0: a register that has been
    loaded no longer points to the context, so that the next load through it reads
    from the first page. *)
Lemma exec_zero_loads (l : list (reg * nat * Z)) p g c : ∀ dn m,
  (∀ a, 0 ≤ a < 4096 → g !! a = None) → (∀ k, (k < 18)%nat → operand k ≠ RBP) → mem m = g →
  (∀ k, (k < 18)%nat → regs m (operand k) = if decide (operand k ∈ dn) then 0 else c) →
  Forall (λ x, (x.1.2 < 18)%nat ∧ 0 ≤ x.2 < 4096 ∧ ∃ v, g !! (c + x.2) = Some v ∧ (x.1.1 = RBP ∨ v = 0)) l →
  let loads := (λ x, Load x.1.1 x.1.2 x.2) <$> l in
  exec operand (loads ++ p) m = Faults ∨
  ∃ m', exec operand (loads ++ p) m = exec operand p m' ∧ mem m' = g ∧
    ∀ k, (k < 18)%nat → regs m' (operand k) = if decide (operand k ∈ dn ++ l.*1.*1) then 0 else c.
Proof.
  induction l as [|[[r j] off] l IH]; intros dn m Hlow Hbp Hm Hr Hl loads.
  { right. exists m. split_and!; [done|done|]. intros k Hk. simpl. rewrite app_nil_r. by apply Hr. }
  apply Forall_cons in Hl as [(Hj & Hoff & v & Hv & Hz) Hl]. simpl in Hj, Hoff, Hv, Hz.
  unfold loads. rewrite fmap_cons. cbn [app exec fst snd]. unfold read. rewrite Hm, (Hr j Hj).
  destruct (decide (operand j ∈ dn)); [left; by rewrite Hlow by lia|]. rewrite Hv.
  destruct (IH (dn ++ [r]) (set_reg m r v)) as [->|(m' & -> & Hm' & Hr')]; try done; [|by left|right].
  - intros k Hk. cbn [set_reg regs]. specialize (Hbp k Hk). rewrite (Hr k Hk).
    destruct (decide (operand k = r)) as [E|Hne].
    + rewrite E, decide_True by (apply elem_of_app; right; by left). destruct Hz; congruence.
    + apply decide_ext. rewrite elem_of_app, list_elem_of_singleton. naive_solver.
  - exists m'. split_and!; [done|done|]. intros k Hk. rewrite (Hr' k Hk), <-app_assoc. done.
Qed.

Definition fresh (x : CpuContext) : Prop :=
  ∃ e sp, x = new_kernel_thread e sp ∨ x = new_user_process e sp.

Lemma restore_fresh m c x : fresh x → words_at (mem m) c (context_words x) →
  (∀ a, 0 ≤ a < 4096 → mem m !! a = None) →
  (∀ k, (k < 18)%nat → operand k ≠ RSP ∧ operand k ≠ RBP ∧ regs m (operand k) = c) →
  exec operand restore_context m = Faults.
Proof.
  intros (e & sp & Hx) Hw Hlow Hop. unfold restore_context.
  assert (context_words x = [0; 0; 0; 0; 0; 0; sp; sp; 0; 0; 0; 0; 0; 0; 0; 0; e; 0x202]) as Hc by (by destruct Hx; subst).
  rewrite Hc in Hw.
  destruct (exec_zero_loads restore_loads [Load RAX 15 136; Push RAX; Popfq; Load RSP 16 56; Jmp 17 128]
    (mem m) c [] m) as [H|(m' & -> & Hm & Hr)]; try done.
  - intros k Hk. by apply Hop.
  - intros k Hk. rewrite decide_False by (by intros ?%elem_of_nil). by apply Hop.
  - unfold restore_loads. repeat (apply Forall_cons; split); try (by apply Forall_nil);
      (split; [simpl; lia|]; split; [simpl; lia|]); eexists.
    all: split; [|first [by left|by right]].
    all: first [exact (Hw 0%nat _ eq_refl)|exact (Hw 1%nat _ eq_refl)|exact (Hw 2%nat _ eq_refl)|exact (Hw 3%nat _ eq_refl)|
      exact (Hw 4%nat _ eq_refl)|exact (Hw 5%nat _ eq_refl)|exact (Hw 6%nat _ eq_refl)|exact (Hw 8%nat _ eq_refl)|
      exact (Hw 9%nat _ eq_refl)|exact (Hw 10%nat _ eq_refl)|exact (Hw 11%nat _ eq_refl)|exact (Hw 12%nat _ eq_refl)|
      exact (Hw 13%nat _ eq_refl)|exact (Hw 14%nat _ eq_refl)|exact (Hw 15%nat _ eq_refl)].
  - cbn [exec]. unfold read. rewrite (Hr 15%nat) by lia. destruct (Hop 15%nat ltac:(lia)) as (? & _).
    rewrite decide_True; [by rewrite Hm, Hlow by lia|]. simpl. destruct (operand 15%nat); try done; set_solver.
Qed.
End blocks.

Lemma enter_block_spec operand p n m : let m' := enter_block operand p n m in
  mem m' = mem m ∧ flags m' = flags m ∧ (∀ k, (k < n)%nat → regs m' (operand k) = p) ∧
  ∀ r, (∀ k, (k < n)%nat → operand k ≠ r) → regs m' r = regs m r.
Proof.
  unfold enter_block. simpl.
  assert (∀ l, let m' := foldr (λ k m, set_reg m (operand k) p) m l in
    mem m' = mem m ∧ flags m' = flags m ∧ (∀ k, k ∈ l → regs m' (operand k) = p) ∧
    ∀ r, (∀ k, k ∈ l → operand k ≠ r) → regs m' r = regs m r) as H.
  { induction l as [|j l (IHm & IHf & IHp & IHr)]; simpl in *; [split_and!; try done; set_solver|].
    split_and!; [done|done| |].
    - intros k Hk. case_decide; [done|]. apply IHp. set_solver.
    - intros r Hr. rewrite decide_False by (intros ->; by apply (Hr j); [left|]). apply IHr. set_solver. }
  destruct (H (seq 0 n)) as (Hm & Hf & Hp & Hr). split_and!; [done|done| |].
  - intros k Hk. apply Hp, elem_of_seq. lia.
  - intros r Hk. apply Hr. intros k Hin%elem_of_seq. apply Hk. lia.
Qed.

(** Switching to a fresh context faults.  For every choice of operand
    registers that Rust allows, a switch from a running context, whose image and
    stack are mapped, to a new kernel thread or user process saves the old context
    and then faults while it restores the new one (the first page being unmapped, as
    for null pointers): every general register but the stack pointer is loaded
    before the last use of the pointer to the context, so the pointer is gone by
    then, wherever the compiler keeps it.  The new context's entry point is never
    reached. *)
Theorem switch_to_fresh_context op1 op2 old new m ret x : fresh x →
  (∀ k, (k < 18)%nat → op1 k ≠ RAX ∧ op1 k ≠ RSP) →
  (∀ k, (k < 18)%nat → op2 k ≠ RSP ∧ op2 k ≠ RBP) →
  (∀ k, 0 ≤ k < 18 → mapped (mem m) (old + 8 * k) ∧ regs m RSP ≠ old + 8 * k ∧ regs m RSP - 8 ≠ old + 8 * k) →
  mem m !! regs m RSP = Some ret → mapped (mem m) (regs m RSP - 8) →
  words_at (mem m) new (context_words x) →
  (∀ j, 0 ≤ j < 18 → regs m RSP - 8 ≠ new + 8 * j ∧ ∀ k, 0 ≤ k < 18 → new + 8 * j ≠ old + 8 * k) →
  (∀ a, 0 ≤ a < 4096 → mem m !! a = None) →
  (∃ m', exec op1 save_current_context (enter_block op1 old 18 m) = Falls m' ∧
     words_at (mem m') old (saved_words (enter_block op1 old 18 m) ret)) ∧
  switch_context op1 op2 old new m = Faults.
Proof.
  intros Hx Hop1 Hop2 Hold Hret Hsp Hw Hdis Hlow. unfold switch_context.
  destruct (enter_block_spec op1 old 18 m) as (Em & Ef & Ep & Er). set (m0 := enter_block op1 old 18 m) in *.
  assert (regs m0 RSP = regs m RSP) as Ersp by (apply Er; intros k Hk; by apply Hop1).
  destruct (save_context_spec op1 m0 old ret) as (m1 & E1 & Hw1 & _ & _ & Hmem);
    [intros k Hk; by split; [apply Hop1|apply Ep]|by rewrite Em, Ersp|by rewrite Em, Ersp|by rewrite Em, Ersp|].
  rewrite Em, Ersp in Hmem. rewrite E1. split; [by exists m1|].
  destruct (enter_block_spec op2 new 18 m1) as (Em2 & _ & Ep2 & _).
  apply (restore_fresh op2 _ new x Hx).
  - rewrite Em2. intros k w Hk. assert (k < 18)%nat by (apply lookup_lt_Some in Hk; done).
    destruct (Hdis (Z.of_nat k) ltac:(lia)) as [? ?]. rewrite Hmem by auto. by apply Hw.
  - intros a Ha. rewrite Em2, Hmem; [by apply Hlow| |].
    + intros k Hk ->. destruct (Hold k Hk) as ([v Hv] & _). by rewrite Hlow in Hv.
    + intros ->. destruct Hsp as [v Hv]. by rewrite Hlow in Hv.
  - intros k Hk. destruct (Hop2 k Hk). split_and!; [done|done|by apply Ep2].
Qed.

(** ** A concrete switch

    The old context at 0x10000, the new thread's at 0x20000, the stack at
    0x30008; all operands in [rdi]. *)
Definition demo_cpu : Cpu :=
  {| regs := λ r, if decide (r = RSP) then 0x30008 else 7; flags := 0x246;
     mem := store_words 0x10000 (replicate 18 0)
              (store_words 0x20000 (context_words (new_kernel_thread 0x400000 0x500000))
                 (store_words 0x30000 [0; 0x1234] ∅)) |}.

Lemma low_store_words c ws g : 4096 ≤ c → (∀ a, 0 ≤ a < 4096 → g !! a = None) →
  ∀ a, 0 ≤ a < 4096 → store_words c ws g !! a = None.
Proof. intros Hc Hg a Ha. rewrite lookup_store_words by lia. by apply Hg. Qed.

Lemma switch_to_fresh_context_witness :
  switch_context (λ _, RDI) (λ _, RDI) 0x10000 0x20000 demo_cpu = Faults.
Proof.
  apply (switch_to_fresh_context (λ _, RDI) (λ _, RDI) 0x10000 0x20000 demo_cpu 0x1234
    (new_kernel_thread 0x400000 0x500000)).
  - exists 0x400000, 0x500000. by left.
  - done.
  - done.
  - intros k Hk. split; [|simpl; lia]. unfold mapped, demo_cpu. cbn [mem].
    rewrite <-(Z2Nat.id k), (words_at_store (replicate 18 0) 0x10000 _ (Z.to_nat k) 0) by
      (lia || (apply lookup_replicate; split; [done|lia])). eauto.
  - vm_compute. reflexivity.
  - eexists. vm_compute. reflexivity.
  - intros k w Hk. assert (k < 18)%nat by (apply lookup_lt_Some in Hk; done). unfold demo_cpu. cbn [mem].
    rewrite lookup_store_words by (rewrite length_replicate; lia). exact (words_at_store _ _ _ k w Hk).
  - intros j Hj. simpl. split; [lia|]. intros k Hk. lia.
  - intros a Ha. unfold demo_cpu. cbn [mem]. apply low_store_words; [lia| |done]. apply low_store_words; [lia|].
    apply low_store_words; [lia|]. intros b _. apply lookup_empty.
Defined.

(** Saving and looking at the image, in the same machine. *)
Example demo_saved :
  match exec (λ _, RDI) save_current_context (enter_block (λ _, RDI) 0x10000 18 demo_cpu) with
  | Falls m => mem m !! (0x10000 + 56) = Some 0x30008 ∧ mem m !! (0x10000 + 128) = Some 0x1234
  | _ => False
  end.
Proof. vm_compute. done. Qed.
