(* ===== verification/Platform.v ===== *)
(** * The platform layer

    Models the common part of [kernel/src/platform]: its data, the platform trait
    as a class with the laws both implementations satisfy (files [X86_64] and
    [AArch64]), the globals, the interrupt table and memory-mapped I/O they share.
    The hardware is a record of the registers the code touches, a byte memory, the
    answers of input ports and the sequence of privileged instructions executed
    so far ([exec] is the effect of one instruction that does not fault).  Of faults,
    the one of turning paging off in 64-bit mode is modelled ([write_cr0]).  The assembly of [boot::init_cpu_state] is here too. *)
From stdpp Require Import functions.
From S2P Require Import Prelude Bytes.
Local Open Scope kosh_scope.

(** ** Common data *)
Inductive CpuArchitecture := ArchX86_64 | ArchAArch64.
Record CpuFeatures := {
  has_mmu : bool; has_cache : bool; has_fpu : bool; has_simd : bool;
  has_virtualization : bool; has_security_extensions : bool;
}.
Record CpuInfo := {
  architecture : CpuArchitecture; vendor : string; model_name : string;
  core_count : Z; ci_cache_line_size : Z; features : CpuFeatures;
}.
Inductive MemoryRegionType := Available | Reserved | AcpiReclaimable | AcpiNvs | BadMemory | Bootloader | KernelRegion | Module_.
#[export] Instance MemoryRegionType_eq_dec : EqDecision MemoryRegionType.
Proof. solve_decision. Defined.
Record MemoryRegion := { start_addr : Z; region_size : Z; region_type : MemoryRegionType }.
Record MemoryMap := { regions : list MemoryRegion; total_memory : Z; available_memory : Z }.

Record PageFlags := {
  present : bool; writable : bool; user_accessible : bool; write_through : bool;
  cache_disabled : bool; accessed : bool; dirty : bool; executable : bool;
}.
Definition default_page_flags : PageFlags :=
  {| present := true; writable := false; user_accessible := false; write_through := false;
     cache_disabled := false; accessed := false; dirty := false; executable := false |}.

Inductive PlatformError :=
  InvalidAddress | InvalidPageFlags | MmuNotSupported | InterruptSetupFailed | CacheOperationFailed
  | UnsupportedOperation | HardwareError.
Abbreviation PlatformResult T := (result T PlatformError).

Record PlatformConstants := {
  page_size : Z; page_shift : Z; virtual_address_bits : Z; physical_address_bits : Z;
  cache_line_size : Z; max_interrupt_number : Z;
}.

(** ** Hardware *)
Inductive instruction :=
  | WriteCr0 (v : Z) | WriteCr3 (v : Z) | Invlpg (a : Z) | Sti | Cli | Cld | Fninit | Hlt
  | Out (port bytes v : Z) | Wbinvd | Invd | Clflush (a : Z) | Mfence | Lidt (a : Z) | Int3.
#[export] Instance instruction_eq_dec : EqDecision instruction.
Proof. solve_decision. Defined.

Record Machine := {
  cr0 : Z;
  cr3 : Z;
  rflags : Z;
  mem : memory;
  in_port : Z → Z → Z;
  cpuid_vendor : option string;
  trace : list instruction;
}.
Definition record_instr (i : instruction) (m : Machine) : Machine :=
  {| cr0 := cr0 m; cr3 := cr3 m; rflags := rflags m; mem := mem m; in_port := in_port m;
     cpuid_vendor := cpuid_vendor m; trace := trace m ++ [i] |}.
Definition with_cr0 (v : Z) (m : Machine) : Machine :=
  {| cr0 := v; cr3 := cr3 m; rflags := rflags m; mem := mem m; in_port := in_port m;
     cpuid_vendor := cpuid_vendor m; trace := trace m |}.
Definition with_cr3 (v : Z) (m : Machine) : Machine :=
  {| cr0 := cr0 m; cr3 := v; rflags := rflags m; mem := mem m; in_port := in_port m;
     cpuid_vendor := cpuid_vendor m; trace := trace m |}.
Definition with_rflags (v : Z) (m : Machine) : Machine :=
  {| cr0 := cr0 m; cr3 := cr3 m; rflags := v; mem := mem m; in_port := in_port m;
     cpuid_vendor := cpuid_vendor m; trace := trace m |}.
Definition with_mem (b : memory) (m : Machine) : Machine :=
  {| cr0 := cr0 m; cr3 := cr3 m; rflags := rflags m; mem := b; in_port := in_port m;
     cpuid_vendor := cpuid_vendor m; trace := trace m |}.
Definition exec (i : instruction) (m : Machine) : Machine :=
  record_instr i
    match i with
    | WriteCr0 v => with_cr0 v m
    | WriteCr3 v => with_cr3 v m
    | Sti => with_rflags (Z.setbit (rflags m) 9) m
    | Cli => with_rflags (Z.clearbit (rflags m) 9) m
    | Cld => with_rflags (Z.clearbit (rflags m) 10) m
    | _ => m
    end.

(** [mov cr0, v]: clearing the paging bit in 64-bit mode, where paging is always on, is a
    general-protection fault. *)
Definition paging (m : Machine) : bool := Z.testbit (cr0 m) 31.
Definition write_cr0 (v : Z) (m : Machine) : outcome Machine :=
  if paging m && negb (Z.testbit v 31) then Panic else Val (exec (WriteCr0 v) m).
Lemma write_cr0_on v m : Z.testbit v 31 = paging m ∨ Z.testbit v 31 = true →
  write_cr0 v m = Val (exec (WriteCr0 v) m).
Proof. unfold write_cr0. intros [->| ->]; [|by rewrite andb_false_r]. by destruct (paging m). Qed.

(** [boot::init_cpu_state]: interrupts off, direction flag clear, the FPU on. *)
Definition init_cpu_state (m : Machine) : Machine :=
  let m := exec Cli m in
  let m := exec Cld m in
  let v := Z.land (cr0 m) (unot 64 (Z.shiftl 1 2)) in
  let v := Z.lor v (Z.shiftl 1 1) in
  exec Fninit (exec (WriteCr0 v) m).

(** ** The traits *)
Class PlatformInterface (X : Type) := {
  get_cpu_info : X → Machine → CpuInfo;
  get_memory_map : X → MemoryMap;
  setup_interrupts : X → PlatformResult unit * X;
  enable_mmu : X → Machine → Z → PlatformResult unit * X * Machine;
  disable_mmu : X → Machine → outcome (PlatformResult unit * X * Machine);
  flush_tlb : X → Machine → PlatformResult unit * Machine;
  flush_tlb_address : X → Machine → Z → PlatformResult unit * Machine;
  get_page_table_root : X → Z;
  set_page_table_root : X → Machine → Z → PlatformResult unit * X * Machine;
  get_constants : X → PlatformConstants;
}.

(** What the rest of the kernel may rely on. *)
Class PlatformLaws (X : Type) `{PlatformInterface X} := {
  pl_set_root x m r : ∃ x' m', set_page_table_root x m r = (Ok (), x', m') ∧ get_page_table_root x' = r;
  pl_enable_root x m r : ∃ x' m', enable_mmu x m r = (Ok (), x', m') ∧ get_page_table_root x' = r;
  pl_disable_root x m r x' m' : disable_mmu x m = Val (r, x', m') →
    r = Ok () ∧ get_page_table_root x' = get_page_table_root x;
  pl_constants x : page_size (get_constants x) = 2 ^ page_shift (get_constants x);
  pl_map x : available_memory (get_memory_map x) ≤ total_memory (get_memory_map x) ∧
    available_memory (get_memory_map x) =
      sumZ region_size (filter (λ r, region_type r = Available) (regions (get_memory_map x)));
  pl_regions x r : r ∈ regions (get_memory_map x) → 0 ≤ start_addr r ∧
    start_addr r + region_size r ≤ 2 ^ physical_address_bits (get_constants x) ∧
    start_addr r mod page_size (get_constants x) = 0 ∧ region_size r mod page_size (get_constants x) = 0;
}.

(** ** Data shared by both implementations *)
Record MemoryManagement := { current_page_table : Z }.
Record InterruptTable := { handlers : list (option Z) }.
Record TimerOperations := { system_time : Z }.
Record PowerManagement := { current_frequency : Z }.
Record Platform := {
  initialized : bool;
  memory_mgmt : MemoryManagement;
  interrupt_handler : InterruptTable;
  timer_ops : TimerOperations;
  power_mgmt : PowerManagement;
}.
Definition with_root (r : Z) (x : Platform) : Platform :=
  {| initialized := initialized x; memory_mgmt := {| current_page_table := r |};
     interrupt_handler := interrupt_handler x; timer_ops := timer_ops x; power_mgmt := power_mgmt x |}.

(** [PLATFORM_INSTANCE] and [PLATFORM_INIT]: both platforms initialise once, by a
    compare-and-exchange. *)
Record PlatformGlobals := { platform_instance : option Platform; platform_init : bool }.
Definition globals_start : PlatformGlobals := {| platform_instance := None; platform_init := false |}.
Definition set_initialized (x : Platform) : Platform :=
  {| initialized := true; memory_mgmt := memory_mgmt x; interrupt_handler := interrupt_handler x;
     timer_ops := timer_ops x; power_mgmt := power_mgmt x |}.
Definition init_with (fresh : Platform) (g : PlatformGlobals) : PlatformResult unit * PlatformGlobals :=
  if negb (platform_init g)
  then (Ok (), {| platform_instance := Some (set_initialized fresh); platform_init := true |})
  else (Err HardwareError, g).
Definition get_platform (g : PlatformGlobals) : outcome Platform :=
  match platform_instance g with Some x => Val x | None => Panic end.

(** The handler table: [interrupt_number] is a [u8] and the table has 256 slots. *)
Definition register_interrupt_handler (t : InterruptTable) (n h : Z) : PlatformResult unit * InterruptTable :=
  if len (handlers t) <=? n then (Err InvalidAddress, t)
  else (Ok (), {| handlers := <[Z.to_nat n := Some h]> (handlers t) |}).
Definition unregister_interrupt_handler (t : InterruptTable) (n : Z) : PlatformResult unit * InterruptTable :=
  if len (handlers t) <=? n then (Err InvalidAddress, t)
  else (Ok (), {| handlers := <[Z.to_nat n := None]> (handlers t) |}).

(** Memory-mapped I/O of [n] bytes: [read_volatile] and [write_volatile] need an
    aligned, non-null address; anything else is undefined and reported as [Panic]. *)
Definition mmio_ok (a : Z) (n : nat) : bool := negb (a =? 0) && (a mod Z.of_nat n =? 0).
Definition mmio_read (n : nat) (m : Machine) (a : Z) : outcome Z :=
  if mmio_ok a n then Val (read_le (mem m) a n) else Panic.
Definition mmio_write (n : nat) (m : Machine) (a v : Z) : outcome Machine :=
  if mmio_ok a n then Val (with_mem (write_le (mem m) a n v) m) else Panic.
Definition mmio_read_u8 := mmio_read 1.
Definition mmio_read_u16 := mmio_read 2.
Definition mmio_read_u32 := mmio_read 4.
Definition mmio_read_u64 := mmio_read 8.
Definition mmio_write_u8 := mmio_write 1.
Definition mmio_write_u16 := mmio_write 2.
Definition mmio_write_u32 := mmio_write 4.
Definition mmio_write_u64 := mmio_write 8.

(** ** Clients of the interface *)

(** What [boot::init_platform_abstraction] shows of the memory, in MB, and of the
    constants; a second initialisation panics. *)
Record PlatformReport := { shown_total_mb : Z; shown_available_mb : Z; shown_regions : Z; shown_page_size : Z }.
Definition report `{PlatformInterface X} (x : X) : PlatformReport :=
  {| shown_total_mb := total_memory (get_memory_map x) / (1024 * 1024);
     shown_available_mb := available_memory (get_memory_map x) / (1024 * 1024);
     shown_regions := len (regions (get_memory_map x)); shown_page_size := page_size (get_constants x) |}.
Definition init_platform_abstraction (init : PlatformGlobals → PlatformResult unit * PlatformGlobals)
    (rep : Platform → PlatformReport) (g : PlatformGlobals) : outcome (PlatformReport * PlatformGlobals) :=
  let '(r, g) := init g in
  match r with
  | Ok _ => x ← get_platform g; Val (rep x, g)
  | Err _ => Panic
  end.
