(* ===== verification/X86_64.v ===== *)
(** * The x86-64 platform

    Models [kernel/src/platform/x86_64]: registers, page flags, memory management,
    interrupts, caches, contexts, timer, power and port I/O, and that they make a
    platform. *)
From S2P Require Import Prelude Bytes Platform.
Local Open Scope kosh_scope.

(** *** Registers *)
Record X86_64Registers := {
  rax : Z; rbx : Z; rcx : Z; rdx : Z; rsi : Z; rdi : Z; rbp : Z; rsp : Z;
  r8 : Z; r9 : Z; r10 : Z; r11 : Z; r12 : Z; r13 : Z; r14 : Z; r15 : Z;
  rip : Z; reg_rflags : Z;
  cs : Z; ds : Z; es : Z; fs : Z; gs : Z; ss : Z;
  reg_cr0 : Z; reg_cr2 : Z; reg_cr3 : Z; reg_cr4 : Z;
}.
(** The code and data selectors and the flags are the only parameters of the
    constructors besides the entry point and the stack. *)
Definition registers_new (entry stack flags code data : Z) : X86_64Registers :=
  {| rax := 0; rbx := 0; rcx := 0; rdx := 0; rsi := 0; rdi := 0; rbp := 0; rsp := stack;
     r8 := 0; r9 := 0; r10 := 0; r11 := 0; r12 := 0; r13 := 0; r14 := 0; r15 := 0;
     rip := entry; reg_rflags := flags;
     cs := code; ds := data; es := data; fs := data; gs := data; ss := data;
     reg_cr0 := 0; reg_cr2 := 0; reg_cr3 := 0; reg_cr4 := 0 |}.
Definition default_registers : X86_64Registers := registers_new 0 0 0x202 0x08 0x10.
Definition new_user_mode (entry_point stack_pointer : Z) : X86_64Registers :=
  registers_new entry_point stack_pointer 0x202 0x1B 0x23.
Definition new_kernel_mode (entry_point stack_pointer : Z) : X86_64Registers :=
  registers_new entry_point stack_pointer 0x202 0x08 0x10.

(** [if args.len() > k { self.reg = args[k]; }] for the six argument registers. *)
Definition set_syscall_args (r : X86_64Registers) (args : list Z) : X86_64Registers :=
  let pick k old := default old (args !! k) in
  {| rax := rax r; rbx := rbx r; rcx := pick 3%nat (rcx r); rdx := pick 2%nat (rdx r);
     rsi := pick 1%nat (rsi r); rdi := pick 0%nat (rdi r); rbp := rbp r; rsp := rsp r;
     r8 := pick 4%nat (r8 r); r9 := pick 5%nat (r9 r); r10 := r10 r; r11 := r11 r; r12 := r12 r;
     r13 := r13 r; r14 := r14 r; r15 := r15 r; rip := rip r; reg_rflags := reg_rflags r;
     cs := cs r; ds := ds r; es := es r; fs := fs r; gs := gs r; ss := ss r;
     reg_cr0 := reg_cr0 r; reg_cr2 := reg_cr2 r; reg_cr3 := reg_cr3 r; reg_cr4 := reg_cr4 r |}.
Definition get_syscall_args (r : X86_64Registers) : list Z := [rdi r; rsi r; rdx r; rcx r; r8 r; r9 r].
Definition set_syscall_return (r : X86_64Registers) (v : Z) : X86_64Registers :=
  {| rax := v; rbx := rbx r; rcx := rcx r; rdx := rdx r; rsi := rsi r; rdi := rdi r; rbp := rbp r;
     rsp := rsp r; r8 := r8 r; r9 := r9 r; r10 := r10 r; r11 := r11 r; r12 := r12 r; r13 := r13 r;
     r14 := r14 r; r15 := r15 r; rip := rip r; reg_rflags := reg_rflags r;
     cs := cs r; ds := ds r; es := es r; fs := fs r; gs := gs r; ss := ss r;
     reg_cr0 := reg_cr0 r; reg_cr2 := reg_cr2 r; reg_cr3 := reg_cr3 r; reg_cr4 := reg_cr4 r |}.
Definition get_syscall_number (r : X86_64Registers) : Z := rax r.

(** *** Page flags *)
Definition flag (b : bool) (bit : Z) : Z := if b then Z.shiftl 1 bit else 0.
Definition convert_page_flags (f : PageFlags) : Z :=
  let x := 0 in
  let x := Z.lor x (flag (present f) 0) in
  let x := Z.lor x (flag (writable f) 1) in
  let x := Z.lor x (flag (user_accessible f) 2) in
  let x := Z.lor x (flag (write_through f) 3) in
  let x := Z.lor x (flag (cache_disabled f) 4) in
  let x := Z.lor x (flag (accessed f) 5) in
  let x := Z.lor x (flag (dirty f) 6) in
  Z.lor x (flag (negb (executable f)) 63).
Definition has_flag (x bit : Z) : bool := negb (Z.land x (Z.shiftl 1 bit) =? 0).
Definition convert_from_x86_flags (x : Z) : PageFlags :=
  {| present := has_flag x 0; writable := has_flag x 1; user_accessible := has_flag x 2;
     write_through := has_flag x 3; cache_disabled := has_flag x 4; accessed := has_flag x 5;
     dirty := has_flag x 6; executable := negb (has_flag x 63) |}.

(** *** Memory management *)
Definition mm_new : MemoryManagement := {| current_page_table := 0 |}.
(** The root is remembered, paging is turned on, then the root is loaded. *)
Definition mm_enable_mmu (mm : MemoryManagement) (m : Machine) (root : Z) :
    PlatformResult unit * MemoryManagement * Machine :=
  let m := exec (WriteCr0 (Z.lor (cr0 m) (Z.shiftl 1 31))) m in
  let m := exec (WriteCr3 root) m in
  (Ok (), {| current_page_table := root |}, m).
Definition mm_disable_mmu (mm : MemoryManagement) (m : Machine) :
    outcome (PlatformResult unit * MemoryManagement * Machine) :=
  m ← write_cr0 (Z.land (cr0 m) (unot 64 (Z.shiftl 1 31))) m;
  Val (Ok (), mm, m).
Definition mm_flush_tlb (mm : MemoryManagement) (m : Machine) : PlatformResult unit * Machine :=
  (Ok (), exec (WriteCr3 (current_page_table mm)) m).
Definition mm_flush_tlb_address (mm : MemoryManagement) (m : Machine) (a : Z) : PlatformResult unit * Machine :=
  (Ok (), exec (Invlpg a) m).
Definition mm_get_page_table_root (mm : MemoryManagement) : Z := current_page_table mm.
Definition mm_set_page_table_root (mm : MemoryManagement) (m : Machine) (root : Z) :
    PlatformResult unit * MemoryManagement * Machine :=
  (Ok (), {| current_page_table := root |}, exec (WriteCr3 root) m).
(** The page-table operations of the trait are refused. *)
Definition create_page_table (mm : MemoryManagement) : PlatformResult Z := Err UnsupportedOperation.
Definition map_page (mm : MemoryManagement) (va pa : Z) (f : PageFlags) : PlatformResult unit := Err UnsupportedOperation.
Definition unmap_page (mm : MemoryManagement) (va : Z) : PlatformResult unit := Err UnsupportedOperation.
Definition translate_address (mm : MemoryManagement) (va : Z) : PlatformResult Z := Err UnsupportedOperation.
Definition update_page_flags (mm : MemoryManagement) (va : Z) (f : PageFlags) : PlatformResult unit := Err UnsupportedOperation.
Definition is_mapped (mm : MemoryManagement) (va : Z) : bool := false.

(** *** Interrupts *)
Definition interrupts_new : InterruptTable := {| handlers := replicate 256 None |}.
Definition ih_setup_interrupts (t : InterruptTable) : PlatformResult unit * InterruptTable := (Ok (), t).
Definition enable_interrupts (m : Machine) : Machine := exec Sti m.
Definition disable_interrupts (m : Machine) : Machine := exec Cli m.
Definition interrupts_enabled (m : Machine) : bool := negb (Z.land (rflags m) (Z.shiftl 1 9) =? 0).
Definition send_eoi (m : Machine) (n : Z) : PlatformResult unit * Machine :=
  if (32 <=? n) && (n <? 48) then
    let m := if 40 <=? n then exec (Out 0xA0 1 0x20) m else m in
    (Ok (), exec (Out 0x20 1 0x20) m)
  else (Ok (), m).

(** *** Caches *)
Definition flush_all (m : Machine) : PlatformResult unit * Machine := (Ok (), exec Wbinvd m).
Definition flush_dcache (m : Machine) : PlatformResult unit * Machine := flush_all m.
Definition flush_icache (m : Machine) : PlatformResult unit * Machine := flush_all m.
Definition invalidate_dcache (m : Machine) : PlatformResult unit * Machine := (Ok (), exec Invd m).
Definition invalidate_icache (m : Machine) : PlatformResult unit * Machine := invalidate_dcache m.

Section cache_range.
Context {P : Profile}.
Definition line_size : Z := 64.
(** [while addr < end_addr { clflush [addr]; addr += cache_line_size; }] *)
Definition flush_step (end_addr : Z) (s : Z * Machine) : outcome (flow (Z * Machine) Machine) :=
  let '(addr, m) := s in
  if addr <? end_addr then
    let m := exec (Clflush addr) m in
    addr ← uadd 64 addr line_size;
    Val (Next (addr, m))
  else Val (Return m).
Definition clean_invalidate_dcache_range (m : Machine) (start size : Z) : outcome (PlatformResult unit * Machine) :=
  let mask := unot 64 (line_size - 1) in
  let start_addr := Z.land start mask in
  e ← uadd 64 start size;
  e ← uadd 64 e line_size;
  e ← usub 64 e 1;
  let end_addr := Z.land e mask in
  m ← loop_fuel (S (Z.to_nat ((end_addr - start_addr) / line_size))) (flush_step end_addr) (start_addr, m);
  Val (Ok (), exec Mfence m).
Definition invalidate_dcache_range (m : Machine) (start size : Z) : outcome (PlatformResult unit * Machine) :=
  clean_invalidate_dcache_range m start size.
End cache_range.

(** *** Contexts *)
Record CpuContext := { ctx_registers : X86_64Registers; ctx_stack : Z; ctx_ip : Z; ctx_flags : Z }.
Definition save_context (c : CpuContext) : PlatformResult unit * CpuContext := (Ok (), c).
Definition restore_context (c : CpuContext) : PlatformResult unit := Ok ().
Definition switch_context (old new : CpuContext) : PlatformResult unit * CpuContext :=
  let '(r, old) := save_context old in
  (r ?;; restore_context new ?;; Ok (), old).
Definition create_context (entry_point stack_pointer : Z) : CpuContext :=
  {| ctx_registers := new_kernel_mode entry_point stack_pointer; ctx_stack := stack_pointer;
     ctx_ip := entry_point; ctx_flags := 0x202 |}.

(** *** Timer and power *)
Definition timer_new : TimerOperations := {| system_time := 0 |}.
Definition get_system_time (t : TimerOperations) : Z := system_time t.
Definition setup_periodic_timer (t : TimerOperations) (hz : Z) : PlatformResult unit * TimerOperations := (Ok (), t).
Definition setup_oneshot_timer (t : TimerOperations) (ns : Z) : PlatformResult unit * TimerOperations := (Ok (), t).
Definition stop_timer (t : TimerOperations) : PlatformResult unit * TimerOperations := (Ok (), t).
Definition power_new : PowerManagement := {| current_frequency := 2000 |}.
Definition cpu_idle (m : Machine) : Machine := exec Hlt m.
Definition set_cpu_frequency (p : PowerManagement) (mhz : Z) : PlatformResult unit * PowerManagement :=
  (Ok (), {| current_frequency := mhz |}).
Definition get_cpu_frequency (p : PowerManagement) : Z := current_frequency p.
Definition set_core_state (p : PowerManagement) (core : Z) (enabled : bool) : PlatformResult unit * PowerManagement :=
  (Err UnsupportedOperation, p).

(** *** Port I/O: a read is what the device answers. *)
Definition port_read (bytes : Z) (m : Machine) (port : Z) : Z := in_port m port bytes.
Definition port_write (bytes : Z) (m : Machine) (port v : Z) : Machine := exec (Out port bytes v) m.
Definition port_read_u8 := port_read 1.
Definition port_read_u16 := port_read 2.
Definition port_read_u32 := port_read 4.
Definition port_write_u8 := port_write 1.
Definition port_write_u16 := port_write 2.
Definition port_write_u32 := port_write 4.

(** *** The platform *)
Definition platform_new : Platform :=
  {| initialized := false; memory_mgmt := mm_new; interrupt_handler := interrupts_new;
     timer_ops := timer_new; power_mgmt := power_new |}.
Definition cpu_info (m : Machine) : CpuInfo :=
  let vendor :=
    match cpuid_vendor m with
    | Some s =>
        if bool_decide (s = "GenuineIntel") then "Intel"
        else if bool_decide (s = "AuthenticAMD") then "AMD" else "Unknown"
    | None => "Unknown"
    end in
  {| architecture := ArchX86_64; vendor := vendor; model_name := "x86-64 CPU"; core_count := 1;
     ci_cache_line_size := 64;
     features := {| has_mmu := true; has_cache := true; has_fpu := true; has_simd := true;
                    has_virtualization := false; has_security_extensions := false |} |}.
Definition memory_map : MemoryMap :=
  {| regions := [{| start_addr := 0x100000; region_size := 0x7F00000; region_type := Available |}];
     total_memory := 128 * 1024 * 1024; available_memory := 127 * 1024 * 1024 |}.
Definition constants : PlatformConstants :=
  {| page_size := 4096; page_shift := 12; virtual_address_bits := 48; physical_address_bits := 52;
     cache_line_size := 64; max_interrupt_number := 255 |}.
Definition lift_mm (x : Platform) (r : PlatformResult unit * MemoryManagement * Machine) :
    PlatformResult unit * Platform * Machine :=
  let '(res, mm, m) := r in (res, with_root (current_page_table mm) x, m).

#[export] Instance interface : PlatformInterface Platform := {
  get_cpu_info _ m := cpu_info m;
  get_memory_map _ := memory_map;
  setup_interrupts x :=
    let '(r, t) := ih_setup_interrupts (interrupt_handler x) in
    (r, {| initialized := initialized x; memory_mgmt := memory_mgmt x; interrupt_handler := t;
           timer_ops := timer_ops x; power_mgmt := power_mgmt x |});
  enable_mmu x m root := lift_mm x (mm_enable_mmu (memory_mgmt x) m root);
  disable_mmu x m := lift_mm x <$> mm_disable_mmu (memory_mgmt x) m;
  flush_tlb x m := mm_flush_tlb (memory_mgmt x) m;
  flush_tlb_address x m a := mm_flush_tlb_address (memory_mgmt x) m a;
  get_page_table_root x := mm_get_page_table_root (memory_mgmt x);
  set_page_table_root x m root := lift_mm x (mm_set_page_table_root (memory_mgmt x) m root);
  get_constants _ := constants;
}.
Definition init : PlatformGlobals → PlatformResult unit * PlatformGlobals := init_with platform_new.
#[export] Instance laws : PlatformLaws Platform.
Proof.
  split; try done.
  - intros x m r. by eexists _, _.
  - intros x m r. by eexists _, _.
  - intros x m r x' m' H. cbn [disable_mmu interface] in H. unfold mm_disable_mmu, write_cr0 in H.
    destruct (_ && _); [done|]. by injection H as <- <- <-.
  - intros x r [->|?%not_elem_of_nil]%elem_of_cons; done.
Qed.
