(* ===== verification/AArch64.v ===== *)
(** * The ARM64 platform

    Models [kernel/src/platform/aarch64], whose hardware access is stubbed: the
    register image and the remembered state are real, the rest answers with
    constants.  It satisfies the same laws as the x86-64 platform. *)
From S2P Require Import Prelude Platform.
Local Open Scope kosh_scope.

Record AArch64Registers := {
  x : list Z; sp : Z; pc : Z; pstate : Z;
  ttbr0_el1 : Z; ttbr1_el1 : Z; tcr_el1 : Z; mair_el1 : Z; sctlr_el1 : Z;
}.
Definition registers_new (entry stack state : Z) : AArch64Registers :=
  {| x := replicate 31 0; sp := stack; pc := entry; pstate := state;
     ttbr0_el1 := 0; ttbr1_el1 := 0; tcr_el1 := 0; mair_el1 := 0; sctlr_el1 := 0 |}.
Definition default_registers : AArch64Registers := registers_new 0 0 0x3C5.
Definition new_user_mode (entry_point stack_pointer : Z) : AArch64Registers :=
  registers_new entry_point stack_pointer 0x0.
Definition new_kernel_mode (entry_point stack_pointer : Z) : AArch64Registers :=
  registers_new entry_point stack_pointer 0x3C5.
Definition with_x (r : AArch64Registers) (l : list Z) : AArch64Registers :=
  {| x := l; sp := sp r; pc := pc r; pstate := pstate r; ttbr0_el1 := ttbr0_el1 r;
     ttbr1_el1 := ttbr1_el1 r; tcr_el1 := tcr_el1 r; mair_el1 := mair_el1 r; sctlr_el1 := sctlr_el1 r |}.
(** [for (i, &arg) in args.iter().enumerate().take(8) { if i < self.x.len() { .. } }]: outside
    the registers nothing is written. *)
Definition set_syscall_args (r : AArch64Registers) (args : list Z) : AArch64Registers :=
  with_x r (foldl (λ l '(i, a), <[i := a]> l) (x r) (imap pair (take 8 args))).
Definition get_syscall_args (r : AArch64Registers) : outcome (list Z) :=
  for_each (λ i l, v ← index (x r) i; Val (l ++ [v])) (seqZ 0 8) [].
Definition set_syscall_return (r : AArch64Registers) (v : Z) : outcome AArch64Registers :=
  l ← index_set (x r) 0 v; Val (with_x r l).
Definition get_syscall_number (r : AArch64Registers) : outcome Z := index (x r) 8.

Definition convert_page_flags (f : PageFlags) : Z := 0.
Definition convert_from_arm64_flags (v : Z) : PageFlags := default_page_flags.

(** The registers of the MMU are not written: only the root is remembered. *)
Definition mm_new : MemoryManagement := {| current_page_table := 0 |}.
Definition mm_enable_mmu (mm : MemoryManagement) (root : Z) : PlatformResult unit * MemoryManagement :=
  (Ok (), {| current_page_table := root |}).
Definition mm_disable_mmu (mm : MemoryManagement) : PlatformResult unit * MemoryManagement := (Ok (), mm).
Definition mm_flush_tlb (mm : MemoryManagement) : PlatformResult unit := Ok ().
Definition mm_flush_tlb_address (mm : MemoryManagement) (a : Z) : PlatformResult unit := Ok ().
Definition mm_get_page_table_root (mm : MemoryManagement) : Z := current_page_table mm.
Definition mm_set_page_table_root (mm : MemoryManagement) (root : Z) : PlatformResult unit * MemoryManagement :=
  (Ok (), {| current_page_table := root |}).
Definition create_page_table (mm : MemoryManagement) : PlatformResult Z := Err UnsupportedOperation.
Definition map_page (mm : MemoryManagement) (va pa : Z) (f : PageFlags) : PlatformResult unit := Err UnsupportedOperation.
Definition unmap_page (mm : MemoryManagement) (va : Z) : PlatformResult unit := Err UnsupportedOperation.
Definition translate_address (mm : MemoryManagement) (va : Z) : PlatformResult Z := Err UnsupportedOperation.
Definition update_page_flags (mm : MemoryManagement) (va : Z) (f : PageFlags) : PlatformResult unit := Err UnsupportedOperation.
Definition is_mapped (mm : MemoryManagement) (va : Z) : bool := false.

Definition interrupts_new : InterruptTable := {| handlers := replicate 256 None |}.
Definition ih_setup_interrupts (t : InterruptTable) : PlatformResult unit * InterruptTable := (Ok (), t).
Definition interrupts_enabled : bool := false.
Definition send_eoi (n : Z) : PlatformResult unit := Ok ().

Definition timer_new : TimerOperations := {| system_time := 0 |}.
Definition get_system_time (t : TimerOperations) : Z := system_time t.
Definition power_new : PowerManagement := {| current_frequency := 1000 |}.
Definition set_cpu_frequency (p : PowerManagement) (mhz : Z) : PlatformResult unit * PowerManagement :=
  (Ok (), {| current_frequency := mhz |}).
Definition get_cpu_frequency (p : PowerManagement) : Z := current_frequency p.
Definition set_core_state (p : PowerManagement) (core : Z) (enabled : bool) : PlatformResult unit * PowerManagement :=
  (Err UnsupportedOperation, p).

Record CpuContext := { ctx_registers : AArch64Registers; ctx_stack : Z; ctx_ip : Z; ctx_flags : Z }.
Definition create_context (entry_point stack_pointer : Z) : CpuContext :=
  {| ctx_registers := new_kernel_mode entry_point stack_pointer; ctx_stack := stack_pointer;
     ctx_ip := entry_point; ctx_flags := 0x3C5 |}.

Definition platform_new : Platform :=
  {| initialized := false; memory_mgmt := mm_new; interrupt_handler := interrupts_new;
     timer_ops := timer_new; power_mgmt := power_new |}.
Definition cpu_info : CpuInfo :=
  {| architecture := ArchAArch64; vendor := "ARM"; model_name := "ARM64 CPU"; core_count := 4;
     ci_cache_line_size := 64;
     features := {| has_mmu := true; has_cache := true; has_fpu := true; has_simd := true;
                    has_virtualization := true; has_security_extensions := true |} |}.
Definition memory_map : MemoryMap :=
  {| regions := [{| start_addr := 0x40000000; region_size := 0x40000000; region_type := Available |}];
     total_memory := 1024 * 1024 * 1024; available_memory := 1024 * 1024 * 1024 |}.
Definition constants : PlatformConstants :=
  {| page_size := 4096; page_shift := 12; virtual_address_bits := 48; physical_address_bits := 48;
     cache_line_size := 64; max_interrupt_number := 255 |}.
Definition lift_mm (p : Platform) (m : Machine) (r : PlatformResult unit * MemoryManagement) :
    PlatformResult unit * Platform * Machine :=
  (r.1, with_root (current_page_table r.2) p, m).

Definition interface : PlatformInterface Platform := {|
  get_cpu_info _ _ := cpu_info;
  get_memory_map _ := memory_map;
  setup_interrupts p :=
    let '(r, t) := ih_setup_interrupts (interrupt_handler p) in
    (r, {| initialized := initialized p; memory_mgmt := memory_mgmt p; interrupt_handler := t;
           timer_ops := timer_ops p; power_mgmt := power_mgmt p |});
  enable_mmu p m root := lift_mm p m (mm_enable_mmu (memory_mgmt p) root);
  disable_mmu p m := Val (lift_mm p m (mm_disable_mmu (memory_mgmt p)));
  flush_tlb p m := (mm_flush_tlb (memory_mgmt p), m);
  flush_tlb_address p m a := (mm_flush_tlb_address (memory_mgmt p) a, m);
  get_page_table_root p := mm_get_page_table_root (memory_mgmt p);
  set_page_table_root p m root := lift_mm p m (mm_set_page_table_root (memory_mgmt p) root);
  get_constants _ := constants;
|}.
Definition init : PlatformGlobals → PlatformResult unit * PlatformGlobals := init_with platform_new.
Lemma laws : @PlatformLaws Platform interface.
Proof.
  split; try done.
  - intros p m r. by eexists _, _.
  - intros p m r. by eexists _, _.
  - intros p m r x' m' H. by injection H as <- <- <-.
  - intros p r [->|?%not_elem_of_nil]%elem_of_cons; done.
Qed.
