(* ===== verification/PlatformTheory.v ===== *)
(** * Properties of the platform layer

    Cache flushing, the tracking of the page-table root, and the encodings of
    page flags, system-call arguments and memory-mapped words. *)
From stdpp Require Import functions.
From S2P Require Import Prelude Bytes Platform X86_64 AArch64.
(** ** Proofs *)
Lemma has_flag_testbit v b : 0 ≤ b → X86_64.has_flag v b = Z.testbit v b.
Proof.
  intros Hb. unfold X86_64.has_flag. rewrite Z.shiftl_1_l.
  assert (Z.land v (2 ^ b) = if Z.testbit v b then 2 ^ b else 0) as ->.
  { apply Z.bits_inj'. intros n Hn. rewrite Z.land_spec, Z.pow2_bits_eqb by done.
    destruct (Z.eqb_spec b n) as [->|Hne]; [|rewrite andb_false_r; destruct (Z.testbit v b);
      [by rewrite Z.pow2_bits_false by lia|by rewrite Z.bits_0]].
    rewrite andb_true_r. destruct (Z.testbit v n); [by rewrite Z.pow2_bits_true|by rewrite Z.bits_0]. }
  destruct (Z.testbit v b); [|done]. by rewrite (proj2 (Z.eqb_neq _ _)) by lia.
Qed.

(** The bits a page flag word has a meaning for. *)
Definition flag_bits : list Z := [0; 1; 2; 3; 4; 5; 6; 63].

Lemma page_flags_there f : X86_64.convert_from_x86_flags (X86_64.convert_page_flags f) = f.
Proof. by destruct f as [[] [] [] [] [] [] [] []]. Qed.

Lemma page_flags_bits f b : 0 ≤ b → Z.testbit (X86_64.convert_page_flags f) b = true → b ∈ flag_bits.
Proof.
  intros Hb H. unfold flag_bits. destruct (decide (b ∈ [0; 1; 2; 3; 4; 5; 6; 63])) as [?|Hn]; [done|]. exfalso.
  rewrite !not_elem_of_cons in Hn. destruct Hn as (? & ? & ? & ? & ? & ? & ? & ? & _).
  unfold X86_64.convert_page_flags, X86_64.flag in H. rewrite !Z.lor_spec, Z.bits_0 in H.
  assert (∀ (c : bool) k, 0 ≤ k → b ≠ k → Z.testbit (if c then Z.shiftl 1 k else 0) b = false) as Hf.
  { intros [] k Hk Hne; [|by rewrite Z.bits_0]. rewrite Z.shiftl_1_l. by apply Z.pow2_bits_false. }
  rewrite !Hf in H by lia. done.
Qed.

Lemma page_flags_back v : 0 ≤ v → (∀ b, 0 ≤ b → Z.testbit v b = true → b ∈ flag_bits) →
  X86_64.convert_page_flags (X86_64.convert_from_x86_flags v) = v.
Proof.
  intros Hv Hb. apply Z.bits_inj'. intros n Hn.
  destruct (decide (n ∈ flag_bits)) as [Hin|Hout].
  - unfold X86_64.convert_page_flags, X86_64.convert_from_x86_flags, X86_64.flag. cbn [present writable user_accessible
      write_through cache_disabled accessed dirty executable]. rewrite !has_flag_testbit, negb_involutive by lia.
    rewrite !Z.lor_spec, Z.bits_0. unfold flag_bits in Hin.
    repeat (apply elem_of_cons in Hin as [-> | Hin];
      [repeat match goal with |- context [Z.testbit (if ?c then _ else _) _] => destruct c eqn:? end; done|]).
    by apply not_elem_of_nil in Hin.
  - transitivity false; [|symmetry].
    + destruct (Z.testbit _ n) eqn:E; [|done]. by apply page_flags_bits in E.
    + destruct (Z.testbit v n) eqn:E; [|done]. by apply Hb in E.
Qed.

(** *** Flushing a range of the cache *)
Definition line (a : Z) : Z := a - a mod 64.
Lemma mask_line a : 0 ≤ a < 2 ^ 64 → Z.land a (unot 64 63) = line a.
Proof.
  intros Ha. unfold line, unot. change (Z.lxor 63 (Z.ones 64)) with (Z.ldiff (Z.ones 64) (Z.ones 6)).
  apply Z.bits_inj'. intros n Hn. rewrite Z.land_spec, Z.ldiff_spec, !Z.testbit_ones_nonneg by lia.
  replace (a - a mod 64) with (Z.shiftl (Z.shiftr a 6) 6)
    by (rewrite Z.shiftl_mul_pow2, Z.shiftr_div_pow2 by lia; change (2 ^ 6) with 64; divlia).
  rewrite Z.shiftl_spec by lia. destruct (Z.ltb_spec n 6), (Z.ltb_spec n 64); simpl; try lia.
  - by rewrite andb_false_r, Z.testbit_neg_r by lia.
  - rewrite andb_true_r, Z.shiftr_spec by lia. f_equal. lia.
  - rewrite andb_false_r, Z.shiftr_spec by lia. symmetry. apply Z.bits_above_log2; [lia|].
    destruct (decide (a = 0)) as [->|]; [simpl; lia|]. apply Z.log2_lt_pow2; [lia|].
    apply (Z.lt_le_trans _ (2 ^ 64)); [lia|]. apply Z.pow_le_mono_r; lia.
Qed.

Definition exec_all (l : list instruction) (m : Machine) : Machine := foldl (λ m i, exec i m) m l.

Lemma flush_loop `{Profile} k : ∀ a m, 0 ≤ a → a + 64 * Z.of_nat k < 2 ^ 64 →
  loop_fuel (S k) (X86_64.flush_step (a + 64 * Z.of_nat k)) (a, m) =
    Val (exec_all ((λ i, Clflush (a + 64 * i)) <$> seqZ 0 (Z.of_nat k)) m).
Proof.
  induction k as [|k IH]; intros a m Ha Hk.
  { cbn [loop_fuel]. unfold X86_64.flush_step. by rewrite (proj2 (Z.ltb_ge _ _)) by lia. }
  assert (X86_64.flush_step (a + 64 * Z.of_nat (S k)) (a, m) = Val (Next (a + 64, exec (Clflush a) m))) as Hb.
  { unfold X86_64.flush_step, X86_64.line_size. rewrite (proj2 (Z.ltb_lt _ _)) by lia. by rewrite uadd_val by lia. }
  rewrite loop_fuel_S, Hb. cbn [mbind outcome_bind].
  replace (a + 64 * Z.of_nat (S k)) with (a + 64 + 64 * Z.of_nat k) by lia. rewrite IH by lia.
  rewrite (seqZ_cons 0 (Z.of_nat (S k))) by lia. rewrite fmap_cons. unfold exec_all. cbn [foldl]. f_equal.
  replace (a + 64 * 0) with a by lia. f_equal.
  replace (Z.pred (Z.of_nat (S k))) with (Z.of_nat k) by lia.
  change (Z.succ 0) with (1 + 0). rewrite <-fmap_add_seqZ, <-list_fmap_compose. apply list_fmap_ext. intros i ? _. simpl. f_equal. lia.
Qed.

Lemma range_exact `{Profile} m start size : 0 ≤ start → 0 ≤ size → start + size + 64 < 2 ^ 64 →
  let lines := (λ i, line start + 64 * i) <$> seqZ 0 ((line (start + size + 63) - line start) / 64) in
  X86_64.clean_invalidate_dcache_range m start size = Val (Ok (), exec_all ((Clflush <$> lines) ++ [Mfence]) m).
Proof.
  intros Hs Hz He lines. unfold X86_64.clean_invalidate_dcache_range, X86_64.line_size.
  rewrite (uadd_val 64 start) by lia. cbn [mbind outcome_bind]. rewrite uadd_val by lia. cbn [mbind outcome_bind].
  rewrite usub_val by lia. cbn [mbind outcome_bind]. change (64 - 1) with 63. rewrite !mask_line by lia.
  replace (start + size + 64 - 1) with (start + size + 63) by lia.
  set (k := Z.to_nat ((line (start + size + 63) - line start) / 64)).
  assert (line (start + size + 63) = line start + 64 * Z.of_nat k) as Hk by (subst k; unfold line; divlia).
  assert (0 ≤ line start) by (unfold line; divlia).
  assert (line start + 64 * Z.of_nat k < 2 ^ 64) by (rewrite <-Hk; unfold line; divlia).
  rewrite Hk at 1. rewrite flush_loop by lia. cbn [mbind outcome_bind].
  unfold exec_all. rewrite foldl_app. cbn [foldl]. f_equal. f_equal. f_equal. f_equal.
  unfold lines. rewrite <-list_fmap_compose. subst k. rewrite Z2Nat.id; [done|]. unfold line. divlia.
Qed.

(** Flushing a non-empty range of the cache flushes, once each and in
    increasing order, exactly the 64-byte lines that hold a byte of the range,
    and then waits; the loop terminates and nothing else is executed. *)
Theorem cache_range_flush_exact `{Profile} m start size :
  0 ≤ start → 0 < size → start + size + 64 < 2 ^ 64 →
  ∃ lines, X86_64.clean_invalidate_dcache_range m start size =
      Val (Ok (), exec_all ((Clflush <$> lines) ++ [Mfence]) m) ∧
    StronglySorted Z.lt lines ∧
    ∀ l, l ∈ lines ↔ ∃ a, start ≤ a < start + size ∧ l = line a.
Proof.
  intros Hs Hz He. eexists. split; [by apply range_exact; lia|]. split.
  - set (n := (line (start + size + 63) - line start) / 64). clearbody n. generalize 0 as b. intros b.
    destruct (decide (0 ≤ n)); [|rewrite seqZ_nil by lia; constructor].
    revert b. pattern n. apply natlike_ind; [by intros b; rewrite seqZ_nil by lia; constructor| |done].
    intros k Hk IH b. rewrite seqZ_cons by lia. rewrite fmap_cons. constructor.
    + replace (Z.pred (Z.succ k)) with k by lia. apply IH.
    + apply Forall_forall. intros y (i & -> & Hi%elem_of_seqZ)%list_elem_of_fmap. lia.
  - intros l. rewrite list_elem_of_fmap. split.
    + intros (i & -> & Hi%elem_of_seqZ). unfold line in *.
      exists (Z.max start (start - start mod 64 + 64 * i)). divlia.
    + intros (a & Ha & ->). exists ((line a - line start) / 64). rewrite elem_of_seqZ. unfold line. divlia.
Qed.

Lemma cache_range_flush_exact_witness :
  ∃ lines m', X86_64.clean_invalidate_dcache_range (P:=dev) m' 0x1030 0x50 =
      Val (Ok (), exec_all ((Clflush <$> lines) ++ [Mfence]) m') ∧
    0x1000 ∈ lines ∧ 0x1040 ∈ lines ∧ 0x1080 ∉ lines.
Proof.
  set (m := {| cr0 := 0; cr3 := 0; rflags := 2; mem := λ _, 0; in_port := λ _ _, 0; cpuid_vendor := None; trace := [] |}).
  destruct (cache_range_flush_exact (H:=dev) m 0x1030 0x50) as (lines & Hr & _ & Hl); [lia..|].
  exists lines, m. split_and!; [exact Hr| | |].
  - apply Hl. by exists 0x1030.
  - apply Hl. by exists 0x1040.
  - intros (a & Ha & Ea)%Hl. unfold line in Ea. divlia.
Defined.

(** *** The page-table root *)
Inductive mmu_op := MEnable (root : Z) | MDisable | MFlush | MFlushAddress (a : Z) | MSetRoot (root : Z).
#[export] Instance mmu_op_eq_dec : EqDecision mmu_op.
Proof. solve_decision. Defined.
#[local] Existing Instance X86_64.interface.
Section mmu.
Context {X : Type} `{PlatformInterface X}.
Definition mmu_step (o : mmu_op) (s : X * Machine) : outcome (X * Machine) :=
  let '(x, m) := s in
  match o with
  | MEnable r => let '(_, x, m) := enable_mmu x m r in Val (x, m)
  | MDisable => '(_, x, m) ← disable_mmu x m; Val (x, m)
  | MFlush => let '(_, m) := flush_tlb x m in Val (x, m)
  | MFlushAddress a => let '(_, m) := flush_tlb_address x m a in Val (x, m)
  | MSetRoot r => let '(_, x, m) := set_page_table_root x m r in Val (x, m)
  end.
Definition mmu_run (ops : list mmu_op) (s : X * Machine) : outcome (X * Machine) := for_each mmu_step ops s.
End mmu.
Definition installed (o : mmu_op) : option Z := match o with MEnable r | MSetRoot r => Some r | _ => None end.
Definition last_root (ops : list mmu_op) : option Z := last (omap installed ops).
Definition enables (o : mmu_op) : bool := match o with MEnable _ => true | _ => false end.
(** Paging is turned off while it is on; [on] is the paging bit at the start. *)
Fixpoint turns_off (on : bool) (ops : list mmu_op) : bool :=
  match ops with
  | [] => false
  | o :: ops => bool_decide (o = MDisable) && on || turns_off (on || enables o) ops
  end.

Lemma paging_set v : Z.testbit (Z.lor v (Z.shiftl 1 31)) 31 = true.
Proof. by rewrite Z.lor_spec, orb_true_r. Qed.
Lemma paging_clear v : Z.testbit (Z.land v (unot 64 (Z.shiftl 1 31))) 31 = false.
Proof. by rewrite Z.land_spec, andb_false_r. Qed.
Lemma last_root_cons o ops : last_root (o :: ops) =
  match installed o with Some r => Some (default r (last_root ops)) | None => last_root ops end.
Proof. unfold last_root. cbn [omap list_omap]. destruct (installed o); [|done]. rewrite last_cons. by destruct (last _). Qed.

(** One operation. *)
Lemma mmu_step_exact o (x : Platform) m :
  if bool_decide (o = MDisable) && paging m then mmu_step o (x, m) = Panic
  else ∃ x' m', mmu_step o (x, m) = Val (x', m') ∧ paging m' = paging m || enables o ∧
    get_page_table_root x' = default (get_page_table_root x) (installed o) ∧
    cr3 m' = match o with MFlush => get_page_table_root x | _ => default (cr3 m) (installed o) end.
Proof.
  destruct o as [r| | |a|r]; rewrite ?bool_decide_false by done; cbn [andb].
  - eexists _, _. split; [done|]. split_and!; [|done..]. rewrite orb_true_r. apply paging_set.
  - rewrite bool_decide_true by done. cbn [andb mmu_step disable_mmu X86_64.interface].
    unfold X86_64.mm_disable_mmu, write_cr0. rewrite paging_clear. destruct (paging m) eqn:Ep; [done|].
    eexists _, _. split; [done|]. split_and!; [|done..]. apply paging_clear.
  - eexists _, _. split; [done|]. by rewrite orb_false_r.
  - eexists _, _. split; [done|]. by rewrite orb_false_r.
  - eexists _, _. split; [done|]. by rewrite orb_false_r.
Qed.

Lemma mmu_run_exact ops : ∀ (x : Platform) m,
  if turns_off (paging m) ops then mmu_run ops (x, m) = Panic
  else ∃ x' m', mmu_run ops (x, m) = Val (x', m') ∧ paging m' = paging m || existsb enables ops ∧
    get_page_table_root x' = default (get_page_table_root x) (last_root ops) ∧
    cr3 m' = default (if decide (MFlush ∈ ops) then get_page_table_root x else cr3 m) (last_root ops).
Proof.
  induction ops as [|o ops IH]; intros x m; cbn [turns_off].
  { exists x, m. split; [done|]. by rewrite orb_false_r. }
  pose proof (mmu_step_exact o x m) as Ho. unfold mmu_run in *. cbn [for_each].
  destruct (bool_decide (o = MDisable) && paging m); cbn [orb]; [by rewrite Ho|].
  destruct Ho as (x1 & m1 & -> & Hp1 & Hr1 & Hc1). cbn [mbind outcome_bind]. rewrite <-Hp1.
  specialize (IH x1 m1). destruct (turns_off (paging m1) ops); [done|].
  destruct IH as (x' & m' & -> & Hp & Hr & Hc). exists x', m'. split; [done|].
  cbn [existsb]. rewrite orb_assoc, <-Hp1, last_root_cons. split; [done|].
  assert (MFlush ∈ o :: ops ↔ o = MFlush ∨ MFlush ∈ ops) as Hin by (rewrite elem_of_cons; naive_solver).
  rewrite Hr, Hc, Hr1, Hc1. destruct (last_root ops) as [r|]; [by destruct (installed o)|]. cbn [default].
  split; [by destruct (installed o)|].
  destruct o; cbn [installed default]; repeat case_decide; naive_solver.
Qed.

(** C30: The platform's idea of the page-table root.  Any sequence of operations on
    the x86-64 platform that does not turn paging off while it is on runs through, and
    paging is on afterwards if it was or was turned on; if a root was installed, the
    remembered root and the register are the last one installed.  Before that the
    remembered root is 0, not the one the machine booted with, and flushing the TLB
    loads it: a flush on a fresh platform replaces the boot page table by address 0.
    Turning paging off while it is on, which the kernel's 64-bit mode does not allow,
    faults. *)
Theorem page_table_root_tracking ops m :
  if turns_off (paging m) ops then mmu_run ops (X86_64.platform_new, m) = Panic
  else ∃ x m', mmu_run ops (X86_64.platform_new, m) = Val (x, m') ∧
    get_page_table_root x = default 0 (last_root ops) ∧
    cr3 m' = default (if decide (MFlush ∈ ops) then 0 else cr3 m) (last_root ops) ∧
    paging m' = paging m || existsb enables ops.
Proof.
  pose proof (mmu_run_exact ops X86_64.platform_new m) as H. destruct (turns_off (paging m) ops); [done|].
  destruct H as (x & m' & -> & ? & ? & ?). by exists x, m'.
Qed.

(** The other writes to the register keep or set the paging bit, and do not fault. *)
Lemma cr0_writes_pass m :
  let on := Z.lor (cr0 m) (Z.shiftl 1 31) in
  let fpu := Z.lor (Z.land (cr0 m) (unot 64 (Z.shiftl 1 2))) (Z.shiftl 1 1) in
  write_cr0 on m = Val (exec (WriteCr0 on) m) ∧ write_cr0 fpu m = Val (exec (WriteCr0 fpu) m).
Proof.
  split; apply write_cr0_on; [right; apply paging_set|left]. unfold paging. rewrite Z.lor_spec, Z.land_spec.
  change (Z.testbit (unot 64 (Z.shiftl 1 2)) 31) with true. by rewrite andb_true_r, orb_false_r.
Qed.

(** Enabling the MMU turns paging on first and loads the root after that: in
    between the machine pages with the old root. *)
Lemma enable_mmu_window mm m root :
  let m1 := exec (WriteCr0 (Z.lor (cr0 m) (Z.shiftl 1 31))) m in
  X86_64.mm_enable_mmu mm m root = (Ok (), {| current_page_table := root |}, exec (WriteCr3 root) m1) ∧
  paging m1 = true ∧ cr3 m1 = cr3 m.
Proof. split; [done|]. split; [apply paging_set|done]. Qed.

(** The platform encodes without loss.  Generic page flags survive the
    translation to x86-64 page-table bits and back, and so does every word in
    which only the eight translated bits are set; the system-call arguments of both
    architectures are read back as they were set; and what is written to a
    memory-mapped register is read back, no other byte changing. *)
Theorem platform_encodings_roundtrip :
  (∀ f, X86_64.convert_from_x86_flags (X86_64.convert_page_flags f) = f) ∧
  (∀ v, 0 ≤ v → (∀ b, 0 ≤ b → Z.testbit v b = true → b ∈ flag_bits) →
     X86_64.convert_page_flags (X86_64.convert_from_x86_flags v) = v) ∧
  (∀ r args, length args = 6%nat → X86_64.get_syscall_args (X86_64.set_syscall_args r args) = args) ∧
  (∀ r args, length (AArch64.x r) = 31%nat → length args = 8%nat →
     AArch64.get_syscall_args (AArch64.set_syscall_args r args) = Val args) ∧
  (∀ n m a v, mmio_ok a n = true → 0 ≤ v < 256 ^ Z.of_nat n →
     ∃ m', mmio_write n m a v = Val m' ∧ mmio_read n m' a = Val v ∧
       ∀ b, ¬ range a (Z.of_nat n) b → mem m' b = mem m b).
Proof.
  split_and!.
  - apply page_flags_there.
  - apply page_flags_back.
  - intros r args Hl. do 7 (destruct args as [|? args]; try done).
  - intros r args Hx Hl. do 9 (destruct args as [|? args]; try done).
    destruct r as [xs ? ? ? ? ? ? ? ?]. simpl in Hx. do 32 (destruct xs as [|? xs]; try done).
  - intros n m a v Hok Hv. unfold mmio_write, mmio_read. rewrite Hok. eexists. split; [done|].
    cbn [mem with_mem]. rewrite read_write_le by done. split; [done|]. intros b Hb. by apply write_le_outside.
Qed.

(** The ARM64 translations are stubs: no information survives them. *)
Lemma arm64_flags_lost f : AArch64.convert_from_arm64_flags (AArch64.convert_page_flags f) = default_page_flags.
Proof. done. Qed.

(** The platform can be initialised once; the second attempt panics the boot. *)
Lemma platform_init_once g : platform_init g = false →
  ∃ g', X86_64.init g = (Ok (), g') ∧ X86_64.init g' = (Err HardwareError, g') ∧
    init_platform_abstraction X86_64.init report g = Val ({| shown_total_mb := 128; shown_available_mb := 127;
      shown_regions := 1; shown_page_size := 4096 |}, g') ∧
    init_platform_abstraction X86_64.init report g' = Panic.
Proof. intros Hg. unfold X86_64.init, init_platform_abstraction, init_with. rewrite Hg. simpl. by eexists. Qed.

(** Handlers can be replaced one by one; the bound check never fails for a [u8]. *)
Lemma interrupt_table_exact t n h k : length (handlers t) = 256%nat → 0 ≤ n < 256 →
  ∃ t', register_interrupt_handler t n h = (Ok (), t') ∧ length (handlers t') = 256%nat ∧
    handlers t' !! k = (if decide (k = Z.to_nat n) then Some (Some h) else handlers t !! k) ∧
  ∃ t'', unregister_interrupt_handler t' n = (Ok (), t'') ∧
    handlers t'' !! k = (if decide (k = Z.to_nat n) then Some None else handlers t !! k).
Proof.
  intros Hl Hn. unfold register_interrupt_handler, unregister_interrupt_handler, len. rewrite Hl.
  rewrite (proj2 (Z.leb_gt _ _)) by lia. eexists. split; [done|]. cbn [handlers]. rewrite length_insert, Hl.
  split; [done|]. rewrite (proj2 (Z.leb_gt _ _)) by lia.
  split; [|eexists; split; [done|]; cbn [handlers]]; rewrite ?list_insert_insert_eq; case_decide as Hk; subst;
    rewrite ?list_lookup_insert_eq, ?list_lookup_insert_ne by lia; done.
Qed.

(** [init_cpu_state] leaves interrupts off and the FPU usable: EM clear, MP set. *)
Lemma init_cpu_state_bits m :
  X86_64.interrupts_enabled (init_cpu_state m) = false ∧ Z.testbit (cr0 (init_cpu_state m)) 2 = false ∧
  Z.testbit (cr0 (init_cpu_state m)) 1 = true ∧ Z.testbit (rflags (init_cpu_state m)) 10 = false.
Proof.
  unfold X86_64.interrupts_enabled. change (negb _) with (X86_64.has_flag (rflags (init_cpu_state m)) 9).
  rewrite has_flag_testbit by lia. unfold init_cpu_state.
  cbn [exec record_instr with_cr0 with_rflags rflags cr0]. split_and!.
  - rewrite Z.clearbit_neq by lia. by rewrite Z.clearbit_eq by lia.
  - by rewrite Z.lor_spec, Z.land_spec, andb_false_r.
  - by rewrite Z.lor_spec, orb_true_r.
  - by rewrite Z.clearbit_eq by lia.
Qed.
