(* ===== verification/Power.v ===== *)
(** * Power management: shared types

    Models [kernel/src/power/mod.rs] and the access to a global manager behind its
    lock. *)
From S2P Require Import Prelude.

(** ** Types *)
Inductive PowerState := StPerformance | StBalanced | StPowerSaver | StCritical.
#[export] Instance PowerState_eq_dec : EqDecision PowerState.
Proof. solve_decision. Defined.

Record BatteryInfo := {
  level_percent : Z;
  is_charging : bool;
  estimated_time_remaining : option Z;
}.
Record CpuFrequency := {
  current_mhz : Z;
  min_mhz : Z;
  max_mhz : Z;
}.
Inductive CpuGovernor := GovPerformance | GovOnDemand | GovPowerSave | GovConservative | GovInteractive.
#[export] Instance CpuGovernor_eq_dec : EqDecision CpuGovernor.
Proof. solve_decision. Defined.
Inductive ProcessActivity := ActInteractive | ActBackground | ActIoIntensive | ActNetwork | ActIdle.
#[export] Instance ProcessActivity_eq_dec : EqDecision ProcessActivity.
Proof. solve_decision. Defined.
Inductive PowerError :=
  | NotSupported | InvalidTransition | BatteryUnavailable | FrequencyScalingUnavailable
  | PowerPermissionDenied | HardwareError.
#[export] Instance PowerError_eq_dec : EqDecision PowerError.
Proof. solve_decision. Defined.

(** [activities.values().any(|a| matches!(a, ProcessActivity::Interactive))]. *)
Definition any_interactive (m : gmap Z ProcessActivity) : bool :=
  existsb (λ a, bool_decide (a = ActInteractive)) (map_to_list m).*2.

Lemma any_interactive_iff m : any_interactive m = true ↔ ∃ p, m !! p = Some ActInteractive.
Proof.
  unfold any_interactive. rewrite existsb_exists. split.
  - intros (a & Ha & ->%bool_decide_eq_true). apply list_elem_of_In, list_elem_of_fmap in Ha as ([p a] & -> & Hp).
    exists p. by apply elem_of_map_to_list.
  - intros [p Hp]. exists ActInteractive. split; [|by apply bool_decide_eq_true].
    apply list_elem_of_In, list_elem_of_fmap. exists (p, ActInteractive). split; [done|].
    by apply elem_of_map_to_list.
Qed.

(** ** A manager behind a global lock *)

(** [if let Some(m) = GLOBAL.lock().as_mut() { k(m) } else { Err(e) }]. *)
Definition on_global {M A} (g : option M) (e : PowerError) (k : M → outcome (result A PowerError * M)) :
    outcome (result A PowerError * option M) :=
  match g with
  | Some m => '(r, m) ← k m; Val (r, Some m)
  | None => Val (Err e, None)
  end.
(** [r?] in a method that returns a [Result] and may have changed its state. *)
Definition ptry {A B M} (o : outcome (result A PowerError * M))
    (k : A → M → outcome (result B PowerError * M)) : outcome (result B PowerError * M) :=
  '(r, m) ← o; match r with Ok a => k a m | Err e => Val (Err e, m) end.
