(* ===== verification/Process.v ===== *)
(** * The process table

    Models [kernel/src/process/process.rs]: process control blocks, the
    process table and its operations.  [get_current_time_ms] is the constant 0
    of the source.  The fields [address_space] (never set by this file) and
    [cpu_context] (only touched by the context-switch code) are left out of the
    control block.

    The central fact is that slots are filled in order and never reused, so the
    process in slot [i] has identifier [i + 1]; the abstraction of a table is
    the partial function [get_process]. *)
From S2P Require Import Prelude.

(** ** Data *)
Inductive BlockReason :=
  WaitingForIo | WaitingForMessage | WaitingForChild | WaitingForMemory | WaitingForResource.
Inductive ProcessState := Running | Ready | Blocked (r : BlockReason) | Zombie | Creating.
#[export] Instance BlockReason_eq_dec : EqDecision BlockReason.
Proof. solve_decision. Defined.
#[export] Instance ProcessState_eq_dec : EqDecision ProcessState.
Proof. solve_decision. Defined.

Inductive ProcessPriority := System | Interactive | Normal | Background.
#[export] Instance ProcessPriority_eq_dec : EqDecision ProcessPriority.
Proof. solve_decision. Defined.

(** [self as u8], and the [match] back. *)
Definition level (p : ProcessPriority) : Z :=
  match p with System => 0 | Interactive => 1 | Normal => 2 | Background => 3 end.
Definition of_level (n : Z) : ProcessPriority :=
  if n =? 0 then System else if n =? 1 then Interactive else if n =? 2 then Normal else Background.

Definition boost (p : ProcessPriority) (levels : Z) : ProcessPriority :=
  of_level (saturating_sub (level p) levels).
Definition reduce `{Profile} (p : ProcessPriority) (levels : Z) : outcome ProcessPriority :=
  n ← uadd 8 (level p) levels; Val (of_level (Z.min n 3)).

Record Process := {
  pid : Z;
  parent_pid : option Z;
  state : ProcessState;
  priority : ProcessPriority;
  name : string;
  cpu_time_ms : Z;
  creation_time_ms : Z;
  last_scheduled_ms : Z;
  exit_code : option Z;
  children : list Z;
}.

Inductive ProcessError :=
  ProcessNotFound | ProcessTableFull | InvalidStateTransition | ProcessTerminated
  | OutOfMemory | InvalidPid.
#[export] Instance ProcessError_eq_dec : EqDecision ProcessError.
Proof. solve_decision. Defined.

Definition current_time : Z := 0.

Definition process_new (id : Z) (parent : option Z) (nm : string) (prio : ProcessPriority) : Process :=
  {| pid := id; parent_pid := parent; state := Creating; priority := prio; name := nm;
     cpu_time_ms := 0; creation_time_ms := current_time; last_scheduled_ms := current_time;
     exit_code := None; children := [] |}.

Definition set_state (p : Process) (s : ProcessState) : Process :=
  {| pid := pid p; parent_pid := parent_pid p; state := s; priority := priority p; name := name p;
     cpu_time_ms := cpu_time_ms p; creation_time_ms := creation_time_ms p;
     last_scheduled_ms := last_scheduled_ms p; exit_code := exit_code p; children := children p |}.
Definition set_children (p : Process) (c : list Z) : Process :=
  {| pid := pid p; parent_pid := parent_pid p; state := state p; priority := priority p;
     name := name p; cpu_time_ms := cpu_time_ms p; creation_time_ms := creation_time_ms p;
     last_scheduled_ms := last_scheduled_ms p; exit_code := exit_code p; children := c |}.

Definition is_runnable (p : Process) : bool :=
  match state p with Ready | Running => true | _ => false end.
Definition is_terminated (p : Process) : bool :=
  match state p with Zombie => true | _ => false end.

Definition add_cpu_time `{Profile} (p : Process) (time_ms : Z) : outcome Process :=
  t ← uadd 64 (cpu_time_ms p) time_ms;
  Val {| pid := pid p; parent_pid := parent_pid p; state := state p; priority := priority p;
         name := name p; cpu_time_ms := t; creation_time_ms := creation_time_ms p;
         last_scheduled_ms := current_time; exit_code := exit_code p; children := children p |}.

Definition add_child (p : Process) (child : Z) : Process :=
  if bool_decide (child ∈ children p) then p else set_children p (children p ++ [child]).
Definition remove_child (p : Process) (child : Z) : Process :=
  set_children p (filter (.≠ child) (children p)).

Definition terminate (p : Process) (code : Z) : Process :=
  {| pid := pid p; parent_pid := parent_pid p; state := Zombie; priority := priority p;
     name := name p; cpu_time_ms := cpu_time_ms p; creation_time_ms := creation_time_ms p;
     last_scheduled_ms := last_scheduled_ms p; exit_code := Some code; children := children p |}.

(** ** The table *)
Record ProcessTable := {
  processes : list (option Process);
  next_pid : Z;
  current_pid : option Z;
  max_processes : Z;
}.
Definition MAX_PROCESSES : Z := 1024.

Definition table_new (max : Z) : ProcessTable :=
  {| processes := []; next_pid := 1; current_pid := None; max_processes := max |}.
Definition set_processes (t : ProcessTable) ps : ProcessTable :=
  {| processes := ps; next_pid := next_pid t; current_pid := current_pid t;
     max_processes := max_processes t |}.

Definition has_pid (id : Z) (slot : option Process) : bool :=
  match slot with Some p => pid p =? id | None => false end.

(** [iter().find_map(..)]: the first slot holding [id]. *)
Definition get_process (t : ProcessTable) (id : Z) : option Process :=
  match position (has_pid id) (processes t) with
  | Some i => mjoin (processes t !! i)
  | None => None
  end.

(** [if let Some(p) = get_process_mut(id) { f(p) }]. *)
Definition update_process (t : ProcessTable) (id : Z) (f : Process → Process) : ProcessTable :=
  match position (has_pid id) (processes t) with
  | Some i => set_processes t (alter (fmap f) i (processes t))
  | None => t
  end.

Section table.
Context {P : Profile}.
Implicit Types t : ProcessTable.

Definition create_process t (parent : option Z) (nm : string) (prio : ProcessPriority) :
    outcome (result Z ProcessError * ProcessTable) :=
  if max_processes t <=? len (processes t) then Val (Err ProcessTableFull, t)
  else
    let id := next_pid t in
    next ← uadd 32 (next_pid t) 1;
    let t := {| processes := processes t; next_pid := next; current_pid := current_pid t;
                max_processes := max_processes t |} in
    let p := set_state (process_new id parent nm prio) Ready in
    let t := match parent with
             | Some pp => update_process t pp (λ q, add_child q id)
             | None => t
             end in
    Val (Ok id, set_processes t (processes t ++ [Some p])).
End table.

Definition remove_process (t : ProcessTable) (id : Z) : result Process ProcessError * ProcessTable :=
  match position (has_pid id) (processes t) with
  | None => (Err ProcessNotFound, t)
  | Some i =>
      match mjoin (processes t !! i) with
      | None => (Err ProcessNotFound, t)
      | Some p =>
          let t := set_processes t (<[i := None]> (processes t)) in
          let t := match parent_pid p with
                   | Some pp => update_process t pp (λ q, remove_child q id)
                   | None => t
                   end in
          let t := foldl (λ t c, update_process t c (λ q, terminate q (-1))) t (children p) in
          (Ok p, t)
      end
  end.

(** The processes in slot order that satisfy [f]. *)
Definition pids_where (f : Process → bool) (t : ProcessTable) : list Z :=
  pid <$> List.filter f (omap id (processes t)).
Definition get_processes_by_state t (s : ProcessState) := pids_where (λ p, bool_decide (state p = s)) t.
Definition get_runnable_processes t := pids_where is_runnable t.
Definition get_processes_by_priority t (prio : ProcessPriority) :=
  pids_where (λ p, bool_decide (priority p = prio)) t.

Definition set_current_process (t : ProcessTable) (new : option Z) : result unit ProcessError * ProcessTable :=
  let t := match current_pid t with
           | Some c => update_process t c
               (λ p, if bool_decide (state p = Running) then set_state p Ready else p)
           | None => t
           end in
  match new with
  | None => (Ok (), {| processes := processes t; next_pid := next_pid t; current_pid := None;
                       max_processes := max_processes t |})
  | Some n =>
      match get_process t n with
      | None => (Err ProcessNotFound, t)
      | Some _ =>
          let t := update_process t n (λ p, set_state p Running) in
          (Ok (), {| processes := processes t; next_pid := next_pid t; current_pid := Some n;
                     max_processes := max_processes t |})
      end
  end.

Definition process_count (t : ProcessTable) : Z := len (omap id (processes t)).

Record ProcessTableStatistics := {
  total_processes : Z;
  creating_processes : Z; ready_processes : Z; running_processes : Z; blocked_processes : Z;
  zombie_processes : Z;
  system_priority_processes : Z; interactive_priority_processes : Z;
  normal_priority_processes : Z; background_priority_processes : Z;
  stats_current_pid : option Z;
}.
Definition state_index (s : ProcessState) : Z :=
  match s with Creating => 0 | Ready => 1 | Running => 2 | Blocked _ => 3 | Zombie => 4 end.
(** [counts[index] += 1] over the live processes. *)
Definition count_by (f : Process → Z) (n : nat) (t : ProcessTable) : list Z :=
  foldl (λ counts p, alter Z.succ (Z.to_nat (f p)) counts) (replicate n 0) (omap id (processes t)).
Definition get_table_statistics (t : ProcessTable) : ProcessTableStatistics :=
  let s := count_by (λ p, state_index (state p)) 5 t in
  let q := count_by (λ p, level (priority p)) 4 t in
  {| total_processes := process_count t;
     creating_processes := s !!! 0%nat; ready_processes := s !!! 1%nat; running_processes := s !!! 2%nat;
     blocked_processes := s !!! 3%nat; zombie_processes := s !!! 4%nat;
     system_priority_processes := q !!! 0%nat; interactive_priority_processes := q !!! 1%nat;
     normal_priority_processes := q !!! 2%nat; background_priority_processes := q !!! 3%nat;
     stats_current_pid := current_pid t |}.

Definition cleanup_zombies (t : ProcessTable) : Z * ProcessTable :=
  foldl (λ '(n, t) id, let '(r, t) := remove_process t id in (if is_ok r then n + 1 else n, t))
    (0, t) (get_processes_by_state t Zombie).

(** ** The table as a partial function on identifiers *)
Definition slots_ok (t : ProcessTable) : Prop :=
  ∀ i p, processes t !! i = Some (Some p) → pid p = Z.of_nat i + 1.

Lemma position_pid t id i : slots_ok t →
  position (has_pid id) (processes t) = Some i ↔
    id = Z.of_nat i + 1 ∧ ∃ p, processes t !! i = Some (Some p).
Proof.
  intros Hok. rewrite position_Some. split.
  - intros ([p|] & Hi & Hp & _); simpl in Hp; [|done]. apply Z.eqb_eq in Hp.
    rewrite (Hok i p Hi) in Hp. eauto.
  - intros (-> & p & Hi). exists (Some p). split_and!; [done|simpl; rewrite (Hok i p Hi); lia|].
    intros j [q|] Hj Hq; simpl; [|done]. rewrite (Hok j q Hq). lia.
Qed.

Lemma get_process_Some t id p : slots_ok t →
  get_process t id = Some p ↔ 1 ≤ id ∧ processes t !! Z.to_nat (id - 1) = Some (Some p).
Proof.
  intros Hok. unfold get_process. destruct (position _ _) as [i|] eqn:Hi.
  - apply position_pid in Hi as (-> & q & Hq); [|done].
    replace (Z.to_nat (Z.of_nat i + 1 - 1)) with i by lia. rewrite Hq. simpl.
    split; [intros [= ->]; split; [lia|done]|by intros [_ [= ->]]].
  - split; [done|]. intros [Hid Hp]. rewrite (proj2 (position_pid t id (Z.to_nat (id - 1)) Hok)) in Hi;
      [done|]. split; [lia|eauto].
Qed.

Lemma get_process_pid t id p : slots_ok t → get_process t id = Some p → pid p = id.
Proof. intros Hok [Hid Hp]%get_process_Some; [|done]. rewrite (Hok _ _ Hp). lia. Qed.

Section update.
Context (t : ProcessTable) (id : Z) (f : Process → Process).
Context (Hok : slots_ok t) (Hf : ∀ p, pid (f p) = pid p).

Lemma update_process_fields :
  next_pid (update_process t id f) = next_pid t ∧ current_pid (update_process t id f) = current_pid t ∧
  max_processes (update_process t id f) = max_processes t ∧
  length (processes (update_process t id f)) = length (processes t).
Proof.
  unfold update_process. destruct (position _ _); simpl; [|done].
  by rewrite length_alter.
Qed.

Lemma update_process_slots : slots_ok (update_process t id f).
Proof.
  unfold update_process. destruct (position _ _) as [i|]; [|done]. intros j p. simpl.
  destruct (decide (i = j)) as [->|].
  - rewrite list_lookup_alter_eq. intros ([q|] & Hq & Hp)%fmap_Some; simplify_eq/=.
    rewrite Hf. by apply Hok.
  - rewrite list_lookup_alter_ne by done. apply Hok.
Qed.

Lemma get_update q : get_process (update_process t id f) q =
  if decide (q = id) then f <$> get_process t q else get_process t q.
Proof.
  apply option_eq. intros p. rewrite (get_process_Some _ _ _ update_process_slots).
  unfold update_process. destruct (position _ _) as [i|] eqn:Hi.
  - apply position_pid in Hi as (-> & p' & Hp'); [|done]. simpl.
    destruct (decide (q = Z.of_nat i + 1)) as [->|Hne].
    + replace (Z.to_nat (Z.of_nat i + 1 - 1)) with i by lia.
      rewrite list_lookup_alter_eq, Hp'. simpl. rewrite fmap_Some.
      setoid_rewrite (get_process_Some t _ _ Hok).
      replace (Z.to_nat (Z.of_nat i + 1 - 1)) with i by lia. rewrite Hp'. split.
      * intros [_ [= <-]]. exists p'. split; [split; [lia|done]|done].
      * intros (x & [_ [= <-]] & ->). split; [lia|done].
    + rewrite (get_process_Some t _ _ Hok). split; intros [Hq Hl]; (split; [done|]).
      * by rewrite list_lookup_alter_ne in Hl by lia.
      * by rewrite list_lookup_alter_ne by lia.
  - rewrite <-(get_process_Some t _ _ Hok). destruct (decide (q = id)) as [->|]; [|done].
    assert (get_process t id = None) as -> by (unfold get_process; by rewrite Hi). done.
Qed.
End update.

Lemma terminate_all_fields t cs :
  let t' := foldl (λ t c, update_process t c (λ q, terminate q (-1))) t cs in
  next_pid t' = next_pid t ∧ current_pid t' = current_pid t ∧ max_processes t' = max_processes t ∧
  length (processes t') = length (processes t).
Proof.
  simpl. revert t. induction cs as [|c cs IH]; intros t; simpl; [done|].
  destruct (IH (update_process t c (λ q, terminate q (-1)))) as (-> & -> & -> & ->).
  apply update_process_fields.
Qed.

(** Terminating twice is terminating once, so the order and multiplicity of
    the children do not matter. *)
Lemma get_terminate_all t cs q : slots_ok t →
  let t' := foldl (λ t c, update_process t c (λ q, terminate q (-1))) t cs in
  slots_ok t' ∧
  get_process t' q = if decide (q ∈ cs) then (λ p, terminate p (-1)) <$> get_process t q else get_process t q.
Proof.
  cbn zeta. revert t. induction cs as [|c cs IH]; intros t Hok; cbn [foldl].
  - split; [done|]. case_decide as Hin; [|done]. by apply not_elem_of_nil in Hin.
  - destruct (IH (update_process t c (λ q, terminate q (-1)))) as [Hok' ->];
      [by apply update_process_slots|]. split; [done|].
    rewrite get_update by done. destruct (decide (q = c)) as [->|Hne].
    + rewrite (decide_True (P:=c ∈ c :: cs)) by (by left). case_decide; [|done].
      by destruct (get_process t c).
    + destruct (decide (q ∈ cs)).
      * rewrite decide_True by (by right). done.
      * rewrite decide_False; [done|]. by intros [?|?]%elem_of_cons.
Qed.

(** ** Invariant *)
Record table_wf (t : ProcessTable) : Prop := {
  tw_slots : slots_ok t;
  tw_next : next_pid t = len (processes t) + 1;
  tw_room : len (processes t) ≤ max_processes t < 2 ^ 32 - 1;
  tw_running q p : get_process t q = Some p → state p = Running → current_pid t = Some q;
  tw_children q p c pc : get_process t q = Some p → c ∈ children p → get_process t c = Some pc →
    parent_pid pc = Some q;
  tw_born q p c : get_process t q = Some p → c ∈ children p → c < next_pid t;
}.

Lemma get_process_None t q : slots_ok t → next_pid t = len (processes t) + 1 →
  next_pid t ≤ q → get_process t q = None.
Proof.
  intros Hok Hn Hq. apply eq_None_not_Some. intros [p [_ Hp]%get_process_Some]; [|done].
  apply lookup_lt_Some in Hp. unfold len in *. lia.
Qed.

Lemma table_new_wf max : 0 ≤ max < 2 ^ 32 - 1 → table_wf (table_new max).
Proof.
  intros Hmax. assert (∀ q, get_process (table_new max) q = None) as Hn by done.
  split; simpl; try done; intros; rewrite ?Hn in *; done.
Qed.

(** A slot pushed at the end is found under the next identifier. *)
Lemma get_push t p q : slots_ok t → pid p = len (processes t) + 1 →
  slots_ok (set_processes t (processes t ++ [Some p])) ∧
  get_process (set_processes t (processes t ++ [Some p])) q =
    if decide (q = pid p) then Some p else get_process t q.
Proof.
  intros Hok Hp. assert (slots_ok (set_processes t (processes t ++ [Some p]))) as Hok'.
  { intros i x. simpl. rewrite lookup_app_Some. intros [?|[Hi Hx]]; [by apply Hok|].
    apply list_lookup_singleton_Some in Hx as [Hz [= <-]]. rewrite Hp. unfold len. lia. }
  split; [done|]. apply option_eq. intros x. rewrite (get_process_Some _ _ _ Hok'). simpl.
  destruct (decide (q = pid p)) as [->|Hne].
  - unfold len in Hp. replace (Z.to_nat (pid p - 1)) with (length (processes t)) by lia.
    rewrite list_lookup_middle by done. split; [naive_solver|]. intros [= ->]. split; [lia|done].
  - rewrite (get_process_Some t _ _ Hok). split; intros [Hq Hx]; (split; [done|]).
    + apply lookup_app_Some in Hx as [?|[Hi Hx]]; [done|].
      apply list_lookup_singleton_Some in Hx as [Hz _]. unfold len in Hp. lia.
    + by apply lookup_app_l_Some.
Qed.

(** ** Operations on a well-formed table *)

(** What creating [id] under [parent] does to the entry of [q]. *)
Definition after_create (parent : option Z) (id q : Z) (p : Process) : Process :=
  if decide (parent = Some q) then add_child p id else p.

Lemma pid_add_child p c : pid (add_child p c) = pid p.
Proof. unfold add_child. by case_bool_decide. Qed.
Lemma elem_of_add_child p c x : x ∈ children (add_child p c) ↔ x ∈ children p ∨ x = c.
Proof.
  unfold add_child. case_bool_decide; simpl.
  - split; [by left|]. intros [?| ->]; done.
  - by rewrite elem_of_app, list_elem_of_singleton.
Qed.
Lemma add_child_fields p c :
  state (add_child p c) = state p ∧ parent_pid (add_child p c) = parent_pid p.
Proof. unfold add_child. by case_bool_decide. Qed.

Section op_specs.
Context {P : Profile}.

Lemma create_process_spec t parent nm prio : table_wf t → len (processes t) < max_processes t →
  ∃ t', create_process t parent nm prio = Val (Ok (next_pid t), t') ∧ table_wf t' ∧
    get_process t (next_pid t) = None ∧ current_pid t' = current_pid t ∧
    max_processes t' = max_processes t ∧ len (processes t') = len (processes t) + 1 ∧
    ∀ q, get_process t' q =
      if decide (q = next_pid t) then Some (set_state (process_new q parent nm prio) Ready)
      else after_create parent (next_pid t) q <$> get_process t q.
Proof.
  intros [Hok Hn Hroom Hrun Hch Hborn] Hlt. unfold create_process.
  rewrite (proj2 (Z.leb_gt _ _)) by done. pose proof (len_nonneg (processes t)).
  rewrite uadd_val by lia. simpl.
  set (t0 := {| processes := processes t; next_pid := next_pid t + 1; current_pid := current_pid t;
                max_processes := max_processes t |}).
  assert (slots_ok t0) as Hok0 by done. assert (∀ q, get_process t0 q = get_process t q) as Hg0 by done.
  set (t1 := match parent with Some pp => update_process t0 pp (λ q, add_child q (next_pid t)) | None => t0 end).
  assert (slots_ok t1 ∧ next_pid t1 = next_pid t + 1 ∧ current_pid t1 = current_pid t ∧
    max_processes t1 = max_processes t ∧ length (processes t1) = length (processes t) ∧
    ∀ q, get_process t1 q = after_create parent (next_pid t) q <$> get_process t q)
    as (Hok1 & Hn1 & Hc1 & Hm1 & Hl1 & Hg1).
  { unfold t1, after_create. destruct parent as [pp|].
    - destruct (update_process_fields t0 pp (λ q, add_child q (next_pid t))) as (? & ? & ? & ?).
      split_and!; try done; [apply update_process_slots; [done|intros; apply pid_add_child]|].
      intros q. rewrite get_update by (done || (intros; apply pid_add_child)). rewrite Hg0.
      destruct (decide (q = pp)) as [->|]; destruct (get_process t _); simpl; try done;
        by rewrite ?decide_True, ?decide_False by congruence.
    - split_and!; try done. intros q. rewrite Hg0. by destruct (get_process t q). }
  set (p := set_state (process_new (next_pid t) parent nm prio) Ready).
  destruct (get_push t1 p 0 Hok1) as [Hok2 _]; [simpl; unfold len; rewrite Hl1; unfold len in Hn; lia|].
  assert (∀ q, get_process (set_processes t1 (processes t1 ++ [Some p])) q =
    if decide (q = next_pid t) then Some (set_state (process_new q parent nm prio) Ready)
    else after_create parent (next_pid t) q <$> get_process t q) as Hg2.
  { intros q. destruct (get_push t1 p q Hok1) as [_ ->]; [simpl; unfold len; rewrite Hl1; unfold len in Hn; lia|].
    rewrite Hg1. simpl. by destruct (decide (q = next_pid t)) as [->|]. }
  assert (len (processes t1) = len (processes t)) as Hlen1 by (unfold len; by rewrite Hl1).
  exists (set_processes t1 (processes t1 ++ [Some p])). split; [done|].
  split_and!; try done; [|by apply get_process_None|simpl; rewrite len_snoc; lia].
  split; simpl; rewrite ?len_snoc; try done; try lia; try setoid_rewrite Hg2; rewrite ?Hc1.
  - intros q x Hx Hst. destruct (decide (q = next_pid t)); [by simplify_eq|].
    apply fmap_Some in Hx as (y & Hy & ->). apply (Hrun q y Hy). revert Hst. unfold after_create.
    case_decide; [|done]. by rewrite (proj1 (add_child_fields y _)).
  - intros q x c pc Hx Hc Hpc. destruct (decide (q = next_pid t)) as [->|]; [by simplify_eq; apply not_elem_of_nil in Hc|].
    apply fmap_Some in Hx as (y & Hy & ->).
    assert (c ∈ children y ∨ c = next_pid t ∧ parent = Some q) as Hcy.
    { revert Hc. unfold after_create. destruct (decide (parent = Some q)); [rewrite elem_of_add_child|]; naive_solver. }
    destruct (decide (c = next_pid t)) as [->|Hcn].
    + simplify_eq. simpl. destruct Hcy as [Hcy|[_ ?]]; [|done].
      pose proof (Hborn q y _ Hy Hcy). lia.
    + destruct Hcy as [Hcy|[? _]]; [|done]. apply fmap_Some in Hpc as (z & Hz & ->).
      assert (parent_pid (after_create parent (next_pid t) c z) = parent_pid z) as ->.
      { unfold after_create. case_decide; [apply add_child_fields|done]. }
      by eapply Hch.
  - rewrite Hn1. intros q x c Hx Hc. destruct (decide (q = next_pid t)) as [->|]; [by simplify_eq; apply not_elem_of_nil in Hc|].
    apply fmap_Some in Hx as (y & Hy & ->).
    assert (c ∈ children y ∨ c = next_pid t) as [Hcy| ->]; [|pose proof (Hborn q y c Hy Hcy)|]; try lia.
    revert Hc. unfold after_create. destruct (decide (parent = Some q)); [rewrite elem_of_add_child|]; naive_solver.
Qed.
End op_specs.

(** [take()] on a slot. *)
Lemma get_clear t i q : slots_ok t → (i < length (processes t))%nat →
  let t' := set_processes t (<[i := None]> (processes t)) in
  slots_ok t' ∧
  get_process t' q = if decide (q = Z.of_nat i + 1) then None else get_process t q.
Proof.
  intros Hok Hi t'. assert (slots_ok t') as Hok'.
  { intros j p. simpl. intros [(_ & ? & _)|[_ ?]]%list_lookup_insert_Some; [done|by apply Hok]. }
  split; [done|]. apply option_eq. intros x. rewrite (get_process_Some _ _ _ Hok'). simpl.
  destruct (decide (q = Z.of_nat i + 1)) as [->|Hne].
  - replace (Z.to_nat (Z.of_nat i + 1 - 1)) with i by lia.
    rewrite list_lookup_insert_eq by done. naive_solver.
  - rewrite (get_process_Some t _ _ Hok). split; intros [Hq Hx]; (split; [done|]).
    + by rewrite list_lookup_insert_ne in Hx by lia.
    + by rewrite list_lookup_insert_ne by lia.
Qed.

(** What removing [p], with identifier [id], does to the entry of [q]. *)
Definition after_remove (id : Z) (p : Process) (q : Z) (x : Process) : Process :=
  let x := if decide (parent_pid p = Some q) then remove_child x id else x in
  if decide (q ∈ children p) then terminate x (-1) else x.

Lemma after_remove_fields id p q x :
  parent_pid (after_remove id p q x) = parent_pid x ∧ pid (after_remove id p q x) = pid x ∧
  (state (after_remove id p q x) = Running → state x = Running) ∧
  (∀ c, c ∈ children (after_remove id p q x) → c ∈ children x).
Proof.
  unfold after_remove. destruct (decide (parent_pid p = Some q)), (decide (q ∈ children p)); simpl;
    split_and!; try done; by intros c [_ ?]%list_elem_of_filter.
Qed.

Lemma remove_process_spec t id : table_wf t →
  match remove_process t id with
  | (Ok p, t') =>
      get_process t id = Some p ∧ table_wf t' ∧ current_pid t' = current_pid t ∧
      max_processes t' = max_processes t ∧ len (processes t') = len (processes t) ∧
      ∀ q, get_process t' q = if decide (q = id) then None else after_remove id p q <$> get_process t q
  | (Err e, t') => e = ProcessNotFound ∧ t' = t ∧ get_process t id = None
  end.
Proof.
  intros [Hok Hn Hroom Hrun Hch Hborn]. unfold remove_process.
  destruct (position _ _) as [i|] eqn:Hi;
    [|split_and!; try done; unfold get_process; by rewrite Hi].
  apply position_pid in Hi as (-> & p & Hp); [|done]. rewrite Hp. simpl.
  pose proof (lookup_lt_Some _ _ _ Hp) as Hlt. set (id := Z.of_nat i + 1).
  assert (get_process t id = Some p) as Hget.
  { apply get_process_Some; [done|]. unfold id.
    replace (Z.to_nat (Z.of_nat i + 1 - 1)) with i by lia. split; [lia|done]. }
  set (t1 := set_processes t (<[i := None]> (processes t))).
  assert (slots_ok t1 ∧ ∀ q, get_process t1 q = if decide (q = id) then None else get_process t q) as [Hok1 Hg1].
  { split; [apply (get_clear t i 0 Hok Hlt)|]. intros q. apply (get_clear t i q Hok Hlt). }
  set (t2 := match parent_pid p with Some pp => update_process t1 pp (λ q, remove_child q id) | None => t1 end).
  assert (slots_ok t2 ∧ next_pid t2 = next_pid t ∧ current_pid t2 = current_pid t ∧
    max_processes t2 = max_processes t ∧ length (processes t2) = length (processes t) ∧
    ∀ q, get_process t2 q = if decide (q = id) then None else
      (λ x, if decide (parent_pid p = Some q) then remove_child x id else x) <$> get_process t q)
    as (Hok2 & Hn2 & Hc2 & Hm2 & Hl2 & Hg2).
  { unfold t2. destruct (parent_pid p) as [pp|].
    - destruct (update_process_fields t1 pp (λ q, remove_child q id)) as (? & ? & ? & ->).
      split_and!; try done; [by apply update_process_slots|simpl; by rewrite length_insert|].
      intros q. rewrite get_update, Hg1 by done.
      destruct (decide (q = pp)) as [->|]; destruct (decide (_ = id)); try done.
      + destruct (decide (Some pp = Some pp)); [done|congruence].
      + destruct (decide (Some pp = Some q)); [congruence|]. by destruct (get_process t q).
    - split_and!; try done; [simpl; by rewrite length_insert|].
      intros q. rewrite Hg1. destruct (decide (q = id)); [done|]. by destruct (get_process t q). }
  set (t3 := foldl _ t2 (children p)).
  destruct (terminate_all_fields t2 (children p)) as (Hn3 & Hc3 & Hm3 & Hl3). fold t3 in Hn3, Hc3, Hm3, Hl3.
  assert (slots_ok t3) as Hok3 by apply (get_terminate_all t2 (children p) 0 Hok2).
  assert (∀ q, get_process t3 q = if decide (q = id) then None else after_remove id p q <$> get_process t q) as Hg3.
  { intros q. destruct (get_terminate_all t2 (children p) q Hok2) as [_ Hg]. unfold t3. rewrite Hg, Hg2.
    unfold after_remove. destruct (decide (q = id)), (decide (q ∈ children p)); try done;
      by destruct (get_process t q). }
  split_and!; try done; try congruence; [|unfold len; lia].
  split; unfold len in *; rewrite ?Hn3, ?Hl3, ?Hl2, ?Hn2, ?Hm3, ?Hm2, ?Hc3, ?Hc2; try done; setoid_rewrite Hg3.
  - intros q x Hx Hst. destruct (decide (q = id)); [done|].
    apply fmap_Some in Hx as (y & Hy & ->). apply (Hrun q y Hy).
    by apply (after_remove_fields id p q y).
  - intros q x c pc Hx Hc Hpc. destruct (decide (q = id)), (decide (c = id)); try done.
    apply fmap_Some in Hx as (y & Hy & ->), Hpc as (z & Hz & ->).
    rewrite (proj1 (after_remove_fields id p c z)). eapply Hch; [exact Hy| |exact Hz].
    by apply (after_remove_fields id p q y).
  - intros q x c Hx Hc. destruct (decide (q = id)); [done|].
    apply fmap_Some in Hx as (y & Hy & ->). eapply Hborn; [exact Hy|].
    by apply (after_remove_fields id p q y).
Qed.

(** *** Scheduling a process *)
Definition demoted (t : ProcessTable) (q : Z) (x : Process) : Process :=
  if decide (current_pid t = Some q ∧ state x = Running) then set_state x Ready else x.

Lemma demoted_fields t q x :
  parent_pid (demoted t q x) = parent_pid x ∧ children (demoted t q x) = children x ∧
  (state (demoted t q x) = Running → state x = Running ∧ current_pid t ≠ Some q).
Proof. unfold demoted. case_decide as Hd; [done|]. split_and!; try done; tauto. Qed.

(** Rewriting every process with [f] keeps a table well formed if [f] leaves the
    family tree alone and only the current process ends up running. *)
Lemma table_wf_map t (f : Z → Process → Process) cur t' : table_wf t →
  (∀ q x, parent_pid (f q x) = parent_pid x ∧ children (f q x) = children x) →
  (∀ q x, get_process t q = Some x → state (f q x) = Running → cur = Some q) →
  slots_ok t' → next_pid t' = next_pid t → max_processes t' = max_processes t →
  length (processes t') = length (processes t) → current_pid t' = cur →
  (∀ q, get_process t' q = f q <$> get_process t q) → table_wf t'.
Proof.
  intros [Hok Hn Hroom Hrun Hch Hborn] Hf Hfr Hok' Hn' Hm' Hl' Hc' Hg'.
  split; unfold len in *; rewrite ?Hn', ?Hm', ?Hl', ?Hc'; try done; setoid_rewrite Hg'.
  - intros q x (y & Hy & ->)%fmap_Some Hst. by eapply Hfr.
  - intros q x c pc (y & Hy & ->)%fmap_Some Hc (z & Hz & ->)%fmap_Some.
    rewrite (proj1 (Hf c z)). rewrite (proj2 (Hf q y)) in Hc. by eapply Hch.
  - intros q x c (y & Hy & ->)%fmap_Some Hc. rewrite (proj2 (Hf q y)) in Hc. by eapply Hborn.
Qed.

(** The demotion of the process that was running. *)
Definition demote_current (t : ProcessTable) : ProcessTable :=
  match current_pid t with
  | Some c => update_process t c (λ p, if bool_decide (state p = Running) then set_state p Ready else p)
  | None => t
  end.
Lemma demote_current_spec t : slots_ok t → let t1 := demote_current t in
  slots_ok t1 ∧ next_pid t1 = next_pid t ∧ current_pid t1 = current_pid t ∧
  max_processes t1 = max_processes t ∧ length (processes t1) = length (processes t) ∧
  ∀ q, get_process t1 q = demoted t q <$> get_process t q.
Proof.
  intros Hok t1. unfold t1, demote_current, demoted. destruct (current_pid t) as [c|] eqn:Ecur.
  - destruct (update_process_fields t c (λ p, if bool_decide (state p = Running) then set_state p Ready else p))
      as (? & ? & ? & ?).
    assert (∀ p, pid (if bool_decide (state p = Running) then set_state p Ready else p) = pid p) as Hp
      by (intros; by case_bool_decide).
    split; [by apply update_process_slots|]. split_and!; try congruence.
    intros q. rewrite get_update by done.
    destruct (get_process t q) as [x|]; [|by destruct (decide (q = c))]. cbn [fmap option_fmap option_map].
    destruct (decide (q = c)) as [->|].
    + case_bool_decide; destruct (decide (Some c = Some c ∧ state x = Running)); try done; tauto.
    + destruct (decide (Some c = Some q ∧ state x = Running)) as [[? _]|]; [congruence|done].
  - split_and!; try done. intros q. destruct (get_process t q) as [x|]; [|done].
    cbn [fmap option_fmap option_map].
    destruct (decide (None = Some q ∧ state x = Running)) as [[? _]|]; [congruence|done].
Qed.

Lemma set_current_spec t new : table_wf t →
  match set_current_process t new with
  | (Ok _, t') =>
      (∀ n, new = Some n → is_Some (get_process t n)) ∧ table_wf t' ∧ current_pid t' = new ∧
      max_processes t' = max_processes t ∧ len (processes t') = len (processes t) ∧
      ∀ q, get_process t' q =
        (λ x, if decide (new = Some q) then set_state x Running else demoted t q x) <$> get_process t q
  | (Err e, t') =>
      e = ProcessNotFound ∧ (∃ n, new = Some n ∧ get_process t n = None) ∧ table_wf t' ∧
      current_pid t' = current_pid t ∧ max_processes t' = max_processes t ∧
      len (processes t') = len (processes t) ∧ ∀ q, get_process t' q = demoted t q <$> get_process t q
  end.
Proof.
  intros Hwf. pose proof Hwf as [Hok Hn Hroom Hrun Hch Hborn]. unfold set_current_process.
  fold (demote_current t). set (t1 := demote_current t).
  destruct (demote_current_spec t Hok) as (Hok1 & Hn1 & Hc1 & Hm1 & Hl1 & Hg1). fold t1 in Hok1, Hn1, Hc1, Hm1, Hl1, Hg1.
  assert (∀ q x, get_process t q = Some x → state (demoted t q x) = Running → False) as Hdem.
  { intros q x Hx (Hst & Hne)%demoted_fields. by apply Hne, (Hrun q x). }
  assert (len (processes t1) = len (processes t)) as Hlen by (unfold len; by rewrite Hl1).
  destruct new as [n|].
  - rewrite Hg1. destruct (get_process t n) as [pn|] eqn:Hpn; cbn [fmap option_fmap option_map].
    + set (t2 := update_process t1 n (λ p, set_state p Running)).
      destruct (update_process_fields t1 n (λ p, set_state p Running)) as (Hn2 & Hc2 & Hm2 & Hl2). fold t2 in Hn2, Hc2, Hm2, Hl2.
      assert (∀ q, get_process t2 q = (λ x, if decide (Some n = Some q) then set_state x Running
        else demoted t q x) <$> get_process t q) as Hg2.
      { intros q. unfold t2. rewrite get_update, Hg1 by done.
        destruct (get_process t q) as [x|]; [|by destruct (decide (q = n))].
        cbn [fmap option_fmap option_map].
        destruct (decide (q = n)) as [->|]; destruct (decide (Some n = Some _)); try congruence.
        unfold demoted. by destruct (decide _). }
      split_and!; [by intros ? [= <-]| |done|simpl; congruence|simpl; unfold len; lia|exact Hg2].
      eapply (table_wf_map t (λ q x, if decide (Some n = Some q) then set_state x Running else demoted t q x) (Some n));
        simpl; try congruence.
      * intros q x. destruct (decide _); [done|]. by destruct (demoted_fields t q x) as (? & ? & _).
      * intros q x Hx. destruct (decide (Some n = Some q)); [done|]. by intros ?%Hdem.
      * by apply update_process_slots.
      * exact Hg2.
    + split_and!; try done; eauto.
      eapply (table_wf_map t (demoted t) (current_pid t)); try done.
      * intros q x. by destruct (demoted_fields t q x) as (? & ? & _).
      * by intros q x Hx ?%Hdem.
  - split_and!; try done.
    eapply (table_wf_map t (demoted t) None); simpl; try done.
    + intros q x. by destruct (demoted_fields t q x) as (? & ? & _).
    + by intros q x Hx ?%Hdem.
Qed.

(** *** Queries *)
Lemma elem_of_pids_where f t q : slots_ok t →
  q ∈ pids_where f t ↔ ∃ p, get_process t q = Some p ∧ f p = true.
Proof.
  intros Hok. unfold pids_where. rewrite list_elem_of_fmap. split.
  - intros (p & -> & Hp). apply list_elem_of_In, filter_In in Hp as [Hp Hf].
    apply list_elem_of_In, list_elem_of_omap in Hp as ([x|] & Hin & Hx); simplify_eq/=.
    apply list_elem_of_lookup in Hin as [i Hi]. exists p. split; [|done].
    apply get_process_Some; [done|]. rewrite (Hok i p Hi).
    replace (Z.to_nat (Z.of_nat i + 1 - 1)) with i by lia. split; [lia|done].
  - intros (p & Hp & Hf). exists p. split; [by erewrite get_process_pid|].
    apply get_process_Some in Hp as [_ Hp]; [|done].
    apply list_elem_of_In, filter_In. split; [|done].
    apply list_elem_of_In, list_elem_of_omap. exists (Some p). split; [|done].
    by eapply list_elem_of_lookup_2.
Qed.

Lemma pids_bound t : slots_ok t → ∀ p, p ∈ omap id (processes t) → 1 ≤ pid p ≤ len (processes t).
Proof.
  intros Hok p ([x|] & Hin & Hx)%list_elem_of_omap; simplify_eq/=.
  apply list_elem_of_lookup in Hin as [i Hi]. rewrite (Hok i p Hi).
  apply lookup_lt_Some in Hi. unfold len. lia.
Qed.

Lemma pids_NoDup f t : slots_ok t → NoDup (pids_where f t).
Proof.
  intros Hok. unfold pids_where.
  assert (NoDup (pid <$> omap id (processes t))) as Hnd.
  { destruct t as [ps n c m]; simpl in *. induction ps as [|x ps IH] using rev_ind; [constructor|].
    assert (slots_ok (Build_ProcessTable ps n c m)) as Hok'.
    { intros i p Hi. simpl in Hi. apply Hok. simpl. by apply lookup_app_l_Some. }
    rewrite omap_app, fmap_app. destruct x as [p|]; simpl; [|rewrite app_nil_r; by apply IH].
    apply NoDup_app. split_and!; [by apply IH| |apply NoDup_singleton].
    intros q (y & -> & Hy)%list_elem_of_fmap Hq%list_elem_of_singleton.
    pose proof (pids_bound _ Hok' y Hy). simpl in *.
    rewrite (Hok (length ps) p) in Hq by (simpl; by apply list_lookup_middle).
    unfold len in *. lia. }
  eapply sublist_NoDup; [exact Hnd|]. apply fmap_sublist. clear Hnd.
  induction (omap id (processes t)) as [|x l IH]; simpl; [constructor|].
  destruct (f x); by constructor.
Qed.

(** *** Removing several processes *)
Definition orphaned (t : ProcessTable) (zs : list Z) (q : Z) : Prop :=
  ∃ z p, z ∈ zs ∧ get_process t z = Some p ∧ q ∈ children p.

Lemma remove_all_spec zs n t : table_wf t → NoDup zs → (∀ z, z ∈ zs → is_Some (get_process t z)) →
  ∃ t', foldl (λ '(n, t) id, let '(r, t) := remove_process t id in (if is_ok r then n + 1 else n, t)) (n, t) zs
          = (n + len zs, t') ∧
    table_wf t' ∧ max_processes t' = max_processes t ∧ len (processes t') = len (processes t) ∧
    (∀ q, q ∈ zs → get_process t' q = None) ∧
    (∀ q, get_process t q = None → get_process t' q = None) ∧
    ∀ q x, q ∉ zs → get_process t q = Some x → ∃ x', get_process t' q = Some x' ∧
      (orphaned t zs q ∧ state x' = Zombie ∧ exit_code x' = Some (-1) ∨
       ¬ orphaned t zs q ∧ state x' = state x ∧ exit_code x' = exit_code x).
Proof.
  revert n t. induction zs as [|z zs IH]; intros n t Hwf Hnd Hex; cbn [foldl].
  - exists t. split_and!; try done; [unfold len; simpl; by rewrite Z.add_0_r|
      by intros q Hq%not_elem_of_nil|].
    intros q x _ Hx. exists x. split; [done|]. right. split; [|done].
    by intros (z & p & Hz%not_elem_of_nil & _).
  - apply NoDup_cons in Hnd as [Hz Hnd]. pose proof (remove_process_spec t z Hwf) as Hr.
    destruct (Hex z (list_elem_of_here _ _)) as [pz Hpz].
    destruct (remove_process t z) as [[p|e] t1]; [|by destruct Hr as (_ & _ & ?); congruence].
    destruct Hr as (Hp & Hwf1 & _ & Hm1 & Hl1 & Hg1). assert (p = pz) as -> by congruence.
    destruct (IH (n + 1) t1) as (t' & Hf & Hwf' & Hm' & Hl' & Hgone & Habs & Hrest); try done.
    { intros y Hy. rewrite Hg1. destruct (decide (y = z)); [congruence|].
      destruct (Hex y) as [py ->]; [by right|]. simpl. eauto. }
    cbn [is_ok]. rewrite Hf. exists t'. split_and!; try done; try congruence.
    + f_equal. unfold len; simpl. lia.
    + intros q [->|Hq]%elem_of_cons; [|by apply Hgone]. apply Habs. rewrite Hg1.
      by rewrite decide_True.
    + intros q Hq. apply Habs. rewrite Hg1, Hq. by destruct (decide (q = z)).
    + intros q x [Hqz Hq]%not_elem_of_cons Hx.
      assert (get_process t1 q = Some (after_remove z pz q x)) as Hx1
        by (rewrite Hg1, decide_False, Hx by done; done).
      destruct (Hrest q _ Hq Hx1) as (x' & Hx' & Hst). exists x'. split; [done|].
      assert (orphaned t (z :: zs) q ↔ q ∈ children pz ∨ orphaned t1 zs q) as ->.
      { split.
        - intros (y & p & [->|Hy]%elem_of_cons & Hpy & Hqc); [left; congruence|].
          right. exists y, (after_remove z pz y p). split_and!; [done| |].
          + rewrite Hg1, decide_False, Hpy by (intros ->; done). done.
          + unfold after_remove. destruct (decide (parent_pid pz = Some y)), (decide (y ∈ children pz));
              simpl; try done; by apply list_elem_of_filter.
        - intros [Hqc|(y & p & Hy & Hpy & Hqc)]; [exists z, pz; split_and!; [by left|done..]|].
          rewrite Hg1 in Hpy. destruct (decide (y = z)); [done|].
          apply fmap_Some in Hpy as (p0 & Hp0 & ->). exists y, p0. split_and!; [by right|done|].
          by apply (after_remove_fields z pz y p0). }
      destruct Hst as [(Ho & ? & ?)|(Ho & Hs & He)]; [left; tauto|].
      revert Hs He. unfold after_remove.
      destruct (decide (parent_pid pz = Some q)), (decide (q ∈ children pz)); simpl; intros; tauto.
Qed.

(** ** Histories *)
Inductive table_op :=
  | OpCreate (parent : option Z) (nm : string) (prio : ProcessPriority)
  | OpRemove (id : Z)
  | OpSetCurrent (new : option Z)
  | OpCleanup.

Section histories.
Context {P : Profile}.

Definition table_step (t : ProcessTable) (o : table_op) : outcome ProcessTable :=
  match o with
  | OpCreate parent nm prio => snd <$> create_process t parent nm prio
  | OpRemove id => Val (remove_process t id).2
  | OpSetCurrent new => Val (set_current_process t new).2
  | OpCleanup => Val (cleanup_zombies t).2
  end.

Lemma cleanup_zombies_spec t : table_wf t →
  let zs := get_processes_by_state t Zombie in
  ∃ t', cleanup_zombies t = (len zs, t') ∧
    table_wf t' ∧ max_processes t' = max_processes t ∧ len (processes t') = len (processes t) ∧
    (∀ q, q ∈ zs → get_process t' q = None) ∧
    (∀ q, get_process t q = None → get_process t' q = None) ∧
    ∀ q x, q ∉ zs → get_process t q = Some x → ∃ x', get_process t' q = Some x' ∧
      (orphaned t zs q ∧ state x' = Zombie ∧ exit_code x' = Some (-1) ∨
       ¬ orphaned t zs q ∧ state x' = state x ∧ exit_code x' = exit_code x).
Proof.
  intros Hwf zs. destruct (remove_all_spec zs 0 t Hwf) as (t' & Hc & Hrest).
  - apply pids_NoDup, Hwf.
  - intros z (p & Hp & _)%elem_of_pids_where; [eauto|apply Hwf].
  - exists t'. by rewrite Z.add_0_l in Hc.
Qed.

Lemma table_step_wf t o : table_wf t →
  ∃ t', table_step t o = Val t' ∧ table_wf t' ∧ max_processes t' = max_processes t ∧
        len (processes t) ≤ len (processes t').
Proof.
  intros Hwf. destruct o as [parent nm prio|id|new|]; simpl.
  - destruct (decide (len (processes t) < max_processes t)) as [Hlt|Hge].
    + destruct (create_process_spec t parent nm prio Hwf Hlt) as (t' & -> & ? & _ & _ & ? & ? & _).
      exists t'. simpl. split_and!; try done. lia.
    + unfold create_process. rewrite (proj2 (Z.leb_le _ _)) by lia. exists t. by simpl.
  - pose proof (remove_process_spec t id Hwf) as Hr.
    destruct (remove_process t id) as [[p|e] t']; eexists; (split; [done|]); simpl.
    + destruct Hr as (_ & ? & _ & ? & ? & _). split_and!; try done. lia.
    + by destruct Hr as (_ & -> & _).
  - pose proof (set_current_spec t new Hwf) as Hr.
    destruct (set_current_process t new) as [[p|e] t']; eexists; (split; [done|]); simpl.
    + destruct Hr as (_ & ? & _ & ? & ? & _). split_and!; try done. lia.
    + destruct Hr as (_ & _ & ? & _ & ? & ? & _). split_and!; try done. lia.
  - destruct (cleanup_zombies_spec t Hwf) as (t' & -> & ? & ? & ? & _). exists t'. simpl.
    split_and!; try done. lia.
Qed.

Lemma table_run_wf ops t : table_wf t →
  ∃ t', for_each (λ o t, table_step t o) ops t = Val t' ∧ table_wf t' ∧
        max_processes t' = max_processes t ∧ len (processes t) ≤ len (processes t').
Proof.
  intros Hwf. destruct (for_each_inv (λ _ t', table_wf t' ∧ max_processes t' = max_processes t ∧
    len (processes t) ≤ len (processes t')) (λ o t, table_step t o) ops t) as (t' & ? & ? & ? & ?).
  - intros d o todo t1 _ (Hw & Hm & Hl).
    destruct (table_step_wf t1 o Hw) as (t2 & -> & ? & ? & ?). exists t2. split_and!; try done; [congruence|lia].
  - done.
  - eauto.
Qed.
End histories.

(** ** Properties *)
Section properties.
Context {P : Profile}.

(** C8: After any sequence of table operations (creations, removals, process
    switches, zombie clean-ups) from an empty table: no operation panics, every
    live process is found under its own identifier, no two live processes share
    one, the process in state [Running], if any, is the current one (so at most
    one runs), and every recorded child that is alive names its parent. *)
Theorem process_table_invariant max ops :
  0 ≤ max < 2 ^ 32 - 1 →
  ∃ t, for_each (λ o t, table_step t o) ops (table_new max) = Val t ∧
    len (processes t) ≤ max ∧ NoDup (pids_where (λ _, true) t) ∧
    (∀ q p, get_process t q = Some p →
       pid p = q ∧ (state p = Running → current_pid t = Some q) ∧
       ∀ c pc, c ∈ children p → get_process t c = Some pc → parent_pid pc = Some q).
Proof.
  intros Hmax. destruct (table_run_wf ops _ (table_new_wf max Hmax)) as (t & ? & Hwf & Hm & _).
  exists t. split; [done|]. pose proof (tw_room t Hwf) as [? _]. rewrite Hm in *. split; [done|].
  split; [apply pids_NoDup, Hwf|]. intros q p Hp.
  split_and!; [eapply get_process_pid; [apply Hwf|done]|by apply (tw_running t Hwf)|].
  intros c pc. by apply (tw_children t Hwf q p).
Qed.

(** [create_process] fails exactly when the slot vector has reached the
    maximum, changing nothing; otherwise it returns an identifier that no
    process has, under which a fresh [Ready] process is found, adds it to the
    parent's children if the parent is alive, and changes no other process. *)
Theorem create_process_exact t parent nm prio :
  table_wf t →
  ∃ r t', create_process t parent nm prio = Val (r, t') ∧ table_wf t' ∧
    match r with
    | Err e => e = ProcessTableFull ∧ t' = t ∧ len (processes t) = max_processes t
    | Ok id => len (processes t) < max_processes t ∧ get_process t id = None ∧
        ∀ q, get_process t' q =
          if decide (q = id) then Some (set_state (process_new q parent nm prio) Ready)
          else after_create parent id q <$> get_process t q
    end.
Proof.
  intros Hwf. pose proof (tw_room t Hwf) as [Hl _].
  destruct (decide (len (processes t) < max_processes t)) as [Hlt|Hge].
  - destruct (create_process_spec t parent nm prio Hwf Hlt) as (t' & ? & ? & ? & _ & _ & _ & ?). eauto 8.
  - exists (Err ProcessTableFull), t. unfold create_process.
    rewrite (proj2 (Z.leb_le _ _)) by lia. split_and!; try done. lia.
Qed.

(** [remove_process] fails exactly for an identifier without process,
    changing nothing; otherwise it returns the process, which is gone
    afterwards, drops it from its parent's children, terminates its living
    children with exit code -1, and changes no other process. *)
Theorem remove_process_exact t id :
  table_wf t →
  let '(r, t') := remove_process t id in
  table_wf t' ∧
  match r with
  | Err e => e = ProcessNotFound ∧ t' = t ∧ get_process t id = None
  | Ok p => get_process t id = Some p ∧
      ∀ q, get_process t' q = if decide (q = id) then None else after_remove id p q <$> get_process t q
  end.
Proof.
  intros Hwf. pose proof (remove_process_spec t id Hwf) as Hr.
  destruct (remove_process t id) as [[p|e] t'].
  - destruct Hr as (? & ? & _ & _ & _ & ?). done.
  - by destruct Hr as (-> & -> & ?).
Qed.

(** [set_current_process] with a living process makes exactly that process
    [Running] and demotes the previous current one to [Ready]; it does so for
    any living process, also a zombie or blocked one.  With an identifier that
    has no process it reports an error but has already demoted the running
    process, which stays the current one on record. *)
Theorem set_current_process_exact t new :
  table_wf t →
  let '(r, t') := set_current_process t new in
  table_wf t' ∧
  match r with
  | Ok _ => current_pid t' = new ∧ ∀ q, get_process t' q =
      (λ x, if decide (new = Some q) then set_state x Running else demoted t q x) <$> get_process t q
  | Err e => e = ProcessNotFound ∧ current_pid t' = current_pid t ∧
      (∀ q x, get_process t' q = Some x → state x ≠ Running) ∧
      ∀ q, get_process t' q = demoted t q <$> get_process t q
  end.
Proof.
  intros Hwf. pose proof (set_current_spec t new Hwf) as Hr.
  destruct (set_current_process t new) as [[[]|e] t'].
  - destruct Hr as (_ & ? & ? & _ & _ & ?). done.
  - destruct Hr as (-> & _ & ? & ? & _ & _ & Hg). split_and!; try done. intros q x Hx Hst.
    rewrite Hg in Hx. apply fmap_Some in Hx as (y & Hy & ->).
    apply demoted_fields in Hst as [Hst Hne]. by apply Hne, (tw_running t Hwf q y).
Qed.

(** [cleanup_zombies] removes exactly the zombies present when it starts
    and reports their number.  Their surviving children become zombies with
    exit code -1 (and wait for the next clean-up); every other process keeps
    its state and exit code. *)
Theorem cleanup_zombies_exact t :
  table_wf t →
  let zs := get_processes_by_state t Zombie in
  ∃ t', cleanup_zombies t = (len zs, t') ∧ table_wf t' ∧
    (∀ q, q ∈ zs ↔ ∃ p, get_process t q = Some p ∧ state p = Zombie) ∧
    (∀ q, q ∈ zs → get_process t' q = None) ∧
    ∀ q x, q ∉ zs → get_process t q = Some x → ∃ x', get_process t' q = Some x' ∧
      (orphaned t zs q ∧ state x' = Zombie ∧ exit_code x' = Some (-1) ∨
       ¬ orphaned t zs q ∧ state x' = state x ∧ exit_code x' = exit_code x).
Proof.
  intros Hwf zs. destruct (cleanup_zombies_spec t Hwf) as (t' & ? & ? & _ & _ & ? & _ & ?).
  exists t'. split_and!; try done. intros q. unfold zs, get_processes_by_state.
  rewrite elem_of_pids_where by apply Hwf. by setoid_rewrite bool_decide_eq_true.
Qed.

(** Slots are never reused: once as many processes have been created as the
    table may hold, every later creation fails with [ProcessTableFull], whatever
    is removed or cleaned up in between. *)
Theorem full_table_stays_full t ops parent nm prio :
  table_wf t → len (processes t) = max_processes t →
  ∃ t', for_each (λ o t, table_step t o) ops t = Val t' ∧
        create_process t' parent nm prio = Val (Err ProcessTableFull, t').
Proof.
  intros Hwf Hfull. destruct (table_run_wf ops t Hwf) as (t' & ? & _ & Hm & Hl).
  exists t'. split; [done|]. unfold create_process. by rewrite (proj2 (Z.leb_le _ _)) by lia.
Qed.
End properties.

(** ** Concrete instances *)
Definition run_table (ops : list table_op) (max : Z) : ProcessTable :=
  match for_each (λ o t, table_step (P:=dev) t o) ops (table_new max) with Val t => t | _ => table_new max end.

(** A running parent with one child, in a table of two. *)
Definition family : ProcessTable :=
  run_table [OpCreate None "init" System; OpCreate (Some 1) "shell" Normal; OpSetCurrent (Some 1)] 2.
Lemma family_wf : table_wf family.
Proof.
  unfold family, run_table.
  by destruct (table_run_wf (P:=dev) [OpCreate None "init" System; OpCreate (Some 1) "shell" Normal;
    OpSetCurrent (Some 1)] (table_new 2) (table_new_wf 2 ltac:(lia))) as (t & -> & ? & _).
Qed.

Lemma process_table_invariant_witness :
  ∃ t, for_each (λ o t, table_step (P:=dev) t o)
         [OpCreate None "init" System; OpCreate (Some 1) "shell" Normal; OpSetCurrent (Some 2); OpRemove 1; OpCleanup]
         (table_new MAX_PROCESSES) = Val t ∧
    len (processes t) ≤ MAX_PROCESSES ∧ NoDup (pids_where (λ _, true) t) ∧
    (∀ q p, get_process t q = Some p →
       pid p = q ∧ (state p = Running → current_pid t = Some q) ∧
       ∀ c pc, c ∈ children p → get_process t c = Some pc → parent_pid pc = Some q).
Proof. apply process_table_invariant. vm_compute. split; [discriminate|reflexivity]. Defined.

Lemma create_process_exact_witness :
  ∃ r t', create_process (P:=dev) (table_new 4) None "init" System = Val (r, t') ∧ table_wf t' ∧
    match r with
    | Err e => e = ProcessTableFull ∧ t' = table_new 4 ∧ len (processes (table_new 4)) = max_processes (table_new 4)
    | Ok id => len (processes (table_new 4)) < max_processes (table_new 4) ∧ get_process (table_new 4) id = None ∧
        ∀ q, get_process t' q =
          if decide (q = id) then Some (set_state (process_new q None "init" System) Ready)
          else after_create None id q <$> get_process (table_new 4) q
    end.
Proof. apply create_process_exact, table_new_wf. lia. Defined.

Lemma remove_process_exact_witness :
  let '(r, t') := remove_process family 1 in
  table_wf t' ∧
  match r with
  | Err e => e = ProcessNotFound ∧ t' = family ∧ get_process family 1 = None
  | Ok p => get_process family 1 = Some p ∧
      ∀ q, get_process t' q = if decide (q = 1) then None else after_remove 1 p q <$> get_process family q
  end.
Proof. apply remove_process_exact, family_wf. Defined.

Lemma set_current_process_exact_witness :
  let '(r, t') := set_current_process family (Some 9) in
  table_wf t' ∧
  match r with
  | Ok _ => current_pid t' = Some 9 ∧ ∀ q, get_process t' q =
      (λ x, if decide (Some 9 = Some q) then set_state x Running else demoted family q x) <$> get_process family q
  | Err e => e = ProcessNotFound ∧ current_pid t' = current_pid family ∧
      (∀ q x, get_process t' q = Some x → state x ≠ Running) ∧
      ∀ q, get_process t' q = demoted family q <$> get_process family q
  end.
Proof. apply set_current_process_exact, family_wf. Defined.

Lemma cleanup_zombies_exact_witness :
  let zs := get_processes_by_state family Zombie in
  ∃ t', cleanup_zombies family = (len zs, t') ∧ table_wf t' ∧
    (∀ q, q ∈ zs ↔ ∃ p, get_process family q = Some p ∧ state p = Zombie) ∧
    (∀ q, q ∈ zs → get_process t' q = None) ∧
    ∀ q x, q ∉ zs → get_process family q = Some x → ∃ x', get_process t' q = Some x' ∧
      (orphaned family zs q ∧ state x' = Zombie ∧ exit_code x' = Some (-1) ∨
       ¬ orphaned family zs q ∧ state x' = state x ∧ exit_code x' = exit_code x).
Proof. apply cleanup_zombies_exact, family_wf. Defined.

(** The full table above, emptied again, still refuses a new process. *)
Lemma full_table_stays_full_witness :
  ∃ t', for_each (λ o t, table_step (P:=dev) t o) [OpRemove 1; OpCleanup] family = Val t' ∧
        create_process (P:=dev) t' None "late" Normal = Val (Err ProcessTableFull, t').
Proof. apply full_table_stays_full; [apply family_wf|reflexivity]. Defined.
