(* ===== verification/Ipc.v ===== *)
(** * Message passing

    Models [kernel/src/ipc/message.rs], [kernel/src/ipc/queue.rs] and the
    composition of the IPC system in [kernel/src/ipc/mod.rs].  Sending consults
    the process table of [Process] and the capabilities of [Capability]; each
    receiver has a bounded queue ordered by priority, first come first served
    within a priority.

    [size_of::<MessageHeader>()] and [size_of::<Capability>()] are layout
    choices of the compiler and are the class [Layout]. *)
From S2P Require Import Prelude Capability Process.

Class Layout := { header_size : Z; capability_size : Z }.

(** ** Messages *)
Inductive MessageType :=
  SystemCallMsg | DriverRequest | ServiceRequest | Signal | Response | ErrorMsg.
#[export] Instance MessageType_eq_dec : EqDecision MessageType.
Proof. solve_decision. Defined.

Inductive MessageData :=
  | EmptyData
  | Bytes (data : list Z)
  | Text (text : string)
  | Structured (type_id : Z) (data : list Z)
  | SystemCallData (call_number : Z) (args : list Z)
  | ErrorData (error_code : Z) (message : string).

Record MessageFlags := {
  synchronous : bool; no_queue : bool; has_capabilities : bool; broadcast : bool;
}.
Definition default_flags : MessageFlags :=
  {| synchronous := false; no_queue := false; has_capabilities := false; broadcast := false |}.

Record MessageHeader := {
  message_id : Z;
  sender : Z;
  receiver : Z;
  message_type : MessageType;
  msg_priority : Z;
  timestamp : Z;
  reply_to : option Z;
  flags : MessageFlags;
}.
Record Message := { header : MessageHeader; data : MessageData; capabilities : CapabilitySet }.

Inductive MessageError :=
  | InvalidMessage | SenderNotFound | ReceiverNotFound | QueueFull | NoMessage
  | MsgPermissionDenied | MessageTooLarge | Timeout | MsgResourceExhausted.
#[export] Instance MessageError_eq_dec : EqDecision MessageError.
Proof. solve_decision. Defined.

Definition data_size (d : MessageData) : Z :=
  match d with
  | EmptyData => 0
  | Bytes b => len b
  | Text s => Z.of_nat (String.length s)
  | Structured _ b => len b + 4
  | SystemCallData _ _ => 4 + 6 * 8
  | ErrorData _ s => 4 + Z.of_nat (String.length s)
  end.

Section messages.
Context {P : Profile} {L : Layout}.

Definition total_size (m : Message) : outcome Z :=
  c ← umul 64 (len (capabilities m)) capability_size;
  n ← uadd 64 header_size (data_size (data m));
  uadd 64 n c.

Definition generate_message_id (next : Z) : outcome (Z * Z) :=
  next' ← uadd 64 next 1; Val (next, next').

(** [Message::new]; the second component is the counter after it. *)
Definition message_new (next from to : Z) (ty : MessageType) (d : MessageData) : outcome (Message * Z) :=
  '(id, next) ← generate_message_id next;
  Val ({| header := {| message_id := id; sender := from; receiver := to; message_type := ty;
                       msg_priority := 128; timestamp := get_current_time_ms; reply_to := None;
                       flags := default_flags |};
          data := d; capabilities := [] |}, next).

Definition create_reply (next : Z) (m : Message) (from : Z) (d : MessageData) : outcome (Message * Z) :=
  '(id, next) ← generate_message_id next;
  Val ({| header := {| message_id := id; sender := from; receiver := sender (header m);
                       message_type := Response; msg_priority := msg_priority (header m);
                       timestamp := get_current_time_ms; reply_to := Some (message_id (header m));
                       flags := default_flags |};
          data := d; capabilities := [] |}, next).

Definition set_flags (h : MessageHeader) (p : Z) (f : MessageFlags) : MessageHeader :=
  {| message_id := message_id h; sender := sender h; receiver := receiver h;
     message_type := message_type h; msg_priority := p; timestamp := timestamp h;
     reply_to := reply_to h; flags := f |}.
Definition set_priority (m : Message) (p : Z) : Message :=
  {| header := set_flags (header m) p (flags (header m)); data := data m; capabilities := capabilities m |}.
Definition set_synchronous (m : Message) (b : bool) : Message :=
  let f := flags (header m) in
  {| header := set_flags (header m) (msg_priority (header m))
       {| synchronous := b; no_queue := no_queue f; has_capabilities := has_capabilities f;
          broadcast := broadcast f |};
     data := data m; capabilities := capabilities m |}.
Definition add_capabilities (m : Message) (caps : CapabilitySet) : Message :=
  let f := flags (header m) in
  {| header := set_flags (header m) (msg_priority (header m))
       {| synchronous := synchronous f; no_queue := no_queue f;
          has_capabilities := negb (is_empty caps); broadcast := broadcast f |};
     data := data m; capabilities := caps |}.
Definition is_reply (m : Message) : bool := bool_decide (is_Some (reply_to (header m))).
Definition is_synchronous (m : Message) : bool := synchronous (flags (header m)).

(** ** One queue *)
Record MessageQueue := {
  process_id : Z;
  messages : list Message;
  q_total_size : Z;
  max_messages : Z;
  max_size : Z;
  messages_received : Z;
  messages_sent : Z;
  queue_full_count : Z;
}.
Definition MAX_MESSAGES_PER_QUEUE : Z := 256.
Definition MAX_QUEUE_SIZE_BYTES : Z := 64 * 1024.

Definition queue_new (pid : Z) : MessageQueue :=
  {| process_id := pid; messages := []; q_total_size := 0; max_messages := MAX_MESSAGES_PER_QUEUE;
     max_size := MAX_QUEUE_SIZE_BYTES; messages_received := 0; messages_sent := 0;
     queue_full_count := 0 |}.

Definition can_accept_message (q : MessageQueue) (m : Message) : outcome bool :=
  size ← total_size m;
  if max_messages q <=? len (messages q) then Val false
  else
    n ← uadd 64 (q_total_size q) size;
    Val (negb (max_size q <? n)).

(** Before the first message of lower priority (higher number). *)
Definition insert_pos (q : list Message) (m : Message) : nat :=
  default (length q) (position (λ x, msg_priority (header m) <? msg_priority (header x)) q).

Definition enqueue (q : MessageQueue) (m : Message) : outcome (result unit MessageError * MessageQueue) :=
  ok ← can_accept_message q m;
  if negb ok then
    full ← uadd 64 (queue_full_count q) 1;
    Val (Err QueueFull,
      {| process_id := process_id q; messages := messages q; q_total_size := q_total_size q;
         max_messages := max_messages q; max_size := max_size q;
         messages_received := messages_received q; messages_sent := messages_sent q;
         queue_full_count := full |})
  else
    size ← total_size m;
    total ← uadd 64 (q_total_size q) size;
    received ← uadd 64 (messages_received q) 1;
    Val (Ok (),
      {| process_id := process_id q; messages := vec_insert (insert_pos (messages q) m) m (messages q);
         q_total_size := total; max_messages := max_messages q; max_size := max_size q;
         messages_received := received; messages_sent := messages_sent q;
         queue_full_count := queue_full_count q |}).

Definition set_messages (q : MessageQueue) (ms : list Message) (size : Z) : MessageQueue :=
  {| process_id := process_id q; messages := ms; q_total_size := size;
     max_messages := max_messages q; max_size := max_size q;
     messages_received := messages_received q; messages_sent := messages_sent q;
     queue_full_count := queue_full_count q |}.

Definition dequeue (q : MessageQueue) : outcome (result Message MessageError * MessageQueue) :=
  match messages q with
  | [] => Val (Err NoMessage, q)
  | m :: ms =>
      size ← total_size m;
      Val (Ok m, set_messages q ms (saturating_sub (q_total_size q) size))
  end.

Definition peek (q : MessageQueue) : option Message := head (messages q).
Definition is_full (q : MessageQueue) : bool :=
  (max_messages q <=? len (messages q)) || (max_size q <=? q_total_size q).
Definition clear (q : MessageQueue) : MessageQueue := set_messages q [] 0.

(** ** The queue manager *)
Record MessageQueueManager := {
  queues : gmap Z MessageQueue;
  total_messages : Z;
  total_queues_created : Z;
}.
Inductive MessageQueueError :=
  QueueNotFound | QueueAlreadyExists | QueueResourceExhausted | InvalidProcessId.

Definition new_queue_manager : MessageQueueManager :=
  {| queues := ∅; total_messages := 0; total_queues_created := 0 |}.

Definition create_queue (mg : MessageQueueManager) (pid : Z) :
    outcome (result unit MessageQueueError * MessageQueueManager) :=
  match queues mg !! pid with
  | Some _ => Val (Err QueueAlreadyExists, mg)
  | None =>
      n ← uadd 64 (total_queues_created mg) 1;
      Val (Ok (), {| queues := <[pid := queue_new pid]> (queues mg);
                     total_messages := total_messages mg; total_queues_created := n |})
  end.

Definition get_or_create_queue (mg : MessageQueueManager) (pid : Z) :
    outcome (MessageQueue * MessageQueueManager) :=
  mg ← (match queues mg !! pid with
        | Some _ => Val mg
        | None => '(_, mg) ← create_queue mg pid; Val mg
        end);
  match queues mg !! pid with Some q => Val (q, mg) | None => Panic end.

Definition put_queue (mg : MessageQueueManager) (pid : Z) (q : MessageQueue) (total : Z) : MessageQueueManager :=
  {| queues := <[pid := q]> (queues mg); total_messages := total;
     total_queues_created := total_queues_created mg |}.

Definition manager_enqueue (mg : MessageQueueManager) (pid : Z) (m : Message) :
    outcome (result unit MessageError * MessageQueueManager) :=
  '(q, mg) ← get_or_create_queue mg pid;
  '(r, q) ← enqueue q m;
  match r with
  | Err e => Val (Err e, put_queue mg pid q (total_messages mg))
  | Ok _ => n ← uadd 64 (total_messages mg) 1; Val (Ok (), put_queue mg pid q n)
  end.

Definition manager_dequeue (mg : MessageQueueManager) (pid : Z) :
    outcome (result Message MessageError * MessageQueueManager) :=
  match queues mg !! pid with
  | None => Val (Err ReceiverNotFound, mg)
  | Some q =>
      '(r, q) ← dequeue q;
      match r with
      | Err e => Val (Err e, put_queue mg pid q (total_messages mg))
      | Ok m => Val (Ok m, put_queue mg pid q (saturating_sub (total_messages mg) 1))
      end
  end.

Definition remove_queue (mg : MessageQueueManager) (pid : Z) :
    result MessageQueue MessageQueueError * MessageQueueManager :=
  match queues mg !! pid with
  | None => (Err QueueNotFound, mg)
  | Some q => (Ok q, {| queues := delete pid (queues mg); total_messages := total_messages mg;
                        total_queues_created := total_queues_created mg |})
  end.

Record GlobalQueueStatistics := {
  active_queues : Z; total_pending_messages : Z; total_messages_sent : Z;
  total_messages_received : Z; total_queue_full_events : Z; gq_total_queues_created : Z;
}.
Definition get_global_statistics (mg : MessageQueueManager) : GlobalQueueStatistics :=
  let qs := (map_to_list (queues mg)).*2 in
  {| active_queues := Z.of_nat (size (queues mg));
     total_pending_messages := sumZ (λ q, len (messages q)) qs;
     total_messages_sent := sumZ messages_sent qs;
     total_messages_received := sumZ messages_received qs;
     total_queue_full_events := sumZ queue_full_count qs;
     gq_total_queues_created := total_queues_created mg |}.

(** ** The IPC system: the globals it touches *)
Record IpcState := {
  table : option ProcessTable;
  caps : CapState;
  queue_manager : option MessageQueueManager;
  next_message_id : Z;
}.
Definition set_caps (st : IpcState) (c : CapState) : IpcState :=
  {| table := table st; caps := c; queue_manager := queue_manager st; next_message_id := next_message_id st |}.
Definition set_queues (st : IpcState) (mg : MessageQueueManager) : IpcState :=
  {| table := table st; caps := caps st; queue_manager := Some mg; next_message_id := next_message_id st |}.

(** [process::get_process(pid)]. *)
Definition lookup_process (st : IpcState) (pid : Z) : option Process :=
  t ← table st; get_process t pid.

Definition enqueue_message (st : IpcState) (pid : Z) (m : Message) : outcome (result unit MessageError * IpcState) :=
  match queue_manager st with
  | None => Val (Err MsgResourceExhausted, st)
  | Some mg => '(r, mg) ← manager_enqueue mg pid m; Val (r, set_queues st mg)
  end.
Definition dequeue_message (st : IpcState) (pid : Z) : outcome (result Message MessageError * IpcState) :=
  match queue_manager st with
  | None => Val (Err MsgResourceExhausted, st)
  | Some mg => '(r, mg) ← manager_dequeue mg pid; Val (r, set_queues st mg)
  end.

Definition send_message (st : IpcState) (m : Message) : outcome (result unit MessageError * IpcState) :=
  if decide (lookup_process st (sender (header m)) = None) then Val (Err SenderNotFound, st)
  else if decide (lookup_process st (receiver (header m)) = None) then Val (Err ReceiverNotFound, st)
  else
    '(allowed, c) ← check_capability (caps st) (sender (header m)) SendMessage
                      (ProcessResource (receiver (header m)));
    let st := set_caps st c in
    if negb allowed then Val (Err MsgPermissionDenied, st)
    else enqueue_message st (receiver (header m)) m.

Definition receive_message (st : IpcState) (pid : Z) : outcome (result Message MessageError * IpcState) :=
  if decide (lookup_process st pid = None) then Val (Err ReceiverNotFound, st)
  else dequeue_message st pid.

Definition reply_message (st : IpcState) (m : Message) (from : Z) (d : MessageData) :
    outcome (result unit MessageError * IpcState) :=
  '(reply, next) ← create_reply (next_message_id st) m from d;
  send_message {| table := table st; caps := caps st; queue_manager := queue_manager st;
                  next_message_id := next |} reply.

(** [init_ipc_system]: queues and capabilities start empty (the policy is the
    constant [new_policy]). *)
Definition init_ipc_system (st : IpcState) : IpcState :=
  {| table := table st; caps := init_capability_system (caps st);
     queue_manager := Some new_queue_manager; next_message_id := next_message_id st |}.
End messages.

(** ** Priority order *)
Abbreviation prio m := (msg_priority (header m)).
Definition prio_le (a b : Message) : Prop := prio a ≤ prio b.

(** Reference definition: after everything at least as urgent. *)
Definition insert_by_priority (m : Message) (l : list Message) : list Message :=
  filter (λ x, prio x ≤ prio m) l ++ m :: filter (λ x, prio m < prio x) l.

Lemma filter_all_true {A} (p : A → Prop) `{∀ x, Decision (p x)} l : Forall p l → filter p l = l.
Proof. induction 1; [done|]. rewrite filter_cons_True by done. by f_equal. Qed.
Lemma filter_all_false {A} (p : A → Prop) `{∀ x, Decision (p x)} l : Forall (λ x, ¬ p x) l → filter p l = [].
Proof. induction 1; [done|]. by rewrite filter_cons_False. Qed.

Lemma insert_pos_spec m l : StronglySorted prio_le l →
  vec_insert (insert_pos l m) m l = insert_by_priority m l.
Proof.
  unfold insert_pos, vec_insert, insert_by_priority.
  induction 1 as [|x l Hs IH Hx]; [done|]. cbn [position].
  destruct (Z.ltb_spec (prio m) (prio x)) as [Hlt|Hge].
  - simpl. rewrite filter_cons_False, filter_cons_True by lia.
    assert (Forall (λ y, prio m < prio y) l) as Hl
      by (eapply Forall_impl; [exact Hx|]; unfold prio_le; intros; lia).
    rewrite filter_all_false, filter_all_true; [done|done|].
    eapply Forall_impl; [exact Hl|]. simpl. lia.
  - rewrite filter_cons_True, filter_cons_False by lia. simpl.
    rewrite <-IH. by destruct (position _ l).
Qed.

Lemma elem_of_insert m l x : x ∈ insert_by_priority m l ↔ x = m ∨ x ∈ l.
Proof.
  unfold insert_by_priority. rewrite elem_of_app, elem_of_cons, !list_elem_of_filter.
  destruct (decide (prio x ≤ prio m)); intuition lia.
Qed.

Lemma insert_Permutation m l : insert_by_priority m l ≡ₚ m :: l.
Proof.
  unfold insert_by_priority. rewrite <-Permutation_middle. apply perm_skip.
  induction l as [|x l IH]; [done|]. destruct (decide (prio x ≤ prio m)).
  - rewrite filter_cons_True, filter_cons_False by lia. simpl. by rewrite IH.
  - rewrite filter_cons_False, filter_cons_True by lia. by rewrite <-Permutation_middle, IH.
Qed.

Lemma insert_sorted m l : StronglySorted prio_le l → StronglySorted prio_le (insert_by_priority m l).
Proof.
  intros Hs. unfold insert_by_priority. induction Hs as [|x l Hs IH Hx]; [by repeat constructor|].
  destruct (decide (prio x ≤ prio m)).
  - rewrite filter_cons_True, filter_cons_False by lia. simpl. constructor; [done|].
    apply Forall_forall. intros y. rewrite elem_of_app, elem_of_cons, !list_elem_of_filter.
    rewrite Forall_forall in Hx. unfold prio_le in *. intros [[_ ?]|[->|[_ ?]]]; auto.
  - rewrite filter_cons_False, filter_cons_True by lia.
    assert (Forall (λ y, prio m < prio y) l) as Hl
      by (eapply Forall_impl; [exact Hx|]; unfold prio_le; intros; lia).
    rewrite filter_all_false, filter_all_true;
      [|done|eapply Forall_impl; [exact Hl|]; simpl; lia].
    simpl. constructor; [by constructor|]. constructor; [unfold prio_le; lia|].
    eapply Forall_impl; [exact Hl|]. unfold prio_le. lia.
Qed.

(** Within a priority, arrival order. *)
Lemma insert_fifo m l k :
  filter (λ x, prio x = k) (insert_by_priority m l) =
  filter (λ x, prio x = k) l ++ (if decide (prio m = k) then [m] else []).
Proof.
  unfold insert_by_priority. rewrite filter_app.
  assert (∀ p : Message → Prop, ∀ `{∀ x, Decision (p x)}, (∀ x, prio x = k → p x) →
    filter (λ x, prio x = k) (filter p l) = filter (λ x, prio x = k) l) as Hsub.
  { intros p Hd Hp. induction l as [|x l IH]; [done|]. destruct (decide (p x)).
    - rewrite (filter_cons_True p) by done. rewrite !filter_cons. by rewrite IH.
    - rewrite (filter_cons_False p) by done. rewrite filter_cons_False by eauto. done. }
  assert (∀ p : Message → Prop, ∀ `{∀ x, Decision (p x)}, (∀ x, prio x = k → ¬ p x) →
    filter (λ x, prio x = k) (filter p l) = []) as Hnone.
  { intros p Hd Hp. apply filter_all_false, Forall_forall. intros x [Hx _]%list_elem_of_filter Hk. by eapply Hp. }
  rewrite filter_cons. destruct (decide (prio m = k)) as [<-|Hne].
  - rewrite Hsub, Hnone by (intros; lia). done.
  - rewrite app_nil_r. destruct (decide (k < prio m)).
    + rewrite Hsub, Hnone, app_nil_r by (intros; lia). done.
    + rewrite Hnone, Hsub by (intros; lia). done.
Qed.

(** ** Queue invariant *)
Section queue_specs.
Context {P : Profile} {L : Layout} (Hhead : 0 ≤ header_size) (Hcap : 0 ≤ capability_size).

Definition msize (m : Message) : Z :=
  header_size + data_size (data m) + len (capabilities m) * capability_size.
Definition msg_ok (m : Message) : Prop := msize m < 2 ^ 63.

Lemma data_size_nonneg d : 0 ≤ data_size d.
Proof. destruct d; simpl; unfold len; lia. Qed.
Lemma msize_nonneg m : 0 ≤ msize m.
Proof.
  unfold msize. pose proof (data_size_nonneg (data m)). pose proof (len_nonneg (capabilities m)).
  assert (0 ≤ len (capabilities m) * capability_size) by nia. lia.
Qed.

Lemma total_size_val m : msg_ok m → total_size m = Val (msize m).
Proof.
  unfold msg_ok, total_size. intros Hm. pose proof (data_size_nonneg (data m)).
  pose proof (len_nonneg (capabilities m)).
  assert (0 ≤ len (capabilities m) * capability_size) by nia. unfold msize in *.
  rewrite umul_val by lia. simpl. rewrite uadd_val by lia. simpl. by rewrite uadd_val by lia.
Qed.

(** [n] further messages cannot overflow the statistics. *)
Record queue_wf (n : Z) (q : MessageQueue) : Prop := {
  qw_sorted : StronglySorted prio_le (messages q);
  qw_size : q_total_size q = sumZ msize (messages q);
  qw_size_max : q_total_size q ≤ max_size q;
  qw_len : len (messages q) ≤ max_messages q;
  qw_limits : 0 ≤ max_size q < 2 ^ 63;
  qw_msgs m : m ∈ messages q → msg_ok m ∧ receiver (header m) = process_id q;
  qw_received : 0 ≤ messages_received q ∧ messages_received q + n < 2 ^ 64;
  qw_full : 0 ≤ queue_full_count q ∧ queue_full_count q + n < 2 ^ 64;
}.

Lemma queue_new_wf n pid : 0 ≤ n < 2 ^ 64 → queue_wf n (queue_new pid).
Proof.
  intros Hn. split; simpl; try done; try lia; [constructor|].
  intros m Hm. by apply not_elem_of_nil in Hm.
Qed.

Lemma queue_size_nonneg n q : queue_wf n q → 0 ≤ q_total_size q.
Proof. intros Hwf. rewrite (qw_size n q Hwf). apply sumZ_nonneg. intros x _. apply msize_nonneg. Qed.

Lemma can_accept_spec n q m : queue_wf n q → msg_ok m →
  can_accept_message q m =
    Val (bool_decide (len (messages q) < max_messages q ∧ q_total_size q + msize m ≤ max_size q)).
Proof.
  intros Hwf Hm. unfold can_accept_message. rewrite (total_size_val m Hm). simpl.
  pose proof (queue_size_nonneg n q Hwf). pose proof (msize_nonneg m). pose proof (qw_limits n q Hwf).
  pose proof (qw_size_max n q Hwf).
  destruct (Z.leb_spec (max_messages q) (len (messages q))).
  - by rewrite bool_decide_false by lia.
  - unfold msg_ok in Hm. rewrite uadd_val by lia. simpl. f_equal.
    destruct (Z.ltb_spec (max_size q) (q_total_size q + msize m)); simpl;
      [rewrite bool_decide_false by lia|rewrite bool_decide_true by lia]; done.
Qed.

Lemma enqueue_spec n q m : queue_wf n q → 1 ≤ n → msg_ok m → receiver (header m) = process_id q →
  ∃ r q', enqueue q m = Val (r, q') ∧ queue_wf (n - 1) q' ∧ process_id q' = process_id q ∧
    match r with
    | Ok _ => len (messages q) < max_messages q ∧ q_total_size q + msize m ≤ max_size q ∧
              messages q' = insert_by_priority m (messages q)
    | Err e => e = QueueFull ∧ messages q' = messages q ∧
               (len (messages q) = max_messages q ∨ max_size q < q_total_size q + msize m)
    end.
Proof.
  intros Hwf Hn Hm Hr. pose proof Hwf as [Hs Hsz Hmax Hl Hlim Hms Hrc Hfc].
  unfold enqueue. rewrite (can_accept_spec n q m Hwf Hm). simpl.
  pose proof (msize_nonneg m). pose proof (queue_size_nonneg n q Hwf). case_bool_decide as Hc; simpl.
  2: { rewrite uadd_val by lia. simpl. eexists _, _. split; [done|].
       split; [split; simpl; try done; lia|]. split; [done|]. split_and!; try done. lia. }
  rewrite (total_size_val m Hm). simpl.
  rewrite uadd_val by lia. simpl. rewrite uadd_val by lia. simpl.
  eexists _, _. split; [done|]. rewrite insert_pos_spec by done. split; [|by destruct Hc].
  split; simpl; try done; try lia.
  - by apply insert_sorted.
  - rewrite (sumZ_Permutation _ _ _ (insert_Permutation m (messages q))). simpl. lia.
  - unfold len. rewrite (Permutation_length (insert_Permutation m (messages q))). simpl. unfold len in *. lia.
  - intros x [->|Hx]%elem_of_insert; [|by apply Hms]. done.
Qed.

Lemma dequeue_spec n q : queue_wf n q →
  ∃ r q', dequeue q = Val (r, q') ∧ queue_wf n q' ∧ process_id q' = process_id q ∧
    match r with
    | Ok m => messages q = m :: messages q' ∧ ∀ x, x ∈ messages q → prio m ≤ prio x
    | Err e => e = NoMessage ∧ q' = q ∧ messages q = []
    end.
Proof.
  intros Hwf. pose proof Hwf as [Hs Hsz Hmax Hl Hlim Hms Hrc Hfc]. unfold dequeue.
  destruct (messages q) as [|m l] eqn:E; [eexists _, _; by split_and!|].
  destruct (Hms m) as [Hm _]; [by left|]. rewrite (total_size_val m Hm). simpl.
  eexists _, _. split; [done|]. apply StronglySorted_inv in Hs as [Hs Hm1].
  pose proof (msize_nonneg m). pose proof (sumZ_nonneg msize l ltac:(intros; apply msize_nonneg)).
  change (sumZ msize (m :: l)) with (msize m + sumZ msize l) in Hsz. unfold saturating_sub.
  split; [|split; [done|]].
  - split; simpl; try done; try lia; [unfold len in *; simpl in *; lia|].
    intros x Hx. apply Hms. by right.
  - split; [done|]. intros x [->|Hx]%elem_of_cons; [done|]. rewrite Forall_forall in Hm1. by apply Hm1.
Qed.

(** ** The system as a map of pending messages *)
Definition pending (st : IpcState) (pid : Z) : list Message :=
  match queue_manager st with
  | Some mg => match queues mg !! pid with Some q => messages q | None => [] end
  | None => []
  end.
Definition alive (st : IpcState) (pid : Z) : Prop := is_Some (lookup_process st pid).
Definition may_send (σ : gmap Z Grant) (from to : Z) : Prop :=
  ∃ id e, σ !! id = Some e ∧ permits e from SendMessage (ProcessResource to).

Record ipc_rel (n : Z) (σ : gmap Z Grant) (st : IpcState) : Prop := {
  ir_caps : cap_rel σ (caps st);
  ir_room : cap_room n (caps st);
  ir_queues : ∃ mg, queue_manager st = Some mg ∧
    (0 ≤ total_messages mg ∧ total_messages mg + n < 2 ^ 64) ∧
    (0 ≤ total_queues_created mg ∧ total_queues_created mg + n < 2 ^ 64) ∧
    ∀ pid q, queues mg !! pid = Some q → queue_wf n q ∧ process_id q = pid ∧
      max_messages q = MAX_MESSAGES_PER_QUEUE ∧ max_size q = MAX_QUEUE_SIZE_BYTES;
}.

Lemma queue_wf_mono n n' q : n' ≤ n → queue_wf n q → queue_wf n' q.
Proof. intros Hn [? ? ? ? ? ? ? ?]. split; try done; lia. Qed.

Lemma enqueue_limits q m r q' : enqueue q m = Val (r, q') →
  max_messages q' = max_messages q ∧ max_size q' = max_size q.
Proof. unfold enqueue. intros H. inv_val. destruct (negb _); inv_val; done. Qed.
Lemma dequeue_limits q r q' : dequeue q = Val (r, q') →
  max_messages q' = max_messages q ∧ max_size q' = max_size q.
Proof. unfold dequeue. destruct (messages q); intros H; inv_val; done. Qed.

Lemma enqueue_message_spec n σ st m : ipc_rel n σ st → 1 ≤ n → msg_ok m →
  let to := receiver (header m) in
  ∃ r st', enqueue_message st to m = Val (r, st') ∧ ipc_rel (n - 1) σ st' ∧ table st' = table st ∧
    match r with
    | Ok _ => ∀ pid, pending st' pid =
        if decide (pid = to) then insert_by_priority m (pending st pid) else pending st pid
    | Err e => e = QueueFull ∧ (∀ pid, pending st' pid = pending st pid) ∧
        (len (pending st to) = MAX_MESSAGES_PER_QUEUE ∨
         MAX_QUEUE_SIZE_BYTES < sumZ msize (pending st to) + msize m)
    end.
Proof.
  intros [Hcaps Hroom (mg & Hmg & Htm & Htc & Hq)] Hn Hm to.
  unfold enqueue_message, manager_enqueue. rewrite Hmg.
  (* the queue, existing or created *)
  assert (∃ q mg1, get_or_create_queue mg to = Val (q, mg1) ∧ queue_wf n q ∧ process_id q = to ∧
    max_messages q = MAX_MESSAGES_PER_QUEUE ∧ max_size q = MAX_QUEUE_SIZE_BYTES ∧
    messages q = pending st to ∧ total_messages mg1 = total_messages mg ∧
    0 ≤ total_queues_created mg1 ∧ total_queues_created mg1 + (n - 1) < 2 ^ 64 ∧
    (∀ pid, pid ≠ to → queues mg1 !! pid = queues mg !! pid))
    as (q & mg1 & -> & Hwf & Hpid & Hmm & Hms & Hpend & Htot & Hcr0 & Hcr & Hoth).
  { unfold get_or_create_queue, create_queue, pending. rewrite Hmg.
    destruct (queues mg !! to) as [q|] eqn:E; simpl; rewrite ?E.
    - destruct (Hq to q E) as (? & ? & ? & ?). exists q, mg. split_and!; try done; lia.
    - rewrite uadd_val by lia. simpl. rewrite lookup_insert_eq. eexists _, _. split; [done|].
      split_and!; try done; simpl; try lia; [apply queue_new_wf; lia|].
      intros pid Hne. by rewrite lookup_insert_ne. }
  simpl. destruct (enqueue_spec n q m Hwf Hn Hm ltac:(done)) as (r & q' & Eq & Hwf' & Hpid' & Hr).
  rewrite Eq. simpl. destruct (enqueue_limits _ _ _ _ Eq) as [Hl1 Hl2].
  assert (∀ total, 0 ≤ total → total + (n - 1) < 2 ^ 64 →
    ipc_rel (n - 1) σ (set_queues st (put_queue mg1 to q' total)) ∧
    ∀ pid, pending (set_queues st (put_queue mg1 to q' total)) pid =
      if decide (pid = to) then messages q' else pending st pid) as Hput.
  { intros total Ht0 Ht. split.
    - split; [done|destruct Hroom as (? & m' & ? & ?); split; [simpl; lia|]; exists m'; split; [done|lia]|].
      eexists. split; [done|]. simpl. split; [lia|]. split; [lia|].
      intros pid x [[<- <-]|[Hne Hx]]%lookup_insert_Some; [split_and!; try done; congruence|].
      rewrite Hoth in Hx by done. destruct (Hq pid x Hx) as (? & ? & ? & ?). split_and!; try done.
      eapply queue_wf_mono; [|done]. lia.
    - intros pid. unfold pending; simpl. rewrite Hmg. destruct (decide (pid = to)) as [->|].
      + by rewrite lookup_insert_eq.
      + by rewrite lookup_insert_ne, Hoth by done. }
  destruct r as [[]|e].
  - destruct Hr as (_ & _ & Hins). rewrite uadd_val by lia. simpl.
    destruct (Hput (total_messages mg1 + 1)) as [? Hp]; [lia..|].
    eexists _, _. split; [done|]. split_and!; try done. intros pid. rewrite Hp.
    destruct (decide (pid = to)) as [->|]; [|done]. by rewrite Hins, Hpend.
  - destruct Hr as (-> & Hsame & Hwhy). destruct (Hput (total_messages mg1)) as [? Hp]; [lia..|].
    eexists _, _. split; [done|]. split_and!; try done.
    + intros pid. rewrite Hp. destruct (decide (pid = to)) as [->|]; [|done]. by rewrite Hsame, Hpend.
    + rewrite <-Hpend, <-Hmm, <-Hms, <-(qw_size n q Hwf). done.
Qed.

Lemma dequeue_message_spec n σ st pid : ipc_rel n σ st →
  ∃ r st', dequeue_message st pid = Val (r, st') ∧ ipc_rel n σ st' ∧ table st' = table st ∧
    (∀ q, q ≠ pid → pending st' q = pending st q) ∧
    match r with
    | Ok m => pending st pid = m :: pending st' pid ∧ receiver (header m) = pid ∧
              ∀ x, x ∈ pending st pid → prio m ≤ prio x
    | Err e => (e = NoMessage ∨ e = ReceiverNotFound) ∧ pending st pid = [] ∧ pending st' pid = []
    end.
Proof.
  intros [Hcaps Hroom (mg & Hmg & Htm & Htc & Hq)]. unfold dequeue_message, manager_dequeue. rewrite Hmg.
  destruct (queues mg !! pid) as [q|] eqn:E; simpl.
  2: { eexists _, _. split; [done|]. unfold pending; simpl. rewrite Hmg, E. split_and!; auto.
       split; [done..|]. eauto. }
  destruct (Hq pid q E) as (Hwf & Hpid & Hmm & Hms).
  destruct (dequeue_spec n q Hwf) as (r & q' & Eq & Hwf' & Hpid' & Hr). rewrite Eq. simpl.
  destruct (dequeue_limits _ _ _ Eq) as [Hl1 Hl2].
  assert (∀ total, 0 ≤ total → total + n < 2 ^ 64 →
    ipc_rel n σ (set_queues st (put_queue mg pid q' total)) ∧
    ∀ p, pending (set_queues st (put_queue mg pid q' total)) p =
      if decide (p = pid) then messages q' else pending st p) as Hput.
  { intros total Ht0 Ht. split.
    - split; [done..|]. eexists. split; [done|]. simpl. split; [lia|]. split; [lia|].
      intros p x [[<- <-]|[Hne Hx]]%lookup_insert_Some; [split_and!; try done; congruence|]. by apply Hq.
    - intros p. unfold pending; simpl. rewrite Hmg. destruct (decide (p = pid)) as [->|].
      + by rewrite lookup_insert_eq.
      + by rewrite lookup_insert_ne by done. }
  assert (pending st pid = messages q) as Hpq by (unfold pending; by rewrite Hmg, E).
  assert (∀ total, 0 ≤ total → total + n < 2 ^ 64 → ∀ p, p ≠ pid →
    pending (set_queues st (put_queue mg pid q' total)) p = pending st p) as Hoth.
  { intros total H1 H2 p Hp. destruct (Hput total H1 H2) as [_ ->]. by rewrite decide_False. }
  destruct r as [m|e].
  - destruct (Hput (saturating_sub (total_messages mg) 1)) as [? Hp]; [unfold saturating_sub; lia..|].
    eexists _, _. split; [done|]. split_and!; try done.
    + apply Hoth; unfold saturating_sub; lia.
    + rewrite Hp, decide_True, Hpq by done. apply Hr.
    + rewrite <-Hpid. apply (qw_msgs n q Hwf). destruct Hr as [-> _]. by left.
    + rewrite Hpq. apply Hr.
  - destruct Hr as (-> & -> & Hnil). destruct (Hput (total_messages mg)) as [? Hp]; [lia..|].
    eexists _, _. split; [done|]. split_and!; try done.
    + apply Hoth; lia.
    + by left.
    + congruence.
    + by rewrite Hp, decide_True.
Qed.

Lemma send_message_spec n σ st m : ipc_rel n σ st → 2 ≤ n → msg_ok m →
  let from := sender (header m) in let to := receiver (header m) in
  ∃ r st', send_message st m = Val (r, st') ∧ ipc_rel (n - 2) σ st' ∧ table st' = table st ∧
    match r with
    | Ok _ => alive st from ∧ alive st to ∧ may_send σ from to ∧
        ∀ pid, pending st' pid =
          if decide (pid = to) then insert_by_priority m (pending st pid) else pending st pid
    | Err e =>
        (∀ pid, pending st' pid = pending st pid) ∧
        (e = SenderNotFound ∧ ¬ alive st from ∨
         e = ReceiverNotFound ∧ alive st from ∧ ¬ alive st to ∨
         e = MsgPermissionDenied ∧ alive st from ∧ alive st to ∧ ¬ may_send σ from to ∨
         e = QueueFull ∧ alive st from ∧ alive st to ∧ may_send σ from to ∧
           (len (pending st to) = MAX_MESSAGES_PER_QUEUE ∨
            MAX_QUEUE_SIZE_BYTES < sumZ msize (pending st to) + msize m))
    end.
Proof.
  intros Hrel Hn Hm from to. unfold send_message. fold from to.
  assert (∀ k, 0 ≤ k → ipc_rel (n - k) σ st) as Hmono.
  { intros k Hk. destruct Hrel as [? (? & m' & ? & ?) (mg & ? & ? & ? & Hq)].
    split; [done|split; [lia|]; exists m'; split; [done|lia]|].
    exists mg. split_and!; try done; try lia. intros pid q Hpq.
    destruct (Hq pid q Hpq) as (? & ? & ? & ?). split_and!; try done.
    eapply queue_wf_mono; [|done]. lia. }
  assert (∀ p, lookup_process st p = None ↔ ¬ alive st p) as Hal
    by (intros; unfold alive; by rewrite eq_None_not_Some).
  destruct (decide (lookup_process st from = None)) as [Hf|Hf].
  { eexists _, _. split; [done|]. split; [apply Hmono; lia|]. split; [done|]. split; [done|].
    left. split; [done|]. by apply Hal. }
  destruct (decide (lookup_process st to = None)) as [Ht|Ht].
  { eexists _, _. split; [done|]. split; [apply Hmono; lia|]. split; [done|]. split; [done|].
    right; left. split_and!; [done|by apply not_eq_None_Some|by apply Hal]. }
  apply not_eq_None_Some in Hf, Ht.
  destruct (check_spec σ (caps st) n from SendMessage (ProcessResource to) (ir_caps _ _ _ Hrel)
    (ir_room _ _ _ Hrel) ltac:(lia)) as (b & c & -> & Hcr & Hcroom & _ & Hb). simpl.
  assert (ipc_rel (n - 1) σ (set_caps st c)) as Hrel1.
  { destruct (Hmono 1 ltac:(lia)) as [_ _ Hqs]. by split. }
  destruct b; simpl.
  - destruct (enqueue_message_spec (n - 1) σ (set_caps st c) m Hrel1 ltac:(lia) Hm)
      as (r & st' & Henq & Hrel' & Htab & Hr). fold to in Henq, Hr. rewrite Henq.
    replace (n - 1 - 1) with (n - 2) in Hrel' by lia.
    eexists _, _. split; [done|]. split_and!; try done.
    assert (may_send σ from to) as Hms by (by apply Hb).
    destruct r as [[]|e]; [by split_and!|]. destruct Hr as (-> & ? & ?). split; [done|].
    by do 3 right.
  - eexists _, _. split; [done|]. split.
    { destruct Hrel1 as [? (? & m' & ? & ?) (mg & ? & ? & ? & Hq)].
      split; [done|split; [lia|]; exists m'; split; [done|lia]|].
      exists mg. split_and!; try done; try lia. intros pid q Hpq.
      destruct (Hq pid q Hpq) as (? & ? & ? & ?). split_and!; try done.
      eapply queue_wf_mono; [|done]. lia. }
    split; [done|]. split; [done|]. do 2 right. left. split_and!; try done.
    intros Hms. by apply Hb in Hms.
Qed.

Lemma receive_message_spec n σ st pid : ipc_rel n σ st → alive st pid →
  ∃ r st', receive_message st pid = Val (r, st') ∧ ipc_rel n σ st' ∧ table st' = table st ∧
    (∀ q, q ≠ pid → pending st' q = pending st q) ∧
    match r with
    | Ok m => pending st pid = m :: pending st' pid ∧ receiver (header m) = pid ∧
              ∀ x, x ∈ pending st pid → prio m ≤ prio x
    | Err e => (e = NoMessage ∨ e = ReceiverNotFound) ∧ pending st pid = [] ∧ pending st' pid = []
    end.
Proof.
  intros Hrel Hal. unfold receive_message.
  destruct (decide (lookup_process st pid = None)) as [Hn|_]; [by destruct Hal; congruence|].
  by apply dequeue_message_spec.
Qed.

(** Receiving until the queue is empty. *)
Fixpoint receive_n (k : nat) (st : IpcState) (pid : Z) : outcome (list Message * IpcState) :=
  match k with
  | O => Val ([], st)
  | S k =>
      '(r, st) ← receive_message st pid;
      match r with
      | Ok m => '(ms, st) ← receive_n k st pid; Val (m :: ms, st)
      | Err _ => Val ([], st)
      end
  end.

Lemma receive_n_drains n σ k st pid : ipc_rel n σ st → alive st pid →
  (length (pending st pid) ≤ k)%nat →
  ∃ st', receive_n k st pid = Val (pending st pid, st') ∧ pending st' pid = [] ∧
         ∀ q, q ≠ pid → pending st' q = pending st q.
Proof.
  revert st. induction k as [|k IH]; intros st Hrel Hal Hk; simpl.
  - destruct (pending st pid) eqn:E; simpl in Hk; [|lia]. by exists st.
  - destruct (receive_message_spec n σ st pid Hrel Hal) as (r & st1 & -> & Hrel1 & Htab & Hoth & Hr). simpl.
    destruct r as [m|e].
    + destruct Hr as (Hp & _ & _). rewrite Hp in Hk |- *. simpl in Hk.
      destruct (IH st1 Hrel1) as (st2 & -> & Hnil & Hoth2); [|lia|].
      { unfold alive, lookup_process in *. by rewrite Htab. }
      exists st2. simpl. split_and!; try done. intros q Hq. by rewrite Hoth2, Hoth.
    + destruct Hr as (_ & Hp & Hp1). rewrite Hp. by exists st1.
Qed.
End queue_specs.

(** The capability state after [grant_user_capabilities] at boot. *)
Definition user_cap (id pid : Z) (e : CapabilityType * ResourceId) : Capability :=
  {| cap_id := id; capability_type := e.1; cap_resource := e.2; cap_owner := pid; cap_granter := None;
     delegatable := false; expires_at := None; created_at := 0 |}.
Definition user_caps (pid : Z) : CapState :=
  {| next_capability_id := 4;
     cap_manager := Some {| process_capabilities :=
       {[pid := [user_cap 1 pid (SendMessage, SystemResource "services");
                 user_cap 2 pid (ReceiveMessage, AnyResource);
                 user_cap 3 pid (SystemCall, SystemResource "user_syscalls")]]};
       total_capabilities_created := 3; checks_performed := 0; checks_failed := 0 |} |}.

(** ** Properties *)
Section properties.
Context {P : Profile} {L : Layout} (Hhead : 0 ≤ header_size) (Hcap : 0 ≤ capability_size).

(** C10: Who may send what to whom.  In a well-formed system [send_message]
    never panics and decides in this order: unknown sender, unknown receiver,
    no live [SendMessage] capability of the sender covering the receiver,
    receiver's queue at 256 messages or past 64 KiB with this message.  Exactly
    when none of these holds the message is accepted, and then it is added to
    the receiver's queue, behind everything at least as urgent, and to no other
    queue; a rejected message changes no queue.  The flags of the message play no
    part: one marked [no_queue] is queued behind others, and one marked [broadcast]
    goes to its one receiver. *)
Theorem send_message_decision n σ st m :
  ipc_rel n σ st → 2 ≤ n → msg_ok m →
  let from := sender (header m) in let to := receiver (header m) in
  ∃ r st', send_message st m = Val (r, st') ∧ ipc_rel (n - 2) σ st' ∧
    match r with
    | Ok _ => alive st from ∧ alive st to ∧ may_send σ from to ∧
        ∀ pid, pending st' pid =
          if decide (pid = to) then insert_by_priority m (pending st pid) else pending st pid
    | Err e =>
        (∀ pid, pending st' pid = pending st pid) ∧
        (e = SenderNotFound ∧ ¬ alive st from ∨
         e = ReceiverNotFound ∧ alive st from ∧ ¬ alive st to ∨
         e = MsgPermissionDenied ∧ alive st from ∧ alive st to ∧ ¬ may_send σ from to ∨
         e = QueueFull ∧ alive st from ∧ alive st to ∧ may_send σ from to ∧
           (len (pending st to) = MAX_MESSAGES_PER_QUEUE ∨
            MAX_QUEUE_SIZE_BYTES < sumZ msize (pending st to) + msize m))
    end.
Proof.
  intros Hrel Hn Hm from to.
  destruct (send_message_spec Hhead Hcap n σ st m Hrel Hn Hm) as (r & st' & ? & ? & _ & ?). eauto.
Qed.

(** C4: Accepted messages are delivered exactly once, to their receiver, most
    urgent first and first come first served within a priority: after a
    successful send, receiving until the queue is empty yields the old pending
    messages and the new one, each once; the sequence is sorted by priority, and
    for every priority it is the old sequence of that priority with the new
    message at its end. *)
Theorem sent_messages_are_delivered n σ st m st1 :
  ipc_rel n σ st → 2 ≤ n → msg_ok m →
  let to := receiver (header m) in
  send_message st m = Val (Ok (), st1) →
  ∃ ms st2, receive_n (length (pending st to) + 1) st1 to = Val (ms, st2) ∧
    pending st2 to = [] ∧ ms ≡ₚ m :: pending st to ∧
    (StronglySorted prio_le (pending st to) → StronglySorted prio_le ms) ∧
    ∀ k, filter (λ x, prio x = k) ms =
         filter (λ x, prio x = k) (pending st to) ++ (if decide (prio m = k) then [m] else []).
Proof.
  intros Hrel Hn Hm to Hsend.
  destruct (send_message_spec Hhead Hcap n σ st m Hrel Hn Hm) as (r & st' & Hs & Hrel' & Htab & Hr).
  rewrite Hsend in Hs. simplify_eq. destruct Hr as (_ & Hal & _ & Hp).
  assert (pending st' to = insert_by_priority m (pending st to)) as Hp'
    by (rewrite Hp; by rewrite decide_True).
  destruct (receive_n_drains Hhead Hcap (n - 2) σ (length (pending st to) + 1) st' to) as (st2 & ? & ? & _).
  - done.
  - unfold alive, lookup_process in *. by rewrite Htab.
  - rewrite Hp', (Permutation_length (insert_Permutation m (pending st to))). simpl. lia.
  - exists (pending st' to), st2. rewrite Hp'. split_and!; [by rewrite <-Hp'|done| | |].
    + apply insert_Permutation.
    + apply insert_sorted.
    + intros k. apply insert_fifo.
Qed.

(** The capabilities a user process gets by default do not let it send to
    any process: [SendMessage] is granted on the system resource "services",
    which matches no process, so after granting them every send of a user
    process, to any living receiver, is denied. *)
Theorem user_process_cannot_send pid ids c st m :
  grant_user_capabilities new_policy pid boot_caps = Val (Ok ids, c) →
  caps st = c → sender (header m) = pid → alive st pid → alive st (receiver (header m)) →
  ∃ st', send_message st m = Val (Err MsgPermissionDenied, st').
Proof.
  intros Hg Hc Hs Ha Hr. unfold send_message.
  rewrite Hs. destruct (decide (lookup_process st pid = None)) as [Hn|_]; [by destruct Ha; congruence|].
  destruct (decide (lookup_process st (receiver (header m)) = None)) as [Hn|_]; [by destruct Hr; congruence|].
  assert (grant_user_capabilities new_policy pid boot_caps = Val (Ok [1; 2; 3], user_caps pid)) as Hu.
  { unfold grant_user_capabilities, grant_all, create_capability, grant_capability, capability_new,
      generate_capability_id, add_capability, user_caps. simpl.
    rewrite !lookup_insert_eq. simpl. rewrite !insert_insert_eq. done. }
  rewrite Hu in Hg. injection Hg as <- <-. rewrite Hc.
  unfold check_capability, user_caps. simpl. unfold manager_check. simpl. rewrite lookup_singleton_eq.
  eexists. reflexivity.
Qed.
End properties.

(** ** Concrete instances

    Two processes; process 1 may send to process 2. *)
Definition demo_layout : Layout := {| header_size := 80; capability_size := 96 |}.
Definition demo_ipc : IpcState :=
  {| table := Some family; caps := demo_caps; queue_manager := Some new_queue_manager; next_message_id := 1 |}.
Definition demo_grants : gmap Z Grant := {[1 := (1, SendMessage, ProcessResource 2)]}.
Definition demo_message : Message :=
  {| header := {| message_id := 1; sender := 1; receiver := 2; message_type := ServiceRequest;
                  msg_priority := 128; timestamp := 0; reply_to := None; flags := default_flags |};
     data := Text "hello"; capabilities := [] |}.

Lemma demo_ipc_rel : ipc_rel (L:=demo_layout) 10 demo_grants demo_ipc.
Proof.
  destruct (create_spec (P:=dev) ∅ boot_caps 20 1 SendMessage (ProcessResource 2) None boot_caps_rel)
    as (c & Hc & _ & Hrel & Hroom).
  - split; [simpl; lia|]. exists new_cap_manager. simpl. split; [done|]. lia.
  - lia.
  - assert (demo_caps = c) as Hcc by (unfold demo_caps; by rewrite Hc).
    split; simpl; rewrite ?Hcc; [done| |].
    + destruct Hroom as (? & m & Hm & ?). split; [simpl in *; lia|].
      exists m. split; [done|lia].
    + exists new_queue_manager. simpl. split_and!; try done; try lia.
Qed.

Lemma send_message_decision_witness :
  ∃ r st', send_message (P:=dev) (L:=demo_layout) demo_ipc demo_message = Val (r, st') ∧
    ipc_rel (L:=demo_layout) 8 demo_grants st' ∧
    match r with
    | Ok _ => alive demo_ipc 1 ∧ alive demo_ipc 2 ∧ may_send demo_grants 1 2 ∧
        ∀ pid, pending st' pid =
          if decide (pid = 2) then insert_by_priority demo_message (pending demo_ipc pid) else pending demo_ipc pid
    | Err e =>
        (∀ pid, pending st' pid = pending demo_ipc pid) ∧
        (e = SenderNotFound ∧ ¬ alive demo_ipc 1 ∨
         e = ReceiverNotFound ∧ alive demo_ipc 1 ∧ ¬ alive demo_ipc 2 ∨
         e = MsgPermissionDenied ∧ alive demo_ipc 1 ∧ alive demo_ipc 2 ∧ ¬ may_send demo_grants 1 2 ∨
         e = QueueFull ∧ alive demo_ipc 1 ∧ alive demo_ipc 2 ∧ may_send demo_grants 1 2 ∧
           (len (pending demo_ipc 2) = MAX_MESSAGES_PER_QUEUE ∨
            MAX_QUEUE_SIZE_BYTES < sumZ (msize (L:=demo_layout)) (pending demo_ipc 2) + msize (L:=demo_layout) demo_message))
    end.
Proof.
  apply (send_message_decision (P:=dev) (L:=demo_layout) ltac:(simpl; lia) ltac:(simpl; lia) 10 demo_grants
    demo_ipc demo_message demo_ipc_rel); [lia|reflexivity].
Defined.

Lemma sent_messages_are_delivered_witness :
  ∃ ms st2, receive_n (P:=dev) (L:=demo_layout) 1
      (match send_message (P:=dev) (L:=demo_layout) demo_ipc demo_message with Val (_, st) => st | _ => demo_ipc end)
      2 = Val (ms, st2) ∧
    pending st2 2 = [] ∧ ms ≡ₚ [demo_message] ∧
    (StronglySorted prio_le [] → StronglySorted prio_le ms) ∧
    ∀ k, filter (λ x, prio x = k) ms =
         filter (λ x, prio x = k) [] ++ (if decide (prio demo_message = k) then [demo_message] else []).
Proof.
  apply (sent_messages_are_delivered (P:=dev) (L:=demo_layout) ltac:(simpl; lia) ltac:(simpl; lia) 10 demo_grants
    demo_ipc demo_message); [apply demo_ipc_rel|lia|reflexivity|vm_compute; reflexivity].
Defined.

Lemma user_process_cannot_send_witness :
  ∃ st', send_message (P:=dev) (L:=demo_layout)
    {| table := Some family; caps := user_caps 1; queue_manager := Some new_queue_manager; next_message_id := 1 |}
    demo_message = Val (Err MsgPermissionDenied, st').
Proof.
  apply (user_process_cannot_send (P:=dev) (L:=demo_layout) 1 [1; 2; 3] (user_caps 1));
    [vm_compute; reflexivity|reflexivity|reflexivity|vm_compute; eauto|vm_compute; eauto].
Defined.
