(* ===== verification/Scheduler.v ===== *)
(** * The scheduler

    Models [kernel/src/process/scheduler.rs] over the process table of
    [Process] (the global [PROCESS_TABLE] is an optional table).

    What the scheduler asks of power management is the class [PowerPolicy]: the
    policies influence which priority queue a process enters, and every switch
    notifies them, which changes their globals and could panic.  The theorems are
    proved against the laws of [PowerPolicyLaws]; [Policy] has the kernel's instance.
    [get_scheduler_time_us] is the constant 0 of the source. *)
From S2P Require Import Prelude Power Process.

(** [PowerGlobals] are the globals of power management, [power_image] as the kernel
    image has them.  A notification gets the number of context switches as the time,
    the process and its activity. *)
Class PowerPolicy := {
  PowerGlobals : Type;
  power_image : PowerGlobals;
  get_power_aware_priority : PowerGlobals → Z → ProcessPriority → ProcessPriority;
  should_throttle_background : PowerGlobals → Z → bool;
  should_throttle_process : PowerGlobals → Z → bool;
  notify_power_management : PowerGlobals → Z → Z → ProcessActivity → outcome PowerGlobals;
}.
(** [power_room n t w]: at time [t], [n] more notifications, one per tick, cannot
    overflow a counter.  Before initialisation there is always room. *)
Class PowerPolicyLaws {W : PowerPolicy} := {
  power_room : Z → Z → PowerGlobals → Prop;
  power_image_room n t : power_room n t power_image;
  power_room_mono n n' t w : power_room n t w → n' ≤ n → power_room n' t w;
  notify_room n t w id a : power_room n t w → 1 ≤ n → 0 ≤ t → t + 1 < 2 ^ 64 →
    ∃ w', notify_power_management w (t + 1) id a = Val w' ∧ power_room (n - 1) (t + 1) w';
}.
Arguments PowerPolicyLaws : clear implicits.

(** ** The global process table *)
Definition init_process_table (_ : option ProcessTable) : option ProcessTable :=
  Some (table_new MAX_PROCESSES).
Definition global_get_process (g : option ProcessTable) (id : Z) : option Process :=
  t ← g; get_process t id.
(** The copy handed out: all but the list of children, of which only the number is kept. *)
Record ProcessInfo := {
  info_pid : Z; info_parent_pid : option Z; info_state : ProcessState; info_priority : ProcessPriority;
  info_name : string; info_cpu_time_ms : Z; info_creation_time_ms : Z; info_last_scheduled_ms : Z;
  info_exit_code : option Z; children_count : Z;
}.
Definition process_info (p : Process) : ProcessInfo :=
  {| info_pid := pid p; info_parent_pid := parent_pid p; info_state := state p; info_priority := priority p;
     info_name := name p; info_cpu_time_ms := cpu_time_ms p; info_creation_time_ms := creation_time_ms p;
     info_last_scheduled_ms := last_scheduled_ms p; info_exit_code := exit_code p;
     children_count := len (children p) |}.
Definition info_is_runnable (i : ProcessInfo) : bool :=
  match info_state i with Ready | Running => true | _ => false end.
Definition info_is_terminated (i : ProcessInfo) : bool :=
  match info_state i with Zombie => true | _ => false end.
Definition get_process_info (g : option ProcessTable) (id : Z) : option ProcessInfo :=
  process_info <$> global_get_process g id.
Definition get_process_statistics (g : option ProcessTable) : option ProcessTableStatistics :=
  get_table_statistics <$> g.

(** A decision taken on the copy is the decision on the process. *)
Lemma process_info_decides g id i : get_process_info g id = Some i →
  ∃ p, global_get_process g id = Some p ∧ info_is_runnable i = is_runnable p ∧
    info_is_terminated i = is_terminated p ∧ info_priority i = priority p.
Proof. unfold get_process_info. intros (p & -> & ->)%fmap_Some. by exists p. Qed.

Definition global_get_runnable_processes (g : option ProcessTable) : list Z :=
  match g with Some t => get_runnable_processes t | None => [] end.
Definition global_get_current_process (g : option ProcessTable) : option Z :=
  t ← g; current_pid t.
Definition global_set_current_process (g : option ProcessTable) (new : option Z) :
    result unit ProcessError * option ProcessTable :=
  match g with
  | None => (Err ProcessNotFound, None)
  | Some t => let '(r, t) := set_current_process t new in (r, Some t)
  end.
Definition global_remove_process (g : option ProcessTable) (id : Z) :
    result Process ProcessError * option ProcessTable :=
  match g with
  | None => (Err ProcessNotFound, None)
  | Some t => let '(r, t) := remove_process t id in (r, Some t)
  end.
Definition cleanup_zombie_processes (g : option ProcessTable) : Z * option ProcessTable :=
  match g with
  | None => (0, None)
  | Some t => let '(n, t) := cleanup_zombies t in (n, Some t)
  end.

(** ** State *)
Inductive SchedulerError := NoProcessesAvailable | NotInitialized | InvalidProcess.
Inductive SchedulingAlgorithm := RoundRobin | Priority | CompletelyFair.
#[export] Instance SchedulingAlgorithm_eq_dec : EqDecision SchedulingAlgorithm.
Proof. solve_decision. Defined.

Record SchedulerStatistics := {
  context_switches : Z;
  scheduling_decisions : Z;
  scheduler_time_us : Z;
  stats_algorithm : SchedulingAlgorithm;
  stats_time_slice_ms : Z;
}.
Record Scheduler := {
  sched_algorithm : SchedulingAlgorithm;
  time_slice_ms : Z;
  last_scheduled_index : Z;
  sched_stats : SchedulerStatistics;
  priority_queues : list (list Z);
}.

Definition scheduler_new (a : SchedulingAlgorithm) (slice : Z) : Scheduler :=
  {| sched_algorithm := a; time_slice_ms := slice; last_scheduled_index := 0;
     sched_stats := {| context_switches := 0; scheduling_decisions := 0; scheduler_time_us := 0;
                       stats_algorithm := a; stats_time_slice_ms := slice |};
     priority_queues := [[]; []; []; []] |}.

Definition set_index (s : Scheduler) (i : Z) : Scheduler :=
  {| sched_algorithm := sched_algorithm s; time_slice_ms := time_slice_ms s; last_scheduled_index := i;
     sched_stats := sched_stats s; priority_queues := priority_queues s |}.
Definition set_sched_queues (s : Scheduler) (qs : list (list Z)) : Scheduler :=
  {| sched_algorithm := sched_algorithm s; time_slice_ms := time_slice_ms s;
     last_scheduled_index := last_scheduled_index s; sched_stats := sched_stats s; priority_queues := qs |}.
Definition set_counts (s : Scheduler) (switches decisions time : Z) : Scheduler :=
  {| sched_algorithm := sched_algorithm s; time_slice_ms := time_slice_ms s;
     last_scheduled_index := last_scheduled_index s;
     sched_stats := {| context_switches := switches; scheduling_decisions := decisions;
       scheduler_time_us := time; stats_algorithm := stats_algorithm (sched_stats s);
       stats_time_slice_ms := stats_time_slice_ms (sched_stats s) |};
     priority_queues := priority_queues s |}.

Definition set_algorithm (s : Scheduler) (a : SchedulingAlgorithm) : Scheduler :=
  {| sched_algorithm := a; time_slice_ms := time_slice_ms s; last_scheduled_index := 0;
     sched_stats := {| context_switches := context_switches (sched_stats s);
       scheduling_decisions := scheduling_decisions (sched_stats s);
       scheduler_time_us := scheduler_time_us (sched_stats s); stats_algorithm := a;
       stats_time_slice_ms := stats_time_slice_ms (sched_stats s) |};
     priority_queues := [[]; []; []; []] |}.
Definition set_time_slice (s : Scheduler) (slice : Z) : Scheduler :=
  {| sched_algorithm := sched_algorithm s; time_slice_ms := slice;
     last_scheduled_index := last_scheduled_index s;
     sched_stats := {| context_switches := context_switches (sched_stats s);
       scheduling_decisions := scheduling_decisions (sched_stats s);
       scheduler_time_us := scheduler_time_us (sched_stats s);
       stats_algorithm := stats_algorithm (sched_stats s); stats_time_slice_ms := slice |};
     priority_queues := priority_queues s |}.

Section scheduler.
Context {P : Profile} {W : PowerPolicy}.
Implicit Types (s : Scheduler) (g : option ProcessTable) (w : PowerGlobals).

(** [if let Some(p) = get_process(pid) { p.is_runnable() }]. *)
Definition runnable g (id : Z) : bool :=
  match global_get_process g id with Some p => is_runnable p | None => false end.

(** ** Round robin: the [loop] *)
Definition round_robin_step g (rs : list Z) (start : Z) (i : Z) : outcome (flow Z (option (Z * Z))) :=
  let i := if len rs <=? i then 0 else i in
  id ← index rs i;
  if runnable g id then
    n ← uadd 64 i 1;
    next ← urem n (len rs);
    Val (Return (Some (id, next)))
  else
    i ← uadd 64 i 1;
    if i =? start then Val (Return None) else Val (Next i).

Definition schedule_round_robin s g : outcome (option Z * Scheduler) :=
  let rs := global_get_runnable_processes g in
  if is_empty rs then Val (None, s)
  else
    r ← loop_fuel (2 * length rs + 2) (round_robin_step g rs (last_scheduled_index s)) (last_scheduled_index s);
    match r with
    | Some (id, next) => Val (Some id, set_index s next)
    | None => Val (None, s)
    end.

(** ** Priority queues *)
Definition queue_level w (id : Z) (p : Process) : Z :=
  if negb (should_throttle_background w id) && negb (should_throttle_process w id)
  then level (get_power_aware_priority w id (priority p)) else 3.

Definition update_priority_queues s g w : Scheduler :=
  set_sched_queues s (foldl (λ qs id,
      match global_get_process g id with
      | Some p => alter (λ q, q ++ [id]) (Z.to_nat (queue_level w id p)) qs
      | None => qs
      end) [[]; []; []; []] (global_get_runnable_processes g)).

(** The first runnable process of a queue moves to its end. *)
Definition pick_from_queue g (q : list Z) : option (Z * list Z) :=
  match position (runnable g) q with
  | Some i => match q !! i with Some id => Some (id, vec_remove i q ++ [id]) | None => None end
  | None => None
  end.

Definition schedule_priority s g w : outcome (option Z * Scheduler) :=
  let s := update_priority_queues s g w in
  r ← for_loop (λ lvl s,
        q ← index (priority_queues s) lvl;
        match pick_from_queue g q with
        | Some (id, q) =>
            qs ← index_set (priority_queues s) lvl q;
            Val (Return (id, set_sched_queues s qs))
        | None => Val (Next s)
        end) (seqZ 0 4) s;
  match r with
  | Next s => Val (None, s)
  | Return (id, s) => Val (Some id, s)
  end.

(** ** Least CPU time *)
Definition schedule_cfs s g : outcome (option Z * Scheduler) :=
  let rs := global_get_runnable_processes g in
  if is_empty rs then Val (None, s)
  else
    let '(best, _) := foldl (λ '(best, least) id,
        match global_get_process g id with
        | Some p => if is_runnable p && (cpu_time_ms p <? least) then (Some id, cpu_time_ms p) else (best, least)
        | None => (best, least)
        end) (None, u64_max) rs in
    Val (best, s).

(** ** The scheduler *)

(** The activity power management is told of. *)
Definition activity_of (p : ProcessPriority) : ProcessActivity :=
  match p with
  | System => ActInteractive
  | Interactive => ActInteractive
  | Normal => ActBackground
  | Background => ActBackground
  end.

Definition schedule s g w :
    outcome (result (option Z) SchedulerError * Scheduler * option ProcessTable * PowerGlobals) :=
  let st := sched_stats s in
  d ← uadd 64 (scheduling_decisions st) 1;
  let s := set_counts s (context_switches st) d (scheduler_time_us st) in
  '(next, s) ← match sched_algorithm s with
               | RoundRobin => schedule_round_robin s g
               | Priority => schedule_priority s g w
               | CompletelyFair => schedule_cfs s g
               end;
  match next with
  | Some id =>
      if decide (global_get_current_process g = Some id) then Val (Ok next, s, g, w)
      else
        let '(r, g) := global_set_current_process g (Some id) in
        match r with
        | Err _ => Val (Err InvalidProcess, s, g, w)
        | Ok _ =>
            let st := sched_stats s in
            n ← uadd 64 (context_switches st) 1;
            let s := set_counts s n (scheduling_decisions st) (scheduler_time_us st) in
            w ← match global_get_process g id with
                | Some p => notify_power_management w (context_switches (sched_stats s)) id (activity_of (priority p))
                | None => Val w
                end;
            Val (Ok next, s, g, w)
        end
  | None =>
      let '(r, g) := global_set_current_process g None in
      match r with
      | Err _ => Val (Err InvalidProcess, s, g, w)
      | Ok _ => Val (Ok next, s, g, w)
      end
  end.

Definition timer_tick s g w :
    outcome (result bool SchedulerError * Scheduler * option ProcessTable * PowerGlobals) :=
  match global_get_current_process g with
  | Some _ =>
      '(r, s, g, w) ← schedule s g w;
      match r with Ok _ => Val (Ok true, s, g, w) | Err e => Val (Err e, s, g, w) end
  | None => Val (Ok false, s, g, w)
  end.
End scheduler.

(** ** What scheduling leaves alone *)
Lemma pids_where_seq f t : slots_ok t →
  pids_where f t = List.filter (λ q, match get_process t q with Some p => f p | None => false end)
                     (seqZ 1 (len (processes t))).
Proof.
  intros Hok.
  assert (∀ n, (n ≤ length (processes t))%nat →
    pid <$> List.filter f (omap id (take n (processes t))) =
    List.filter (λ q, match get_process t q with Some p => f p | None => false end) (seqZ 1 (Z.of_nat n))) as Hn.
  { induction n as [|n IH]; intros Hle; [done|].
    destruct (lookup_lt_is_Some_2 (processes t) n) as [x Hx]; [lia|].
    rewrite (take_S_r _ _ _ Hx), omap_app, List.filter_app, fmap_app, IH by lia.
    replace (Z.of_nat (S n)) with (Z.of_nat n + 1) by lia.
    rewrite seqZ_app, List.filter_app by lia. f_equal.
    change (seqZ (1 + Z.of_nat n) 1) with [0 + (1 + Z.of_nat n)].
    replace (0 + (1 + Z.of_nat n)) with (Z.of_nat n + 1) by lia. cbn [List.filter].
    assert (get_process t (Z.of_nat n + 1) = x) as ->.
    { apply option_eq. intros p. rewrite (get_process_Some t _ _ Hok).
      replace (Z.to_nat (Z.of_nat n + 1 - 1)) with n by lia. rewrite Hx.
      split; [by intros [_ [= ->]]|]. intros ->. split; [lia|done]. }
    destruct x as [p|]; simpl; [|done]. destruct (f p); simpl; [|done]. by rewrite (Hok n p Hx). }
  unfold pids_where, len. rewrite <-Hn by lia. by rewrite take_ge by lia.
Qed.

(** Same runnable processes in the same order, with the same priorities and
    times. *)
Definition same_candidates (t t' : ProcessTable) : Prop :=
  get_runnable_processes t' = get_runnable_processes t ∧
  ∀ q, (λ p, (priority p, cpu_time_ms p)) <$> get_process t' q =
       (λ p, (priority p, cpu_time_ms p)) <$> get_process t q.

Lemma same_candidates_trans t1 t2 t3 : same_candidates t1 t2 → same_candidates t2 t3 → same_candidates t1 t3.
Proof. intros [H1 H2] [H3 H4]. split; [congruence|]. intros q. by rewrite H4, H2. Qed.

Lemma elem_of_runnable t q : slots_ok t →
  q ∈ get_runnable_processes t ↔ runnable (Some t) q = true.
Proof.
  intros Hok. unfold get_runnable_processes, runnable, global_get_process. simpl.
  rewrite elem_of_pids_where by done. destruct (get_process t q) as [p|]; naive_solver.
Qed.

Lemma switch_spec t q : table_wf t → q ∈ get_runnable_processes t →
  ∃ t', set_current_process t (Some q) = (Ok (), t') ∧ table_wf t' ∧ current_pid t' = Some q ∧
        same_candidates t t'.
Proof.
  intros Hwf Hq. pose proof (set_current_spec t (Some q) Hwf) as Hs.
  apply elem_of_pids_where in Hq as (pq & Hpq & Hrq); [|apply Hwf].
  destruct (set_current_process t (Some q)) as [[[]|e] t'].
  - destruct Hs as (_ & Hwf' & Hc & _ & Hl & Hg). exists t'. split_and!; try done. split.
    + unfold get_runnable_processes. rewrite !pids_where_seq by apply Hwf || apply Hwf'. rewrite Hl.
      apply List.filter_ext_in. intros x _. rewrite Hg. destruct (get_process t x) as [p|] eqn:Hp; [|done].
      cbn [fmap option_fmap option_map]. destruct (decide (Some q = Some x)) as [[= <-]|].
      * assert (p = pq) as -> by congruence. by rewrite Hrq.
      * unfold demoted. destruct (decide _) as [[_ Hst]|]; [|done]. unfold is_runnable. by rewrite Hst.
    + intros x. rewrite Hg. destruct (get_process t x) as [p|]; [|done]. simpl.
      destruct (decide (Some q = Some x)); [done|]. unfold demoted. by destruct (decide _).
  - destruct Hs as (_ & (n & [= <-] & Hn) & _). congruence.
Qed.

Section scheduler_specs.
Context {P : Profile} {W : PowerPolicy} {WL : PowerPolicyLaws W}.
Implicit Types (s : Scheduler) (w : PowerGlobals).

(** [k] more decisions cannot overflow the statistics. *)
Definition sched_room (k : Z) s : Prop :=
  0 ≤ scheduling_decisions (sched_stats s) ∧ scheduling_decisions (sched_stats s) + k < 2 ^ 64 ∧
  0 ≤ context_switches (sched_stats s) ∧ context_switches (sched_stats s) + k < 2 ^ 64.

(** [k] more decisions leave room in power management. *)
Definition notify_ready (k : Z) s w : Prop := power_room k (context_switches (sched_stats s)) w.

(** The position a round-robin decision starts from. *)
Definition rr_start (n last : Z) : Z := if n <=? last then 0 else last.

Lemma round_robin_spec s t : table_wf t → let rs := get_runnable_processes t in
  rs ≠ [] → 0 ≤ last_scheduled_index s →
  let i := rr_start (len rs) (last_scheduled_index s) in
  ∃ q, rs !! Z.to_nat i = Some q ∧ 0 ≤ i < len rs ∧
    schedule_round_robin s (Some t) = Val (Some q, set_index s ((i + 1) mod len rs)).
Proof.
  intros Hwf rs Hne Hlast i. unfold schedule_round_robin. simpl. fold rs.
  assert (0 < len rs) as Hn by (destruct rs; [done|unfold len; simpl; lia]).
  assert (0 ≤ i < len rs) as Hi by (unfold i, rr_start; zcase; lia).
  destruct (lookup_lt_is_Some_2 rs (Z.to_nat i)) as [q Hq]; [unfold len in *; lia|].
  exists q. split_and!; [done|lia..|].
  assert (is_empty rs = false) as -> by (by destruct rs).
  assert (len rs ≤ len (processes t)).
  { unfold rs, get_runnable_processes. rewrite pids_where_seq by apply Hwf. unfold len.
    etrans; [apply inj_le, List.filter_length_le|]. rewrite length_seqZ. lia. }
  pose proof (tw_room t Hwf).
  erewrite loop_fuel_return; [|lia|].
  2: { unfold round_robin_step. fold (rr_start (len rs) (last_scheduled_index s)). fold i.
       rewrite (index_val _ _ _ Hq). cbn [mbind outcome_bind].
       rewrite (proj1 (elem_of_runnable t q (tw_slots t Hwf))) by (by eapply list_elem_of_lookup_2).
       rewrite uadd_val by lia. cbn [mbind outcome_bind]. rewrite urem_val by lia. done. }
  done.
Qed.

Lemma after_pick s s1 t w q k : table_wf t → q ∈ get_runnable_processes t →
  sched_room (k + 1) s → notify_ready (k + 1) s w → 0 ≤ k →
  (let s := set_counts s (context_switches (sched_stats s)) (scheduling_decisions (sched_stats s) + 1)
              (scheduler_time_us (sched_stats s)) in
   match sched_algorithm s with
   | RoundRobin => schedule_round_robin s (Some t)
   | Priority => schedule_priority s (Some t) w
   | CompletelyFair => schedule_cfs s (Some t)
   end = Val (Some q, s1) ∧ sched_stats s1 = sched_stats s) →
  ∃ s2 t' w', schedule s (Some t) w = Val (Ok (Some q), s2, Some t', w') ∧
    table_wf t' ∧ current_pid t' = Some q ∧ same_candidates t t' ∧ sched_room k s2 ∧ notify_ready k s2 w' ∧
    last_scheduled_index s2 = last_scheduled_index s1 ∧ sched_algorithm s2 = sched_algorithm s1 ∧
    (current_pid t = Some q → s2 = s1 ∧ t' = t ∧ w' = w).
Proof.
  intros Hwf Hq (Hd0 & Hd & Hc0 & Hc) Hw Hk. cbv zeta. intros [Hpick Hst].
  unfold schedule. rewrite uadd_val by lia. cbn [mbind outcome_bind]. rewrite Hpick. cbn [mbind outcome_bind].
  unfold global_get_current_process. cbn [mbind option_bind].
  destruct (decide (current_pid t = Some q)) as [Hcur|Hcur].
  - exists s1, t, w. split_and!; try done.
    + unfold sched_room. rewrite Hst. simpl. lia.
    + unfold notify_ready in *. rewrite Hst. apply (power_room_mono (k + 1)); [done|lia].
  - destruct (switch_spec t q Hwf Hq) as (t' & Hset & Hwf' & Hc' & Hsame).
    unfold global_set_current_process. rewrite Hset. cbv beta iota.
    rewrite Hst. rewrite uadd_val by (simpl; lia). cbn [mbind outcome_bind set_counts sched_stats context_switches].
    assert (∃ p, get_process t' q = Some p) as [p Hp].
    { apply elem_of_pids_where in Hq as (p & Hp & _); [|apply Hwf]. destruct Hsame as [_ Hg].
      specialize (Hg q). rewrite Hp in Hg. destruct (get_process t' q); [eauto|done]. }
    unfold global_get_process. cbn [mbind option_bind]. rewrite Hp. cbn [set_counts sched_stats context_switches] in *.
    destruct (notify_room (k + 1) (context_switches (sched_stats s)) w q (activity_of (priority p)))
      as (w' & -> & Hw'); [done|lia..|].
    cbn [mbind outcome_bind]. eexists _, t', w'. split; [done|]. split_and!; try done.
    + unfold sched_room. simpl. lia.
    + unfold notify_ready. simpl. by replace k with (k + 1 - 1) by lia.
Qed.

(** Power management changes by notifications only. *)
Definition notify_stable (I : PowerGlobals → Prop) : Prop :=
  ∀ w c id a w', I w → notify_power_management w c id a = Val w' → I w'.
Lemma schedule_power (I : PowerGlobals → Prop) s g w r s' g' w' : notify_stable I → I w →
  schedule s g w = Val (r, s', g', w') → I w'.
Proof.
  intros HI Hw H. unfold schedule in H. inv_val. destruct o as [id|].
  - destruct (decide _); [by inv_val|]. destruct (global_set_current_process g (Some id)) as [[] g1]; [|by inv_val].
    inv_val. destruct (global_get_process _ id); inv_val; [by eapply HI|done].
  - destruct (global_set_current_process g None) as [[] g1]; by inv_val.
Qed.

(** ** Round robin is fair *)
Fixpoint schedule_n (k : nat) s (g : option ProcessTable) w :
    outcome (list (option Z) * Scheduler * option ProcessTable * PowerGlobals) :=
  match k with
  | O => Val ([], s, g, w)
  | S k =>
      '(r, s, g, w) ← schedule s g w;
      match r with
      | Ok next => '(rs, s, g, w) ← schedule_n k s g w; Val (next :: rs, s, g, w)
      | Err _ => Val ([], s, g, w)
      end
  end.

Lemma round_robin_n k s t w : table_wf t → sched_algorithm s = RoundRobin →
  let rs := get_runnable_processes t in let n := len rs in
  rs ≠ [] → 0 ≤ last_scheduled_index s → sched_room (Z.of_nat k) s → notify_ready (Z.of_nat k) s w →
  let i := rr_start n (last_scheduled_index s) in
  ∃ s' t' w', schedule_n k s (Some t) w =
      Val ((λ j, rs !! Z.to_nat ((i + Z.of_nat j) mod n)) <$> seq 0 k, s', Some t', w') ∧
    table_wf t' ∧ same_candidates t t' ∧ sched_algorithm s' = RoundRobin ∧
    rr_start n (last_scheduled_index s') = (i + Z.of_nat k) mod n.
Proof.
  revert s t w. induction k as [|k IH]; intros s t w Hwf Ha rs n Hne Hlast Hroom Hw i.
  - exists s, t, w. split_and!; try done. rewrite Z.add_0_r. fold i.
    assert (0 < n) by (unfold n; destruct rs; [done|unfold len; simpl; lia]).
    rewrite Z.mod_small; [done|]. unfold i, rr_start. zcase; lia.
  - destruct (round_robin_spec (set_counts s (context_switches (sched_stats s))
      (scheduling_decisions (sched_stats s) + 1) (scheduler_time_us (sched_stats s))) t Hwf Hne Hlast)
      as (q & Hq & Hi & Hrr). cbn [last_scheduled_index set_counts] in Hq, Hi, Hrr. fold rs n in Hq, Hi, Hrr.
    fold i in Hq, Hi, Hrr.
    destruct (after_pick s (set_index (set_counts s (context_switches (sched_stats s))
      (scheduling_decisions (sched_stats s) + 1) (scheduler_time_us (sched_stats s))) ((i + 1) mod n))
      t w q (Z.of_nat k) Hwf) as (s1 & t1 & w1 & Hs & Hwf1 & _ & Hsame & Hroom1 & Hw1 & Hidx & Ha1 & _);
      [by eapply list_elem_of_lookup_2|by replace (Z.of_nat k + 1) with (Z.of_nat (S k)) by lia..|lia| |].
    { cbv zeta. cbn [sched_algorithm set_counts]. rewrite Ha. split; [exact Hrr|done]. }
    cbn [last_scheduled_index set_index] in Hidx. cbn [sched_algorithm set_index set_counts] in Ha1.
    destruct Hsame as [Hrs Hpr]. fold rs in Hrs.
    pose proof (Z.mod_pos_bound (i + 1) n ltac:(lia)) as Hmod.
    destruct (IH s1 t1 w1 Hwf1) as (s2 & t2 & w2 & Hn & Hwf2 & Hsame2 & Ha2 & Hidx2);
      [congruence|by rewrite Hrs|rewrite Hidx; lia|done|done|].
    rewrite Hrs, Hidx in Hn, Hidx2. fold n in Hn, Hidx2.
    assert (rr_start n ((i + 1) mod n) = (i + 1) mod n) as Hst by (unfold rr_start; zcase; lia).
    rewrite Hst in Hn, Hidx2.
    exists s2, t2, w2. cbn [schedule_n]. rewrite Hs. cbn [mbind outcome_bind]. rewrite Hn. cbn [mbind outcome_bind].
    split_and!; try done.
    + cbn [seq fmap list_fmap]. replace ((i + Z.of_nat 0) mod n) with i
        by (rewrite Z.add_0_r, Z.mod_small; lia).
      rewrite Hq. do 5 f_equal.
      rewrite <-fmap_S_seq, <-list_fmap_compose. apply list_fmap_ext. intros _ j _. cbn.
      rewrite Zplus_mod_idemp_l. do 3 f_equal. lia.
    + eapply same_candidates_trans; [split; [exact Hrs|exact Hpr]|done].
    + rewrite Hidx2, Zplus_mod_idemp_l. f_equal. lia.
Qed.

Lemma rotation (l : list Z) (i : Z) : 0 ≤ i < len l →
  (λ j, l !! Z.to_nat ((i + Z.of_nat j) mod len l)) <$> seq 0 (length l) =
  Some <$> (drop (Z.to_nat i) l ++ take (Z.to_nat i) l).
Proof.
  intros Hi. apply list_eq. intros j. rewrite !list_lookup_fmap.
  destruct (decide (j < length l)%nat) as [Hj|Hj].
  - rewrite lookup_seq_lt by done. simpl. unfold len in *.
    destruct (decide (Z.to_nat i + j < length l)%nat).
    + rewrite Z.mod_small by lia. rewrite lookup_app_l by (rewrite length_drop; lia).
      rewrite lookup_drop. replace (Z.to_nat (i + Z.of_nat j)) with (Z.to_nat i + j)%nat by lia.
      destruct (lookup_lt_is_Some_2 l (Z.to_nat i + j)) as [x ->]; [lia|done].
    + replace (i + Z.of_nat j) with (i + Z.of_nat j - Z.of_nat (length l) + 1 * Z.of_nat (length l)) by lia.
      rewrite Z_mod_plus_full, Z.mod_small by lia.
      rewrite lookup_app_r by (rewrite length_drop; lia). rewrite length_drop, lookup_take_lt by lia.
      replace (Z.to_nat (i + Z.of_nat j - Z.of_nat (length l))) with (j - (length l - Z.to_nat i))%nat by lia.
      destruct (lookup_lt_is_Some_2 l (j - (length l - Z.to_nat i))) as [x ->]; [lia|done].
  - rewrite lookup_seq_ge by lia. simpl. symmetry. apply fmap_None, lookup_ge_None.
    rewrite length_app, length_drop, length_take. lia.
Qed.

(** ** Priority scheduling *)

(** The queue a process enters. *)
Definition entry_level w (t : ProcessTable) (id : Z) : Z :=
  match get_process t id with Some p => queue_level w id p | None => 3 end.
Definition at_level w t (rs : list Z) (l : Z) : list Z := List.filter (λ id, entry_level w t id =? l) rs.

(** The earliest process, in slot order, on the most urgent non-empty level. *)
Definition most_urgent w (t : ProcessTable) (q : Z) : Prop :=
  let rs := get_runnable_processes t in
  head (at_level w t rs (entry_level w t q)) = Some q ∧ ∀ r, r ∈ rs → entry_level w t q ≤ entry_level w t r.

Lemma entry_level_range w t id : 0 ≤ entry_level w t id < 4.
Proof.
  unfold entry_level, queue_level. destruct (get_process t id) as [p|]; [|lia].
  destruct (_ && _); [|lia]. destruct (get_power_aware_priority w id (priority p)); simpl; lia.
Qed.

Lemma fill_queues w t rs (qs : list (list Z)) l : (∀ id, id ∈ rs → is_Some (get_process t id)) → 0 ≤ l →
  foldl (λ (qs : list (list Z)) id, match global_get_process (Some t) id with
                  | Some p => alter (λ q, q ++ [id]) (Z.to_nat (queue_level w id p)) qs
                  | None => qs end) qs rs !! Z.to_nat l = (λ q, q ++ at_level w t rs l) <$> qs !! Z.to_nat l.
Proof.
  intros Hex Hl. revert qs. induction rs as [|id rs IH]; intros qs; cbn [foldl].
  - destruct (qs !! Z.to_nat l); [|done]. simpl. by rewrite app_nil_r.
  - rewrite IH by (intros; apply Hex; by right).
    unfold global_get_process. cbn [mbind option_bind].
    destruct (Hex id) as [p Hp]; [by left|]. rewrite Hp.
    pose proof (entry_level_range w t id) as Hr. unfold at_level. cbn [List.filter].
    unfold entry_level at 2. unfold entry_level in Hr. rewrite Hp in Hr |- *.
    destruct (Z.eqb_spec (queue_level w id p) l) as [->|Hne].
    + rewrite list_lookup_alter_eq. destruct (qs !! Z.to_nat l); [|done]. simpl. f_equal. by rewrite <-app_assoc.
    + rewrite list_lookup_alter_ne by lia. done.
Qed.

Lemma update_queues_spec s t w l : table_wf t → 0 ≤ l < 4 →
  priority_queues (update_priority_queues s (Some t) w) !! Z.to_nat l = Some (at_level w t (get_runnable_processes t) l).
Proof.
  intros Hwf Hl. unfold update_priority_queues. cbn [priority_queues set_sched_queues global_get_runnable_processes].
  rewrite fill_queues by (lia || (intros id (p & Hp & _)%elem_of_pids_where; [eauto|apply Hwf])).
  assert (l = 0 ∨ l = 1 ∨ l = 2 ∨ l = 3) as [->|[->|[->| ->]]] by lia; done.
Qed.

Lemma priority_spec s t w : table_wf t → get_runnable_processes t ≠ [] →
  ∃ q s', schedule_priority s (Some t) w = Val (Some q, s') ∧ most_urgent w t q ∧
    sched_stats s' = sched_stats s ∧ sched_algorithm s' = sched_algorithm s.
Proof.
  intros Hwf Hne. unfold schedule_priority. set (rs := get_runnable_processes t) in *.
  set (s0 := update_priority_queues s (Some t) w).
  loop_inv (λ (d : list Z) (s1 : Scheduler), s1 = s0 ∧ ∀ r, r ∈ rs → len d ≤ entry_level w t r)
    (λ r : Z * Scheduler, most_urgent w t r.1 ∧ sched_stats r.2 = sched_stats s ∧
      sched_algorithm r.2 = sched_algorithm s) as HI.
  - destruct (for_loop _ _ _) as [[s1|[q s1]]| |]; try done.
    + destruct HI as [_ HI]. destruct rs as [|r rs'] eqn:E; [done|]. exfalso.
      specialize (HI r (list_elem_of_here _ _)). rewrite len_seqZ in HI by lia.
      pose proof (entry_level_range w t r). lia.
    + destruct HI as (? & ? & ?). eauto 6.
  - split; [done|]. intros r _. pose proof (entry_level_range w t r). unfold len; simpl. lia.
  - intros d l todo s1 [-> Hd]%seqZ_split [-> Hmin]. rewrite Z.add_0_l. pose proof (len_nonneg d).
    unfold s0. rewrite (index_val _ _ _ (update_queues_spec s t w (len d) Hwf ltac:(lia))). cbn [mbind outcome_bind].
    fold rs. unfold pick_from_queue.
    destruct (at_level w t rs (len d)) as [|q qs] eqn:Eq.
    + simpl. split; [done|]. intros r Hr. rewrite len_snoc.
      assert (entry_level w t r ≠ len d) as Hne'; [|specialize (Hmin r Hr); lia].
      intros E. assert (r ∈ at_level w t rs (len d)) as Hin.
      { apply list_elem_of_In, filter_In. split; [by apply list_elem_of_In|]. by apply Z.eqb_eq. }
      rewrite Eq in Hin. by apply not_elem_of_nil in Hin.
    + assert (q ∈ at_level w t rs (len d)) as Hin by (rewrite Eq; by left).
      apply list_elem_of_In, filter_In in Hin as [Hin Hlvl%Z.eqb_eq]. apply list_elem_of_In in Hin.
      cbn [position]. rewrite (proj1 (elem_of_runnable t q (tw_slots t Hwf)) Hin). cbn [lookup list_lookup].
      rewrite index_set_val by (eapply lookup_lt_Some, (update_queues_spec s t w (len d) Hwf); lia).
      cbn [mbind outcome_bind]. split; [|done]. split.
      * cbn [fst]. rewrite Hlvl. fold rs. by rewrite Eq.
      * cbn [fst]. rewrite Hlvl. done.
Qed.

Lemma most_urgent_unique w t q1 q2 : most_urgent w t q1 → most_urgent w t q2 → q1 = q2.
Proof.
  intros [H1 M1] [H2 M2].
  assert (∀ q l, head (at_level w t (get_runnable_processes t) l) = Some q → q ∈ get_runnable_processes t) as Hin.
  { intros q l Hh. destruct (at_level _ _ _ l) as [|x xs] eqn:E; simplify_eq/=.
    assert (q ∈ at_level w t (get_runnable_processes t) l) as Hq by (rewrite E; by left).
    by apply list_elem_of_In, filter_In in Hq as [?%list_elem_of_In _]. }
  pose proof (M1 q2 (Hin _ _ H2)). pose proof (M2 q1 (Hin _ _ H1)).
  replace (entry_level w t q2) with (entry_level w t q1) in H2 by lia. congruence.
Qed.

Lemma most_urgent_runnable w t q : most_urgent w t q → q ∈ get_runnable_processes t.
Proof.
  intros [Hh _]. destruct (at_level w t _ _) as [|x xs] eqn:E; simplify_eq/=.
  assert (q ∈ at_level w t (get_runnable_processes t) (entry_level w t q)) as Hq by (rewrite E; by left).
  by apply list_elem_of_In, filter_In in Hq as [?%list_elem_of_In _].
Qed.

(** ** Properties *)

(** C9: Round robin is fair: over as many consecutive decisions as there are
    runnable processes, every runnable process is chosen exactly once, in slot
    order starting from the remembered position, and the set of runnable
    processes and the position are as before (so this repeats for ever).  Each
    switch notifies power management, whose counters have room for it. *)
Theorem round_robin_fair s t w :
  table_wf t → sched_algorithm s = RoundRobin →
  let rs := get_runnable_processes t in let n := len rs in
  rs ≠ [] → 0 ≤ last_scheduled_index s → sched_room n s → notify_ready n s w →
  let i := rr_start n (last_scheduled_index s) in
  ∃ s' t' w', schedule_n (length rs) s (Some t) w =
      Val (Some <$> (drop (Z.to_nat i) rs ++ take (Z.to_nat i) rs), s', Some t', w') ∧
    drop (Z.to_nat i) rs ++ take (Z.to_nat i) rs ≡ₚ rs ∧
    table_wf t' ∧ get_runnable_processes t' = rs ∧ sched_algorithm s' = RoundRobin ∧
    rr_start n (last_scheduled_index s') = i.
Proof.
  intros Hwf Ha rs n Hne Hlast Hroom Hw i.
  destruct (round_robin_n (length rs) s t w Hwf Ha Hne Hlast Hroom Hw) as (s' & t' & w' & Hn & Hwf' & [Hrs _] & Ha' & Hi').
  fold rs n in Hn, Hi', Hrs. fold i in Hn, Hi'.
  assert (0 < n) by (unfold n; destruct rs; [done|unfold len; simpl; lia]).
  assert (0 ≤ i < n) as Hi by (unfold i, rr_start; zcase; lia).
  exists s', t', w'. split_and!; try done.
  - rewrite Hn. by rewrite <-(rotation rs i Hi).
  - rewrite Permutation_app_comm. by rewrite take_drop.
  - rewrite Hi'. fold n. replace (i + Z.of_nat (length rs)) with (i + 1 * n) by (unfold n, len; lia).
    by rewrite Z_mod_plus_full, Z.mod_small.
Qed.

(** Priority scheduling never lets a less urgent process run: it chooses a
    runnable process whose effective level (after the power policy and
    throttling) is minimal, the first one in slot order on that level, and makes
    it the current process. *)
Theorem priority_picks_most_urgent s t w :
  table_wf t → sched_algorithm s = Priority → get_runnable_processes t ≠ [] → sched_room 1 s → notify_ready 1 s w →
  ∃ q s' t' w', schedule s (Some t) w = Val (Ok (Some q), s', Some t', w') ∧
    q ∈ get_runnable_processes t ∧ (∀ r, r ∈ get_runnable_processes t → entry_level w t q ≤ entry_level w t r) ∧
    head (at_level w t (get_runnable_processes t) (entry_level w t q)) = Some q ∧
    table_wf t' ∧ current_pid t' = Some q.
Proof.
  intros Hwf Ha Hne Hroom Hw.
  destruct (priority_spec (set_counts s (context_switches (sched_stats s))
    (scheduling_decisions (sched_stats s) + 1) (scheduler_time_us (sched_stats s))) t w Hwf Hne)
    as (q & s1 & Hp & Hu & Hst & _).
  destruct (after_pick s s1 t w q 0 Hwf) as (s2 & t2 & w2 & ? & ? & ? & _);
    [by apply (most_urgent_runnable w)|done|done|done|cbv zeta; cbn [sched_algorithm set_counts]; by rewrite Ha|].
  exists q, s2, t2, w2. split_and!; try done; [by apply (most_urgent_runnable w)|apply Hu..].
Qed.

(** There is no round robin within a priority level: the queues are rebuilt
    from the process table before every decision, so the rotation a decision
    makes is lost.  Once the most urgent process runs, and as long as no process
    changes state, every one of any number of consecutive decisions chooses it again
    and leaves the table and power management as they are: the others on its level
    never run. *)
Theorem priority_never_rotates k s t w q :
  table_wf t → sched_algorithm s = Priority → most_urgent w t q → current_pid t = Some q →
  sched_room (Z.of_nat k) s → notify_ready (Z.of_nat k) s w →
  ∃ s', schedule_n k s (Some t) w = Val (replicate k (Some q), s', Some t, w).
Proof.
  revert s. induction k as [|k IH]; intros s Hwf Ha Hq Hcur Hroom Hw; [by exists s|].
  pose proof (most_urgent_runnable w t q Hq) as Hin.
  assert (get_runnable_processes t ≠ []) as Hne by (intros E; rewrite E in Hin; by apply not_elem_of_nil in Hin).
  destruct (priority_spec (set_counts s (context_switches (sched_stats s))
    (scheduling_decisions (sched_stats s) + 1) (scheduler_time_us (sched_stats s))) t w Hwf Hne)
    as (q' & s1 & Hp & Hu & Hst & Ha1).
  rewrite (most_urgent_unique w t q' q Hu Hq) in Hp.
  destruct (after_pick s s1 t w q (Z.of_nat k) Hwf Hin)
    as (s2 & t2 & w2 & Hs & _ & _ & _ & Hroom2 & Hw2 & _ & Ha2 & Hsame);
    [by replace (Z.of_nat k + 1) with (Z.of_nat (S k)) by lia..|lia|
     cbv zeta; cbn [sched_algorithm set_counts]; by rewrite Ha|].
  destruct (Hsame Hcur) as (-> & -> & ->).
  destruct (IH s1 Hwf) as (s3 & Hn); [by rewrite Ha1|done..|].
  exists s3. cbn [schedule_n]. rewrite Hs. cbn [mbind outcome_bind]. rewrite Hn. done.
Qed.

Lemma cfs_fold t rs :
  (∀ r, r ∈ rs → ∃ p, get_process t r = Some p ∧ is_runnable p = true ∧ cpu_time_ms p < u64_max) →
  let '(best, least) := foldl (λ '(best, least) id,
      match global_get_process (Some t) id with
      | Some p => if is_runnable p && (cpu_time_ms p <? least) then (Some id, cpu_time_ms p) else (best, least)
      | None => (best, least)
      end) (None, u64_max) rs in
  match best with
  | None => rs = [] ∧ least = u64_max
  | Some q => ∃ p rs1 rs2, rs = rs1 ++ q :: rs2 ∧ get_process t q = Some p ∧ least = cpu_time_ms p ∧
      (∀ r x, r ∈ rs → get_process t r = Some x → least ≤ cpu_time_ms x) ∧
      ∀ r x, r ∈ rs1 → get_process t r = Some x → least < cpu_time_ms x
  end.
Proof.
  induction rs as [|r rs IH] using rev_ind; intros Hrs; [done|].
  specialize (IH ltac:(intros; apply Hrs; set_solver)). rewrite foldl_app. cbn [foldl].
  destruct (foldl _ _ rs) as [best least].
  destruct (Hrs r ltac:(set_solver)) as (pr & Hpr & Hrun & Hmax).
  unfold global_get_process. cbn [mbind option_bind]. rewrite Hpr, Hrun. cbn [andb].
  destruct best as [q|].
  - destruct IH as (p & rs1 & rs2 & -> & Hp & -> & Hall & Hbefore).
    destruct (Z.ltb_spec (cpu_time_ms pr) (cpu_time_ms p)).
    + exists pr, (rs1 ++ q :: rs2), []. split_and!; try done.
      * intros y x [Hy| ->%list_elem_of_singleton]%elem_of_app Hx; [specialize (Hall y x Hy Hx); lia|].
        simplify_eq. lia.
      * intros y x Hy Hx. specialize (Hall y x Hy Hx). lia.
    + exists p, rs1, (rs2 ++ [r]). split_and!; try done; [by rewrite <-app_assoc|].
      intros y x [Hy| ->%list_elem_of_singleton]%elem_of_app Hx; [by eapply Hall|]. simplify_eq. lia.
  - destruct IH as [-> ->]. rewrite (proj2 (Z.ltb_lt _ _)) by done.
    exists pr, [], []. split_and!; try done.
    + intros y x [Hy%not_elem_of_nil| ->%list_elem_of_singleton]%elem_of_app Hx; [done|]. simplify_eq. lia.
    + by intros y x Hy%not_elem_of_nil.
Qed.

(** The simplified CFS chooses a runnable process with the least recorded
    CPU time, the first in slot order among equals (times are below the
    [u64::MAX] the search starts from). *)
Theorem cfs_picks_least_time s t w :
  table_wf t → sched_algorithm s = CompletelyFair → get_runnable_processes t ≠ [] → sched_room 1 s →
  notify_ready 1 s w →
  (∀ r p, get_process t r = Some p → cpu_time_ms p < u64_max) →
  ∃ q p s' t' w' rs1 rs2, schedule s (Some t) w = Val (Ok (Some q), s', Some t', w') ∧
    get_runnable_processes t = rs1 ++ q :: rs2 ∧ get_process t q = Some p ∧ current_pid t' = Some q ∧
    (∀ r x, r ∈ get_runnable_processes t → get_process t r = Some x → cpu_time_ms p ≤ cpu_time_ms x) ∧
    ∀ r x, r ∈ rs1 → get_process t r = Some x → cpu_time_ms p < cpu_time_ms x.
Proof.
  intros Hwf Ha Hne Hroom Hw Hcpu. pose proof (cfs_fold t (get_runnable_processes t)) as Hf.
  destruct (foldl _ _ _) as [best least] eqn:Ef.
  lapply Hf; clear Hf.
  2: { intros r (p & Hp & Hr)%elem_of_pids_where; [|apply Hwf]. exists p. split_and!; try done. by eapply Hcpu. }
  intros Hf. destruct best as [q|]; [|by destruct Hf as [? _]].
  destruct Hf as (p & rs1 & rs2 & Hrs & Hp & Hl & Hall & Hbefore). subst least.
  destruct (after_pick s (set_counts s (context_switches (sched_stats s))
    (scheduling_decisions (sched_stats s) + 1) (scheduler_time_us (sched_stats s))) t w q 0 Hwf)
    as (s2 & t2 & w2 & ? & ? & ? & _); [rewrite Hrs; set_solver|done|done|done| |eauto 14].
  cbv zeta. cbn [sched_algorithm set_counts]. rewrite Ha. split; [|done].
  unfold schedule_cfs. cbn [global_get_runnable_processes].
  assert (is_empty (get_runnable_processes t) = false) as -> by (by destruct (get_runnable_processes t)).
  by rewrite Ef.
Qed.
End scheduler_specs.

(** ** Concrete instances *)

(** A policy that counts its notifications and asks for nothing. *)
Definition demo_policy : PowerPolicy :=
  {| PowerGlobals := Z; power_image := 0; get_power_aware_priority := λ _ _ p, p;
     should_throttle_background := λ _ _, false; should_throttle_process := λ _ _, false;
     notify_power_management := λ w _ _ _, Val (w + 1) |}.
Definition demo_policy_laws : PowerPolicyLaws demo_policy.
Proof. refine {| power_room := (λ _ _ _, True) : Z → Z → @PowerGlobals demo_policy → Prop |}; [done..|]. by eexists. Defined.
(** Three runnable processes, two of them on the same level. *)
Definition trio : ProcessTable :=
  run_table [OpCreate None "a" Normal; OpCreate None "b" Normal; OpCreate None "c" Background] 8.
Lemma trio_wf : table_wf trio.
Proof.
  unfold trio, run_table.
  by destruct (table_run_wf (P:=dev) [OpCreate None "a" Normal; OpCreate None "b" Normal;
    OpCreate None "c" Background] (table_new 8) (table_new_wf 8 ltac:(lia))) as (t & -> & ? & _).
Qed.

Lemma round_robin_fair_witness :
  ∃ s' t' w', schedule_n (P:=dev) (W:=demo_policy) 3 (set_index (scheduler_new RoundRobin 10) 1) (Some trio) 0 =
      Val (Some <$> [2; 3; 1], s', Some t', w') ∧
    [2; 3; 1] ≡ₚ [1; 2; 3] ∧
    table_wf t' ∧ get_runnable_processes t' = [1; 2; 3] ∧ sched_algorithm s' = RoundRobin ∧
    rr_start 3 (last_scheduled_index s') = 1.
Proof.
  apply (round_robin_fair (P:=dev) (W:=demo_policy) (WL:=demo_policy_laws) (set_index (scheduler_new RoundRobin 10) 1) trio);
    [apply trio_wf|reflexivity|discriminate|simpl; lia| |exact I].
  repeat split; vm_compute; congruence.
Defined.

Lemma priority_picks_most_urgent_witness :
  ∃ q s' t' w', schedule (P:=dev) (W:=demo_policy) (scheduler_new Priority 10) (Some trio) 0 =
      Val (Ok (Some q), s', Some t', w') ∧
    q ∈ get_runnable_processes trio ∧
    (∀ r, r ∈ get_runnable_processes trio →
       entry_level (W:=demo_policy) 0 trio q ≤ entry_level (W:=demo_policy) 0 trio r) ∧
    head (at_level (W:=demo_policy) 0 trio (get_runnable_processes trio) (entry_level (W:=demo_policy) 0 trio q)) = Some q ∧
    table_wf t' ∧ current_pid t' = Some q.
Proof.
  apply (priority_picks_most_urgent (P:=dev) (W:=demo_policy) (WL:=demo_policy_laws));
    [apply trio_wf|reflexivity|discriminate| |exact I].
  repeat split; vm_compute; congruence.
Defined.

(** Process 1 of the three runs. *)
Definition trio_running : ProcessTable := (set_current_process trio (Some 1)).2.
Lemma priority_never_rotates_witness :
  ∃ s', schedule_n (P:=dev) (W:=demo_policy) 5 (scheduler_new Priority 10) (Some trio_running) 0 =
      Val (replicate 5 (Some 1), s', Some trio_running, 0).
Proof.
  apply (priority_never_rotates (P:=dev) (W:=demo_policy) (WL:=demo_policy_laws)).
  - pose proof (set_current_spec trio (Some 1) trio_wf) as Hs. unfold trio_running.
    destruct (set_current_process trio (Some 1)) as [[[]|e] t] eqn:E; [apply Hs|discriminate E].
  - reflexivity.
  - split; [reflexivity|]. intros r Hr. change (get_runnable_processes trio_running) with [1; 2; 3] in Hr.
    rewrite !elem_of_cons, elem_of_nil in Hr. destruct Hr as [->|[->|[->|[]]]]; vm_compute; discriminate.
  - reflexivity.
  - repeat split; vm_compute; congruence.
  - exact I.
Defined.

Lemma cfs_picks_least_time_witness :
  ∃ q p s' t' w' rs1 rs2, schedule (P:=dev) (W:=demo_policy) (scheduler_new CompletelyFair 10) (Some trio) 0 =
      Val (Ok (Some q), s', Some t', w') ∧
    get_runnable_processes trio = rs1 ++ q :: rs2 ∧ get_process trio q = Some p ∧ current_pid t' = Some q ∧
    (∀ r x, r ∈ get_runnable_processes trio → get_process trio r = Some x → cpu_time_ms p ≤ cpu_time_ms x) ∧
    ∀ r x, r ∈ rs1 → get_process trio r = Some x → cpu_time_ms p < cpu_time_ms x.
Proof.
  apply (cfs_picks_least_time (P:=dev) (W:=demo_policy) (WL:=demo_policy_laws)); [apply trio_wf|reflexivity|discriminate| | |].
  - repeat split; vm_compute; congruence.
  - exact I.
  - intros r p Hp. apply get_process_Some in Hp as [Hr Hp]; [|apply trio_wf].
    assert (p ∈ omap id (processes trio)) as Hin.
    { apply list_elem_of_omap. exists (Some p). split; [by eapply list_elem_of_lookup_2|done]. }
    revert Hin. change (omap id (processes trio)) with
      [set_state (process_new 1 None "a" Normal) Ready; set_state (process_new 2 None "b" Normal) Ready;
       set_state (process_new 3 None "c" Background) Ready].
    rewrite !elem_of_cons, elem_of_nil. intros [->|[->|[->|[]]]]; reflexivity.
Defined.

