(* ===== verification/Syscall.v ===== *)
(** * System calls

    Models [kernel/src/syscall/]: the numbers ([numbers.rs]), the errors and
    their errno values ([error.rs]), the validation of arguments
    ([validation.rs]), the dispatcher and the handler of every call
    ([dispatcher.rs]) and the entry point that encodes the result in a register
    ([mod.rs]).  The handlers of [fork], [send_message] and [receive_message]
    reach the process table of [Process] and the IPC system of [Ipc]; the state
    of the kernel is the [IpcState] those share.

    Debug calls exist only with [debug_assertions], which is the [Profile]. *)
From stdpp Require Import pretty.
From S2P Require Import Prelude Capability Process Ipc.
Local Open Scope kosh_scope.

(** ** Errors *)
Module Sys.
Inductive SyscallError :=
  | InvalidSyscall | InvalidArgument | PermissionDenied | NotFound | ProcessNotFound
  | AlreadyExists | NotSupported | OutOfMemory | WouldBlock | Interrupted
  | BadFileDescriptor | BrokenPipe | AddressInUse | ConnectionRefused | TimedOut
  | ResourceExhausted | InternalError.
#[export] Instance SyscallError_eq_dec : EqDecision SyscallError.
Proof. solve_decision. Defined.
End Sys.

Definition to_errno (e : Sys.SyscallError) : Z :=
  match e with
  | Sys.InvalidSyscall => -1
  | Sys.InvalidArgument => -22
  | Sys.PermissionDenied => -13
  | Sys.NotFound => -2
  | Sys.ProcessNotFound => -3
  | Sys.AlreadyExists => -17
  | Sys.NotSupported => -95
  | Sys.OutOfMemory => -12
  | Sys.WouldBlock => -11
  | Sys.Interrupted => -4
  | Sys.BadFileDescriptor => -9
  | Sys.BrokenPipe => -32
  | Sys.AddressInUse => -98
  | Sys.ConnectionRefused => -111
  | Sys.TimedOut => -110
  | Sys.ResourceExhausted => -105
  | Sys.InternalError => -5
  end.

Definition description (e : Sys.SyscallError) : string :=
  match e with
  | Sys.InvalidSyscall => "Invalid system call number"
  | Sys.InvalidArgument => "Invalid argument"
  | Sys.PermissionDenied => "Permission denied"
  | Sys.NotFound => "Resource not found"
  | Sys.ProcessNotFound => "Process not found"
  | Sys.AlreadyExists => "Resource already exists"
  | Sys.NotSupported => "Operation not supported"
  | Sys.OutOfMemory => "Out of memory"
  | Sys.WouldBlock => "Resource temporarily unavailable"
  | Sys.Interrupted => "Operation interrupted"
  | Sys.BadFileDescriptor => "Bad file descriptor"
  | Sys.BrokenPipe => "Broken pipe"
  | Sys.AddressInUse => "Address already in use"
  | Sys.ConnectionRefused => "Connection refused"
  | Sys.TimedOut => "Operation timed out"
  | Sys.ResourceExhausted => "System resource exhausted"
  | Sys.InternalError => "Internal kernel error"
  end.

Definition from_message_error (e : MessageError) : Sys.SyscallError :=
  match e with
  | InvalidMessage => Sys.InvalidArgument
  | SenderNotFound => Sys.NotFound
  | ReceiverNotFound => Sys.NotFound
  | QueueFull => Sys.ResourceExhausted
  | NoMessage => Sys.WouldBlock
  | MsgPermissionDenied => Sys.PermissionDenied
  | MessageTooLarge => Sys.InvalidArgument
  | Timeout => Sys.TimedOut
  | MsgResourceExhausted => Sys.ResourceExhausted
  end.

Definition from_process_error (e : ProcessError) : Sys.SyscallError :=
  match e with
  | ProcessNotFound => Sys.NotFound
  | ProcessTableFull => Sys.ResourceExhausted
  | InvalidStateTransition => Sys.InvalidArgument
  | ProcessTerminated => Sys.InvalidArgument
  | OutOfMemory => Sys.OutOfMemory
  | InvalidPid => Sys.InvalidArgument
  end.

(** ** Numbers *)
Definition SYS_EXIT : Z := 1.
Definition SYS_FORK : Z := 2.
Definition SYS_EXEC : Z := 3.
Definition SYS_WAIT : Z := 4.
Definition SYS_GETPID : Z := 5.
Definition SYS_GETPPID : Z := 6.
Definition SYS_KILL : Z := 7.
Definition SYS_MMAP : Z := 10.
Definition SYS_MUNMAP : Z := 11.
Definition SYS_MPROTECT : Z := 12.
Definition SYS_BRK : Z := 13.
Definition SYS_SBRK : Z := 14.
Definition SYS_OPEN : Z := 20.
Definition SYS_CLOSE : Z := 21.
Definition SYS_READ : Z := 22.
Definition SYS_WRITE : Z := 23.
Definition SYS_LSEEK : Z := 24.
Definition SYS_STAT : Z := 25.
Definition SYS_FSTAT : Z := 26.
Definition SYS_MKDIR : Z := 27.
Definition SYS_RMDIR : Z := 28.
Definition SYS_UNLINK : Z := 29.
Definition SYS_SEND_MESSAGE : Z := 30.
Definition SYS_RECEIVE_MESSAGE : Z := 31.
Definition SYS_REPLY_MESSAGE : Z := 32.
Definition SYS_CREATE_CHANNEL : Z := 33.
Definition SYS_DESTROY_CHANNEL : Z := 34.
Definition SYS_DRIVER_REGISTER : Z := 40.
Definition SYS_DRIVER_UNREGISTER : Z := 41.
Definition SYS_DRIVER_REQUEST : Z := 42.
Definition SYS_DRIVER_RESPONSE : Z := 43.
Definition SYS_UNAME : Z := 50.
Definition SYS_SYSINFO : Z := 51.
Definition SYS_TIME : Z := 52.
Definition SYS_CLOCK_GETTIME : Z := 53.
Definition SYS_GRANT_CAPABILITY : Z := 60.
Definition SYS_REVOKE_CAPABILITY : Z := 61.
Definition SYS_CHECK_CAPABILITY : Z := 62.
Definition SYS_LIST_CAPABILITIES : Z := 63.
Definition SYS_DEBUG_PRINT : Z := 100.
Definition SYS_DEBUG_DUMP : Z := 101.

Section numbers.
Context {P : Profile}.

Definition MAX_SYSCALL_NUMBER : Z := if debug_assertions then 101 else 63.
Definition is_valid_syscall_number (n : Z) : bool := (0 <? n) && (n <=? MAX_SYSCALL_NUMBER).

(** [#[cfg(debug_assertions)]] arms of a match. *)
Definition cfg_debug {A} (arms : list (Z * A)) : list (Z * A) := if debug_assertions then arms else [].

Definition name_arms : list (Z * string) :=
  [(SYS_EXIT, "exit"); (SYS_FORK, "fork"); (SYS_EXEC, "exec"); (SYS_WAIT, "wait");
   (SYS_GETPID, "getpid"); (SYS_GETPPID, "getppid"); (SYS_KILL, "kill");
   (SYS_MMAP, "mmap"); (SYS_MUNMAP, "munmap"); (SYS_MPROTECT, "mprotect"); (SYS_BRK, "brk");
   (SYS_SBRK, "sbrk");
   (SYS_OPEN, "open"); (SYS_CLOSE, "close"); (SYS_READ, "read"); (SYS_WRITE, "write");
   (SYS_LSEEK, "lseek"); (SYS_STAT, "stat"); (SYS_FSTAT, "fstat"); (SYS_MKDIR, "mkdir");
   (SYS_RMDIR, "rmdir"); (SYS_UNLINK, "unlink");
   (SYS_SEND_MESSAGE, "send_message"); (SYS_RECEIVE_MESSAGE, "receive_message");
   (SYS_REPLY_MESSAGE, "reply_message"); (SYS_CREATE_CHANNEL, "create_channel");
   (SYS_DESTROY_CHANNEL, "destroy_channel");
   (SYS_DRIVER_REGISTER, "driver_register"); (SYS_DRIVER_UNREGISTER, "driver_unregister");
   (SYS_DRIVER_REQUEST, "driver_request"); (SYS_DRIVER_RESPONSE, "driver_response");
   (SYS_UNAME, "uname"); (SYS_SYSINFO, "sysinfo"); (SYS_TIME, "time");
   (SYS_CLOCK_GETTIME, "clock_gettime");
   (SYS_GRANT_CAPABILITY, "grant_capability"); (SYS_REVOKE_CAPABILITY, "revoke_capability");
   (SYS_CHECK_CAPABILITY, "check_capability"); (SYS_LIST_CAPABILITIES, "list_capabilities")]
  ++ cfg_debug [(SYS_DEBUG_PRINT, "debug_print"); (SYS_DEBUG_DUMP, "debug_dump")].
Definition syscall_name (n : Z) : string := match_arms name_arms n "unknown".
End numbers.

(** ** Validation

    The argument registers, [[u64; 6]]. *)
Record Args := { arg0 : Z; arg1 : Z; arg2 : Z; arg3 : Z; arg4 : Z; arg5 : Z }.
Definition Checked : Type := result unit Sys.SyscallError.

Definition validate_user_pointer (process_id ptr size : Z) : Checked :=
  if ptr =? 0 then Err Sys.InvalidArgument else Ok ().
Definition validate_user_string (process_id ptr max_len : Z) : Checked :=
  if ptr =? 0 then Err Sys.InvalidArgument else Ok ().
Definition validate_file_descriptor (fd : Z) : Checked :=
  if 1024 <? fd then Err Sys.BadFileDescriptor else Ok ().

Definition validate_exit_args (a : Args) : Checked := Ok ().
Definition validate_fork_args (a : Args) : Checked := Ok ().
Definition validate_exec_args (process_id : Z) (a : Args) : Checked :=
  validate_user_string process_id (arg0 a) 4096 ?;;
  (if negb (arg1 a =? 0) then validate_user_pointer process_id (arg1 a) 8 else Ok ()) ?;;
  (if negb (arg2 a =? 0) then validate_user_pointer process_id (arg2 a) 8 else Ok ()) ?;;
  Ok ().
Definition validate_wait_args (a : Args) : Checked := Ok ().
Definition validate_no_args (a : Args) : Checked := Ok ().
Definition validate_kill_args (a : Args) : Checked :=
  if arg0 a =? 0 then Err Sys.InvalidArgument
  else if 64 <? arg1 a then Err Sys.InvalidArgument
  else Ok ().

Definition validate_mmap_args (a : Args) : Checked :=
  if arg1 a =? 0 then Err Sys.InvalidArgument
  else if 7 <? arg2 a then Err Sys.InvalidArgument
  else
    (if (Z.land (arg3 a) 1 =? 0) && negb (arg4 a =? u64_max)
     then validate_file_descriptor (arg4 a) else Ok ()) ?;;
    Ok ().
Definition validate_munmap_args (a : Args) : Checked :=
  if (arg0 a =? 0) || (arg1 a =? 0) then Err Sys.InvalidArgument else Ok ().
Definition validate_mprotect_args (a : Args) : Checked :=
  if (arg0 a =? 0) || (arg1 a =? 0) then Err Sys.InvalidArgument
  else if 7 <? arg2 a then Err Sys.InvalidArgument
  else Ok ().
Definition validate_brk_args (a : Args) : Checked := Ok ().

Definition validate_open_args (process_id : Z) (a : Args) : Checked :=
  validate_user_string process_id (arg0 a) 4096 ?;;
  if 65535 <? arg1 a then Err Sys.InvalidArgument else Ok ().
Definition validate_close_args (a : Args) : Checked := validate_file_descriptor (arg0 a).
Definition validate_read_args (process_id : Z) (a : Args) : Checked :=
  validate_file_descriptor (arg0 a) ?;;
  (if 0 <? arg2 a then validate_user_pointer process_id (arg1 a) (arg2 a) else Ok ()) ?;;
  Ok ().
Definition validate_write_args (process_id : Z) (a : Args) : Checked :=
  validate_file_descriptor (arg0 a) ?;;
  (if 0 <? arg2 a then validate_user_pointer process_id (arg1 a) (arg2 a) else Ok ()) ?;;
  Ok ().
Definition validate_lseek_args (a : Args) : Checked :=
  validate_file_descriptor (arg0 a) ?;;
  if 2 <? arg2 a then Err Sys.InvalidArgument else Ok ().
Definition validate_stat_args (process_id : Z) (a : Args) : Checked :=
  validate_user_pointer process_id (arg1 a) 144 ?;; Ok ().
Definition validate_mkdir_args (process_id : Z) (a : Args) : Checked :=
  validate_user_string process_id (arg0 a) 4096 ?;; Ok ().
Definition validate_unlink_args (process_id : Z) (a : Args) : Checked :=
  validate_user_string process_id (arg0 a) 4096.

Definition validate_send_message_args (process_id : Z) (a : Args) : Checked :=
  if arg0 a =? 0 then Err Sys.InvalidArgument
  else
    (if 0 <? arg2 a then validate_user_pointer process_id (arg1 a) (arg2 a) else Ok ()) ?;;
    Ok ().
Definition validate_receive_message_args (a : Args) : Checked := Ok ().
Definition validate_reply_message_args (process_id : Z) (a : Args) : Checked :=
  if arg0 a =? 0 then Err Sys.InvalidArgument
  else
    (if 0 <? arg2 a then validate_user_pointer process_id (arg1 a) (arg2 a) else Ok ()) ?;;
    Ok ().
Definition validate_create_channel_args (a : Args) : Checked :=
  if arg0 a =? 0 then Err Sys.InvalidArgument else Ok ().
Definition validate_destroy_channel_args (a : Args) : Checked :=
  if arg0 a =? 0 then Err Sys.InvalidArgument else Ok ().

Definition validate_driver_register_args (process_id : Z) (a : Args) : Checked :=
  validate_user_pointer process_id (arg0 a) 64.
Definition validate_driver_unregister_args (process_id : Z) (a : Args) : Checked :=
  if arg0 a =? 0 then Err Sys.InvalidArgument else Ok ().
Definition validate_driver_request_args (process_id : Z) (a : Args) : Checked :=
  if arg0 a =? 0 then Err Sys.InvalidArgument
  else
    (if 0 <? arg2 a then validate_user_pointer process_id (arg1 a) (arg2 a) else Ok ()) ?;;
    Ok ().
Definition validate_driver_response_args (process_id : Z) (a : Args) : Checked :=
  if arg0 a =? 0 then Err Sys.InvalidArgument
  else
    (if 0 <? arg2 a then validate_user_pointer process_id (arg1 a) (arg2 a) else Ok ()) ?;;
    Ok ().

Definition validate_info_args (a : Args) : Checked := Ok ().
Definition validate_clock_gettime_args (a : Args) : Checked :=
  if 10 <? arg0 a then Err Sys.InvalidArgument else Ok ().

Definition validate_grant_capability_args (process_id : Z) (a : Args) : Checked :=
  if arg0 a =? 0 then Err Sys.InvalidArgument
  else
    (if negb (arg2 a =? 0) then validate_user_pointer process_id (arg2 a) 64 else Ok ()) ?;;
    Ok ().
Definition validate_revoke_capability_args (process_id : Z) (a : Args) : Checked :=
  if (arg0 a =? 0) || (arg1 a =? 0) then Err Sys.InvalidArgument else Ok ().
Definition validate_check_capability_args (process_id : Z) (a : Args) : Checked :=
  (if negb (arg1 a =? 0) then validate_user_pointer process_id (arg1 a) 64 else Ok ()) ?;;
  Ok ().
Definition validate_list_capabilities_args (a : Args) : Checked := Ok ().
Definition validate_debug_print_args (a : Args) : Checked := Ok ().
Definition validate_debug_dump_args (a : Args) : Checked := Ok ().

Section dispatcher.
Context {P : Profile} {L : Layout}.

Definition validate_arms (pid : Z) (a : Args) : list (Z * Checked) :=
  [(SYS_EXIT, validate_exit_args a); (SYS_FORK, validate_fork_args a);
   (SYS_EXEC, validate_exec_args pid a); (SYS_WAIT, validate_wait_args a);
   (SYS_GETPID, validate_no_args a); (SYS_GETPPID, validate_no_args a);
   (SYS_KILL, validate_kill_args a);
   (SYS_MMAP, validate_mmap_args a); (SYS_MUNMAP, validate_munmap_args a);
   (SYS_MPROTECT, validate_mprotect_args a); (SYS_BRK, validate_brk_args a);
   (SYS_SBRK, validate_brk_args a);
   (SYS_OPEN, validate_open_args pid a); (SYS_CLOSE, validate_close_args a);
   (SYS_READ, validate_read_args pid a); (SYS_WRITE, validate_write_args pid a);
   (SYS_LSEEK, validate_lseek_args a); (SYS_STAT, validate_stat_args pid a);
   (SYS_FSTAT, validate_stat_args pid a); (SYS_MKDIR, validate_mkdir_args pid a);
   (SYS_RMDIR, validate_unlink_args pid a); (SYS_UNLINK, validate_unlink_args pid a);
   (SYS_SEND_MESSAGE, validate_send_message_args pid a);
   (SYS_RECEIVE_MESSAGE, validate_receive_message_args a);
   (SYS_REPLY_MESSAGE, validate_reply_message_args pid a);
   (SYS_CREATE_CHANNEL, validate_create_channel_args a);
   (SYS_DESTROY_CHANNEL, validate_destroy_channel_args a);
   (SYS_DRIVER_REGISTER, validate_driver_register_args pid a);
   (SYS_DRIVER_UNREGISTER, validate_driver_unregister_args pid a);
   (SYS_DRIVER_REQUEST, validate_driver_request_args pid a);
   (SYS_DRIVER_RESPONSE, validate_driver_response_args pid a);
   (SYS_UNAME, validate_info_args a); (SYS_SYSINFO, validate_info_args a);
   (SYS_TIME, validate_info_args a); (SYS_CLOCK_GETTIME, validate_clock_gettime_args a);
   (SYS_GRANT_CAPABILITY, validate_grant_capability_args pid a);
   (SYS_REVOKE_CAPABILITY, validate_revoke_capability_args pid a);
   (SYS_CHECK_CAPABILITY, validate_check_capability_args pid a);
   (SYS_LIST_CAPABILITIES, validate_list_capabilities_args a)]
  ++ cfg_debug [(SYS_DEBUG_PRINT, validate_debug_print_args a);
                (SYS_DEBUG_DUMP, validate_debug_dump_args a)].

Definition validate_syscall_args (pid n : Z) (a : Args) : Checked :=
  if negb (is_valid_syscall_number n) then Err Sys.InvalidSyscall
  else match_arms (validate_arms pid a) n (Err Sys.InvalidSyscall).

(** ** Handlers

    A handler that touches no global of the kernel is a function of the caller
    and the arguments; values it only computes for the log are left out. *)
Definition SyscallResult : Type := result Z Sys.SyscallError.

Definition sys_exit (pid : Z) (a : Args) : SyscallResult := Ok 0.

(** [process::create_process]: the operation on the global table. *)
Definition create_process_global (st : IpcState) (parent : option Z) (nm : string) (prio : ProcessPriority) :
    outcome (result Z ProcessError * IpcState) :=
  match table st with
  | None => Val (Err ProcessNotFound, st)
  | Some t =>
      '(r, t) ← create_process t parent nm prio;
      Val (r, {| table := Some t; caps := caps st; queue_manager := queue_manager st;
                 next_message_id := next_message_id st |})
  end.

Definition sys_fork (st : IpcState) (pid : Z) (a : Args) : outcome (SyscallResult * IpcState) :=
  '(r, st) ← create_process_global st (Some pid) ("child_of_" +:+ pretty pid) Normal;
  match r with
  | Ok child => Val (Ok child, st)
  | Err _ => Val (Err Sys.OutOfMemory, st)
  end.

Definition sys_exec (pid : Z) (a : Args) : SyscallResult := Err Sys.NotSupported.
Definition sys_wait (pid : Z) (a : Args) : SyscallResult := Err Sys.NotSupported.
Definition sys_getpid (pid : Z) (a : Args) : SyscallResult := Ok pid.
Definition sys_getppid (pid : Z) (a : Args) : SyscallResult := Ok 0.
Definition sys_kill (pid : Z) (a : Args) : SyscallResult := Err Sys.NotSupported.

(** The protection flags of the request are converted and then not used. *)
Definition sys_mmap (pid : Z) (a : Args) : SyscallResult :=
  if arg1 a =? 0 then Err Sys.InvalidArgument
  else Ok (if arg0 a =? 0 then 0x40000000 else arg0 a).
Definition sys_munmap (pid : Z) (a : Args) : SyscallResult := Err Sys.NotSupported.
Definition sys_mprotect (pid : Z) (a : Args) : SyscallResult := Err Sys.NotSupported.
Definition sys_brk (pid : Z) (a : Args) : SyscallResult := Err Sys.NotSupported.
Definition sys_sbrk (pid : Z) (a : Args) : SyscallResult := Err Sys.NotSupported.

Definition sys_open (pid : Z) (a : Args) : SyscallResult :=
  if bool_decide (arg1 a ∈ [0; 1; 2]) then Ok 3 else Err Sys.InvalidArgument.
Definition sys_close (pid : Z) (a : Args) : SyscallResult := Err Sys.NotSupported.
Definition sys_read (pid : Z) (a : Args) : SyscallResult :=
  if arg0 a =? 0 then Ok 0
  else if arg2 a =? 0 then Ok 0
  else Ok (Z.min (arg2 a) 1024).
Definition sys_write (pid : Z) (a : Args) : SyscallResult :=
  if (arg0 a =? 1) || (arg0 a =? 2) then Ok (arg2 a) else Err Sys.NotSupported.
Definition sys_lseek (pid : Z) (a : Args) : SyscallResult := Err Sys.NotSupported.
Definition sys_stat (pid : Z) (a : Args) : SyscallResult := Err Sys.NotSupported.
Definition sys_fstat (pid : Z) (a : Args) : SyscallResult := Err Sys.NotSupported.
Definition sys_mkdir (pid : Z) (a : Args) : SyscallResult := Err Sys.NotSupported.
Definition sys_rmdir (pid : Z) (a : Args) : SyscallResult := Err Sys.NotSupported.
Definition sys_unlink (pid : Z) (a : Args) : SyscallResult := Err Sys.NotSupported.

(** [message::create_message]. *)
Definition create_message (st : IpcState) (from to : Z) (ty : MessageType) (d : MessageData) :
    outcome (Message * IpcState) :=
  '(m, next) ← message_new (next_message_id st) from to ty d;
  Val (m, {| table := table st; caps := caps st; queue_manager := queue_manager st;
             next_message_id := next |}).

Definition message_text (pid message_len : Z) : string :=
  "Message from process " +:+ pretty pid +:+ " (len=" +:+ pretty message_len +:+ ")".

Definition sys_send_message (st : IpcState) (pid : Z) (a : Args) : outcome (SyscallResult * IpcState) :=
  if 4096 <? arg2 a then Val (Err Sys.InvalidArgument, st)
  else
    '(m, st) ← create_message st pid (arg0 a mod 2 ^ 32) ServiceRequest (Text (message_text pid (arg2 a)));
    '(r, st) ← send_message st m;
    match r with
    | Ok _ => Val (Ok 0, st)
    | Err e => Val (Err (from_message_error e), st)
    end.

Definition sys_receive_message (st : IpcState) (pid : Z) (a : Args) : outcome (SyscallResult * IpcState) :=
  '(r, st) ← receive_message st pid;
  match r with
  | Ok m => Val (Ok (message_id (header m)), st)
  | Err e => Val (Err (from_message_error e), st)
  end.

Definition sys_reply_message (pid : Z) (a : Args) : SyscallResult := Err Sys.NotSupported.
Definition sys_create_channel (pid : Z) (a : Args) : SyscallResult := Err Sys.NotSupported.
Definition sys_destroy_channel (pid : Z) (a : Args) : SyscallResult := Err Sys.NotSupported.
Definition sys_driver_register (pid : Z) (a : Args) : SyscallResult := Err Sys.NotSupported.
Definition sys_driver_unregister (pid : Z) (a : Args) : SyscallResult := Err Sys.NotSupported.
Definition sys_driver_request (pid : Z) (a : Args) : SyscallResult := Err Sys.NotSupported.
Definition sys_driver_response (pid : Z) (a : Args) : SyscallResult := Err Sys.NotSupported.
Definition sys_uname (pid : Z) (a : Args) : SyscallResult := Err Sys.NotSupported.
Definition sys_sysinfo (pid : Z) (a : Args) : SyscallResult := Err Sys.NotSupported.
Definition sys_time (pid : Z) (a : Args) : SyscallResult := Ok 0.
Definition sys_clock_gettime (pid : Z) (a : Args) : SyscallResult := Err Sys.NotSupported.
Definition sys_grant_capability (pid : Z) (a : Args) : SyscallResult := Err Sys.NotSupported.
Definition sys_revoke_capability (pid : Z) (a : Args) : SyscallResult := Err Sys.NotSupported.
Definition sys_check_capability (pid : Z) (a : Args) : SyscallResult := Err Sys.NotSupported.
Definition sys_list_capabilities (pid : Z) (a : Args) : SyscallResult := Err Sys.NotSupported.
Definition sys_debug_print (pid : Z) (a : Args) : SyscallResult := Ok 0.
Definition sys_debug_dump (pid : Z) (a : Args) : SyscallResult := Ok 0.

(** ** Dispatch *)
Definition Handler : Type := IpcState → Z → Args → outcome (SyscallResult * IpcState).
Definition stateless (f : Z → Args → SyscallResult) : Handler := λ st pid a, Val (f pid a, st).

Definition dispatch_arms : list (Z * Handler) :=
  [(SYS_EXIT, stateless sys_exit); (SYS_FORK, sys_fork); (SYS_EXEC, stateless sys_exec);
   (SYS_WAIT, stateless sys_wait); (SYS_GETPID, stateless sys_getpid);
   (SYS_GETPPID, stateless sys_getppid); (SYS_KILL, stateless sys_kill);
   (SYS_MMAP, stateless sys_mmap); (SYS_MUNMAP, stateless sys_munmap);
   (SYS_MPROTECT, stateless sys_mprotect); (SYS_BRK, stateless sys_brk);
   (SYS_SBRK, stateless sys_sbrk);
   (SYS_OPEN, stateless sys_open); (SYS_CLOSE, stateless sys_close);
   (SYS_READ, stateless sys_read); (SYS_WRITE, stateless sys_write);
   (SYS_LSEEK, stateless sys_lseek); (SYS_STAT, stateless sys_stat);
   (SYS_FSTAT, stateless sys_fstat); (SYS_MKDIR, stateless sys_mkdir);
   (SYS_RMDIR, stateless sys_rmdir); (SYS_UNLINK, stateless sys_unlink);
   (SYS_SEND_MESSAGE, sys_send_message); (SYS_RECEIVE_MESSAGE, sys_receive_message);
   (SYS_REPLY_MESSAGE, stateless sys_reply_message);
   (SYS_CREATE_CHANNEL, stateless sys_create_channel);
   (SYS_DESTROY_CHANNEL, stateless sys_destroy_channel);
   (SYS_DRIVER_REGISTER, stateless sys_driver_register);
   (SYS_DRIVER_UNREGISTER, stateless sys_driver_unregister);
   (SYS_DRIVER_REQUEST, stateless sys_driver_request);
   (SYS_DRIVER_RESPONSE, stateless sys_driver_response);
   (SYS_UNAME, stateless sys_uname); (SYS_SYSINFO, stateless sys_sysinfo);
   (SYS_TIME, stateless sys_time); (SYS_CLOCK_GETTIME, stateless sys_clock_gettime);
   (SYS_GRANT_CAPABILITY, stateless sys_grant_capability);
   (SYS_REVOKE_CAPABILITY, stateless sys_revoke_capability);
   (SYS_CHECK_CAPABILITY, stateless sys_check_capability);
   (SYS_LIST_CAPABILITIES, stateless sys_list_capabilities)]
  ++ cfg_debug [(SYS_DEBUG_PRINT, stateless sys_debug_print);
                (SYS_DEBUG_DUMP, stateless sys_debug_dump)].

Definition dispatch_syscall (st : IpcState) (pid n : Z) (a : Args) : outcome (SyscallResult * IpcState) :=
  match validate_syscall_args pid n a with
  | Err e => Val (Err e, st)
  | Ok _ =>
      match_arms dispatch_arms n (stateless (λ _ _, Err Sys.InvalidSyscall)) st pid a
  end.

(** The interface has no state of its own to set up: both stages only log. *)
Definition init_syscall_dispatcher : result unit string := Ok ().
Definition setup_syscall_interrupt : result unit string := Ok ().
Definition init_syscall_interface : result unit string :=
  and_then init_syscall_dispatcher (λ _, and_then setup_syscall_interrupt (λ _, Ok ())).

(** [to_errno() as u64]: an [i32] is sign-extended. *)
Definition i32_as_u64 (z : Z) : Z := z mod 2 ^ 64.

(** Every caller is process 1. *)
Definition syscall_entry (st : IpcState) (n : Z) (a : Args) : outcome (Z * IpcState) :=
  '(r, st) ← dispatch_syscall st 1 n a;
  match r with
  | Ok v => Val (v, st)
  | Err e => Val (i32_as_u64 (to_errno e), st)
  end.
End dispatcher.

(** ** The kernel's invariant

    [kernel_wf n σ st]: the process table, the capabilities and the queues are
    well formed, the live grants are [σ], every pending message has an
    identifier already handed out, and [n] more counter increments fit. *)
Section kernel.
Context {P : Profile} {L : Layout} (Hhead : 0 ≤ header_size < 2 ^ 62) (Hcap : 0 ≤ capability_size).

Record kernel_wf (n : Z) (σ : gmap Z Grant) (st : IpcState) : Prop := {
  kw_ipc : ipc_rel n σ st;
  kw_table : ∃ t, table st = Some t ∧ table_wf t;
  kw_next : 1 ≤ next_message_id st ∧ next_message_id st + n < 2 ^ 64;
  kw_ids pid m : m ∈ pending st pid → 1 ≤ message_id (header m) < next_message_id st;
}.

Definition u64 (z : Z) : Prop := 0 ≤ z < 2 ^ 64.
Definition args_ok (a : Args) : Prop :=
  u64 (arg0 a) ∧ u64 (arg1 a) ∧ u64 (arg2 a) ∧ u64 (arg3 a) ∧ u64 (arg4 a) ∧ u64 (arg5 a).

(** The decimal rendering of a [u64] has at most 20 digits. *)
Lemma pretty_go_length k : ∀ (x : N) s, (x < 10 ^ N.of_nat k)%N →
  (String.length (pretty_N_go x s) ≤ k + String.length s)%nat.
Proof.
  induction k as [|k IH]; intros x s Hx.
  - assert (x = 0%N) as -> by (simpl in Hx; lia). rewrite pretty_N_go_0. lia.
  - destruct (decide (x = 0%N)) as [->|Hne]; [rewrite pretty_N_go_0; lia|].
    rewrite pretty_N_go_step by lia. etrans; [apply IH|simpl; lia].
    rewrite Nat2N.inj_succ, N.pow_succ_r' in Hx. apply N.Div0.div_lt_upper_bound. lia.
Qed.

Lemma pretty_length z : u64 z → (String.length (pretty z) ≤ 20)%nat.
Proof.
  intros Hz. destruct z as [|x|x]; [vm_compute; lia| |unfold u64 in Hz; lia].
  change (pretty (Z.pos x)) with (pretty (N.pos x)).
  unfold pretty, pretty_N. case_decide; [simpl; lia|].
  etrans; [apply (pretty_go_length 20)|simpl; lia].
  unfold u64 in Hz. change (10 ^ N.of_nat 20)%N with 100000000000000000000%N. lia.
Qed.

Lemma string_length_app s t : String.length (s +:+ t) = (String.length s + String.length t)%nat.
Proof. induction s as [|c s IH]; [done|]. change (S (String.length (s +:+ t)) = S (String.length s + String.length t)). by rewrite IH. Qed.

Lemma message_text_length pid k : u64 pid → u64 k → (String.length (message_text pid k) ≤ 100)%nat.
Proof.
  intros Hp%pretty_length Hk%pretty_length. unfold message_text. rewrite !string_length_app.
  change (String.length "Message from process ") with 21%nat. change (String.length " (len=") with 6%nat.
  change (String.length ")") with 1%nat. lia.
Qed.

Lemma ipc_rel_mono n n' σ st : ipc_rel n σ st → 0 ≤ n' ≤ n → ipc_rel n' σ st.
Proof.
  intros [? (? & m & ? & ?) (mg & ? & ? & ? & Hq)] Hn.
  split; [done|split; [lia|]; exists m; split; [done|lia]|].
  exists mg. split_and!; try done; try lia. intros pid q Hpq.
  destruct (Hq pid q Hpq) as (? & ? & ? & ?). split_and!; try done. apply (queue_wf_mono n); [lia|done].
Qed.

Lemma kernel_wf_mono n n' σ st : kernel_wf n σ st → 0 ≤ n' ≤ n → kernel_wf n' σ st.
Proof.
  intros [? ? ? ?] Hn. split; [by apply (ipc_rel_mono n)|done|lia|done].
Qed.

(** The table and the counter of identifiers are no part of [ipc_rel]. *)
Lemma ipc_rel_other n σ st t next : ipc_rel n σ st →
  ipc_rel n σ {| table := t; caps := caps st; queue_manager := queue_manager st; next_message_id := next |}.
Proof. intros [? ? ?]. by split. Qed.

Lemma enqueue_message_next st to m r st' : enqueue_message st to m = Val (r, st') →
  next_message_id st' = next_message_id st.
Proof. unfold enqueue_message. destruct (queue_manager st); intros H; inv_val; done. Qed.
Lemma send_message_next st m r st' : send_message st m = Val (r, st') →
  next_message_id st' = next_message_id st.
Proof.
  unfold send_message. intros H. repeat case_decide; inv_val; try done.
  destruct (negb _); inv_val; [done|]. by apply enqueue_message_next in H.
Qed.
Lemma receive_message_next st pid r st' : receive_message st pid = Val (r, st') →
  next_message_id st' = next_message_id st.
Proof.
  unfold receive_message, dequeue_message. intros H. case_decide; [by inv_val|].
  destruct (queue_manager st); inv_val; done.
Qed.

(** What every handler guarantees. *)
Definition handled (n : Z) (σ : gmap Z Grant) (st : IpcState) (o : outcome (SyscallResult * IpcState)) : Prop :=
  ∃ r st', o = Val (r, st') ∧ kernel_wf (n - 2) σ st' ∧ (∀ q, alive st q → alive st' q) ∧
    r ≠ Err Sys.InvalidSyscall ∧ ∀ v, r = Ok v → u64 v.
Definition handler_ok (h : Handler) : Prop := ∀ n σ st pid a,
  kernel_wf n σ st → 2 ≤ n → 0 ≤ pid < 2 ^ 32 → args_ok a → handled n σ st (h st pid a).

Lemma stateless_ok f :
  (∀ pid a, 0 ≤ pid < 2 ^ 32 → args_ok a →
     f pid a ≠ Err Sys.InvalidSyscall ∧ ∀ v, f pid a = Ok v → u64 v) →
  handler_ok (stateless f).
Proof.
  intros Hf n σ st pid a Hwf Hn Hp Ha. destruct (Hf pid a Hp Ha) as [Hr Hv].
  eexists _, _. split; [done|]. split_and!; try done. apply (kernel_wf_mono n); [done|lia].
Qed.

Lemma from_message_error_valid e : from_message_error e ≠ Sys.InvalidSyscall.
Proof. by destruct e. Qed.

Lemma message_new_ok next pid to ty d m next' : data_size d < 2 ^ 62 →
  message_new next pid to ty d = Val (m, next') → msg_ok m.
Proof.
  intros Hd Hm. unfold message_new, generate_message_id in Hm. inv_val.
  unfold msg_ok, msize, len. cbn [header data capabilities length]. lia.
Qed.

Lemma message_text_size pid k : u64 pid → u64 k → data_size (Text (message_text pid k)) < 2 ^ 62.
Proof.
  intros Hp Hk. pose proof (message_text_length pid k Hp Hk) as Hl. revert Hl.
  generalize (message_text pid k). intros text Hl. unfold data_size. lia.
Qed.

(** The state after an identifier has been handed out. *)
Definition bump_id (st : IpcState) : IpcState :=
  {| table := table st; caps := caps st; queue_manager := queue_manager st;
     next_message_id := next_message_id st + 1 |}.

Lemma create_message_spec n σ st pid to ty d : kernel_wf n σ st → 1 ≤ n → data_size d < 2 ^ 62 →
  ∃ m, create_message st pid to ty d = Val (m, bump_id st) ∧
    msg_ok m ∧ message_id (header m) = next_message_id st ∧ sender (header m) = pid ∧
    receiver (header m) = to ∧ prio m = 128.
Proof.
  intros Hwf Hn Hd. destruct (kw_next n σ st Hwf). unfold create_message.
  pose proof (λ m next', message_new_ok (next_message_id st) pid to ty d m next' Hd) as Hok.
  unfold message_new, generate_message_id in *.
  rewrite uadd_val in * by lia. cbn [mbind outcome_bind] in *. eexists _. split; [done|].
  split_and!; try done. by eapply Hok.
Qed.

(** Sending a message with a new identifier. *)
Lemma send_new_spec n σ st m : kernel_wf n σ st → 2 ≤ n → msg_ok m →
  message_id (header m) = next_message_id st →
  let from := sender (header m) in let to := receiver (header m) in
  ∃ r st', send_message (bump_id st) m = Val (r, st') ∧ kernel_wf (n - 2) σ st' ∧ table st' = table st ∧
    match r with
    | Ok _ => alive st from ∧ alive st to ∧ may_send σ from to ∧
        ∀ q, pending st' q = if decide (q = to) then insert_by_priority m (pending st q) else pending st q
    | Err e => (∀ q, pending st' q = pending st q) ∧
        (e = SenderNotFound ∧ ¬ alive st from ∨
         e = ReceiverNotFound ∧ alive st from ∧ ¬ alive st to ∨
         e = MsgPermissionDenied ∧ alive st from ∧ alive st to ∧ ¬ may_send σ from to ∨
         e = QueueFull ∧ alive st from ∧ alive st to ∧ may_send σ from to ∧
           (len (pending st to) = MAX_MESSAGES_PER_QUEUE ∨
            MAX_QUEUE_SIZE_BYTES < sumZ msize (pending st to) + msize m))
    end.
Proof.
  intros Hwf Hn Hm Hid from to.
  assert (ipc_rel n σ (bump_id st)) as Hrel by apply ipc_rel_other, Hwf.
  destruct (send_message_spec (proj1 Hhead) Hcap n σ (bump_id st) m Hrel Hn Hm) as (r & s2 & Hsend & Hrel2 & Ht2 & Hres).
  pose proof (send_message_next _ _ _ _ Hsend) as Hnx2. cbv zeta in Hres. fold from to in Hres.
  assert (∀ q x, x ∈ pending s2 q → x = m ∨ x ∈ pending st q) as Hin.
  { intros q x. destruct r; [destruct Hres as (_ & _ & _ & Hp2)|destruct Hres as [Hp2 _]];
      rewrite Hp2; [|by right]. destruct (decide _); [|by right]. intros [->|?]%elem_of_insert; auto. }
  exists r, s2. split_and!; [done| |done|exact Hres].
  destruct (kw_next n σ st Hwf). cbn [bump_id next_message_id] in Hnx2.
  split; [done|rewrite Ht2; apply Hwf|lia|].
  intros q x [->|Hx%(kw_ids n σ st Hwf)]%Hin; lia.
Qed.

(** The outcome of [sys_send_message] on a message of acceptable length. *)
Lemma sys_send_message_spec n σ st pid a :
  kernel_wf n σ st → 2 ≤ n → 0 ≤ pid < 2 ^ 32 → args_ok a → arg2 a ≤ 4096 →
  let to := arg0 a mod 2 ^ 32 in
  ∃ r m st', sys_send_message st pid a = Val (r, st') ∧ kernel_wf (n - 2) σ st' ∧ table st' = table st ∧
    message_id (header m) = next_message_id st ∧ sender (header m) = pid ∧ receiver (header m) = to ∧
    match r with
    | Ok v => v = 0 ∧ alive st pid ∧ alive st to ∧ may_send σ pid to ∧
        ∀ q, pending st' q = if decide (q = to) then insert_by_priority m (pending st q) else pending st q
    | Err e => (∀ q, pending st' q = pending st q) ∧
        (e = Sys.NotFound ∧ (¬ alive st pid ∨ ¬ alive st to) ∨
         e = Sys.PermissionDenied ∧ alive st pid ∧ alive st to ∧ ¬ may_send σ pid to ∨
         e = Sys.ResourceExhausted ∧ alive st pid ∧ alive st to ∧ may_send σ pid to ∧
           (len (pending st to) = MAX_MESSAGES_PER_QUEUE ∨
            MAX_QUEUE_SIZE_BYTES < sumZ msize (pending st to) + msize m))
    end.
Proof.
  intros Hwf Hn Hp Ha Hlen to. destruct Ha as (_ & _ & Hk & _).
  destruct (create_message_spec n σ st pid to ServiceRequest (Text (message_text pid (arg2 a))))
    as (m & Hc & Hm & Hid & Hs & Hr & _); [done|lia|apply message_text_size; [unfold u64; lia|done]|].
  destruct (send_new_spec n σ st m Hwf Hn Hm Hid) as (r & s2 & Hsend & Hwf2 & Ht2 & Hres).
  unfold sys_send_message. rewrite (proj2 (Z.ltb_ge _ _)) by lia. fold to. rewrite Hc. cbn [mbind outcome_bind].
  rewrite Hsend. cbn [mbind outcome_bind]. rewrite Hs, Hr in Hres.
  destruct r as [[]|e]; eexists _, m, s2; (split; [done|]).
  - destruct Hres as (? & ? & ? & Hp2). by split_and!.
  - destruct Hres as [Hp2 He]. split_and!; try done.
    destruct He as [[-> ?]|[(-> & ? & ?)|[(-> & ? & ? & ?)|(-> & ? & ? & ? & ?)]]]; auto 10.
Qed.

Lemma alive_table st st' q : table st' = table st → alive st q → alive st' q.
Proof. intros Ht. unfold alive, lookup_process. by rewrite Ht. Qed.

Lemma sys_send_message_ok : handler_ok sys_send_message.
Proof.
  intros n σ st pid a Hwf Hn Hp Ha. destruct (Z.ltb_spec 4096 (arg2 a)) as [Hl|Hl].
  - eexists _, st. unfold sys_send_message. rewrite (proj2 (Z.ltb_lt _ _) Hl). split; [done|].
    split_and!; try done. apply (kernel_wf_mono n); [done|lia].
  - destruct (sys_send_message_spec n σ st pid a Hwf Hn Hp Ha Hl)
      as (r & m & st' & Hs & Hwf' & Ht & _ & _ & _ & Hr).
    exists r, st'. split_and!; [done|done|intros q; by apply alive_table| |].
    + intros ->. destruct Hr as [_ Hr]. naive_solver.
    + intros v ->. destruct Hr as [-> _]. unfold u64. lia.
Qed.

Lemma sys_receive_message_spec n σ st pid a : kernel_wf n σ st →
  ∃ r st', sys_receive_message st pid a = Val (r, st') ∧ kernel_wf n σ st' ∧ table st' = table st ∧
    next_message_id st' = next_message_id st ∧
    (∀ q, q ≠ pid → pending st' q = pending st q) ∧
    match r with
    | Ok v => ∃ m, pending st pid = m :: pending st' pid ∧ v = message_id (header m)
    | Err e => pending st' pid = pending st pid ∧
        (e = Sys.NotFound ∧ (alive st pid → pending st pid = []) ∨
         e = Sys.WouldBlock ∧ alive st pid ∧ pending st pid = [])
    end.
Proof.
  intros Hwf. pose proof (kw_ipc n σ st Hwf) as Hrel. unfold sys_receive_message.
  destruct (lookup_process st pid) as [p|] eqn:Hl.
  2: { eexists _, st. unfold receive_message. rewrite decide_True by done. cbn [mbind outcome_bind].
       split; [done|]. split_and!; try done. left. split; [done|]. intros [x Hx]. congruence. }
  assert (alive st pid) as Hal by (unfold alive; eauto).
  destruct (receive_message_spec (proj1 Hhead) Hcap n σ st pid Hrel Hal) as (r & s & Hrecv & Hrel' & Ht & Ho & Hr).
  rewrite Hrecv. cbn [mbind outcome_bind]. pose proof (receive_message_next _ _ _ _ Hrecv) as Hnx.
  assert (∀ q x, x ∈ pending s q → x ∈ pending st q) as Hin.
  { intros q x Hx. destruct (decide (q = pid)) as [->|Hne]; [|by rewrite <-Ho].
    destruct r; [|destruct Hr as (_ & _ & Hr); rewrite Hr in Hx; by apply not_elem_of_nil in Hx].
    destruct Hr as [-> _]. by right. }
  assert (kernel_wf n σ s) as Hwf'.
  { split; [done|rewrite Ht; apply Hwf|rewrite Hnx; apply Hwf|].
    intros q x Hx%Hin. rewrite Hnx. by apply (kw_ids n σ st Hwf q). }
  destruct r as [m|e]; eexists _, s; (split; [done|]); split_and!; try done.
  - destruct Hr as [? _]. eauto.
  - destruct Hr as (_ & H1 & H2). congruence.
  - destruct Hr as ([-> | ->] & H1 & H2); auto.
Qed.

Lemma sys_receive_message_ok : handler_ok sys_receive_message.
Proof.
  intros n σ st pid a Hwf Hn Hp Ha.
  destruct (sys_receive_message_spec n σ st pid a Hwf) as (r & st' & Hs & Hwf' & Ht & Hnx & _ & Hr).
  exists r, st'. split_and!; [done|apply (kernel_wf_mono n); [done|lia]|intros q; by apply alive_table| |].
  - intros ->. destruct Hr as [_ Hr]. naive_solver.
  - intros v ->. destruct Hr as (m & Hm & ->). destruct (kw_next n σ st Hwf).
    destruct (kw_ids n σ st Hwf pid m) as [? ?]; [rewrite Hm; by left|]. unfold u64. lia.
Qed.

(** [sys_fork] creates a ready child of the caller, or reports
    [OutOfMemory] when the table is full. *)
Lemma sys_fork_spec n σ st pid a : kernel_wf n σ st →
  ∃ r st', sys_fork st pid a = Val (r, st') ∧ kernel_wf n σ st' ∧
    caps st' = caps st ∧ queue_manager st' = queue_manager st ∧ next_message_id st' = next_message_id st ∧
    match r with
    | Ok child => 1 ≤ child < 2 ^ 32 ∧ ¬ alive st child ∧ ∀ q, lookup_process st' q =
        if decide (q = child)
        then Some (set_state (process_new q (Some pid) ("child_of_" +:+ pretty pid) Normal) Ready)
        else after_create (Some pid) child q <$> lookup_process st q
    | Err e => e = Sys.OutOfMemory ∧ st' = st ∧
        ∃ t, table st = Some t ∧ len (processes t) = max_processes t
    end.
Proof.
  intros Hwf. destruct (kw_table n σ st Hwf) as (t & Ht & Htw). pose proof (tw_room t Htw) as Hroom.
  unfold sys_fork, create_process_global. rewrite Ht.
  destruct (decide (len (processes t) < max_processes t)) as [Hlt|Hge].
  - destruct (create_process_spec t (Some pid) ("child_of_" +:+ pretty pid) Normal Htw Hlt)
      as (t' & -> & Htw' & Hnone & _ & _ & _ & Hg). cbn [mbind outcome_bind].
    eexists _, _. split; [done|]. split_and!; try done.
    + split; [apply ipc_rel_other, Hwf|simpl; eauto|apply Hwf|]. intros q m Hm. by apply (kw_ids n σ st Hwf q).
    + rewrite (tw_next t Htw). pose proof (len_nonneg (processes t)). lia.
    + rewrite (tw_next t Htw). lia.
    + unfold alive, lookup_process. rewrite Ht. simpl. rewrite Hnone. by intros [? ?].
    + intros q. unfold lookup_process. rewrite Ht. apply Hg.
  - unfold create_process. rewrite (proj2 (Z.leb_le _ _)) by lia. cbn [mbind outcome_bind].
    eexists _, _. split; [done|]. split; [|split_and!; try done].
    + split; [apply ipc_rel_other, Hwf|simpl; eauto|apply Hwf|]. intros q m Hm. by apply (kw_ids n σ st Hwf q).
    + destruct st; simpl in *; congruence.
    + exists t. split; [done|lia].
Qed.

Lemma sys_fork_ok : handler_ok sys_fork.
Proof.
  intros n σ st pid a Hwf Hn Hp Ha.
  destruct (sys_fork_spec n σ st pid a Hwf) as (r & st' & Hs & Hwf' & _ & _ & _ & Hr).
  exists r, st'. split_and!; [done|apply (kernel_wf_mono n); [done|lia]| | |].
  - intros q Hq. destruct r; [|by destruct Hr as (_ & -> & _)].
    destruct Hr as (_ & _ & Hg). unfold alive in *. rewrite Hg. case_decide; [eauto|].
    destruct Hq as [x ->]. simpl. eauto.
  - intros ->. by destruct Hr.
  - intros v ->. destruct Hr as [? _]. unfold u64. lia.
Qed.

Lemma dispatch_arms_ok : Forall (λ ka, handler_ok ka.2) dispatch_arms.
Proof.
  assert (∀ f : Z → Args → SyscallResult, (∀ pid a, f pid a = Err Sys.NotSupported) → handler_ok (stateless f))
    as Hns by (intros f Hf; apply stateless_ok; intros; rewrite Hf; done).
  assert (∀ f : Z → Args → SyscallResult, (∀ pid a, f pid a = Ok 0) → handler_ok (stateless f))
    as Hz by (intros f Hf; apply stateless_ok; intros; rewrite Hf; split; [done|]; intros ? [= <-]; unfold u64; lia).
  unfold dispatch_arms, cfg_debug. apply Forall_app. split; [|destruct debug_assertions];
    repeat (apply Forall_cons; split); try (by apply Forall_nil); cbn [snd];
    try apply sys_send_message_ok; try apply sys_receive_message_ok; try apply sys_fork_ok;
    try (by apply Hns); try (by apply Hz);
    apply stateless_ok; intros pid a Hp (? & ? & ? & _); unfold u64 in *.
  - split; [done|]. intros v [= <-]. lia.
  - unfold sys_mmap. zcase; split; try done; intros v [= <-]; lia.
  - unfold sys_open. case_bool_decide; split; try done. intros v [= <-]. lia.
  - unfold sys_read. zcase; split; try done; intros v [= <-]; lia.
  - unfold sys_write. destruct (_ || _); split; try done. intros v [= <-]. lia.
Qed.

Definition syscall_numbers : list Z := name_arms.*1.
Lemma dispatch_keys : dispatch_arms.*1 = syscall_numbers.
Proof. unfold dispatch_arms, syscall_numbers, name_arms, cfg_debug. by destruct debug_assertions. Qed.
Lemma validate_keys pid a : (validate_arms pid a).*1 = syscall_numbers.
Proof. unfold validate_arms, syscall_numbers, name_arms, cfg_debug. by destruct debug_assertions. Qed.

(** No validator rejects a known number as unknown. *)
Lemma validators_ok pid a : Forall (λ ka, ka.2 ≠ Err Sys.InvalidSyscall) (validate_arms pid a).
Proof.
  unfold validate_arms, cfg_debug. apply Forall_app.
  split; [|destruct debug_assertions]; repeat (apply Forall_cons; split); try (by apply Forall_nil); cbn [snd]; try done;
    unfold validate_exec_args, validate_kill_args, validate_mmap_args, validate_munmap_args,
      validate_mprotect_args, validate_open_args, validate_close_args, validate_read_args,
      validate_write_args, validate_lseek_args, validate_stat_args, validate_mkdir_args,
      validate_unlink_args, validate_send_message_args, validate_reply_message_args,
      validate_create_channel_args, validate_destroy_channel_args, validate_driver_register_args,
      validate_driver_unregister_args, validate_driver_request_args, validate_driver_response_args,
      validate_clock_gettime_args, validate_grant_capability_args, validate_revoke_capability_args,
      validate_check_capability_args, validate_user_string, validate_user_pointer,
      validate_file_descriptor, and_then;
    repeat match goal with |- context [if ?b then _ else _] => destruct b end; done.
Qed.

Lemma syscall_numbers_valid n : n ∈ syscall_numbers → is_valid_syscall_number n = true.
Proof.
  assert (Forall (λ k, is_valid_syscall_number k = true) syscall_numbers) as Hall.
  { unfold syscall_numbers, name_arms, cfg_debug, is_valid_syscall_number, MAX_SYSCALL_NUMBER.
    destruct debug_assertions; repeat constructor. }
  rewrite Forall_forall in Hall. apply Hall.
Qed.

Lemma validate_unknown pid n a :
  validate_syscall_args pid n a = Err Sys.InvalidSyscall ↔ n ∉ syscall_numbers.
Proof.
  unfold validate_syscall_args. split.
  - intros Hv Hn. rewrite (syscall_numbers_valid n Hn) in Hv. cbn [negb] in Hv. revert Hv.
    apply (match_arms_ind (λ k r, k ∈ syscall_numbers → r ≠ Err Sys.InvalidSyscall)); [|by rewrite validate_keys|done].
    eapply Forall_impl; [apply validators_ok|]. auto.
  - intros Hn. destruct (negb _); [done|]. apply match_arms_default. by rewrite validate_keys.
Qed.

Lemma dispatch_spec n σ st pid num a :
  kernel_wf n σ st → 2 ≤ n → 0 ≤ pid < 2 ^ 32 → args_ok a →
  ∃ r st', dispatch_syscall st pid num a = Val (r, st') ∧ kernel_wf (n - 2) σ st' ∧
    (∀ q, alive st q → alive st' q) ∧
    (r = Err Sys.InvalidSyscall ↔ num ∉ syscall_numbers) ∧ ∀ v, r = Ok v → u64 v.
Proof.
  intros Hwf Hn Hp Ha. unfold dispatch_syscall.
  destruct (validate_syscall_args pid num a) as [[]|e] eqn:Hv.
  2: { eexists _, st. split; [done|]. split_and!; try done; [apply (kernel_wf_mono n); [done|lia]|].
       rewrite <-(validate_unknown pid num a), Hv. split; congruence. }
  assert (num ∈ syscall_numbers) as Hin.
  { destruct (decide (num ∈ syscall_numbers)) as [?|Hnin]; [done|].
    apply (validate_unknown pid num a) in Hnin. congruence. }
  assert (handled n σ st (match_arms dispatch_arms num (stateless (λ _ _, Err Sys.InvalidSyscall)) st pid a))
    as (r & st' & -> & ? & ? & ? & ?).
  { apply (match_arms_ind (A:=Handler) (λ _ h, handled n σ st (h st pid a)) dispatch_arms num).
    - eapply Forall_impl; [apply dispatch_arms_ok|]. intros ka Hk _. by apply Hk.
    - intros Hnin. by rewrite dispatch_keys in Hnin. }
  exists r, st'. split_and!; try done.
Qed.

(** ** Histories of system calls *)
Fixpoint run_syscalls (st : IpcState) (calls : list (Z * Z * Args)) : outcome (list SyscallResult * IpcState) :=
  match calls with
  | [] => Val ([], st)
  | (pid, num, a) :: calls =>
      '(r, st) ← dispatch_syscall st pid num a;
      '(rs, st) ← run_syscalls st calls;
      Val (r :: rs, st)
  end.
Definition call_ok (c : Z * Z * Args) : Prop := 0 ≤ c.1.1 < 2 ^ 32 ∧ args_ok c.2.

Definition implemented (num : Z) : Prop :=
  num ∈ [SYS_EXIT; SYS_GETPID; SYS_GETPPID; SYS_MMAP; SYS_OPEN; SYS_READ; SYS_WRITE; SYS_TIME;
         SYS_DEBUG_PRINT; SYS_DEBUG_DUMP].
Definition stateful (num : Z) : Prop := num ∈ [SYS_FORK; SYS_SEND_MESSAGE; SYS_RECEIVE_MESSAGE].

Lemma dispatch_arms_frame num pid a : ¬ stateful num → num ∈ syscall_numbers →
  ∃ r, (∀ st, match_arms dispatch_arms num (stateless (λ _ _, Err Sys.InvalidSyscall)) st pid a = Val (r, st)) ∧
    (¬ implemented num → r = Err Sys.NotSupported).
Proof.
  intros Hst Hin.
  apply (match_arms_ind (A:=Handler) (λ k h, ∃ r, (∀ st, h st pid a = Val (r, st)) ∧
    (¬ implemented k → r = Err Sys.NotSupported)) dispatch_arms num).
  2: { intros Hn. by rewrite dispatch_keys in Hn. }
  assert (∀ k (f : Z → Args → SyscallResult), (¬ implemented k → f pid a = Err Sys.NotSupported) →
    num = k → ∃ r, (∀ st, stateless f st pid a = Val (r, st)) ∧ (¬ implemented k → r = Err Sys.NotSupported)) as Hs.
  { intros k f Hf _. exists (f pid a). by split. }
  assert (∀ k (h : Handler), stateful k → num = k → ∃ r, (∀ st : IpcState, h st pid a = Val (r, st)) ∧
    (¬ implemented k → r = Err Sys.NotSupported)) as Hf by (intros k h Hk ->; done).
  unfold dispatch_arms, cfg_debug. apply Forall_app. split; [|destruct debug_assertions];
    repeat (apply Forall_cons; split); try (by apply Forall_nil); cbn [fst snd];
    first [apply Hs; intros Hi; first [reflexivity|by destruct Hi; apply (bool_decide_unpack _); vm_compute]
          |apply Hf; apply (bool_decide_unpack _); by vm_compute].
Qed.

Definition never_invalid (h : Handler) : Prop := ∀ st pid a st', h st pid a ≠ Val (Err Sys.InvalidSyscall, st').
Lemma dispatch_arms_never : Forall (λ ka, never_invalid ka.2) dispatch_arms.
Proof.
  unfold dispatch_arms, cfg_debug, never_invalid, stateless. apply Forall_app. split; [|destruct debug_assertions];
    repeat (apply Forall_cons; split); try (by apply Forall_nil); cbn [snd]; intros st pid a st' Hv; try done.
  - unfold sys_fork in Hv. inv_val. case_match; inv_val.
  - unfold sys_mmap in Hv. zcase; done.
  - unfold sys_open in Hv. case_bool_decide; done.
  - unfold sys_read in Hv. zcase; done.
  - unfold sys_write in Hv. destruct (_ || _); done.
  - unfold sys_send_message in Hv. zcase; [done|]. inv_val. case_match; inv_val.
    by eapply from_message_error_valid.
  - unfold sys_receive_message in Hv. inv_val. case_match; inv_val. by eapply from_message_error_valid.
Qed.

Lemma dispatch_unknown st pid num a st' :
  dispatch_syscall st pid num a = Val (Err Sys.InvalidSyscall, st') ↔ ((num ∉ syscall_numbers) ∧ st' = st).
Proof.
  unfold dispatch_syscall. split.
  - intros Hd. destruct (validate_syscall_args pid num a) as [[]|e] eqn:Hv.
    2: { injection Hd as -> <-. split; [|done]. by apply (validate_unknown pid num a). }
    exfalso. revert Hd. apply (match_arms_ind (A:=Handler) (λ k h, h st pid a ≠ Val (Err Sys.InvalidSyscall, st'))).
    + eapply Forall_impl; [apply dispatch_arms_never|]. intros ka Hk _. apply Hk.
    + intros Hn. rewrite dispatch_keys in Hn. apply (validate_unknown pid num a) in Hn. congruence.
  - intros [Hn ->]. apply (validate_unknown pid num a) in Hn. by rewrite Hn.
Qed.

Lemma syscall_numbers_ranges n : n ∈ syscall_numbers ↔
  1 ≤ n ≤ 7 ∨ 10 ≤ n ≤ 14 ∨ 20 ≤ n ≤ 34 ∨ 40 ≤ n ≤ 43 ∨ 50 ≤ n ≤ 53 ∨ 60 ≤ n ≤ 63 ∨
  (debug_assertions = true ∧ 100 ≤ n ≤ 101).
Proof.
  unfold syscall_numbers, name_arms, cfg_debug. destruct debug_assertions; cbn [app fmap list_fmap fst];
    rewrite ?elem_of_cons, ?elem_of_nil; unfold SYS_EXIT, SYS_FORK, SYS_EXEC, SYS_WAIT, SYS_GETPID, SYS_GETPPID,
    SYS_KILL, SYS_MMAP, SYS_MUNMAP, SYS_MPROTECT, SYS_BRK, SYS_SBRK, SYS_OPEN, SYS_CLOSE, SYS_READ, SYS_WRITE,
    SYS_LSEEK, SYS_STAT, SYS_FSTAT, SYS_MKDIR, SYS_RMDIR, SYS_UNLINK, SYS_SEND_MESSAGE, SYS_RECEIVE_MESSAGE,
    SYS_REPLY_MESSAGE, SYS_CREATE_CHANNEL, SYS_DESTROY_CHANNEL, SYS_DRIVER_REGISTER, SYS_DRIVER_UNREGISTER,
    SYS_DRIVER_REQUEST, SYS_DRIVER_RESPONSE, SYS_UNAME, SYS_SYSINFO, SYS_TIME, SYS_CLOCK_GETTIME,
    SYS_GRANT_CAPABILITY, SYS_REVOKE_CAPABILITY, SYS_CHECK_CAPABILITY, SYS_LIST_CAPABILITIES,
    SYS_DEBUG_PRINT, SYS_DEBUG_DUMP; split; intros H; try lia.
Qed.

Lemma syscall_name_unknown n : syscall_name n = "unknown" ↔ n ∉ syscall_numbers.
Proof.
  split.
  - intros Hu Hn. revert Hu.
    apply (match_arms_ind (λ _ (s : string), s ≠ "unknown")); [|by intros []].
    unfold name_arms, cfg_debug. destruct debug_assertions; repeat constructor; done.
  - intros Hn. by apply match_arms_default.
Qed.

(** The two message calls, past the tables. *)
Lemma dispatch_send st pid a : dispatch_syscall st pid SYS_SEND_MESSAGE a =
  match validate_send_message_args pid a with Ok _ => sys_send_message st pid a | Err e => Val (Err e, st) end.
Proof.
  unfold dispatch_syscall, validate_syscall_args, is_valid_syscall_number, MAX_SYSCALL_NUMBER.
  by destruct debug_assertions.
Qed.
Lemma dispatch_receive st pid a : dispatch_syscall st pid SYS_RECEIVE_MESSAGE a = sys_receive_message st pid a.
Proof.
  unfold dispatch_syscall, validate_syscall_args, is_valid_syscall_number, MAX_SYSCALL_NUMBER.
  by destruct debug_assertions.
Qed.
Lemma validate_send_spec pid a : u64 (arg2 a) →
  validate_send_message_args pid a =
    if decide (arg0 a = 0 ∨ (0 < arg2 a ∧ arg1 a = 0)) then Err Sys.InvalidArgument else Ok ().
Proof.
  unfold u64, validate_send_message_args, validate_user_pointer, and_then. intros Hk.
  destruct (decide _) as [Hd|Hd]; zcase; try done; lia.
Qed.

(** A success value that no caller-chosen number reaches. *)
Lemma success_value n σ st pid num a r st' :
  kernel_wf n σ st → 2 ≤ n → 0 ≤ pid < 2 ^ 32 → args_ok a →
  dispatch_syscall st pid num a = Val (Ok r, st') →
  r ≤ 0x40000000 ∨ r < 2 ^ 32 ∨ r < next_message_id st ∨ r = arg0 a ∨ r = arg2 a.
Proof.
  intros Hwf Hn Hp Ha. unfold dispatch_syscall.
  destruct (validate_syscall_args pid num a) as [[]|e]; [|done].
  apply (match_arms_ind (A:=Handler) (λ k h, h st pid a = Val (Ok r, st') → _) dispatch_arms num); [|done].
  unfold dispatch_arms, cfg_debug, stateless. apply Forall_app. split; [|destruct debug_assertions];
    repeat (apply Forall_cons; split); try (by apply Forall_nil); cbn [fst snd]; intros _ Hv; try done;
    try (injection Hv as <- <-; lia).
  - destruct (sys_fork_spec n σ st pid a Hwf) as (r' & s & Hs & _ & _ & _ & _ & Hr).
    rewrite Hs in Hv. simplify_eq. lia.
  - unfold sys_mmap in Hv. zcase; simplify_eq; lia.
  - unfold sys_open in Hv. case_bool_decide; simplify_eq; lia.
  - unfold sys_read in Hv. zcase; simplify_eq; lia.
  - unfold sys_write in Hv. destruct (_ || _); simplify_eq; lia.
  - unfold sys_send_message in Hv. zcase; [done|]. inv_val. case_match; simplify_eq. lia.
  - destruct (sys_receive_message_spec n σ st pid a Hwf) as (r' & s & Hs & _ & _ & _ & _ & Hr).
    rewrite Hs in Hv. simplify_eq. destruct Hr as (m & Hm & ->).
    destruct (kw_ids n σ st Hwf pid m) as [? ?]; [rewrite Hm; by left|]. lia.
Qed.

Lemma errno_range e : -111 ≤ to_errno e ≤ -1.
Proof. destruct e; simpl; lia. Qed.
Lemma errno_inj e e' : to_errno e = to_errno e' → e = e'.
Proof. by destruct e, e'. Qed.
Lemma errno_register e : i32_as_u64 (to_errno e) = 2 ^ 64 + to_errno e.
Proof. by destruct e. Qed.

(** ** Properties *)

(** C5: System calls keep the kernel safe.  From a well-formed kernel, any
    history of system calls, by any processes, with any numbers and any register
    contents, runs without a panic (as long as two increments per call fit the
    counters), leaves the process table, the queues and the capabilities well
    formed, creates and revokes no capability (the live grants are the same map
    before and after), and ends no process.  The answer to each call is
    [InvalidSyscall] exactly for unknown numbers. *)
Theorem syscalls_preserve_kernel n σ calls : ∀ st,
  kernel_wf n σ st → Forall call_ok calls → 2 * len calls ≤ n →
  ∃ rs st', run_syscalls st calls = Val (rs, st') ∧ kernel_wf (n - 2 * len calls) σ st' ∧
    (∀ q, alive st q → alive st' q) ∧
    Forall2 (λ c r, (r = Err Sys.InvalidSyscall ↔ c.1.2 ∉ syscall_numbers) ∧ ∀ v, r = Ok v → u64 v) calls rs.
Proof.
  revert n. induction calls as [|[[pid num] a] calls IH]; intros n st Hwf Hok Hn.
  { exists [], st. split; [done|]. split_and!; [|done|constructor].
    apply (kernel_wf_mono n); [done|]. unfold len in *. simpl in *. lia. }
  apply Forall_cons in Hok as [[Hp Ha] Hok]. unfold len in *. cbn [length] in *.
  destruct (dispatch_spec n σ st pid num a Hwf ltac:(lia) Hp Ha) as (r & s1 & Hd & Hwf1 & Hal1 & Hr).
  destruct (IH (n - 2) s1 Hwf1 Hok ltac:(lia)) as (rs & s2 & Hrun & Hwf2 & Hal2 & Hrs).
  exists (r :: rs), s2. cbn [run_syscalls]. rewrite Hd. cbn [mbind outcome_bind]. rewrite Hrun.
  cbn [mbind outcome_bind]. split; [done|]. split_and!; [|by auto|by constructor].
  replace (n - 2 * Z.of_nat (S (length calls))) with (n - 2 - 2 * Z.of_nat (length calls)) by lia. done.
Qed.

(** The three places that enumerate the system calls agree: the names, the
    argument checks and the dispatcher know exactly the same numbers, also those
    in the gaps below [MAX_SYSCALL_NUMBER], and the two debug calls exist only in
    builds with debug assertions.  An unknown number is rejected by validation,
    and dispatching it changes nothing. *)
Theorem syscall_tables_agree st pid num a :
  let known := 1 ≤ num ≤ 7 ∨ 10 ≤ num ≤ 14 ∨ 20 ≤ num ≤ 34 ∨ 40 ≤ num ≤ 43 ∨ 50 ≤ num ≤ 53 ∨ 60 ≤ num ≤ 63 ∨
    (debug_assertions = true ∧ 100 ≤ num ≤ 101) in
  (syscall_name num = "unknown" ↔ ¬ known) ∧
  (validate_syscall_args pid num a = Err Sys.InvalidSyscall ↔ ¬ known) ∧
  ∀ st', dispatch_syscall st pid num a = Val (Err Sys.InvalidSyscall, st') ↔ (¬ known ∧ st' = st).
Proof.
  intros known. assert (num ∈ syscall_numbers ↔ known) as Hk by apply syscall_numbers_ranges.
  split; [rewrite <-Hk; apply syscall_name_unknown|]. split; [rewrite <-Hk; apply validate_unknown|].
  intros st'. rewrite <-Hk. apply dispatch_unknown.
Qed.

(** What the other calls do.  Every known call except [fork],
    [send_message] and [receive_message] leaves the whole kernel state alone and
    answers the same in every state; a call whose arguments are rejected does too.
    Past validation, the calls the kernel does not implement answer
    [NotSupported]: only [exit], [getpid], [getppid], [mmap], [open], [read],
    [write], [time] and the debug calls can succeed. *)
Theorem other_syscalls_have_no_effect pid num a :
  num ∈ syscall_numbers → ¬ stateful num ∨ validate_syscall_args pid num a ≠ Ok () →
  ∃ r, (∀ st, dispatch_syscall st pid num a = Val (r, st)) ∧
    match validate_syscall_args pid num a with
    | Err e => r = Err e
    | Ok _ => ¬ implemented num → r = Err Sys.NotSupported
    end.
Proof.
  intros Hin Hor. unfold dispatch_syscall.
  destruct (validate_syscall_args pid num a) as [[]|e]; [|by exists (Err e)].
  destruct Hor as [Hst|Hne]; [|done]. by apply dispatch_arms_frame.
Qed.

(** The [send_message] call, end to end.  It never panics; it rejects a
    null receiver, a null buffer for a non-empty message and a length over 4096
    with [InvalidArgument]; otherwise the receiver is the low half of the first
    register, and the call answers [NotFound], [PermissionDenied] or
    [ResourceExhausted] exactly as the processes, the live capabilities and the
    receiver's queue dictate, without touching any queue.  On success one message
    from the caller, with the next identifier, joins the receiver's queue. *)
Theorem send_syscall_exact n σ st pid a :
  kernel_wf n σ st → 2 ≤ n → 0 ≤ pid < 2 ^ 32 → args_ok a →
  let to := arg0 a mod 2 ^ 32 in
  let rejected := arg0 a = 0 ∨ (0 < arg2 a ∧ arg1 a = 0) ∨ 4096 < arg2 a in
  ∃ r m st', dispatch_syscall st pid SYS_SEND_MESSAGE a = Val (r, st') ∧ kernel_wf (n - 2) σ st' ∧
    message_id (header m) = next_message_id st ∧ sender (header m) = pid ∧ receiver (header m) = to ∧
    match r with
    | Ok v => v = 0 ∧ ¬ rejected ∧ alive st pid ∧ alive st to ∧ may_send σ pid to ∧
        ∀ q, pending st' q = if decide (q = to) then insert_by_priority m (pending st q) else pending st q
    | Err e => (∀ q, pending st' q = pending st q) ∧
        (e = Sys.InvalidArgument ∧ rejected ∨
         ¬ rejected ∧
           (e = Sys.NotFound ∧ (¬ alive st pid ∨ ¬ alive st to) ∨
            e = Sys.PermissionDenied ∧ alive st pid ∧ alive st to ∧ ¬ may_send σ pid to ∨
            e = Sys.ResourceExhausted ∧ alive st pid ∧ alive st to ∧ may_send σ pid to ∧
              (len (pending st to) = MAX_MESSAGES_PER_QUEUE ∨
               MAX_QUEUE_SIZE_BYTES < sumZ msize (pending st to) + msize m)))
    end.
Proof.
  intros Hwf Hn Hp Ha to rejected. pose proof Ha as (H0 & _ & H2 & _). unfold u64 in *.
  destruct (create_message_spec n σ st pid to ServiceRequest EmptyData) as (m & _ & _ & ? & ? & ? & _); [done|lia|done|].
  assert (kernel_wf (n - 2) σ st) by (apply (kernel_wf_mono n); [done|lia]).
  rewrite dispatch_send, validate_send_spec by done.
  destruct (decide _) as [Hd|Hd].
  { eexists _, m, st. split; [done|]. unfold rejected. split_and!; try done. left. split; [done|lia]. }
  destruct (decide (arg2 a ≤ 4096)) as [Hl|Hl].
  2: { eexists _, m, st. unfold sys_send_message. rewrite (proj2 (Z.ltb_lt _ _)) by lia.
       split; [done|]. unfold rejected. split_and!; try done. left. split; [done|lia]. }
  assert (¬ rejected) as Hrej by (unfold rejected; lia).
  destruct (sys_send_message_spec n σ st pid a Hwf Hn Hp Ha Hl) as (r & m' & st' & Hs & Hwf' & _ & ? & ? & ? & Hr).
  exists r, m', st'. split_and!; try done. destruct r; [|destruct Hr; auto 10].
  destruct Hr as (? & ? & ? & ? & ?). by split_and!.
Qed.

(** C19: A message sent by one system call is received by another.  When the
    receiver's queue is empty and [send_message] succeeds, the receiver's next
    [receive_message], whatever its registers, returns the identifier of that
    message and empties the queue again; a further [receive_message] answers
    [WouldBlock] or [NotFound] and changes no queue. *)
Theorem send_then_receive n σ st st1 pid a b v :
  kernel_wf n σ st → 2 ≤ n → 0 ≤ pid < 2 ^ 32 → args_ok a →
  let to := arg0 a mod 2 ^ 32 in
  pending st to = [] → dispatch_syscall st pid SYS_SEND_MESSAGE a = Val (Ok v, st1) →
  ∃ st2, dispatch_syscall st1 to SYS_RECEIVE_MESSAGE b = Val (Ok (next_message_id st), st2) ∧
    (∀ q, pending st2 q = pending st q) ∧
    ∃ e st3, dispatch_syscall st2 to SYS_RECEIVE_MESSAGE b = Val (Err e, st3) ∧
      e ∈ [Sys.WouldBlock; Sys.NotFound] ∧ ∀ q, pending st3 q = pending st q.
Proof.
  intros Hwf Hn Hp Ha to Hemp Hsend. rewrite dispatch_send in Hsend.
  destruct (validate_send_message_args pid a) as [[]|]; [|done].
  destruct (decide (arg2 a ≤ 4096)) as [Hl|Hl].
  2: { unfold sys_send_message in Hsend. by rewrite (proj2 (Z.ltb_lt _ _)) in Hsend by lia. }
  destruct (sys_send_message_spec n σ st pid a Hwf Hn Hp Ha Hl) as (r & m & s1 & Hs & Hwf1 & Ht & Hid & _ & _ & Hr).
  rewrite Hs in Hsend. simplify_eq. destruct Hr as (_ & _ & Hal & _ & Hp1). fold to in Hal, Hp1.
  assert (pending st1 to = [m]) as Hm by (rewrite Hp1, decide_True, Hemp by done; done).
  rewrite dispatch_receive.
  destruct (sys_receive_message_spec (n - 2) σ st1 to b Hwf1) as (r1 & s2 & Hr1 & Hwf2 & Ht2 & _ & Ho2 & Hres).
  assert (alive st1 to) as Hal1 by (by apply (alive_table st)).
  destruct r1 as [v1|e1].
  2: { destruct Hres as [_ [[_ Hn']|(_ & _ & Hn')]]; [specialize (Hn' Hal1)|]; congruence. }
  destruct Hres as (m' & Hm' & ->). rewrite Hm in Hm'. injection Hm' as <- Hnil.
  assert (∀ q, pending s2 q = pending st q) as Hq.
  { intros q. destruct (decide (q = to)) as [->|Hne]; [congruence|]. by rewrite Ho2, Hp1, decide_False. }
  exists s2. rewrite Hr1, Hid. split_and!; [done|done|]. rewrite dispatch_receive.
  destruct (sys_receive_message_spec (n - 2) σ s2 to b Hwf2) as (r2 & s3 & Hr2 & _ & _ & _ & Ho3 & Hres3).
  destruct r2 as [v2|e2]; [destruct Hres3 as (x & Hx & _); congruence|]. destruct Hres3 as [Hsame He].
  exists e2, s3. split_and!; [done| |].
  - rewrite !elem_of_cons. destruct He as [[-> _]|[-> _]]; auto.
  - intros q. destruct (decide (q = to)) as [->|Hne]; [by rewrite Hsame|]. by rewrite Ho3.
Qed.

(** The register a system call returns can be decoded.  Provided the caller
    keeps the first and third argument below the last page of the address space,
    the value of [syscall_entry] lies in that last page exactly when the call
    failed, and then it determines the error: it is two's-complement errno, which
    is different for every error. *)
Theorem syscall_register_decodes n σ st num a :
  kernel_wf n σ st → 2 ≤ n → args_ok a →
  arg0 a < 2 ^ 64 - 4096 → arg2 a < 2 ^ 64 - 4096 → next_message_id st < 2 ^ 64 - 4096 →
  ∃ r v st', dispatch_syscall st 1 num a = Val (r, st') ∧ syscall_entry st num a = Val (v, st') ∧ u64 v ∧
    (2 ^ 64 - 4096 ≤ v ↔ ∃ e, r = Err e) ∧ (∀ x, r = Ok x → v = x) ∧
    ∀ e, v = 2 ^ 64 + to_errno e ↔ r = Err e.
Proof.
  intros Hwf Hn Ha H0 H2 Hid.
  destruct (dispatch_spec n σ st 1 num a Hwf Hn ltac:(lia) Ha) as (r & st' & Hd & _ & _ & _ & Hv).
  unfold syscall_entry. rewrite Hd. cbn [mbind outcome_bind]. unfold u64 in *. destruct r as [x|e].
  - specialize (Hv x eq_refl). eexists _, x, st'. split; [done|]. split; [done|].
    destruct (success_value n σ st 1 num a x st' Hwf Hn ltac:(lia) Ha Hd) as [?|[?|[?|[?|?]]]];
      (split_and!; [lia|lia| | |]; [split; [intros; lia|by intros []]|by intros ? [= <-]|
       intros e; pose proof (errno_range e); split; [lia|done]]).
  - pose proof (errno_range e). eexists _, _, st'. split; [done|]. split; [done|]. rewrite errno_register.
    split_and!; [lia|lia| |done|].
    + split; [eauto|lia].
    + intros e'. split; [|by intros [= ->]]. intros He. f_equal. apply errno_inj. lia.
Qed.

(** Above that bound the register is ambiguous: for every error there is a
    successful [mmap] that returns the same value. *)
Lemma mmap_reads_as_error st e :
  let a := {| arg0 := 2 ^ 64 + to_errno e; arg1 := 1; arg2 := 0; arg3 := 1; arg4 := 0; arg5 := 0 |} in
  dispatch_syscall st 1 SYS_MMAP a = Val (Ok (2 ^ 64 + to_errno e), st) ∧
  syscall_entry st SYS_MMAP a = Val (i32_as_u64 (to_errno e), st).
Proof.
  unfold syscall_entry, dispatch_syscall, validate_syscall_args, is_valid_syscall_number, MAX_SYSCALL_NUMBER.
  by destruct debug_assertions, e.
Qed.
End kernel.

(** ** Concrete instances

    Two processes in a table of eight; process 1 may send to process 2. *)
Definition demo_ops : list table_op :=
  [OpCreate None "init" System; OpCreate (Some 1) "shell" Normal; OpSetCurrent (Some 1)].
Definition demo_kernel : IpcState :=
  {| table := Some (run_table demo_ops 8); caps := demo_caps; queue_manager := Some new_queue_manager;
     next_message_id := 1 |}.
Definition demo_args (x y z : Z) : Args :=
  {| arg0 := x; arg1 := y; arg2 := z; arg3 := 0; arg4 := 0; arg5 := 0 |}.

Lemma demo_kernel_wf : kernel_wf (L:=demo_layout) 10 demo_grants demo_kernel.
Proof.
  split.
  - apply (ipc_rel_other (L:=demo_layout) 10 demo_grants demo_ipc), demo_ipc_rel.
  - eexists. split; [done|]. unfold run_table.
    by destruct (table_run_wf (P:=dev) demo_ops (table_new 8) (table_new_wf 8 ltac:(lia))) as (t & -> & ? & _).
  - simpl. lia.
  - intros pid m Hm. unfold pending in Hm. simpl in Hm. rewrite lookup_empty in Hm. by apply not_elem_of_nil in Hm.
Qed.

(** What the demonstration calls return. *)
Definition demo_sent : IpcState :=
  match dispatch_syscall (P:=dev) (L:=demo_layout) demo_kernel 1 SYS_SEND_MESSAGE (demo_args 2 0x1000 5) with
  | Val (_, st) => st | _ => demo_kernel
  end.

Lemma syscalls_preserve_kernel_witness :
  ∃ rs st', run_syscalls (P:=dev) (L:=demo_layout) demo_kernel
      [(1, SYS_FORK, demo_args 0 0 0); (1, SYS_SEND_MESSAGE, demo_args 2 0x1000 5);
       (2, SYS_RECEIVE_MESSAGE, demo_args 0 0 0); (2, 8, demo_args 0 0 0)] = Val (rs, st') ∧
    kernel_wf (L:=demo_layout) 2 demo_grants st' ∧ (∀ q, alive demo_kernel q → alive st' q) ∧
    Forall2 (λ c r, (r = Err Sys.InvalidSyscall ↔ c.1.2 ∉ syscall_numbers (P:=dev)) ∧ ∀ v, r = Ok v → u64 v)
      [(1, SYS_FORK, demo_args 0 0 0); (1, SYS_SEND_MESSAGE, demo_args 2 0x1000 5);
       (2, SYS_RECEIVE_MESSAGE, demo_args 0 0 0); (2, 8, demo_args 0 0 0)] rs.
Proof.
  apply (syscalls_preserve_kernel (P:=dev) (L:=demo_layout) ltac:(simpl; lia) ltac:(simpl; lia) 10 demo_grants
    [(1, SYS_FORK, demo_args 0 0 0); (1, SYS_SEND_MESSAGE, demo_args 2 0x1000 5);
     (2, SYS_RECEIVE_MESSAGE, demo_args 0 0 0); (2, 8, demo_args 0 0 0)] demo_kernel demo_kernel_wf).
  - repeat constructor; simpl; unfold u64; lia.
  - unfold len. simpl. lia.
Defined.

Example demo_history_results :
  fst <$> run_syscalls (P:=dev) (L:=demo_layout) demo_kernel
      [(1, SYS_FORK, demo_args 0 0 0); (1, SYS_SEND_MESSAGE, demo_args 2 0x1000 5);
       (2, SYS_RECEIVE_MESSAGE, demo_args 0 0 0); (2, 8, demo_args 0 0 0)]
  = Val [Ok 3; Ok 0; Ok 1; Err Sys.InvalidSyscall].
Proof. vm_compute. reflexivity. Qed.

Lemma other_syscalls_have_no_effect_witness :
  ∃ r, (∀ st, dispatch_syscall (P:=dev) (L:=demo_layout) st 1 SYS_KILL (demo_args 2 9 0) = Val (r, st)) ∧
    match validate_syscall_args (P:=dev) 1 SYS_KILL (demo_args 2 9 0) with
    | Err e => r = Err e
    | Ok _ => ¬ implemented SYS_KILL → r = Err Sys.NotSupported
    end.
Proof.
  apply (other_syscalls_have_no_effect (P:=dev) (L:=demo_layout)).
  - apply (bool_decide_unpack _). vm_compute. exact I.
  - left. apply (bool_decide_unpack _). vm_compute. exact I.
Defined.

Lemma send_syscall_exact_witness :
  ∃ r m st', dispatch_syscall (P:=dev) (L:=demo_layout) demo_kernel 1 SYS_SEND_MESSAGE (demo_args 2 0x1000 5)
      = Val (r, st') ∧ kernel_wf (L:=demo_layout) 8 demo_grants st' ∧
    message_id (header m) = 1 ∧ sender (header m) = 1 ∧ receiver (header m) = 2 ∧
    match r with
    | Ok v => v = 0 ∧ ¬ (2 = 0 ∨ (0 < 5 ∧ 0x1000 = 0) ∨ 4096 < 5) ∧ alive demo_kernel 1 ∧ alive demo_kernel 2 ∧
        may_send demo_grants 1 2 ∧
        ∀ q, pending st' q = if decide (q = 2) then insert_by_priority m (pending demo_kernel q)
                             else pending demo_kernel q
    | Err e => (∀ q, pending st' q = pending demo_kernel q) ∧
        (e = Sys.InvalidArgument ∧ (2 = 0 ∨ (0 < 5 ∧ 0x1000 = 0) ∨ 4096 < 5) ∨
         ¬ (2 = 0 ∨ (0 < 5 ∧ 0x1000 = 0) ∨ 4096 < 5) ∧
           (e = Sys.NotFound ∧ (¬ alive demo_kernel 1 ∨ ¬ alive demo_kernel 2) ∨
            e = Sys.PermissionDenied ∧ alive demo_kernel 1 ∧ alive demo_kernel 2 ∧ ¬ may_send demo_grants 1 2 ∨
            e = Sys.ResourceExhausted ∧ alive demo_kernel 1 ∧ alive demo_kernel 2 ∧ may_send demo_grants 1 2 ∧
              (len (pending demo_kernel 2) = MAX_MESSAGES_PER_QUEUE ∨
               MAX_QUEUE_SIZE_BYTES <
                 sumZ (msize (L:=demo_layout)) (pending demo_kernel 2) + msize (L:=demo_layout) m)))
    end.
Proof.
  apply (send_syscall_exact (P:=dev) (L:=demo_layout) ltac:(simpl; lia) ltac:(simpl; lia) 10 demo_grants
    demo_kernel 1 (demo_args 2 0x1000 5) demo_kernel_wf); [lia|lia|].
  repeat split; simpl; lia.
Defined.

Lemma send_then_receive_witness :
  ∃ st2, dispatch_syscall (P:=dev) (L:=demo_layout) demo_sent 2 SYS_RECEIVE_MESSAGE (demo_args 0 0 0)
      = Val (Ok 1, st2) ∧
    (∀ q, pending st2 q = pending demo_kernel q) ∧
    ∃ e st3, dispatch_syscall (P:=dev) (L:=demo_layout) st2 2 SYS_RECEIVE_MESSAGE (demo_args 0 0 0)
      = Val (Err e, st3) ∧
      e ∈ [Sys.WouldBlock; Sys.NotFound] ∧ ∀ q, pending st3 q = pending demo_kernel q.
Proof.
  apply (send_then_receive (P:=dev) (L:=demo_layout) ltac:(simpl; lia) ltac:(simpl; lia) 10 demo_grants
    demo_kernel demo_sent 1 (demo_args 2 0x1000 5) (demo_args 0 0 0) 0 demo_kernel_wf); [lia|lia| | |].
  - repeat split; simpl; lia.
  - reflexivity.
  - vm_compute. reflexivity.
Defined.

Lemma syscall_register_decodes_witness :
  ∃ r v st', dispatch_syscall (P:=dev) (L:=demo_layout) demo_kernel 1 SYS_WRITE (demo_args 7 0x1000 5) = Val (r, st') ∧
    syscall_entry (P:=dev) (L:=demo_layout) demo_kernel SYS_WRITE (demo_args 7 0x1000 5) = Val (v, st') ∧ u64 v ∧
    (2 ^ 64 - 4096 ≤ v ↔ ∃ e, r = Err e) ∧ (∀ x, r = Ok x → v = x) ∧
    ∀ e, v = 2 ^ 64 + to_errno e ↔ r = Err e.
Proof.
  apply (syscall_register_decodes (P:=dev) (L:=demo_layout) ltac:(simpl; lia) ltac:(simpl; lia) 10 demo_grants
    demo_kernel SYS_WRITE (demo_args 7 0x1000 5) demo_kernel_wf); [lia| |simpl; lia..].
  repeat split; simpl; lia.
Defined.
