(* ===== verification/Kernel.v ===== *)
(** * The kernel's globals together

    The scheduler, the security policy, the process table, the capabilities, the
    message queues and the power managers are global variables behind locks.  This file models the
    functions on them that the component files leave out: the scheduler's globals
    ([scheduler.rs]), process management ([process/mod.rs]), the security policy's
    globals ([security.rs]), the queue globals ([queue.rs]) and the initialisation
    and statistics of the IPC system ([ipc/mod.rs]); and proves that the components
    keep their invariants when they run interleaved. *)
From S2P Require Import Prelude Capability Process Ipc Scheduler Syscall.
Local Open Scope kosh_scope.

(** ** State; of power management the scheduler sees [PowerGlobals] *)
Section kernel_state.
Context {W : PowerPolicy}.
Record Kernel := {
  ipc : IpcState;
  scheduler : option Scheduler;
  security_policy : option SecurityPolicy;
  power : PowerGlobals;
}.
Definition set_ipc (k : Kernel) (st : IpcState) : Kernel :=
  {| ipc := st; scheduler := scheduler k; security_policy := security_policy k; power := power k |}.
Definition set_table (st : IpcState) (t : option ProcessTable) : IpcState :=
  {| table := t; caps := caps st; queue_manager := queue_manager st; next_message_id := next_message_id st |}.
Definition set_scheduler (k : Kernel) (s : Scheduler) : Kernel :=
  {| ipc := ipc k; scheduler := Some s; security_policy := security_policy k; power := power k |}.
Definition set_power (k : Kernel) (w : PowerGlobals) : Kernel :=
  {| ipc := ipc k; scheduler := scheduler k; security_policy := security_policy k; power := w |}.

(** The statics as the kernel image has them. *)
Definition kernel_image : Kernel :=
  {| ipc := {| table := None; caps := {| next_capability_id := 1; cap_manager := None |};
               queue_manager := None; next_message_id := 1 |};
     scheduler := None; security_policy := None; power := power_image |}.
End kernel_state.

(** ** [scheduler.rs]: the global scheduler *)
Definition DEFAULT_TIME_SLICE_MS : Z := 10.
Definition init_scheduler `{PowerPolicy} (k : Kernel) : Kernel := set_scheduler k (scheduler_new RoundRobin DEFAULT_TIME_SLICE_MS).

(** [process::init_process_management]. *)
Definition init_process_management `{PowerPolicy} (k : Kernel) : Kernel :=
  init_scheduler (set_ipc k (set_table (ipc k) (init_process_table (table (ipc k))))).

Section globals.
Context {P : Profile} {L : Layout} {W : PowerPolicy}.
Implicit Types k : Kernel.

Definition schedule_next_process k : outcome (result (option Z) SchedulerError * Kernel) :=
  match scheduler k with
  | None => Val (Err NotInitialized, k)
  | Some s =>
      '(r, s, t, w) ← schedule s (table (ipc k)) (power k);
      Val (r, set_power (set_scheduler (set_ipc k (set_table (ipc k) t)) s) w)
  end.
Definition handle_timer_tick k : outcome (result bool SchedulerError * Kernel) :=
  match scheduler k with
  | None => Val (Err NotInitialized, k)
  | Some s =>
      '(r, s, t, w) ← timer_tick s (table (ipc k)) (power k);
      Val (r, set_power (set_scheduler (set_ipc k (set_table (ipc k) t)) s) w)
  end.
Definition set_scheduling_algorithm k (a : SchedulingAlgorithm) : result unit SchedulerError * Kernel :=
  match scheduler k with
  | None => (Err NotInitialized, k)
  | Some s => (Ok (), set_scheduler k (set_algorithm s a))
  end.
Definition global_set_time_slice k (ms : Z) : result unit SchedulerError * Kernel :=
  match scheduler k with
  | None => (Err NotInitialized, k)
  | Some s => (Ok (), set_scheduler k (set_time_slice s ms))
  end.
Definition get_scheduler_statistics k : option SchedulerStatistics := sched_stats <$> scheduler k.

(** ** [security.rs]: the global policy *)
Definition init_security_policy k : Kernel :=
  {| ipc := ipc k; scheduler := scheduler k; security_policy := Some new_policy; power := power k |}.
Definition with_security_policy {A} k (f : SecurityPolicy → A) : option A := f <$> security_policy k.

(** A closure that also works on the capabilities; without a policy it does not
    run. *)
Definition with_policy_caps {A} k (d : A) (f : SecurityPolicy → CapState → outcome (A * CapState)) :
    outcome (A * Kernel) :=
  match with_security_policy k f with
  | None => Val (d, k)
  | Some g => '(r, c) ← g (caps (ipc k)); Val (r, set_ipc k (set_caps (ipc k) c))
  end.
Definition grant_system_process_capabilities k (pid : Z) : outcome (result (list Z) CapabilityError * Kernel) :=
  with_policy_caps k (Err ResourceExhausted) (λ p, grant_system_capabilities p pid).
Definition grant_user_process_capabilities k (pid : Z) : outcome (result (list Z) CapabilityError * Kernel) :=
  with_policy_caps k (Err ResourceExhausted) (λ p, grant_user_capabilities p pid).
Definition global_validate_capability_request k (pid : Z) (ty : CapabilityType) (res : ResourceId) :
    outcome (bool * Kernel) :=
  with_policy_caps k false (λ p c, validate_capability_request p c pid ty res).
Definition global_is_restricted_operation k (ty : CapabilityType) : bool :=
  default true (with_security_policy k (λ p, is_restricted_operation p ty)).

(** ** [queue.rs]: the global queues *)
Definition init_message_queues k : Kernel :=
  set_ipc k {| table := table (ipc k); caps := caps (ipc k); queue_manager := Some new_queue_manager;
               next_message_id := next_message_id (ipc k) |}.
Definition create_message_queue k (pid : Z) : outcome (result unit MessageQueueError * Kernel) :=
  match queue_manager (ipc k) with
  | None => Val (Err QueueResourceExhausted, k)
  | Some mg => '(r, mg) ← create_queue mg pid; Val (r, set_ipc k (set_queues (ipc k) mg))
  end.
Definition remove_message_queue k (pid : Z) : result unit MessageQueueError * Kernel :=
  match queue_manager (ipc k) with
  | None => (Err QueueResourceExhausted, k)
  | Some mg =>
      let '(r, mg) := remove_queue mg pid in
      (match r with Ok _ => Ok () | Err e => Err e end, set_ipc k (set_queues (ipc k) mg))
  end.
Record MessageQueueStatistics := {
  mq_process_id : Z; mq_pending_messages : Z; mq_total_size_bytes : Z; mq_messages_received : Z;
  mq_messages_sent : Z; mq_queue_full_count : Z; mq_max_messages : Z; mq_max_size_bytes : Z;
}.
Definition get_statistics (q : MessageQueue) : MessageQueueStatistics :=
  {| mq_process_id := process_id q; mq_pending_messages := len (messages q); mq_total_size_bytes := q_total_size q;
     mq_messages_received := messages_received q; mq_messages_sent := messages_sent q;
     mq_queue_full_count := queue_full_count q; mq_max_messages := max_messages q; mq_max_size_bytes := max_size q |}.
Definition get_message_queue k (pid : Z) : option MessageQueueStatistics :=
  mg ← queue_manager (ipc k); get_statistics <$> queues mg !! pid.
Definition get_queue_statistics k : GlobalQueueStatistics :=
  match queue_manager (ipc k) with
  | Some mg => get_global_statistics mg
  | None => {| active_queues := 0; total_pending_messages := 0; total_messages_sent := 0;
               total_messages_received := 0; total_queue_full_events := 0; gq_total_queues_created := 0 |}
  end.

(** ** [ipc/mod.rs] *)
Definition init_ipc k : Kernel :=
  let k := init_message_queues k in
  let k := set_ipc k (set_caps (ipc k) (init_capability_system (caps (ipc k)))) in
  init_security_policy k.

Record IpcStatistics := {
  is_messages_sent : Z; is_messages_received : Z; active_message_queues : Z; is_total_capabilities : Z;
  capability_checks_performed : Z; capability_checks_failed : Z;
}.
Definition get_ipc_statistics k : IpcStatistics :=
  let queue_stats := get_queue_statistics k in
  let capability_stats := get_capability_statistics (caps (ipc k)) in
  {| is_messages_sent := total_messages_sent queue_stats;
     is_messages_received := total_messages_received queue_stats;
     active_message_queues := active_queues queue_stats;
     is_total_capabilities := st_total_capabilities capability_stats;
     capability_checks_performed := st_checks_performed capability_stats;
     capability_checks_failed := st_checks_failed capability_stats |}.

(** The order of [boot.rs]: processes, then IPC. *)
Definition boot_core : Kernel := init_ipc (init_process_management kernel_image).

(** ** Interleavings

    What the rest of the kernel and the processes may ask for, in any order. *)
Inductive kernel_op :=
  | KTable (o : table_op)
  | KSyscall (pid num : Z) (a : Args)
  | KSchedule
  | KTick
  | KSetAlgorithm (a : SchedulingAlgorithm)
  | KSetTimeSlice (ms : Z)
  | KGrantSystem (pid : Z)
  | KGrantUser (pid : Z)
  | KValidate (pid : Z) (ty : CapabilityType) (res : ResourceId)
  | KCreateQueue (pid : Z)
  | KRemoveQueue (pid : Z)
  | KCap (o : cap_op)
  | KChannel (a b : Z)
  | KSend (from to : Z) (ty : MessageType) (d : MessageData)
  | KReply (m : Message) (from : Z) (d : MessageData)
  | KReceive (pid : Z).

Definition kernel_step (o : kernel_op) k : outcome Kernel :=
  match o with
  | KTable o =>
      match table (ipc k) with
      | None => Val k
      | Some t => t ← table_step t o; Val (set_ipc k (set_table (ipc k) (Some t)))
      end
  | KSyscall pid num a => '(_, st) ← dispatch_syscall (ipc k) pid num a; Val (set_ipc k st)
  | KSchedule => snd <$> schedule_next_process k
  | KTick => snd <$> handle_timer_tick k
  | KSetAlgorithm a => Val (set_scheduling_algorithm k a).2
  | KSetTimeSlice ms => Val (global_set_time_slice k ms).2
  | KGrantSystem pid => snd <$> grant_system_process_capabilities k pid
  | KGrantUser pid => snd <$> grant_user_process_capabilities k pid
  | KValidate pid ty res => snd <$> global_validate_capability_request k pid ty res
  | KCreateQueue pid => snd <$> create_message_queue k pid
  | KRemoveQueue pid => Val (remove_message_queue k pid).2
  | KCap o => '(_, c) ← cap_step (caps (ipc k)) o; Val (set_ipc k (set_caps (ipc k) c))
  | KChannel a b => '(_, c) ← create_secure_ipc_channel (caps (ipc k)) a b; Val (set_ipc k (set_caps (ipc k) c))
  | KSend from to ty d =>
      '(m, st) ← create_message (ipc k) from to ty d;
      '(_, st) ← send_message st m;
      Val (set_ipc k st)
  | KReply m from d => '(_, st) ← reply_message (ipc k) m from d; Val (set_ipc k st)
  | KReceive pid => '(_, st) ← receive_message (ipc k) pid; Val (set_ipc k st)
  end.
Fixpoint kernel_run (ops : list kernel_op) k : outcome Kernel :=
  match ops with
  | [] => Val k
  | o :: ops => k ← kernel_step o k; kernel_run ops k
  end.
End globals.

(** ** Every scheduling decision *)
Section scheduling.
Context {P : Profile} {W : PowerPolicy} {WL : PowerPolicyLaws W}.
Implicit Types (s : Scheduler) (w : PowerGlobals).

Lemma priority_index s g w r s' : schedule_priority s g w = Val (r, s') → last_scheduled_index s' = last_scheduled_index s.
Proof.
  unfold schedule_priority. intros H. apply bind_val in H as (f & Hf & H).
  apply (for_loop_partial (λ s1, last_scheduled_index s1 = last_scheduled_index s)
    (λ x : Z * Scheduler, last_scheduled_index x.2 = last_scheduled_index s)) in Hf; [|clear|done].
  - destruct f as [s1|[id s1]]; by injection H as <- <-.
  - intros x s1 f Hs Hb. inv_val. destruct (pick_from_queue _ _) as [[id q]|]; inv_val; done.
Qed.

Lemma cfs_fold_in g rs best least q : foldl (λ '(best, least) id,
    match global_get_process g id with
    | Some p => if is_runnable p && (cpu_time_ms p <? least) then (Some id, cpu_time_ms p) else (best, least)
    | None => (best, least)
    end) (None, u64_max) rs = (best, least) → best = Some q → q ∈ rs.
Proof.
  revert best least q. induction rs as [|r rs IH] using rev_ind; intros best least q; [by intros [= <- _]|].
  rewrite foldl_app. cbn [foldl]. destruct (foldl _ _ rs) as [b l] eqn:E. intros H ->. apply elem_of_app.
  destruct (global_get_process g r) as [p|]; [|injection H as -> ->; left; by eapply IH].
  destruct (_ && _); simplify_eq; [right; by left|left; by eapply IH].
Qed.

(** Whatever the algorithm, the choice is a runnable process or none. *)
Definition algorithm_choice s g w : outcome (option Z * Scheduler) :=
  match sched_algorithm s with
  | RoundRobin => schedule_round_robin s g
  | Priority => schedule_priority s g w
  | CompletelyFair => schedule_cfs s g
  end.

Lemma choice_total s t w : table_wf t → 0 ≤ last_scheduled_index s →
  ∃ next s1, algorithm_choice s (Some t) w = Val (next, s1) ∧ sched_stats s1 = sched_stats s ∧
    0 ≤ last_scheduled_index s1 ∧ ∀ q, next = Some q → q ∈ get_runnable_processes t.
Proof.
  intros Hwf Hi. unfold algorithm_choice.
  destruct (decide (get_runnable_processes t = [])) as [E|E].
  - destruct (sched_algorithm s).
    + exists None, s. unfold schedule_round_robin. simpl. by rewrite E.
    + exists None, (update_priority_queues s (Some t) w). split_and!; try done.
      unfold schedule_priority, update_priority_queues. simpl. by rewrite E.
    + exists None, s. unfold schedule_cfs. simpl. by rewrite E.
  - destruct (sched_algorithm s).
    + destruct (round_robin_spec s t Hwf E Hi) as (q & Hq & Hr & ->). eexists _, _. split; [done|]. split_and!; [done| |].
      * cbn [set_index last_scheduled_index]. apply Z.mod_pos_bound. lia.
      * intros ? [= <-]. by eapply list_elem_of_lookup_2.
    + destruct (priority_spec s t w Hwf E) as (q & s1 & Hp & Hu & Hst & _). exists (Some q), s1.
      rewrite Hp. split_and!; [done|done|by rewrite (priority_index _ _ _ _ _ Hp)|].
      intros ? [= <-]. by apply (most_urgent_runnable w).
    + unfold schedule_cfs. cbn [global_get_runnable_processes].
      destruct (foldl _ _ _) as [best least] eqn:Ef. eexists best, s.
      assert (is_empty (get_runnable_processes t) = false) as -> by (by destruct (get_runnable_processes t)).
      split_and!; [done..|]. intros q ->. by eapply cfs_fold_in.
Qed.

Definition table_alive (t : ProcessTable) (q : Z) : Prop := is_Some (get_process t q).

(** A decision never fails and never panics: it makes a runnable process, or
    none, the current one, and the processes stay. *)
Lemma schedule_total s t w n : table_wf t → sched_room (n + 1) s → notify_ready (n + 1) s w → 0 ≤ n →
  0 ≤ last_scheduled_index s →
  ∃ next s' t' w', schedule s (Some t) w = Val (Ok next, s', Some t', w') ∧ table_wf t' ∧ current_pid t' = next ∧
    (∀ q, next = Some q → q ∈ get_runnable_processes t) ∧ sched_room n s' ∧ notify_ready n s' w' ∧
    0 ≤ last_scheduled_index s' ∧ ∀ q, table_alive t' q ↔ table_alive t q.
Proof.
  intros Hwf Hroom Hw Hn Hi. pose proof Hroom as (Hd0 & Hd & Hc0 & Hc).
  destruct (choice_total (set_counts s (context_switches (sched_stats s)) (scheduling_decisions (sched_stats s) + 1)
    (scheduler_time_us (sched_stats s))) t w Hwf Hi) as (next & s1 & Hch & Hst & Hi1 & Hq).
  destruct next as [q|].
  - destruct (after_pick s s1 t w q n Hwf (Hq q eq_refl) Hroom Hw Hn)
      as (s2 & t' & w' & H2 & Hwf' & Hcur & Hsame & Hr & Hw' & Hl & _).
    { cbv zeta. split; [exact Hch|done]. }
    exists (Some q), s2, t', w'. split_and!; try done; [by rewrite Hl|]. intros x. destruct Hsame as [_ Hsame].
    specialize (Hsame x). unfold table_alive. destruct (get_process t x), (get_process t' x); try done; split; eauto.
  - unfold schedule. rewrite uadd_val by lia. cbn [mbind outcome_bind]. unfold algorithm_choice in Hch.
    rewrite Hch. cbn [mbind outcome_bind]. pose proof (set_current_spec t None Hwf) as Hs.
    unfold global_set_current_process. destruct (set_current_process t None) as [[[]|e] t'].
    + destruct Hs as (_ & Hwf' & Hcur & _ & _ & Hg). exists None, s1, t', w. split_and!; try done.
      * unfold sched_room. rewrite Hst. simpl. lia.
      * unfold notify_ready in *. rewrite Hst. apply (power_room_mono (n + 1)); [done|lia].
      * intros x. unfold table_alive. rewrite Hg. by rewrite fmap_is_Some.
    + by destruct Hs as (_ & (? & ? & _) & _).
Qed.
End scheduling.

(** ** The invariant of the whole *)
Section kernel_invariant.
Context {P : Profile} {L : Layout} {W : PowerPolicy} {WL : PowerPolicyLaws W}.
Context (Hhead : 0 ≤ header_size < 2 ^ 62) (Hcap : 0 ≤ capability_size).
Implicit Types k : Kernel.

Record kernel_inv (n : Z) (σ : gmap Z Grant) k : Prop := {
  ki_ipc : kernel_wf n σ (ipc k);
  ki_sched : ∃ s, scheduler k = Some s ∧ sched_room n s ∧ notify_ready n s (power k) ∧ 0 ≤ last_scheduled_index s;
  ki_policy : security_policy k = Some new_policy;
}.

Lemma sched_room_mono n n' s : sched_room n s → n' ≤ n → sched_room n' s.
Proof. unfold sched_room. lia. Qed.
Lemma notify_ready_mono n n' s w : notify_ready n s w → n' ≤ n → notify_ready n' s w.
Proof. apply power_room_mono. Qed.

Lemma kernel_inv_mono n n' σ k : kernel_inv n σ k → 0 ≤ n' ≤ n → kernel_inv n' σ k.
Proof.
  intros [Hw (s & Hs & Hr & Hp & Hi) ?] Hn. split; [by apply (kernel_wf_mono n)| |done].
  exists s. split_and!; [done|apply (sched_room_mono n); [done|lia]|apply (notify_ready_mono n); [done|lia]|done].
Qed.

Lemma kernel_inv_ipc n n' σ σ' k st : kernel_inv n σ k → kernel_wf n' σ' st → n' ≤ n →
  kernel_inv n' σ' (set_ipc k st).
Proof.
  intros [_ (s & Hs & Hr & Hp & Hi) ?] Hw Hn. split; [done| |done].
  exists s. split_and!; [done|by apply (sched_room_mono n)|by apply (notify_ready_mono n)|done].
Qed.

Lemma kernel_wf_table n σ st t : kernel_wf n σ st → table_wf t → kernel_wf n σ (set_table st (Some t)).
Proof. intros [Hi _ Hn Hids] Ht. split; [by apply ipc_rel_other|by exists t|done|done]. Qed.

Lemma kernel_wf_caps n n' σ σ' st c : kernel_wf n σ st → cap_rel σ' c → cap_room n' c → 0 ≤ n' ≤ n →
  kernel_wf n' σ' (set_caps st c).
Proof.
  intros Hwf Hrel Hroom Hn. destruct (kernel_wf_mono n n' σ st Hwf Hn) as [Hi Ht Hnx Hids].
  split; [by destruct Hi|done|done|done].
Qed.

(** Replacing the queues: they stay well formed and no message is new. *)
Lemma kernel_wf_queues n n' σ st mg : kernel_wf n σ st → 0 ≤ n' ≤ n →
  0 ≤ total_messages mg ∧ total_messages mg + n' < 2 ^ 64 →
  0 ≤ total_queues_created mg ∧ total_queues_created mg + n' < 2 ^ 64 →
  (∀ pid q, queues mg !! pid = Some q → queue_wf n' q ∧ process_id q = pid ∧
     max_messages q = MAX_MESSAGES_PER_QUEUE ∧ max_size q = MAX_QUEUE_SIZE_BYTES) →
  (∀ pid m, m ∈ pending (set_queues st mg) pid → m ∈ pending st pid) →
  kernel_wf n' σ (set_queues st mg).
Proof.
  intros Hwf Hn Ht Hc Hq Hp. destruct (kernel_wf_mono n n' σ st Hwf Hn) as [[? ? _] ? ? Hids].
  split; [split; [done|done|by exists mg]|done|done|]. intros pid m Hm. by apply (Hids pid), Hp.
Qed.

(** ** Grants *)
Lemma grant_all_spec pid cs : ∀ n σ st, cap_rel σ st → cap_room n st → len cs ≤ n →
  ∃ ids st' σ', grant_all pid cs st = Val (Ok ids, st') ∧ cap_rel σ' st' ∧ cap_room (n - len cs) st' ∧ σ ⊆ σ' ∧
    (∀ c, c ∈ cs → ∃ id, σ' !! id = Some (pid, c.1, c.2)) ∧
    ∀ id e, σ' !! id = Some e → σ !! id = Some e ∨ e.1.1 = pid ∧ (e.1.2, e.2) ∈ cs.
Proof.
  intros n σ st Hrel Hroom Hn. unfold grant_all.
  set (body := λ '(ty, res) '(granted, st), _).
  assert (∀ l gr n σ st, cap_rel σ st → cap_room n st → len l ≤ n → ∃ gr' st' σ',
    for_loop body l (gr, st) = Val (Next (gr', st')) ∧ cap_rel σ' st' ∧ cap_room (n - len l) st' ∧ σ ⊆ σ' ∧
    (∀ c, c ∈ l → ∃ id, σ' !! id = Some (pid, c.1, c.2)) ∧
    ∀ id e, σ' !! id = Some e → σ !! id = Some e ∨ e.1.1 = pid ∧ (e.1.2, e.2) ∈ l) as Hloop.
  { clear. induction l as [|[ty res] l IH]; intros gr n σ st Hrel Hroom Hn.
    { exists gr, st, σ. split_and!; try done; [|by intros c ?%not_elem_of_nil|auto]. unfold len in *. simpl. by rewrite Z.sub_0_r. }
    unfold len in Hn. cbn [length] in Hn.
    destruct (create_spec σ st n pid ty res None Hrel Hroom) as (st1 & H1 & Hfresh & Hrel1 & Hroom1); [lia|].
    destruct (IH (gr ++ [next_capability_id st]) (n - 1) _ st1 Hrel1 Hroom1) as (gr' & st' & σ' & H2 & Hrel2 & Hroom2 & Hsub & Hall & Hg);
      [unfold len; lia|].
    assert (body (ty, res) (gr, st) = Val (Next (gr ++ [next_capability_id st], st1))) as Hb by (unfold body; by rewrite H1).
    exists gr', st', σ'. cbn [for_loop]. rewrite Hb. cbn [mbind outcome_bind]. split_and!; [done|done| | | |].
    - unfold len in *. cbn [length]. by replace (n - Z.of_nat (S (length l))) with (n - 1 - Z.of_nat (length l)) by lia.
    - etrans; [|done]. by apply insert_subseteq.
    - intros c [->|Hc]%elem_of_cons; [|by apply Hall]. exists (next_capability_id st).
      eapply lookup_weaken; [|done]. by rewrite lookup_insert_eq.
    - intros id e He. destruct (Hg id e He) as [Hi|[? ?]]; [|right; split; [done|by right]].
      apply lookup_insert_Some in Hi as [[<- <-]|[_ ?]]; [right; split; [done|by left]|by left]. }
  destruct (Hloop cs [] n σ st Hrel Hroom Hn) as (gr & st' & σ' & -> & ? & ? & ? & ? & ?).
  cbn [mbind outcome_bind]. by eexists _, st', σ'.
Qed.

Lemma channel_spec n σ c a b : cap_rel σ c → cap_room n c → 2 ≤ n →
  ∃ i j c', create_secure_ipc_channel c a b = Val (Ok (), c') ∧ i ≠ j ∧ σ !! i = None ∧ σ !! j = None ∧
    cap_rel (<[j := (b, SendMessage, ProcessResource a)]> (<[i := (a, SendMessage, ProcessResource b)]> σ)) c' ∧
    cap_room (n - 2) c'.
Proof.
  intros Hrel Hroom Hn. unfold create_secure_ipc_channel.
  destruct (create_spec σ c n a SendMessage (ProcessResource b) None Hrel Hroom) as (c1 & -> & F1 & Hrel1 & Hroom1); [lia|].
  cbn [mbind outcome_bind].
  destruct (create_spec _ c1 (n - 1) b SendMessage (ProcessResource a) None Hrel1 Hroom1) as (c2 & -> & F2 & Hrel2 & Hroom2); [lia|].
  cbn [mbind outcome_bind]. apply lookup_insert_None in F2 as [F2 Hne].
  eexists _, _, c2. split_and!; [done|exact Hne|done|done|done|]. by replace (n - 2) with (n - 1 - 1) by lia.
Qed.

Lemma validate_spec n σ st pid ty res : cap_rel σ st → cap_room n st → 2 ≤ n →
  ∃ b st', validate_capability_request new_policy st pid ty res = Val (b, st') ∧ cap_rel σ st' ∧ cap_room (n - 2) st'.
Proof.
  intros Hrel Hroom Hn.
  assert (∀ c m, cap_room m c → cap_room (m - 1) c) as Hweak.
  { intros c m (? & mg & ? & ?). split; [lia|]. exists mg. split; [done|lia]. }
  assert (∀ ty res, ∃ b st', check_capability st pid ty res = Val (b, st') ∧ cap_rel σ st' ∧ cap_room (n - 1) st') as Hck.
  { intros ty' res'. destruct (check_spec σ st n pid ty' res' Hrel Hroom) as (b & st' & ? & ? & ? & _); [lia|eauto 6]. }
  assert (∀ ty res, ∃ b st', check_capability st pid ty res = Val (b, st') ∧ cap_rel σ st' ∧ cap_room (n - 2) st') as Hck2.
  { intros ty' res'. destruct (Hck ty' res') as (b & st' & ? & ? & Hr). exists b, st'. split_and!; [done|done|].
    replace (n - 2) with (n - 1 - 1) by lia. auto. }
  assert (∀ ty r1 r2, ∃ b st', check_either st pid ty r1 r2 = Val (b, st') ∧ cap_rel σ st' ∧ cap_room (n - 2) st') as Hei.
  { intros ty' r1 r2. unfold check_either. destruct (Hck ty' r1) as (b & st1 & -> & Hr1 & Hm1).
    cbn [mbind outcome_bind]. replace (n - 2) with (n - 1 - 1) by lia. destruct b; [exists true, st1; by auto|].
    destruct (check_spec σ st1 (n - 1) pid ty' r2 Hr1 Hm1) as (b & st2 & ? & ? & ? & _); [lia|eauto 6]. }
  unfold validate_capability_request. destruct (is_restricted_operation new_policy ty); [apply Hck2|].
  destruct ty; try apply Hck2; try apply Hei. exists true, st. split_and!; [done|done|].
  replace (n - 2) with (n - 1 - 1) by lia. auto.
Qed.
(** ** Every operation keeps the invariant *)
Definition op_ok (o : kernel_op) : Prop :=
  match o with
  | KSyscall pid num a => 0 ≤ pid < 2 ^ 32 ∧ args_ok a
  | KSend _ _ _ d | KReply _ _ d => data_size d < 2 ^ 62
  | _ => True
  end.

(** The grants an operation may create: the policy's for the process it names,
    the two directions of a channel, or the one that is asked for. *)
Definition granted_by (e : Grant) (o : kernel_op) : Prop :=
  match o with
  | KGrantSystem pid => e.1.1 = pid ∧ (e.1.2, e.2) ∈ system_capabilities new_policy
  | KGrantUser pid => e.1.1 = pid ∧ (e.1.2, e.2) ∈ user_capabilities new_policy
  | KChannel a b => e = (a, SendMessage, ProcessResource b) ∨ e = (b, SendMessage, ProcessResource a)
  | KCap (Capability.OpCreate pid ty res _) => e = (pid, ty, res)
  | _ => False
  end.

(** What a step does to the kernel as a whole. *)
Definition step_ok (n : Z) (σ : gmap Z Grant) (o : kernel_op) (r : outcome Kernel) : Prop :=
  ∃ k' σ', r = Val k' ∧ kernel_inv (n - 6) σ' k' ∧
    ∀ id e, σ' !! id = Some e → σ !! id = Some e ∨ granted_by e o.

Lemma step_same n σ o k' : kernel_inv (n - 6) σ k' → step_ok n σ o (Val k').
Proof. intros H. exists k', σ. split_and!; [done|done|auto]. Qed.

Lemma step_caps n m σ σ' o k c : kernel_inv n σ k → 0 ≤ m ≤ 6 → 6 ≤ n → cap_rel σ' c → cap_room (n - m) c →
  (∀ id e, σ' !! id = Some e → σ !! id = Some e ∨ granted_by e o) →
  step_ok n σ o (Val (set_ipc k (set_caps (ipc k) c))).
Proof.
  intros Hk Hm Hn Hrel Hroom Hg. eexists _, σ'. split_and!; [done| |done].
  apply (kernel_inv_mono (n - m)); [|lia]. apply (kernel_inv_ipc n _ σ); [done| |lia].
  apply (kernel_wf_caps n _ σ); [apply Hk|done|done|lia].
Qed.

Lemma step_ipc n m σ o k st : kernel_inv n σ k → 0 ≤ m ≤ 6 → 6 ≤ n → kernel_wf (n - m) σ st →
  step_ok n σ o (Val (set_ipc k st)).
Proof.
  intros Hk Hm Hn Hw. apply step_same. apply (kernel_inv_mono (n - m)); [|lia].
  by apply (kernel_inv_ipc n _ σ); [done| |lia].
Qed.

Lemma with_policy_caps_spec {A} n σ k o (d : A) f m (cs : list (CapabilityType * ResourceId)) pid :
  kernel_inv n σ k → m ≤ 6 → 6 ≤ n → 0 ≤ m →
  (∃ r c σ', f new_policy (caps (ipc k)) = Val (r, c) ∧ cap_rel σ' c ∧ cap_room (n - m) c ∧
     ∀ id e, σ' !! id = Some e → σ !! id = Some e ∨ e.1.1 = pid ∧ (e.1.2, e.2) ∈ cs) →
  (∀ e, e.1.1 = pid → (e.1.2, e.2) ∈ cs → granted_by e o) →
  step_ok n σ o (snd <$> with_policy_caps k d f).
Proof.
  intros Hk Hm Hn Hm0 (r & c & σ' & Hf & Hrel & Hroom & Hg) Ho.
  unfold with_policy_caps, with_security_policy. rewrite (ki_policy _ _ _ Hk). cbn [fmap option_fmap option_map].
  rewrite Hf. cbn [mbind outcome_bind fmap outcome_fmap snd]. apply (step_caps n m σ σ'); [done|lia|done..|].
  intros id e He. destruct (Hg id e He) as [?|[? ?]]; [by left|right; auto].
Qed.

Lemma step_table n σ o k : kernel_inv n σ k → 6 ≤ n → step_ok n σ (KTable o) (kernel_step (KTable o) k).
Proof.
  intros Hk Hn. destruct (kw_table _ _ _ (ki_ipc _ _ _ Hk)) as (t & Ht & Hwf). cbn [kernel_step]. rewrite Ht.
  destruct (table_step_wf t o Hwf) as (t' & -> & Hwf' & _). cbn [mbind outcome_bind]. apply step_same.
  apply (kernel_inv_mono n); [|lia]. apply (kernel_inv_ipc n n σ); [done| |lia]. apply kernel_wf_table; [apply Hk|done].
Qed.

Lemma step_schedule n σ k : kernel_inv n σ k → 1 ≤ n →
  ∃ next k' t t', schedule_next_process k = Val (Ok next, k') ∧
    table (ipc k) = Some t ∧ table (ipc k') = Some t' ∧ current_pid t' = next ∧
    (∀ q, next = Some q → q ∈ get_runnable_processes t) ∧ (∀ q, table_alive t' q ↔ table_alive t q) ∧
    caps (ipc k') = caps (ipc k) ∧ queue_manager (ipc k') = queue_manager (ipc k) ∧ kernel_inv (n - 1) σ k'.
Proof.
  intros Hk Hn. destruct (kw_table _ _ _ (ki_ipc _ _ _ Hk)) as (t & Ht & Hwf).
  destruct (ki_sched _ _ _ Hk) as (s & Hs & Hr & Hw & Hi). unfold schedule_next_process. rewrite Hs, Ht.
  destruct (schedule_total s t (power k) (n - 1) Hwf)
    as (next & s' & t' & w' & -> & Hwf' & Hcur & Hq & Hr' & Hw' & Hi' & Hal);
    [by replace (n - 1 + 1) with n by lia..|lia|done|].
  cbn [mbind outcome_bind]. eexists _, _, t, t'. split; [done|]. split_and!; try done.
  split; simpl; [|by exists s'|apply Hk].
  apply kernel_wf_table; [|done]. apply (kernel_wf_mono n); [apply Hk|lia].
Qed.

Lemma step_tick n σ k : kernel_inv n σ k → 6 ≤ n → step_ok n σ KTick (kernel_step KTick k).
Proof.
  intros Hk Hn. destruct (step_schedule n σ k Hk ltac:(lia)) as (next & k' & _ & _ & Hs & _ & _ & _ & _ & _ & _ & _ & Hk').
  cbn [kernel_step]. unfold handle_timer_tick, timer_tick. unfold schedule_next_process in Hs.
  destruct (scheduler k) as [s|] eqn:Es; [|by inv_val]. destruct (global_get_current_process _).
  - apply bind_val in Hs as ([[[r s1] t1] w1] & Hb & Hs). injection Hs as -> <-. rewrite Hb.
    cbn [mbind outcome_bind fmap outcome_fmap snd]. apply step_same. by apply (kernel_inv_mono (n - 1)); [|lia].
  - cbn [mbind outcome_bind fmap outcome_fmap snd]. apply step_same. apply (kernel_inv_mono n); [|lia].
    destruct k as [st sc po w], st. simpl in *. subst sc. exact Hk.
Qed.

Lemma step_queues n σ k mg : kernel_inv n σ k → 6 ≤ n →
  (∃ mg0, queue_manager (ipc k) = Some mg0 ∧ total_messages mg = total_messages mg0 ∧
    total_queues_created mg0 ≤ total_queues_created mg ≤ total_queues_created mg0 + 1 ∧
    ∀ pid q, queues mg !! pid = Some q → queues mg0 !! pid = Some q ∨ q = queue_new pid) →
  kernel_inv (n - 6) σ (set_ipc k (set_queues (ipc k) mg)).
Proof.
  intros Hk Hn (mg0 & Hmg & Ht & Hc & Hq). apply (kernel_inv_ipc n _ σ); [done| |lia].
  destruct (ir_queues _ _ _ (kw_ipc _ _ _ (ki_ipc _ _ _ Hk))) as (mg1 & Hmg1 & Ht1 & Hc1 & Hq1).
  rewrite Hmg in Hmg1. injection Hmg1 as <-. apply (kernel_wf_queues n); [apply Hk|lia|lia|lia| |].
  - intros pid q Hpq. destruct (Hq pid q Hpq) as [H0| ->].
    + destruct (Hq1 pid q H0) as (? & ? & ? & ?). split_and!; try done. by apply (queue_wf_mono n); [lia|].
    + split_and!; try done. apply queue_new_wf. lia.
  - intros pid m. unfold pending. simpl. rewrite Hmg. destruct (queues mg !! pid) as [q|] eqn:E; [|by intros ?%not_elem_of_nil].
    destruct (Hq pid q E) as [-> | ->]; [done|]. by intros ?%not_elem_of_nil.
Qed.

Lemma step_granted n σ k pid cs o d f : kernel_inv n σ k → 6 ≤ n → len cs ≤ 6 →
  f new_policy (caps (ipc k)) = grant_all pid cs (caps (ipc k)) →
  (∀ e, e.1.1 = pid → (e.1.2, e.2) ∈ cs → granted_by e o) →
  step_ok n σ o (snd <$> with_policy_caps k d f).
Proof.
  intros Hk Hn Hc Hf Ho. pose proof (len_nonneg cs).
  apply (with_policy_caps_spec n σ k _ _ _ (len cs) cs pid); try done.
  destruct (grant_all_spec pid cs n σ (caps (ipc k))) as (ids & c & σ' & ? & ? & ? & _ & _ & ?);
    [apply Hk|apply Hk|lia|]. exists (Ok ids), c, σ'. by rewrite Hf.
Qed.

(** Sending, replying and receiving. *)
Lemma step_message n σ o k : kernel_inv n σ k → 6 ≤ n → op_ok o →
  match o with KSend _ _ _ _ | KReply _ _ _ | KReceive _ => True | _ => False end →
  step_ok n σ o (kernel_step o k).
Proof.
  intros Hk Hn Ho Hkind. pose proof (ki_ipc _ _ _ Hk) as Hw. pose proof (kw_next _ _ _ Hw) as Hnx.
  destruct o as [| | | | | | | | | | | | |from to ty d|m from d|pid]; try done; cbn [kernel_step].
  - destruct (create_message_spec Hhead n σ (ipc k) from to ty d) as (m & -> & Hm & Hid & _); [done|lia|done|].
    cbn [mbind outcome_bind]. destruct (send_new_spec Hhead Hcap n σ (ipc k) m) as (r & st & -> & Hw' & _); [done|lia|done..|].
    cbn [mbind outcome_bind]. by apply (step_ipc n 2).
  - unfold reply_message, create_reply, generate_message_id. rewrite uadd_val by lia. cbn [mbind outcome_bind].
    change ({| next_message_id := next_message_id (ipc k) + 1 |}) with (bump_id (ipc k)).
    set (reply := {| data := d |}).
    destruct (send_new_spec Hhead Hcap n σ (ipc k) reply) as (r & st & -> & Hw' & _); [done|lia| |done|].
    { unfold msg_ok, msize, reply, len. cbn [capabilities data length]. simpl in Ho. lia. }
    cbn [mbind outcome_bind]. by apply (step_ipc n 2).
  - destruct (sys_receive_message_spec Hhead Hcap n σ (ipc k) pid (demo_args 0 0 0) Hw) as (r & st & Hr & Hw' & _).
    unfold sys_receive_message in Hr. destruct (receive_message (ipc k) pid) as [[r0 st0]| |]; try done.
    cbn [mbind outcome_bind] in *. assert (st0 = st) as -> by (destruct r0; congruence).
    apply (step_ipc n 0); try done. by rewrite Z.sub_0_r.
Qed.

Lemma step_cap n σ o k : kernel_inv n σ k → 6 ≤ n → step_ok n σ (KCap o) (kernel_step (KCap o) k).
Proof.
  intros Hk Hn. cbn [kernel_step].
  destruct (cap_step_simulates σ (caps (ipc k)) n o) as (a & c & σ' & -> & Hs & Hrel & Hroom); [apply Hk|apply Hk|lia|].
  cbn [mbind outcome_bind]. apply (step_caps n 1 σ σ'); try done.
  intros id e He. destruct Hs; try (by left).
  - apply lookup_insert_Some in He as [[_ <-]|[_ ?]]; [by right|by left].
  - apply lookup_delete_Some in He as [_ ?]. by left.
Qed.

Lemma step_channel n σ a b k : kernel_inv n σ k → 6 ≤ n → step_ok n σ (KChannel a b) (kernel_step (KChannel a b) k).
Proof.
  intros Hk Hn. cbn [kernel_step].
  destruct (channel_spec n σ (caps (ipc k)) a b) as (i & j & c & -> & _ & _ & _ & Hrel & Hroom); [apply Hk|apply Hk|lia|].
  cbn [mbind outcome_bind]. eapply (step_caps n 2); try done.
  intros id e [[_ <-]|[_ [[_ <-]|[_ ?]]%lookup_insert_Some]]%lookup_insert_Some;
    [right; by right|right; by left|by left].
Qed.

Lemma step_create_queue n σ pid k : kernel_inv n σ k → 6 ≤ n →
  step_ok n σ (KCreateQueue pid) (kernel_step (KCreateQueue pid) k).
Proof.
  intros Hk Hn. cbn [kernel_step]. unfold create_message_queue.
  destruct (ir_queues _ _ _ (kw_ipc _ _ _ (ki_ipc _ _ _ Hk))) as (mg & Hmg & Ht & Hc & Hq). rewrite Hmg.
  unfold create_queue. destruct (queues mg !! pid) as [q|] eqn:E; [|rewrite uadd_val by lia];
    cbn [mbind outcome_bind fmap outcome_fmap snd]; apply step_same, (step_queues n); try done; exists mg;
    (split_and!; simpl; [done|done|lia|lia|]); intros p q' Hp; [by left|].
  apply lookup_insert_Some in Hp as [[<- <-]|[_ ?]]; auto.
Qed.

Lemma step_remove_queue n σ pid k : kernel_inv n σ k → 6 ≤ n →
  step_ok n σ (KRemoveQueue pid) (kernel_step (KRemoveQueue pid) k).
Proof.
  intros Hk Hn. cbn [kernel_step]. unfold remove_message_queue.
  destruct (ir_queues _ _ _ (kw_ipc _ _ _ (ki_ipc _ _ _ Hk))) as (mg & Hmg & Ht & Hc & Hq). rewrite Hmg.
  unfold remove_queue. destruct (queues mg !! pid) as [q|] eqn:E; cbn [snd]; apply step_same, (step_queues n);
    try done; exists mg; (split_and!; simpl; [done|done|lia|lia|]); intros p q' Hp; [|by left].
  apply lookup_delete_Some in Hp as [_ ?]. auto.
Qed.

Lemma kernel_step_ok n σ o k : kernel_inv n σ k → 6 ≤ n → op_ok o → step_ok n σ o (kernel_step o k).
Proof.
  intros Hk Hn Ho. destruct o as [o|pid num a| | |a|ms|pid|pid|pid ty res|pid|pid|o|a b|from to ty d|m from d|pid];
    eauto using step_table, step_tick, step_create_queue, step_remove_queue, step_cap, step_channel; try (by apply step_message).
  - destruct Ho as [Hp Ha]. cbn [kernel_step].
    destruct (dispatch_spec Hhead Hcap n σ (ipc k) pid num a (ki_ipc _ _ _ Hk)) as (r & st & -> & Hw & _); [lia|done|done|].
    cbn [mbind outcome_bind]. by apply (step_ipc n 2).
  - destruct (step_schedule n σ k Hk ltac:(lia)) as (next & k' & _ & _ & Hs & _ & _ & _ & _ & _ & _ & _ & Hk'). cbn [kernel_step]. rewrite Hs.
    cbn [fmap outcome_fmap snd]. apply step_same. by apply (kernel_inv_mono (n - 1)); [|lia].
  - apply step_same. apply (kernel_inv_mono n); [|lia]. unfold set_scheduling_algorithm.
    destruct Hk as [? (s & Hs & Hr & Hw & Hi) ?]. rewrite Hs. split; [done| |done]. by exists (set_algorithm s a).
  - apply step_same. apply (kernel_inv_mono n); [|lia]. unfold global_set_time_slice.
    destruct Hk as [? (s & Hs & Hr & Hw & Hi) ?]. rewrite Hs. split; [done| |done]. by exists (set_time_slice s ms).
  - apply (step_granted n σ k pid (system_capabilities new_policy)); done.
  - apply (step_granted n σ k pid (user_capabilities new_policy)); done.
  - apply (with_policy_caps_spec n σ k _ _ _ 2 [] pid); try done; [|by intros e _ ?%not_elem_of_nil].
    destruct (validate_spec n σ (caps (ipc k)) pid ty res) as (b & st & Hv & Hr & Hm); [apply Hk|apply Hk|lia|].
    exists b, st, σ. split_and!; try done. auto.
Qed.

Lemma kernel_run_ok ops : ∀ n σ k, kernel_inv n σ k → 6 * len ops ≤ n → Forall op_ok ops →
  ∃ k' σ', kernel_run ops k = Val k' ∧ kernel_inv (n - 6 * len ops) σ' k' ∧
    ∀ id e, σ' !! id = Some e → σ !! id = Some e ∨ Exists (granted_by e) ops.
Proof.
  induction ops as [|o ops IH]; intros n σ k Hk Hn Hok.
  { exists k, σ. split_and!; [done| |auto]. unfold len. simpl. by rewrite Z.sub_0_r. }
  apply Forall_cons in Hok as [Ho Hok]. unfold len in *. cbn [length] in *.
  destruct (kernel_step_ok n σ o k Hk ltac:(lia) Ho) as (k1 & σ1 & H1 & Hk1 & Hg1).
  destruct (IH (n - 6) σ1 k1 Hk1 ltac:(lia) Hok) as (k2 & σ2 & H2 & Hk2 & Hg2).
  exists k2, σ2. cbn [kernel_run]. rewrite H1. cbn [mbind outcome_bind]. split_and!; [done| |].
  - by replace (n - 6 * Z.of_nat (S (length ops))) with (n - 6 - 6 * Z.of_nat (length ops)) by lia.
  - intros id e He. destruct (Hg2 id e He) as [H|?]; [|right; by right].
    destruct (Hg1 id e H) as [?|?]; [by left|right; by left].
Qed.

(** After [init_ipc] nobody has a capability, and all counters are at their start. *)
Lemma init_ipc_inv k t s : table (ipc k) = Some t → table_wf t →
  caps (ipc k) = caps (ipc kernel_image) → next_message_id (ipc k) = 1 →
  scheduler k = Some s → sched_room (2 ^ 62) s → notify_ready (2 ^ 62) s (power k) → 0 ≤ last_scheduled_index s →
  kernel_inv (2 ^ 62) ∅ (init_ipc k).
Proof.
  intros Ht Hwf Hcaps Hnx Hs Hr Hw Hi. destruct k as [[t' c' qm next] sc po w]. simpl in *. subst.
  split; [split| |done]; simpl.
  - split; simpl; [apply boot_caps_rel| |].
    + split; [simpl; lia|]. exists new_cap_manager. split; [done|]. simpl. lia.
    + exists new_queue_manager. simpl. split_and!; try done; try lia.
  - by exists t.
  - lia.
  - intros pid m Hm. unfold pending in Hm. simpl in Hm. rewrite lookup_empty in Hm. by apply not_elem_of_nil in Hm.
  - by exists s.
Qed.

Lemma boot_core_inv : kernel_inv (2 ^ 62) ∅ boot_core.
Proof.
  apply (init_ipc_inv _ (table_new MAX_PROCESSES) (scheduler_new RoundRobin DEFAULT_TIME_SLICE_MS)); try done.
  apply power_image_room.
Qed.

(** The policy's grants are all made, and nothing else. *)
Lemma policy_grants n σ k pid cs d f : kernel_inv n σ k → len cs ≤ n →
  f new_policy (caps (ipc k)) = grant_all pid cs (caps (ipc k)) →
  ∃ ids c σ', with_policy_caps k d f = Val (Ok ids, set_ipc k (set_caps (ipc k) c)) ∧
    kernel_inv (n - len cs) σ' (set_ipc k (set_caps (ipc k) c)) ∧ σ ⊆ σ' ∧
    (∀ c, c ∈ cs → ∃ id, σ' !! id = Some (pid, c.1, c.2)) ∧
    ∀ id e, σ' !! id = Some e → σ !! id = Some e ∨ e.1.1 = pid ∧ (e.1.2, e.2) ∈ cs.
Proof.
  intros Hk Hn Hf. pose proof (len_nonneg cs).
  destruct (grant_all_spec pid cs n σ (caps (ipc k))) as (ids & c & σ' & Hg & Hrel & Hroom & ? & ? & ?);
    [apply Hk|apply Hk|lia|].
  exists ids, c, σ'. unfold with_policy_caps, with_security_policy. rewrite (ki_policy _ _ _ Hk).
  cbn [fmap option_fmap option_map]. rewrite Hf, Hg. split_and!; try done.
  apply (kernel_inv_ipc n _ σ); [done| |lia]. apply (kernel_wf_caps n _ σ); [apply Hk|done|done|lia].
Qed.
End kernel_invariant.

(** ** Properties *)
Section properties.
Context {P : Profile} {L : Layout} {W : PowerPolicy} {WL : PowerPolicyLaws W}.
Context (Hhead : 0 ≤ header_size < 2 ^ 62) (Hcap : 0 ≤ capability_size).

(** C1: The kernel as a whole is safe and confined.  From boot on, processes may be
    created, removed and switched, timer ticks and scheduling decisions may occur
    under any algorithm, every process may make any system call with any registers,
    messages may be sent, answered and received, queues created and removed,
    capabilities created, checked, delegated, revoked and cleaned up, channels opened,
    and the policy may grant and be asked, in any order: nothing panics, and the
    process table, the scheduler, the capabilities and the queues keep their
    invariants (for histories below 2^59 operations, so that no 64-bit counter
    overflows; every switch notifies power management, which boot has not initialised
    at this point).  Every live capability was handed out by the kernel: it
    is one the policy lists for a process that was granted its set, one end of a
    channel, or was created for exactly that process.  So a process may send messages
    to another only if it was granted the system set, a channel between the two was
    opened, or the kernel created a [SendMessage] capability for it. *)
Theorem kernel_confinement ops : Forall op_ok ops → len ops < 2 ^ 59 →
  ∃ k σ, kernel_run ops boot_core = Val k ∧ kernel_inv (2 ^ 62 - 6 * len ops) σ k ∧
    (∀ id e, σ !! id = Some e → Exists (granted_by e) ops) ∧
    ∀ from to, may_send σ from to →
      KGrantSystem from ∈ ops ∨ KChannel from to ∈ ops ∨ KChannel to from ∈ ops ∨
      ∃ res granter, KCap (Capability.OpCreate from SendMessage res granter) ∈ ops.
Proof.
  intros Hok Hn.
  destruct (kernel_run_ok Hhead Hcap ops _ _ _ boot_core_inv) as (k & σ & Hrun & Hk & Hg); [lia|done|].
  assert (∀ id e, σ !! id = Some e → Exists (granted_by e) ops) as Hex.
  { intros id e He. destruct (Hg id e He) as [H|?]; [by rewrite lookup_empty in H|done]. }
  exists k, σ. split_and!; try done. intros from to (id & e & He & Hp & Hty & Hres).
  destruct (proj1 (Exists_exists _ _) (Hex id e He)) as (o & Hin & Ho). destruct e as [[p ty] res]; simpl in *; subst.
  destruct o as [| | | | | |pid|pid| | | |[pid ty res' g| | | |]|a b| | |]; simpl in Ho; try done.
  - destruct Ho as [<- _]. by left.
  - destruct Ho as [<- Ho]. exfalso. unfold new_policy in Ho. simpl in Ho.
    repeat (apply elem_of_cons in Ho as [Ho|Ho]; [by simplify_eq|]). by apply not_elem_of_nil in Ho.
  - injection Ho as <- <- <-. right; right; right. by exists res, g.
  - destruct Ho as [Ho|Ho]; injection Ho as <- ->; apply bool_decide_eq_true in Hres; injection Hres as ->; auto.
Qed.

(** C15: The scheduler always decides.  In every state in which the kernel's
    invariant leaves room for one more step, the room power management needs for one
    notification included, whatever the algorithm, the power policy and its state,
    [schedule_next_process] succeeds and the notification of power management does
    not panic: the process it returns was runnable and is the current one afterwards,
    none is returned only if none is current afterwards, no process appears or
    disappears, capabilities and queues stay, and the invariant is kept. *)
Theorem scheduling_never_fails n σ k : kernel_inv n σ k → 1 ≤ n →
  ∃ next k' t t', schedule_next_process k = Val (Ok next, k') ∧
    table (ipc k) = Some t ∧ table (ipc k') = Some t' ∧ current_pid t' = next ∧
    (∀ q, next = Some q → q ∈ get_runnable_processes t) ∧ (∀ q, table_alive t' q ↔ table_alive t q) ∧
    caps (ipc k') = caps (ipc k) ∧ queue_manager (ipc k') = queue_manager (ipc k) ∧ kernel_inv (n - 1) σ k'.
Proof. apply step_schedule. Qed.
End properties.

(** ** Concrete instances *)
Definition demo_history : list kernel_op :=
  [KTable (OpCreate None "init" System); KTable (OpCreate (Some 1) "shell" Interactive);
   KGrantSystem 1; KGrantUser 2; KSchedule; KSyscall 1 SYS_SEND_MESSAGE (demo_args 2 0x1000 5);
   KTick; KSyscall 2 SYS_RECEIVE_MESSAGE (demo_args 0 0 0); KSetAlgorithm Priority; KTick; KRemoveQueue 2;
   KSend 1 2 Signal (Text "hello"); KReceive 2; KChannel 1 3; KCap (Capability.OpRevoke 1 2)].

Lemma demo_history_ok : Forall op_ok demo_history.
Proof. unfold demo_history. repeat constructor; simpl; unfold args_ok, u64; simpl; lia. Qed.

Lemma kernel_confinement_witness :
  ∃ k σ, kernel_run (P:=dev) (L:=demo_layout) (W:=demo_policy) demo_history boot_core = Val k ∧
    kernel_inv (L:=demo_layout) (WL:=demo_policy_laws) (2 ^ 62 - 90) σ k ∧ ¬ may_send σ 2 1.
Proof.
  destruct (kernel_confinement (P:=dev) (L:=demo_layout) (WL:=demo_policy_laws) ltac:(simpl; lia) ltac:(simpl; lia)
    demo_history demo_history_ok) as (k & σ & Hrun & Hk & _ & Hs); [vm_compute; done|].
  exists k, σ. split_and!; [exact Hrun|exact Hk|]. intros Hm. specialize (Hs 2 1 Hm).
  destruct Hs as [Hs|[Hs|[Hs|(? & ? & Hs)]]]; unfold demo_history in Hs;
    repeat (apply elem_of_cons in Hs as [Hs|Hs]; [discriminate|]); by apply not_elem_of_nil in Hs.
Defined.

(** Before initialisation every global answers with its error and changes
    nothing; restricted operations are refused. *)
Example before_boot : let image := kernel_image (W:=demo_policy) in
  schedule_next_process (P:=dev) image = Val (Err NotInitialized, image) ∧
  grant_system_process_capabilities (P:=dev) image 1 = Val (Err ResourceExhausted, image) ∧
  create_message_queue (P:=dev) image 1 = Val (Err QueueResourceExhausted, image) ∧
  global_is_restricted_operation image SendMessage = true ∧
  global_is_restricted_operation (boot_core (W:=demo_policy)) SendMessage = false.
Proof. vm_compute. done. Qed.
