(* ===== verification/DriverKit.v ===== *)
(** * The driver framework

    Models [shared/kosh-driver/src/]: the types drivers exchange, the trait
    [KoshDriver] (a class), the capability manager, the error handler with its
    recovery, and the communication endpoint of a driver.

    [DriverContract] states what the drivers of the repository promise of the
    trait's methods: they return, keep an invariant, and drive the status
    through its life cycle.  [lifecycle_run] is proved against it; the keyboard
    and the VGA driver are its instances.

    Constructors that several enums share carry a prefix.  Strings are
    [string], bytes are [Z]. *)
From S2P Require Import Prelude.

(** ** Shared types ([kosh-types], [kosh-driver/src/lib.rs]) *)
Inductive DriverError :=
  | InitializationFailed | HardwareNotFound | InvalidRequest | ResourceBusy | PermissionDenied.
#[export] Instance DriverError_eq_dec : EqDecision DriverError.
Proof. solve_decision. Defined.

(** [CapabilityFlags] and [Capability] of [kosh-types]. *)
Definition READ_MEMORY : Z := 2 ^ 0.
Definition WRITE_MEMORY : Z := 2 ^ 1.
Definition HARDWARE_ACCESS : Z := 2 ^ 3.
Definition IPC_SEND : Z := 2 ^ 4.
Definition IPC_RECEIVE : Z := 2 ^ 5.
Definition FILE_READ : Z := 2 ^ 6.
Definition FILE_WRITE : Z := 2 ^ 7.
Definition NETWORK_ACCESS : Z := 2 ^ 8.
Record Capability := { flags : Z; resource_id : option Z }.

Inductive DriverType :=
  | Storage | DT_Network | Graphics | Audio | Input | Power | DT_System | DT_Custom (n : Z).
#[export] Instance DriverType_eq_dec : EqDecision DriverType.
Proof. solve_decision. Defined.

Record HardwareId := {
  vendor_id : Z;
  device_id : Z;
  subsystem_vendor_id : option Z;
  subsystem_device_id : option Z;
}.
Record DriverInfo := {
  name : string;
  version : string;
  vendor : string;
  description : string;
  driver_type : DriverType;
  hardware_ids : list HardwareId;
}.
Inductive DriverErrorCode :=
  | HardwareFailure | InvalidOperation | ResourceExhausted | Timeout | ConfigurationError
  | CodePermissionDenied | NotSupported | DeviceNotFound | DriverBusy | InvalidParameter.
Definition code_to_error (c : DriverErrorCode) : DriverError :=
  match c with
  | HardwareFailure => HardwareNotFound
  | InvalidOperation => InvalidRequest
  | ResourceExhausted => ResourceBusy
  | CodePermissionDenied => PermissionDenied
  | _ => InitializationFailed
  end.
Inductive DriverStatus :=
  | Uninitialized | Initializing | Ready | Busy | StatusError (c : DriverErrorCode) | Suspended | Stopping.
Inductive PowerEvent := Suspend | Resume | PowerDown | LowPower | FullPower.
Inductive QueryType := QStatus | QCapabilities | QHardwareInfo | QStatistics | QConfiguration.
Inductive DriverRequest :=
  | Initialize
  | Read (offset length : Z)
  | Write (offset : Z) (data : list Z)
  | Control (command : Z) (data : list Z)
  | Query (query_type : QueryType)
  | ReqCustom (request_id : Z) (data : list Z).
Inductive DriverResponse :=
  | Success
  | Data (data : list Z)
  | Status (s : DriverStatus)
  | Info (i : DriverInfo)
  | RespCustom (response_id : Z) (data : list Z).

(** ** Capabilities ([capability.rs]) *)
Inductive HardwareCapability :=
  | IoPort (start end_ : Z)
  | MemoryMappedIo (start size : Z)
  | Interrupt (irq : Z)
  | Dma (channel : Z)
  | PciDevice (vendor_id device_id : Z)
  | GenericHardware.
Inductive MemoryCapability :=
  | PhysicalMemoryAlloc | MemoryMapping | MemoryRegion (start size : Z) | DmaMemory.
Inductive ProcessType := PT_Kernel | PT_Driver | PT_System | PT_User | Specific (s : string).
Inductive IpcCapability :=
  | SendTo (p : ProcessType) | ReceiveFrom (p : ProcessType) | CreateChannel | SharedMemory.
Inductive FileSystemCapability :=
  | ReadPath (p : string) | WritePath (p : string) | FsCreate | FsDelete | Mount.
Inductive NetworkProtocol := Tcp | Udp | Icmp | Raw | NP_Custom (n : Z).
Inductive NetworkCapability :=
  | RawSocket | Protocol (p : NetworkProtocol) | Interface (s : string) | PacketFilter.
Inductive DriverCapabilityType :=
  | Hardware (c : HardwareCapability)
  | Memory (c : MemoryCapability)
  | Ipc (c : IpcCapability)
  | FileSystem (c : FileSystemCapability)
  | Network (c : NetworkCapability)
  | MemoryAccess | HardwareAccess | TextOutput | GraphicsOutput
  | CapCustom (s : string).
#[export] Instance HardwareCapability_eq_dec : EqDecision HardwareCapability.
Proof. solve_decision. Defined.
#[export] Instance MemoryCapability_eq_dec : EqDecision MemoryCapability.
Proof. solve_decision. Defined.
#[export] Instance ProcessType_eq_dec : EqDecision ProcessType.
Proof. solve_decision. Defined.
#[export] Instance IpcCapability_eq_dec : EqDecision IpcCapability.
Proof. solve_decision. Defined.
#[export] Instance FileSystemCapability_eq_dec : EqDecision FileSystemCapability.
Proof. solve_decision. Defined.
#[export] Instance NetworkProtocol_eq_dec : EqDecision NetworkProtocol.
Proof. solve_decision. Defined.
#[export] Instance NetworkCapability_eq_dec : EqDecision NetworkCapability.
Proof. solve_decision. Defined.
#[export] Instance DriverCapabilityType_eq_dec : EqDecision DriverCapabilityType.
Proof. solve_decision. Defined.

(** [DriverCapabilityManager] is its vector of granted capabilities. *)
Definition DriverCapabilityManager : Type := list DriverCapabilityType.
Definition manager_new : DriverCapabilityManager := [].
Definition has_capability (m : DriverCapabilityManager) (c : DriverCapabilityType) : bool :=
  bool_decide (c ∈ (m : list DriverCapabilityType)).
Definition grant_capability (m : DriverCapabilityManager) (c : DriverCapabilityType) :
    DriverCapabilityManager :=
  if negb (has_capability m c) then m ++ [c] else m.
Definition revoke_capability (m : DriverCapabilityManager) (c : DriverCapabilityType) :
    DriverCapabilityManager := filter (.≠ c) (m : list DriverCapabilityType).
Definition driver_capability_to_kernel (c : DriverCapabilityType) : Capability :=
  {| flags := match c with
       | Hardware _ => HARDWARE_ACCESS
       | Memory _ => Z.lor READ_MEMORY WRITE_MEMORY
       | Ipc _ => Z.lor IPC_SEND IPC_RECEIVE
       | FileSystem _ => Z.lor FILE_READ FILE_WRITE
       | Network _ => NETWORK_ACCESS
       | MemoryAccess => Z.lor READ_MEMORY WRITE_MEMORY
       | HardwareAccess => HARDWARE_ACCESS
       | TextOutput => HARDWARE_ACCESS
       | GraphicsOutput => HARDWARE_ACCESS
       | CapCustom _ => 0
       end;
     resource_id := None |}.
Definition to_kernel_capabilities (m : DriverCapabilityManager) : list Capability :=
  driver_capability_to_kernel <$> (m : list DriverCapabilityType).

(** The loop returns at the first capability that is refused. *)
Definition capability_refused (t : DriverType) (c : DriverCapabilityType) : bool :=
  match t, c with
  | Storage, Network _ => true
  | DT_Network, Hardware (PciDevice vendor_id _) =>
      negb (vendor_id =? 0x8086) && negb (vendor_id =? 0x10EC)
  | _, _ => false
  end.
Fixpoint validate_driver_capabilities (required : list DriverCapabilityType) (t : DriverType) :
    result unit DriverError :=
  match required with
  | [] => Ok ()
  | c :: required =>
      if capability_refused t c then Err PermissionDenied
      else validate_driver_capabilities required t
  end.

(** ** Errors ([error.rs]) *)
Inductive RecoverySuggestion :=
  | Retry (max_attempts delay_ms : Z)
  | RestartDriver
  | ResetHardware
  | Fallback (mode : string)
  | ContactAdmin (message : string)
  | NoRecovery.
Record DriverErrorInfo := {
  error : DriverError;
  context : string;
  error_code : option Z;
  recovery_suggestions : list RecoverySuggestion;
  timestamp : Z;
}.
Inductive ErrorLevel := LDebug | LInfo | LWarning | LError | LCritical.
Record ErrorStatistics := {
  total_errors : Z;
  errors_by_type : list (DriverError * Z);
  recent_errors : list DriverErrorInfo;
}.
(** A callback is a name: [report_error] returns the calls it makes. *)
Record DefaultDriverErrorHandler := {
  errors : list DriverErrorInfo;
  error_level : ErrorLevel;
  callbacks : list Z;
  max_stored_errors : Z;
}.
Definition with_max_errors (max_errors : Z) : DefaultDriverErrorHandler :=
  {| errors := []; error_level := LWarning; callbacks := []; max_stored_errors := max_errors |}.
Definition handler_new : DefaultDriverErrorHandler := with_max_errors 100.
Definition set_errors (h : DefaultDriverErrorHandler) l : DefaultDriverErrorHandler :=
  {| errors := l; error_level := error_level h; callbacks := callbacks h;
     max_stored_errors := max_stored_errors h |}.
Definition report_error (h : DefaultDriverErrorHandler) (e : DriverErrorInfo) :
    DefaultDriverErrorHandler * list (Z * DriverErrorInfo) :=
  let l := errors h ++ [e] in
  let h := if max_stored_errors h <? len l then set_errors h (vec_remove 0 l) else set_errors h l in
  (h, (λ c, (c, e)) <$> callbacks h).
Definition clear_errors (h : DefaultDriverErrorHandler) : DefaultDriverErrorHandler := set_errors h [].
Definition set_error_level (h : DefaultDriverErrorHandler) (l : ErrorLevel) : DefaultDriverErrorHandler :=
  {| errors := errors h; error_level := l; callbacks := callbacks h;
     max_stored_errors := max_stored_errors h |}.
Definition register_error_callback (h : DefaultDriverErrorHandler) (c : Z) : DefaultDriverErrorHandler :=
  {| errors := errors h; error_level := error_level h; callbacks := callbacks h ++ [c];
     max_stored_errors := max_stored_errors h |}.

(** Count one more error of kind [e]: the first entry of that kind, or a new
    one at the end. *)
Fixpoint count_error (e : DriverError) (counts : list (DriverError * Z)) : list (DriverError * Z) :=
  match counts with
  | [] => [(e, 1)]
  | (k, n) :: counts => if decide (k = e) then (k, n + 1) :: counts else (k, n) :: count_error e counts
  end.
Definition get_error_stats (h : DefaultDriverErrorHandler) : ErrorStatistics :=
  let s := foldl (λ s e, (s.1 + 1, count_error (error e) s.2)) (0, []) (errors h) in
  {| total_errors := s.1; errors_by_type := s.2; recent_errors := take 10 (rev (errors h)) |}.

Definition info_new (e : DriverError) (context : string) : DriverErrorInfo :=
  {| error := e; context := context; error_code := None; recovery_suggestions := []; timestamp := 0 |}.
Definition with_code (i : DriverErrorInfo) (code : Z) : DriverErrorInfo :=
  {| error := error i; context := context i; error_code := Some code;
     recovery_suggestions := recovery_suggestions i; timestamp := timestamp i |}.
Definition with_suggestions (i : DriverErrorInfo) (l : list RecoverySuggestion) : DriverErrorInfo :=
  {| error := error i; context := context i; error_code := error_code i;
     recovery_suggestions := l; timestamp := timestamp i |}.
Definition with_suggestion (i : DriverErrorInfo) (s : RecoverySuggestion) : DriverErrorInfo :=
  with_suggestions i (recovery_suggestions i ++ [s]).

Fixpoint try_suggestions (l : list RecoverySuggestion) (e : DriverError) : result unit DriverError :=
  match l with
  | [] => Err e
  | Retry _ _ :: _ | RestartDriver :: _ | ResetHardware :: _ | Fallback _ :: _ => Ok ()
  | _ :: l => try_suggestions l e
  end.
Definition attempt_recovery (i : DriverErrorInfo) : result unit DriverError :=
  try_suggestions (recovery_suggestions i) (error i).
Definition is_no_recovery (s : RecoverySuggestion) : bool :=
  match s with NoRecovery => true | _ => false end.
Definition is_recoverable (i : DriverErrorInfo) : bool :=
  negb (is_empty (recovery_suggestions i)) && negb (forallb is_no_recovery (recovery_suggestions i)).

(** ** Communication ([communication.rs]) *)
Inductive NotificationType :=
  | HardwareChange | NPowerEvent | SystemEvent | DriverEvent | MemoryPressure | NT_Custom (n : Z).
#[export] Instance NotificationType_eq_dec : EqDecision NotificationType.
Proof. solve_decision. Defined.
Inductive ControlCommand := CShutdown | CSuspend | CResume | CReload | CUpdateConfig | CGetStatus.
Record ResponseChannel := { target : Z; channel_request_id : Z }.
Inductive DriverMessage :=
  | MRequest (sender : Z) (request : DriverRequest) (response_channel : ResponseChannel)
  | MNotification (event_type : NotificationType) (data : list Z)
  | MResponse (request_id : Z) (response : DriverResponse)
  | MControl (command : ControlCommand) (data : list Z).
Record KernelDriverCommunication := {
  comm_driver_id : Z;
  comm_process_id : Z;
  message_queue : list DriverMessage;
  next_request_id : Z;
  subscribed_notifications : list NotificationType;
}.
Definition comm_new (driver_id process_id : Z) : KernelDriverCommunication :=
  {| comm_driver_id := driver_id; comm_process_id := process_id; message_queue := [];
     next_request_id := 1; subscribed_notifications := [] |}.
Definition set_queue (c : KernelDriverCommunication) q : KernelDriverCommunication :=
  {| comm_driver_id := comm_driver_id c; comm_process_id := comm_process_id c; message_queue := q;
     next_request_id := next_request_id c; subscribed_notifications := subscribed_notifications c |}.
Definition set_subscribed (c : KernelDriverCommunication) l : KernelDriverCommunication :=
  {| comm_driver_id := comm_driver_id c; comm_process_id := comm_process_id c;
     message_queue := message_queue c; next_request_id := next_request_id c;
     subscribed_notifications := l |}.
Definition get_next_request_id `{Profile} (c : KernelDriverCommunication) :
    outcome (Z * KernelDriverCommunication) :=
  n ← uadd 64 (next_request_id c) 1;
  Val (next_request_id c,
       {| comm_driver_id := comm_driver_id c; comm_process_id := comm_process_id c;
          message_queue := message_queue c; next_request_id := n;
          subscribed_notifications := subscribed_notifications c |}).
(** The request is numbered and a mock response returned; nothing is sent. *)
Definition send_driver_request `{Profile} (c : KernelDriverCommunication) (target : Z)
    (request : DriverRequest) : outcome (result DriverResponse DriverError * KernelDriverCommunication) :=
  '(_, c) ← get_next_request_id c; Val (Ok Success, c).
Definition register_notification (c : KernelDriverCommunication) (t : NotificationType) :
    result unit DriverError * KernelDriverCommunication :=
  if bool_decide (t ∈ subscribed_notifications c) then (Ok (), c)
  else (Ok (), set_subscribed c (subscribed_notifications c ++ [t])).
Definition unregister_notification (c : KernelDriverCommunication) (t : NotificationType) :
    result unit DriverError * KernelDriverCommunication :=
  (Ok (), set_subscribed c (filter (.≠ t) (subscribed_notifications c))).
(** [while let Some(m) = queue.pop_front() { messages.push(m) }]: one round per
    queued message, and one to see the queue empty. *)
Definition poll_step (s : list DriverMessage * list DriverMessage) :
    outcome (flow (list DriverMessage * list DriverMessage) (list DriverMessage * list DriverMessage)) :=
  match s with
  | (m :: q, messages) => Val (Next (q, messages ++ [m]))
  | ([], messages) => Val (Return ([], messages))
  end.
Definition poll_messages (c : KernelDriverCommunication) :
    outcome (result (list DriverMessage) DriverError * KernelDriverCommunication) :=
  '(q, messages) ← loop_fuel (S (length (message_queue c))) poll_step (message_queue c, []);
  Val (Ok messages, set_queue c q).
Definition wait_for_message (c : KernelDriverCommunication) :
    result DriverMessage DriverError * KernelDriverCommunication :=
  match message_queue c with
  | m :: q => (Ok m, set_queue c q)
  | [] => (Err InvalidRequest, c)
  end.

(** ** The trait and its contract *)
Class KoshDriver (D : Type) := {
  kd_init : list Capability → D → outcome (result unit DriverError * D);
  kd_handle_request : DriverRequest → D → outcome (result DriverResponse DriverError * D);
  kd_cleanup : D → outcome (result unit DriverError * D);
  kd_required_capabilities : D → list DriverCapabilityType;
  kd_provided_capabilities : D → list DriverCapabilityType;
  kd_driver_info : D → DriverInfo;
  kd_handle_power_event : PowerEvent → D → outcome (result unit DriverError * D);
  kd_status : D → DriverStatus;
}.

(** The bytes of a request are bytes. *)
Definition bytes (l : list Z) : Prop := Forall (λ b, 0 ≤ b < 2 ^ 8) l.
Definition request_ok (r : DriverRequest) : Prop :=
  match r with
  | Write _ data | Control _ data | ReqCustom _ data => bytes data
  | _ => True
  end.

(** The status a request, a power event leads to. *)
Definition status_after_request (r : DriverRequest) (s : DriverStatus) : DriverStatus :=
  match r with Initialize => Ready | _ => s end.
Definition status_after_power (e : PowerEvent) (s : DriverStatus) : DriverStatus :=
  match e with Suspend => Suspended | Resume => Ready | PowerDown => Uninitialized | _ => s end.

Class DriverContract (D : Type) `{K : KoshDriver D} := {
  kd_inv : D → Prop;
  kd_init_ok caps d : kd_inv d →
    ∃ d', kd_init caps d = Val (Ok (), d') ∧ kd_inv d' ∧ kd_status d' = Ready;
  kd_request_ok r d : kd_inv d → request_ok r →
    ∃ o d', kd_handle_request r d = Val (o, d') ∧ kd_inv d' ∧
      kd_status d' = status_after_request r (kd_status d) ∧
      (r = Query QStatus → o = Ok (Status (kd_status d)) ∧ d' = d);
  kd_cleanup_ok d : kd_inv d →
    ∃ d', kd_cleanup d = Val (Ok (), d') ∧ kd_inv d' ∧ kd_status d' = Uninitialized;
  kd_power_ok e d : kd_inv d →
    ∃ d', kd_handle_power_event e d = Val (Ok (), d') ∧ kd_inv d' ∧
      kd_status d' = status_after_power e (kd_status d);
}.

(** What the system calls on a driver. *)
Inductive DriverCall :=
  | CallInit (caps : list Capability)
  | CallRequest (r : DriverRequest)
  | CallCleanup
  | CallPower (e : PowerEvent).
Definition call_ok (c : DriverCall) : Prop :=
  match c with CallRequest r => request_ok r | _ => True end.
Definition call_status (s : DriverStatus) (c : DriverCall) : DriverStatus :=
  match c with
  | CallInit _ => Ready
  | CallRequest r => status_after_request r s
  | CallCleanup => Uninitialized
  | CallPower e => status_after_power e s
  end.

Section lifecycle.
Context `{KoshDriver D}.

Definition run_call (c : DriverCall) (d : D) : outcome D :=
  match c with
  | CallInit caps => '(_, d) ← kd_init caps d; Val d
  | CallRequest r => '(_, d) ← kd_handle_request r d; Val d
  | CallCleanup => '(_, d) ← kd_cleanup d; Val d
  | CallPower e => '(_, d) ← kd_handle_power_event e d; Val d
  end.

(** Any sequence of calls returns, keeps the invariant, and leaves the status
    that the calls lead to one after the other. *)
Lemma lifecycle_run `{!DriverContract D} calls d : kd_inv d → Forall call_ok calls →
  ∃ d', for_each run_call calls d = Val d' ∧ kd_inv d' ∧
    kd_status d' = foldl call_status (kd_status d) calls.
Proof.
  revert d. induction calls as [|c calls IH]; intros d Hinv Hok; [by exists d|].
  apply Forall_cons in Hok as [Hc Hok]. simpl.
  assert (∃ d1, run_call c d = Val d1 ∧ kd_inv d1 ∧ kd_status d1 = call_status (kd_status d) c)
    as (d1 & -> & Hinv1 & <-).
  { destruct c as [caps|r| |e]; simpl.
    - destruct (kd_init_ok caps d Hinv) as (d1 & -> & ?). eauto.
    - destruct (kd_request_ok r d Hinv Hc) as (o & d1 & -> & ? & ? & _). eauto.
    - destruct (kd_cleanup_ok d Hinv) as (d1 & -> & ?). eauto.
    - destruct (kd_power_ok e d Hinv) as (d1 & -> & ?). eauto. }
  by apply IH.
Qed.
End lifecycle.

(** ** Theorems on the framework *)
Section theorems.
Implicit Types (m : DriverCapabilityManager) (h : DefaultDriverErrorHandler).

(** A capability manager is a set under grant and revoke, stored without
    duplicates. *)
Theorem driver_capability_manager_set m c : NoDup (m : list DriverCapabilityType) →
  NoDup (grant_capability m c : list DriverCapabilityType) ∧
  NoDup (revoke_capability m c : list DriverCapabilityType) ∧
  (∀ c', has_capability (grant_capability m c) c' = bool_decide (c' = c) || has_capability m c') ∧
  (∀ c', has_capability (revoke_capability m c) c' = bool_decide (c' ≠ c) && has_capability m c').
Proof.
  intros Hnd. unfold grant_capability, revoke_capability, has_capability.
  destruct (bool_decide_reflect (c ∈ (m : list DriverCapabilityType))) as [Hin|Hn]; simpl.
  - split_and!; [done|by apply NoDup_filter| |]; intros c'.
    + destruct (bool_decide_reflect (c' = c)) as [->|]; [|done]. by apply bool_decide_eq_true_2.
    + rewrite <-bool_decide_and. apply bool_decide_ext. by rewrite list_elem_of_filter.
  - split_and!; [|by apply NoDup_filter| |]; [|intros c'..].
    + apply NoDup_app. split_and!; [done| |by apply NoDup_singleton].
      intros x Hx ->%list_elem_of_singleton. done.
    + rewrite <-bool_decide_or. apply bool_decide_ext. rewrite elem_of_app, list_elem_of_singleton.
      tauto.
    + rewrite <-bool_decide_and. apply bool_decide_ext. by rewrite list_elem_of_filter.
Qed.

(** Validation accepts exactly the lists none of whose capabilities is refused
    for the type of driver. *)
Theorem validate_capabilities_iff required t :
  validate_driver_capabilities required t = Ok () ↔
    ∀ c, c ∈ required → capability_refused t c = false.
Proof.
  induction required as [|c l IH]; simpl.
  - split; [|done]. intros _ c Hc. by apply not_elem_of_nil in Hc.
  - destruct (capability_refused t c) eqn:E.
    + split; [done|]. intros H. specialize (H c (list_elem_of_here _ _)). congruence.
    + rewrite IH. setoid_rewrite elem_of_cons. naive_solver.
Qed.

(** The number of stored errors of a kind. *)
Definition kind_count (e : DriverError) (l : list DriverErrorInfo) : Z :=
  len (filter (λ i, error i = e) l).

(** The counts by kind are exact for the errors [l] seen so far. *)
Definition counts_exact (counts : list (DriverError * Z)) (l : list DriverErrorInfo) : Prop :=
  NoDup counts.*1 ∧ ∀ e n, (e, n) ∈ counts ↔ 0 < n ∧ n = kind_count e l.

Lemma kind_count_snoc e l i :
  kind_count e (l ++ [i]) = kind_count e l + (if decide (error i = e) then 1 else 0).
Proof.
  unfold kind_count. rewrite filter_app, len_app. f_equal. rewrite filter_cons.
  by destruct (decide (error i = e)).
Qed.

Lemma kind_count_nonneg e l : 0 ≤ kind_count e l.
Proof. apply len_nonneg. Qed.

Lemma elem_of_count_error e counts k n : NoDup counts.*1 →
  (k, n) ∈ count_error e counts ↔
    if decide (k = e) then n = 1 ∧ e ∉ counts.*1 ∨ (e, n - 1) ∈ counts else (k, n) ∈ counts.
Proof.
  induction counts as [|[k' n'] counts IH]; simpl; intros Hnd.
  - rewrite list_elem_of_singleton. destruct (decide (k = e)) as [->|]; [|set_solver].
    split; [intros [= ->]; left; split; [done|apply not_elem_of_nil]|]. intros [[-> _]|H]; [done|].
    by apply not_elem_of_nil in H.
  - apply NoDup_cons in Hnd as [Hk Hnd]. specialize (IH Hnd).
    assert (∀ x, (k', x) ∈ counts → False) as Hk'.
    { intros x Hx. apply Hk. by apply (list_elem_of_fmap_2 fst) in Hx. }
    destruct (decide (k' = e)) as [->|Hne].
    + rewrite elem_of_cons. destruct (decide (k = e)) as [->|].
      * rewrite (elem_of_cons _ (e, n - 1)). split.
        -- intros [[= ->]|?]; [right; left; f_equal; lia|]. by exfalso; eapply Hk'.
        -- intros [[_ Hn]|[[= <-]|?]]; [by exfalso; apply Hn; left|left; f_equal; lia|].
           by exfalso; eapply Hk'.
      * rewrite (elem_of_cons _ (k, n)). naive_solver.
    + rewrite elem_of_cons, IH. destruct (decide (k = e)) as [->|].
      * rewrite not_elem_of_cons, elem_of_cons. naive_solver.
      * by rewrite elem_of_cons.
Qed.

Lemma count_error_fst e counts : NoDup counts.*1 → NoDup (count_error e counts).*1.
Proof.
  intros Hnd. induction counts as [|[k n] counts IH]; [apply NoDup_singleton|].
  cbn [count_error]. pose proof Hnd as [Hk Hnd']%NoDup_cons.
  destruct (decide (k = e)) as [->|Hne]; [done|]. apply NoDup_cons. split; [|by apply IH].
  intros ([k' m] & Heq & Hin)%list_elem_of_fmap. simpl in Heq. subst k'. apply elem_of_count_error in Hin; [|done].
  simpl in *. rewrite decide_False in Hin by done. apply Hk. by apply (list_elem_of_fmap_2 fst) in Hin.
Qed.

Lemma counts_exact_snoc counts l i :
  counts_exact counts l → counts_exact (count_error (error i) counts) (l ++ [i]).
Proof.
  intros [Hnd Hex]. split.
  - by apply count_error_fst.
  - intros e n. rewrite elem_of_count_error, kind_count_snoc by done.
    pose proof (kind_count_nonneg (error i) l).
    destruct (decide (e = error i)) as [->|Hne].
    + rewrite Hex, decide_True by done. split; [|intros [Hn ->]].
      * intros [[-> Hn]|[Hn Hc]]; [|lia]. split; [lia|].
        destruct (decide (kind_count (error i) l = 0)) as [->|]; [done|]. exfalso. apply Hn.
        apply (list_elem_of_fmap_2' fst _ (error i, kind_count (error i) l)); [|done].
        apply Hex. lia.
      * destruct (decide (kind_count (error i) l = 0)) as [Hz|Hz]; [left|right; lia].
        split; [lia|]. intros ([k m] & Heq & [Hm Hmk]%Hex)%list_elem_of_fmap. simpl in *. subst k. lia.
    + rewrite Hex, decide_False by congruence. lia.
Qed.

(** The error handler keeps the latest [max_stored_errors] reports in order
    of arrival, calls every registered callback with each report, and its
    statistics are exact: the total is the number of stored errors, every kind
    is listed at most once, exactly when it occurs, with its number of
    occurrences, and the recent errors are the last ten, latest first. *)
Theorem error_handler_exact h e :
  len (errors h) ≤ max_stored_errors h →
  let '(h', calls) := report_error h e in
  len (errors h') ≤ max_stored_errors h' ∧
  (∃ dropped, errors h ++ [e] = dropped ++ errors h' ∧
     (dropped = [] ∨ len dropped = 1 ∧ len (errors h') = max_stored_errors h)) ∧
  calls = (λ c, (c, e)) <$> callbacks h ∧
  let st := get_error_stats h' in
  total_errors st = len (errors h') ∧ counts_exact (errors_by_type st) (errors h') ∧
  recent_errors st = take 10 (rev (errors h')).
Proof.
  intros Hlen. unfold report_error.
  assert (∀ l, let s := foldl (λ s e, (s.1 + 1, count_error (error e) s.2)) (0, []) l in
    s.1 = len l ∧ counts_exact s.2 l) as Hstats.
  { induction l as [|i l IH] using rev_ind; cbn zeta; simpl.
    - split; [done|]. split; [apply NoDup_nil_2|]. intros k n. split; [|intros [? ->]; done].
      intros Hx. by apply not_elem_of_nil in Hx.
    - rewrite foldl_snoc. destruct IH as [IH1 IH2]. simpl. split; [by rewrite IH1, len_snoc|].
      by apply counts_exact_snoc. }
  destruct (Z.ltb_spec (max_stored_errors h) (len (errors h ++ [e]))) as [Hgt|Hle]; simpl.
  - rewrite len_snoc in Hgt. split_and!; [..|apply Hstats|apply Hstats|done]; [| |done].
    + unfold vec_remove, len in *. rewrite take_0, app_nil_l, length_drop, length_app. simpl. lia.
    + exists (take 1 (errors h ++ [e])). unfold vec_remove. rewrite take_0, app_nil_l, take_drop.
      split; [done|right]. unfold len in *. rewrite length_take, length_drop, !length_app. cbn [length]. lia.
  - split_and!; [done| |done|apply Hstats|apply Hstats|done]. exists []. auto.
Qed.

(** A suggestion that recovery acts on. *)
Definition actionable (s : RecoverySuggestion) : bool :=
  match s with ContactAdmin _ | NoRecovery => false | _ => true end.

(** Recovery succeeds exactly when some suggestion can be acted on, and such an
    error is reported as recoverable. *)
Theorem attempt_recovery_iff i :
  (attempt_recovery i = Ok () ↔ ∃ s, s ∈ recovery_suggestions i ∧ actionable s = true) ∧
  (attempt_recovery i = Ok () → is_recoverable i = true).
Proof.
  unfold attempt_recovery, is_recoverable.
  assert (∀ l, try_suggestions l (error i) = Ok () ↔ ∃ s, s ∈ l ∧ actionable s = true) as Hiff.
  { induction l as [|s l IH]; simpl.
    - split; [done|]. intros (s & Hs & _). by apply not_elem_of_nil in Hs.
    - setoid_rewrite elem_of_cons. destruct s; rewrite ?IH; naive_solver. }
  split; [done|]. intros (s & Hs & Ha)%Hiff. apply andb_true_iff. split.
  - destruct (recovery_suggestions i); [by apply not_elem_of_nil in Hs|done].
  - apply eq_true_not_negb. rewrite forallb_forall. intros Hall.
    apply list_elem_of_In, Hall in Hs. by destruct s.
Qed.

(** An error whose only suggestion is to contact the administrator counts as
    recoverable, but recovery fails. *)
Theorem recoverable_without_recovery e msg :
  let i := with_suggestion (info_new e msg) (ContactAdmin msg) in
  is_recoverable i = true ∧ attempt_recovery i = Err e.
Proof. done. Qed.

(** Polling returns every queued message, in order, and empties the queue. *)
Theorem poll_messages_drains c :
  poll_messages c = Val (Ok (message_queue c), set_queue c []).
Proof.
  unfold poll_messages.
  assert (∀ q acc, loop_fuel (S (length q)) poll_step (q, acc) = Val ([], acc ++ q)) as ->.
  { induction q as [|x q IH]; intros acc; [simpl; by rewrite app_nil_r|].
    change (loop_fuel (S (length (x :: q))) poll_step (x :: q, acc))
      with (loop_fuel (S (length q)) poll_step (q, acc ++ [x])).
    by rewrite IH, <-app_assoc. }
  done.
Qed.
End theorems.

(** ** Serialisation of requests and responses: placeholders in the source *)
Definition serialize_request (request : DriverRequest) : list Z := [].
Definition deserialize_request (data : list Z) : result DriverRequest DriverError := Ok Initialize.
Definition serialize_response (response : DriverResponse) : list Z := [].
Definition deserialize_response (data : list Z) : result DriverResponse DriverError := Ok Success.

(** Only the initialisation request and plain success survive serialisation;
    every other message is replaced without an error. *)
Lemma serialization_survivors req resp :
  (deserialize_request (serialize_request req) = Ok req ↔ req = Initialize) ∧
  (deserialize_response (serialize_response resp) = Ok resp ↔ resp = Success).
Proof. unfold deserialize_request, deserialize_response. split; split; congruence. Qed.

(** ** Witness *)
Lemma error_handler_exact_witness :
  let e := info_new HardwareNotFound "probe" in
  let h := register_error_callback (with_max_errors 1) 7 in
  errors_by_type (get_error_stats (report_error (report_error h e).1 e).1) = [(HardwareNotFound, 1)] ∧
  (report_error h e).2 = [(7, e)].
Proof.
  split; [reflexivity|].
  exact (proj1 (proj2 (proj2 (error_handler_exact
    (register_error_callback (with_max_errors 1) 7) (info_new HardwareNotFound "probe") ltac:(done))))).
Defined.
