(* ===== verification/Vga.v ===== *)
(** * Text screens

    Models [drivers/graphics/src/lib.rs] (the VGA text driver) and the writer of
    [kernel/src/vga_buffer.rs].

    A screen is 25 rows of 80 cells; the memory behind it is read and written
    cell by cell, with the row-by-row loops of the source.  The reference is a
    screen as a list of rows that scrolls by dropping the first one
    ([ref_new_line], [ref_write_byte]). *)
From S2P Require Import Prelude DriverKit.

(** ** Cells and colours *)
Inductive VgaColor :=
  | Black | Blue | Green | Cyan | Red | Magenta | Brown | LightGray
  | DarkGray | LightBlue | LightGreen | LightCyan | LightRed | Pink | Yellow | White.
Definition color_u8 (c : VgaColor) : Z :=
  match c with
  | Black => 0 | Blue => 1 | Green => 2 | Cyan => 3 | Red => 4 | Magenta => 5 | Brown => 6
  | LightGray => 7 | DarkGray => 8 | LightBlue => 9 | LightGreen => 10 | LightCyan => 11
  | LightRed => 12 | Pink => 13 | Yellow => 14 | White => 15
  end.
(** [transmute::<u8, VgaColor>], defined on the discriminants. *)
Definition color_of_u8 (n : Z) : VgaColor :=
  match_arms [ (0, Black); (1, Blue); (2, Green); (3, Cyan); (4, Red); (5, Magenta); (6, Brown);
               (7, LightGray); (8, DarkGray); (9, LightBlue); (10, LightGreen); (11, LightCyan);
               (12, LightRed); (13, Pink); (14, Yellow) ] n White.
(** [VgaColorCode::new]. *)
Definition color_code_new (foreground background : VgaColor) : Z :=
  Z.lor (Z.shiftl (color_u8 background) 4 mod 2 ^ 8) (color_u8 foreground).

Record VgaChar := { ascii_character : Z; cell_color : Z }.
#[export] Instance VgaChar_eq_dec : EqDecision VgaChar.
Proof. solve_decision. Defined.

Definition VGA_BUFFER_HEIGHT : Z := 25.
Definition VGA_BUFFER_WIDTH : Z := 80.
(** The cells of a [VgaBuffer] are a list of rows. *)

(** [buffer.chars[row][col].read()] and [.write(c)]. *)
Definition read_cell (b : list (list VgaChar)) (row col : Z) : outcome VgaChar :=
  r ← index (A := list VgaChar) b row; index r col.
Definition write_cell (b : list (list VgaChar)) (row col : Z) (c : VgaChar) : outcome (list (list VgaChar)) :=
  r ← index (A := list VgaChar) b row; r ← index_set r col c; index_set (A := list VgaChar) b row r.

(** The two nested loops of scrolling, and the loop of [clear_row]. *)
Definition scroll_up (b : list (list VgaChar)) : outcome (list (list VgaChar)) :=
  for_each (λ row b,
    for_each (λ col b, c ← read_cell b row col; write_cell b (row - 1) col c)
      (seqZ 0 VGA_BUFFER_WIDTH) b)
    (seqZ 1 (VGA_BUFFER_HEIGHT - 1)) b.
Definition blank (color : Z) : VgaChar := {| ascii_character := 32; cell_color := color |}.
Definition fill_row (b : list (list VgaChar)) (row color : Z) : outcome (list (list VgaChar)) :=
  for_each (λ col b, write_cell b row col (blank color)) (seqZ 0 VGA_BUFFER_WIDTH) b.

(** ** The driver *)
Record VgaTextDriver := {
  buffer : list (list VgaChar);
  cursor_row : Z;
  cursor_col : Z;
  color_code : Z;
  status : DriverStatus;
}.
Implicit Types d : VgaTextDriver.
(** [new] on what the screen memory holds. *)
Definition new (memory : list (list VgaChar)) : VgaTextDriver :=
  {| buffer := memory; cursor_row := 0; cursor_col := 0;
     color_code := color_code_new White Black; status := Uninitialized |}.
Definition set_buffer d b : VgaTextDriver :=
  {| buffer := b; cursor_row := cursor_row d; cursor_col := cursor_col d;
     color_code := color_code d; status := status d |}.
Definition move_cursor d row col : VgaTextDriver :=
  {| buffer := buffer d; cursor_row := row; cursor_col := col;
     color_code := color_code d; status := status d |}.
Definition set_code d c : VgaTextDriver :=
  {| buffer := buffer d; cursor_row := cursor_row d; cursor_col := cursor_col d;
     color_code := c; status := status d |}.
Definition set_status d s : VgaTextDriver :=
  {| buffer := buffer d; cursor_row := cursor_row d; cursor_col := cursor_col d;
     color_code := color_code d; status := s |}.

Definition clear_row d (row : Z) : outcome VgaTextDriver :=
  b ← fill_row (buffer d) row (color_code d); Val (set_buffer d b).
Definition new_line d : outcome VgaTextDriver :=
  d ← (if VGA_BUFFER_HEIGHT - 1 <=? cursor_row d
       then b ← scroll_up (buffer d); clear_row (set_buffer d b) (VGA_BUFFER_HEIGHT - 1)
       else Val (move_cursor d (cursor_row d + 1) (cursor_col d)));
  Val (move_cursor d (cursor_row d) 0).
Definition write_byte d (byte : Z) : outcome VgaTextDriver :=
  if byte =? 10 then new_line d
  else
    d ← (if VGA_BUFFER_WIDTH <=? cursor_col d then new_line d else Val d);
    let vga_char := {| ascii_character := byte; cell_color := color_code d |} in
    b ← write_cell (buffer d) (cursor_row d) (cursor_col d) vga_char;
    Val (move_cursor (set_buffer d b) (cursor_row d) (cursor_col d + 1)).
(** What a byte of a string is shown as. *)
Definition shown (byte : Z) : Z :=
  if (0x20 <=? byte) && (byte <=? 0x7e) || (byte =? 10) then byte else 0xfe.
Definition write_string d (s : list Z) : outcome VgaTextDriver :=
  for_each (λ byte d, write_byte d (shown byte)) s d.
Definition set_color d (foreground background : VgaColor) : VgaTextDriver :=
  set_code d (color_code_new foreground background).
Definition clear_screen d : outcome VgaTextDriver :=
  b ← for_each (λ row b, fill_row b row (color_code d)) (seqZ 0 VGA_BUFFER_HEIGHT) (buffer d);
  Val (move_cursor (set_buffer d b) 0 0).
Definition set_cursor d (row col : Z) : VgaTextDriver :=
  if (row <? VGA_BUFFER_HEIGHT) && (col <? VGA_BUFFER_WIDTH) then move_cursor d row col else d.
Definition get_cursor d : Z * Z := (cursor_row d, cursor_col d).

(** [core::str::from_utf8(..).is_ok()]: the well-formed byte sequences of the
    Unicode standard. *)
Definition in_range (lo hi b : Z) : bool := (lo <=? b) && (b <=? hi).
Fixpoint utf8_valid (l : list Z) : bool :=
  match l with
  | [] => true
  | b0 :: l0 =>
      if b0 <? 0x80 then utf8_valid l0
      else match l0 with
      | [] => false
      | b1 :: l1 =>
          if in_range 0xC2 0xDF b0 then in_range 0x80 0xBF b1 && utf8_valid l1
          else match l1 with
          | [] => false
          | b2 :: l2 =>
              if in_range 0xE0 0xEF b0
              then in_range (if b0 =? 0xE0 then 0xA0 else 0x80) (if b0 =? 0xED then 0x9F else 0xBF) b1
                   && in_range 0x80 0xBF b2 && utf8_valid l2
              else match l2 with
              | [] => false
              | b3 :: l3 =>
                  in_range 0xF0 0xF4 b0
                  && in_range (if b0 =? 0xF0 then 0x90 else 0x80) (if b0 =? 0xF4 then 0x8F else 0xBF) b1
                  && in_range 0x80 0xBF b2 && in_range 0x80 0xBF b3 && utf8_valid l3
              end
          end
      end
  end.

(** "VGA Text Mode Driver Initialized\n". *)
Definition init_message : list Z :=
  [86; 71; 65; 32; 84; 101; 120; 116; 32; 77; 111; 100; 101; 32; 68; 114; 105; 118; 101; 114; 32;
   73; 110; 105; 116; 105; 97; 108; 105; 122; 101; 100; 10].

(** ** The driver interface *)
Definition init (capabilities : list Capability) d : outcome (result unit DriverError * VgaTextDriver) :=
  let d := set_status d Initializing in
  d ← clear_screen d;
  let d := set_color d White Black in
  d ← write_string d init_message;
  Val (Ok (), set_status d Ready).
Definition get_driver_info d : DriverInfo :=
  {| name := "VGA Text Mode Driver"; version := "1.0.0"; vendor := "Kosh OS";
     description := "VGA text mode display driver with color support"; driver_type := Graphics;
     hardware_ids := [ {| vendor_id := 0x1234; device_id := 0x1111;
                          subsystem_vendor_id := None; subsystem_device_id := None |} ] |}.
Definition handle_control d (command : Z) (data : list Z) :
    outcome (result DriverResponse DriverError * VgaTextDriver) :=
  match_arms
    [ (0x01, d ← clear_screen d; Val (Ok Success, d));
      (0x02,
        if 2 <=? len data
        then fg ← index data 0; bg ← index data 1;
             if (fg <=? 15) && (bg <=? 15)
             then Val (Ok Success, set_color d (color_of_u8 fg) (color_of_u8 bg))
             else Val (Err InvalidRequest, d)
        else Val (Err InvalidRequest, d));
      (0x03,
        if 2 <=? len data
        then row ← index data 0; col ← index data 1; Val (Ok Success, set_cursor d row col)
        else Val (Err InvalidRequest, d)) ]
    command (Val (Err InvalidRequest, d)).
Definition handle_request (request : DriverRequest) d :
    outcome (result DriverResponse DriverError * VgaTextDriver) :=
  match request with
  | Initialize =>
      '(r, d) ← init [] d;
      match r with Ok _ => Val (Ok Success, d) | Err e => Val (Err e, d) end
  | Write _ data =>
      if utf8_valid data then d ← write_string d data; Val (Ok Success, d)
      else Val (Err InvalidRequest, d)
  | Control command data => handle_control d command data
  | Query QStatus => Val (Ok (Status (status d)), d)
  | Query QHardwareInfo => Val (Ok (Info (get_driver_info d)), d)
  | _ => Val (Err InvalidRequest, d)
  end.
Definition cleanup d : outcome (result unit DriverError * VgaTextDriver) :=
  let d := set_status d Stopping in
  d ← clear_screen d;
  Val (Ok (), set_status d Uninitialized).
Definition get_required_capabilities d : list DriverCapabilityType := [MemoryAccess; HardwareAccess].
Definition get_provided_capabilities d : list DriverCapabilityType := [TextOutput; GraphicsOutput].
Definition handle_power_event (e : PowerEvent) d : outcome (result unit DriverError * VgaTextDriver) :=
  match e with
  | Suspend => Val (Ok (), set_status d Suspended)
  | Resume => d ← clear_screen (set_status d Ready); Val (Ok (), d)
  | PowerDown => cleanup d
  | _ => Val (Ok (), d)
  end.
Definition get_status d : DriverStatus := status d.

#[export] Instance vga_driver : KoshDriver VgaTextDriver := {|
  kd_init := init;
  kd_handle_request := handle_request;
  kd_cleanup := cleanup;
  kd_required_capabilities := get_required_capabilities;
  kd_provided_capabilities := get_provided_capabilities;
  kd_driver_info := get_driver_info;
  kd_handle_power_event := handle_power_event;
  kd_status := get_status;
|}.

(** ** The global driver and the factory *)
Definition init_vga_driver (memory : list (list VgaChar)) (g : option VgaTextDriver) :
    outcome (result unit DriverError * option VgaTextDriver) :=
  '(r, driver) ← init [] (new memory);
  match r with Ok _ => Val (Ok (), Some driver) | Err e => Val (Err e, g) end.
Definition vga_write (g : option VgaTextDriver) (text : list Z) : outcome (option VgaTextDriver) :=
  match g with Some d => d ← write_string d text; Val (Some d) | None => Val g end.
Definition vga_set_color (g : option VgaTextDriver) (fg bg : VgaColor) : option VgaTextDriver :=
  match g with Some d => Some (set_color d fg bg) | None => g end.
Definition vga_clear_screen (g : option VgaTextDriver) : outcome (option VgaTextDriver) :=
  match g with Some d => d ← clear_screen d; Val (Some d) | None => Val g end.
Definition create_driver (memory : list (list VgaChar)) (hardware_id : HardwareId) :
    result VgaTextDriver DriverError := Ok (new memory).
Definition can_handle (hardware_id : HardwareId) : bool :=
  (vendor_id hardware_id =? 0x1234) && (device_id hardware_id =? 0x1111).
Definition get_driver_type : DriverType := Graphics.

(** ** The kernel's writer ([vga_buffer.rs]): always on the last row *)
Record Writer := {
  column_position : Z;
  writer_color : Z;
  writer_buffer : list (list VgaChar);
}.
Implicit Types w : Writer.
Definition set_column w col : Writer :=
  {| column_position := col; writer_color := writer_color w; writer_buffer := writer_buffer w |}.
Definition set_writer_buffer w b : Writer :=
  {| column_position := column_position w; writer_color := writer_color w; writer_buffer := b |}.
Definition writer_clear_row w (row : Z) : outcome Writer :=
  b ← fill_row (writer_buffer w) row (writer_color w); Val (set_writer_buffer w b).
Definition writer_new_line w : outcome Writer :=
  b ← scroll_up (writer_buffer w);
  w ← writer_clear_row (set_writer_buffer w b) (VGA_BUFFER_HEIGHT - 1);
  Val (set_column w 0).
Definition writer_write_byte w (byte : Z) : outcome Writer :=
  if byte =? 10 then writer_new_line w
  else
    w ← (if VGA_BUFFER_WIDTH <=? column_position w then writer_new_line w else Val w);
    b ← write_cell (writer_buffer w) (VGA_BUFFER_HEIGHT - 1) (column_position w)
          {| ascii_character := byte; cell_color := writer_color w |};
    Val (set_column (set_writer_buffer w b) (column_position w + 1)).
Definition writer_write_string w (s : list Z) : outcome Writer :=
  for_each (λ byte w, writer_write_byte w (shown byte)) s w.

(** ** Reference definitions *)
Definition blank_row (color : Z) : list VgaChar := replicate 80 (blank color).
Definition ref_new_line d : VgaTextDriver :=
  if 24 <=? cursor_row d
  then move_cursor (set_buffer d (tail (buffer d) ++ [blank_row (color_code d)])) (cursor_row d) 0
  else move_cursor d (cursor_row d + 1) 0.
Definition ref_put d (byte : Z) : VgaTextDriver :=
  let c := {| ascii_character := byte; cell_color := color_code d |} in
  move_cursor (set_buffer d (alter (<[Z.to_nat (cursor_col d) := c]>) (Z.to_nat (cursor_row d)) (buffer d)))
    (cursor_row d) (cursor_col d + 1).
Definition ref_write_byte d (byte : Z) : VgaTextDriver :=
  if byte =? 10 then ref_new_line d
  else ref_put (if 80 <=? cursor_col d then ref_new_line d else d) byte.

(** ** Invariant *)
Definition screen (b : list (list VgaChar)) : Prop :=
  length b = 25%nat ∧ Forall (λ r : list VgaChar, length r = 80%nat) b.
Record vga_inv d : Prop := {
  vi_screen : screen (buffer d);
  vi_row : 0 ≤ cursor_row d < 25;
  vi_col : 0 ≤ cursor_col d ≤ 80;
  vi_color : 0 ≤ color_code d < 256;
}.

(** ** Screen memory *)
Lemma screen_row b row : screen b → 0 ≤ row < 25 →
  ∃ r : list VgaChar, b !! Z.to_nat row = Some r ∧ length r = 80%nat.
Proof.
  intros [Hl Hr] Hrow. destruct (lookup_lt_is_Some_2 b (Z.to_nat row)) as [r Hlk]; [lia|].
  exists r. split; [done|]. by eapply (Forall_lookup_1 _ _ _ _ Hr).
Qed.

Lemma screen_insert b i r : screen b → length r = 80%nat → screen (<[i := r]> b).
Proof.
  intros [Hl Hr] Hlen. split; [by rewrite length_insert|].
  by apply Forall_insert.
Qed.

Lemma write_cell_val b row col c (r : list VgaChar) : b !! Z.to_nat row = Some r →
  (Z.to_nat col < length r)%nat →
  write_cell b row col c = Val (<[Z.to_nat row := <[Z.to_nat col := c]> r]> b).
Proof.
  intros Hr Hc. unfold write_cell. erewrite (index_val (A := list VgaChar)) by done.
  cbn [mbind outcome_bind]. rewrite index_set_val by done. cbn [mbind outcome_bind].
  apply (index_set_val (A := list VgaChar)). by eapply lookup_lt_Some.
Qed.

(** Replacing the [k]th of two lists that are spliced at [k]. *)
Lemma splice_step {A} (new old : list A) k x : length new = length old → new !! k = Some x →
  <[k := x]> (take k new ++ drop k old) = take (S k) new ++ drop (S k) old.
Proof.
  intros Hl Hx. pose proof (lookup_lt_Some _ _ _ Hx) as Hk.
  rewrite (take_S_r _ _ _ Hx), <-app_assoc. cbn [app].
  rewrite insert_app_r_alt by (rewrite length_take; lia).
  rewrite length_take. replace (k - k `min` length new)%nat with 0%nat by lia.
  destruct (drop k old) as [|y l] eqn:E.
  - apply (f_equal length) in E. rewrite length_drop in E. simpl in E. lia.
  - cbn. replace (S k) with (k + 1)%nat by lia. by rewrite <-drop_drop, E.
Qed.

(** A loop over the columns that writes [new] into a row, one cell at a time. *)
Lemma row_loop b row (r new : list VgaChar) (body : Z → list (list VgaChar) → outcome (list (list VgaChar))) :
  b !! Z.to_nat row = Some r → length r = 80%nat → length new = 80%nat →
  (∀ k x, new !! k = Some x →
     let b' := <[Z.to_nat row := take k new ++ drop k r]> b in
     body (Z.of_nat k) b' = write_cell b' row (Z.of_nat k) x) →
  for_each body (seqZ 0 VGA_BUFFER_WIDTH) b = Val (<[Z.to_nat row := new]> b).
Proof.
  intros Hr Hl Hn Hbody. pose proof (lookup_lt_Some _ _ _ Hr) as Hrow.
  destruct (for_each_inv (λ dn b', b' = <[Z.to_nat row := take (length dn) new ++ drop (length dn) r]> b)
    body (seqZ 0 VGA_BUFFER_WIDTH) b) as (b' & -> & ->).
  - intros dn i todo b' Hd ->. pose proof (seqZ_split _ _ _ _ _ Hd) as [Hi Hlt].
    unfold len, VGA_BUFFER_WIDTH in *.
    destruct (lookup_lt_is_Some_2 new (length dn)) as [x Hx]; [lia|].
    rewrite Hi, Z.add_0_l, (Hbody _ _ Hx).
    erewrite write_cell_val;
      [|by apply list_lookup_insert_eq|rewrite length_app, length_take, length_drop; lia].
    eexists. split; [done|]. rewrite list_insert_insert_eq, Nat2Z.id, length_app. cbn [length].
    rewrite (splice_step new r) by (done || lia). by rewrite Nat.add_1_r.
  - rewrite take_0, drop_0. cbn [app]. by rewrite list_insert_id.
  - rewrite length_seqZ. change (Z.to_nat VGA_BUFFER_WIDTH) with 80%nat.
    rewrite <-Hn at 1. rewrite take_ge by lia. rewrite drop_ge by lia. by rewrite app_nil_r.
Qed.

Lemma fill_row_val b row color : screen b → 0 ≤ row < 25 →
  fill_row b row color = Val (<[Z.to_nat row := blank_row color]> b).
Proof.
  intros Hs Hrow. destruct (screen_row b row Hs Hrow) as (r & Hr & Hl).
  unfold fill_row. apply (row_loop b row r); [done|done|apply length_replicate|].
  intros k x [-> _]%lookup_replicate_1. done.
Qed.

Lemma copy_row_val b row src : screen b → 1 ≤ row < 25 → b !! Z.to_nat row = Some src →
  for_each (λ col b, c ← read_cell b row col; write_cell b (row - 1) col c)
    (seqZ 0 VGA_BUFFER_WIDTH) b = Val (<[Z.to_nat (row - 1) := src]> b).
Proof.
  intros Hs Hrow Hsrc. destruct (screen_row b (row - 1) Hs ltac:(lia)) as (r & Hr & Hl).
  destruct (screen_row b row Hs ltac:(lia)) as (src' & Hsrc' & Hl').
  rewrite Hsrc in Hsrc'. injection Hsrc' as <-.
  apply (row_loop b (row - 1) r); [done|done|done|].
  intros k x Hx. cbn zeta. unfold read_cell at 1.
  rewrite (index_val (A := list VgaChar) _ row src)
    by (rewrite list_lookup_insert_ne; [done|lia]).
  cbn [mbind outcome_bind]. rewrite (index_val src _ x) by (by rewrite Nat2Z.id). done.
Qed.

Lemma scroll_up_val b : screen b → ∃ r, b !! 24%nat = Some r ∧ scroll_up b = Val (tail b ++ [r]).
Proof.
  intros Hs. destruct (screen_row b 24 Hs ltac:(lia)) as (r & Hr & _). exists r. split; [done|].
  change (Z.to_nat 24) with 24%nat in Hr. unfold scroll_up.
  destruct (for_each_inv (λ dn b', b' = take (length dn) (tail b) ++ drop (length dn) b)
    (λ row b, for_each (λ col b, c ← read_cell b row col; write_cell b (row - 1) col c)
      (seqZ 0 VGA_BUFFER_WIDTH) b) (seqZ 1 (VGA_BUFFER_HEIGHT - 1)) b) as (b' & -> & ->).
  - intros dn i todo b' Hd ->. pose proof (seqZ_split _ _ _ _ _ Hd) as [Hi Hlt].
    unfold len, VGA_BUFFER_HEIGHT in *.
    assert (length (tail b) = 24%nat) as Hlt'.
    { destruct Hs as [Hlen _]. by destruct b; simplify_eq/=. }
    destruct (screen_row b i Hs ltac:(lia)) as (src & Hsrc & Hlsrc).
    assert (tail b !! length dn = Some src) as Htl.
    { rewrite lookup_tail. rewrite <-Hsrc. f_equal. lia. }
    assert (screen (take (length dn) (tail b) ++ drop (length dn) b)) as Hs'.
    { destruct Hs as [Hlen Hf]. split; [rewrite length_app, length_take, length_drop; lia|].
      apply Forall_app. split; [|by apply Forall_drop]. apply Forall_take. destruct b; [done|].
      by apply Forall_cons in Hf as [_ ?]. }
    exists (take (length dn + 1) (tail b) ++ drop (length dn + 1) b). split; [|by rewrite length_app].
    rewrite (copy_row_val _ i src Hs' ltac:(lia)).
    + f_equal. replace (Z.to_nat (i - 1)) with (length dn) by lia.
      rewrite Nat.add_1_r. destruct Hs as [Hlen _].
      rewrite (take_S_r _ _ _ Htl), <-app_assoc. cbn [app].
      rewrite insert_app_r_alt by (rewrite length_take; lia). rewrite length_take.
      replace (length dn - length dn `min` length (tail b))%nat with 0%nat by lia.
      destruct (drop (length dn) b) as [|y l] eqn:E.
      { apply (f_equal length) in E. rewrite length_drop in E. simpl in E. lia. }
      cbn. replace (S (length dn)) with (length dn + 1)%nat by lia. by rewrite <-drop_drop, E.
    + rewrite lookup_app_r by (rewrite length_take; lia). rewrite length_take, lookup_drop.
      rewrite <-Hsrc. f_equal. lia.
  - by rewrite take_0, drop_0.
  - rewrite length_seqZ. change (Z.to_nat (VGA_BUFFER_HEIGHT - 1)) with 24%nat.
    destruct Hs as [Hlen _]. rewrite take_ge by (destruct b; simplify_eq/=; lia).
    do 2 f_equal. rewrite (drop_S _ _ _ Hr), drop_ge by lia. done.
Qed.

(** ** The operations against the reference *)
Lemma clear_screen_val d : screen (buffer d) →
  clear_screen d = Val (move_cursor (set_buffer d (replicate 25 (blank_row (color_code d)))) 0 0).
Proof.
  intros Hs. unfold clear_screen.
  destruct (for_each_inv (λ dn b', b' = replicate (length dn) (blank_row (color_code d)) ++
      drop (length dn) (buffer d))
    (λ row b, fill_row b row (color_code d)) (seqZ 0 VGA_BUFFER_HEIGHT) (buffer d)) as (b' & -> & ->).
  - intros dn i todo b' Hd ->. pose proof (seqZ_split _ _ _ _ _ Hd) as [Hi Hlt].
    unfold len, VGA_BUFFER_HEIGHT in *. destruct Hs as [Hlen Hf].
    rewrite fill_row_val by (first [lia|split;
      [rewrite length_app, length_replicate, length_drop; lia
      |apply Forall_app; split; [apply Forall_replicate, length_replicate|by apply Forall_drop]]]).
    eexists. split; [done|]. replace (Z.to_nat i) with (length dn) by lia.
    rewrite length_app, Nat.add_1_r, replicate_S_end, <-app_assoc. cbn [app].
    rewrite insert_app_r_alt by (rewrite length_replicate; lia). rewrite length_replicate, Nat.sub_diag.
    destruct (drop (length dn) (buffer d)) as [|y l] eqn:E.
    { apply (f_equal length) in E. rewrite length_drop in E. simpl in E. lia. }
    cbn. replace (S (length dn)) with (length dn + 1)%nat by lia. by rewrite <-drop_drop, E.
  - by rewrite drop_0.
  - cbn [mbind outcome_bind]. rewrite length_seqZ. destruct Hs as [Hlen _].
    by rewrite drop_ge, app_nil_r by (unfold VGA_BUFFER_HEIGHT; lia).
Qed.

Lemma screen_blank color : screen (replicate 25 (blank_row color)).
Proof. split; [done|]. apply Forall_replicate, length_replicate. Qed.

Lemma screen_scrolled b color : screen b → screen (tail b ++ [blank_row color]).
Proof.
  intros [Hl Hf]. destruct b as [|r b]; [done|]. split; [rewrite length_app; simpl in *; lia|].
  apply Forall_app. split; [by apply Forall_cons in Hf as [_ ?]|]. by repeat constructor.
Qed.

Lemma new_line_val d : vga_inv d → new_line d = Val (ref_new_line d) ∧ vga_inv (ref_new_line d).
Proof.
  intros [Hs Hr Hc Hcol]. unfold new_line, ref_new_line, VGA_BUFFER_HEIGHT.
  change (25 - 1) with 24. destruct (Z.leb_spec 24 (cursor_row d)).
  - destruct (scroll_up_val _ Hs) as (r & Hrow & ->). cbn [mbind outcome_bind].
    assert (length (tail (buffer d)) = 24%nat) as Hlt.
    { destruct Hs as [Hlen _]. by destruct (buffer d); simplify_eq/=. }
    unfold clear_row. rewrite fill_row_val; [|split|lia].
    + cbn [mbind outcome_bind buffer set_buffer color_code].
      rewrite insert_app_r_alt by lia. rewrite Hlt.
      split; [done|]. split; cbn; [by apply screen_scrolled|lia..].
    + cbn. rewrite length_app, Hlt. done.
    + destruct (screen_row _ 24 Hs ltac:(lia)) as (r' & Hr' & Hlr).
      change (Z.to_nat 24) with 24%nat in Hr'. rewrite Hrow in Hr'. injection Hr' as <-. destruct Hs as [_ Hf].
      apply Forall_app. split; [|by repeat constructor].
      destruct (buffer d); [done|]. by apply Forall_cons in Hf as [_ ?].
  - split; [done|]. split; cbn; [done|lia..].
Qed.

Lemma write_byte_val d byte : vga_inv d →
  write_byte d byte = Val (ref_write_byte d byte) ∧ vga_inv (ref_write_byte d byte).
Proof.
  intros Hinv. unfold write_byte, ref_write_byte. destruct (byte =? 10); [by apply new_line_val|].
  unfold VGA_BUFFER_WIDTH.
  assert (∃ d1, (if 80 <=? cursor_col d then new_line d else Val d) = Val d1 ∧
    d1 = (if 80 <=? cursor_col d then ref_new_line d else d) ∧ vga_inv d1 ∧ cursor_col d1 < 80)
    as (d1 & -> & <- & [Hs Hr Hc Hcol] & Hlt).
  { destruct (Z.leb_spec 80 (cursor_col d)).
    - destruct (new_line_val d Hinv) as [-> ?]. eexists. split_and!; try done.
      unfold ref_new_line. by destruct (24 <=? _).
    - by exists d. }
  cbn [mbind outcome_bind]. destruct (screen_row _ _ Hs Hr) as (r & Hrow & Hlen).
  rewrite (write_cell_val _ _ _ _ r) by (done || lia). cbn [mbind outcome_bind]. unfold ref_put.
  assert (alter <[Z.to_nat (cursor_col d1) := {| ascii_character := byte; cell_color := color_code d1 |}]>
    (Z.to_nat (cursor_row d1)) (buffer d1) = <[Z.to_nat (cursor_row d1) :=
      <[Z.to_nat (cursor_col d1) := {| ascii_character := byte; cell_color := color_code d1 |}]> r]>
    (buffer d1)) as ->.
  { apply list_eq. intros i. destruct (decide (i = Z.to_nat (cursor_row d1))) as [->|].
    - rewrite list_lookup_alter_eq, Hrow, list_lookup_insert_eq; [done|]. by eapply lookup_lt_Some.
    - by rewrite list_lookup_alter_ne, list_lookup_insert_ne. }
  split; [done|]. split; cbn; try lia. apply screen_insert; [done|]. by rewrite length_insert.
Qed.

Lemma write_string_val d s : vga_inv d →
  write_string d s = Val (foldl (λ d b, ref_write_byte d (shown b)) d s) ∧
  vga_inv (foldl (λ d b, ref_write_byte d (shown b)) d s).
Proof.
  unfold write_string. revert d. induction s as [|b s IH]; intros d Hinv; [done|].
  cbn [for_each foldl]. destruct (write_byte_val d (shown b) Hinv) as [-> ?].
  cbn [mbind outcome_bind]. by apply IH.
Qed.

(** ** The contract *)
Lemma cleared_inv d st c : 0 ≤ c < 256 →
  vga_inv {| buffer := replicate 25 (blank_row (color_code d)); cursor_row := 0; cursor_col := 0;
             color_code := c; status := st |}.
Proof. intros. split; cbn; [apply screen_blank|lia..]. Qed.

Lemma set_status_inv d st : vga_inv d → vga_inv (set_status d st).
Proof. by intros []. Qed.

Lemma foldl_status s d : status (foldl (λ d b, ref_write_byte d (shown b)) d s) = status d.
Proof.
  revert d. induction s as [|b s IH]; intros d; [done|]. cbn [foldl]. rewrite IH.
  unfold ref_write_byte, ref_put, ref_new_line.
  destruct (shown b =? 10), (80 <=? cursor_col d), (24 <=? cursor_row d); done.
Qed.

Lemma color_code_range fg bg : 0 ≤ color_code_new fg bg < 256.
Proof. by destruct fg, bg. Qed.

Lemma clear_then_write msg d : screen (buffer d) →
  ∃ d', (d ← clear_screen d; write_string (set_color d White Black) msg) = Val d' ∧
    vga_inv d' ∧ status d' = status d.
Proof.
  intros Hs. rewrite clear_screen_val by done. cbn [mbind outcome_bind].
  match goal with |- context [write_string ?x _] => assert (vga_inv x) as Hinv end.
  { apply (cleared_inv d). apply (color_code_range White Black). }
  destruct (write_string_val _ msg Hinv) as [-> Hinv'].
  eexists. split; [done|]. split; [done|]. by rewrite foldl_status.
Qed.

Lemma init_val caps d : screen (buffer d) →
  ∃ d', init caps d = Val (Ok (), d') ∧ vga_inv d' ∧ status d' = Ready.
Proof.
  intros Hs. unfold init. generalize init_message. intros msg.
  destruct (clear_then_write msg (set_status d Initializing) Hs) as (d' & Hd' & Hinv & _).
  destruct (clear_screen (set_status d Initializing)) as [d1| |]; try done.
  cbn [mbind outcome_bind] in *. rewrite Hd'. cbn [mbind outcome_bind].
  eexists. split; [done|]. split; [by apply set_status_inv|done].
Qed.

Lemma vga_control_ok command data d : vga_inv d → bytes data →
  ∃ o d', handle_control d command data = Val (o, d') ∧ vga_inv d' ∧ status d' = status d.
Proof.
  intros Hinv Hdata. unfold handle_control.
  apply (match_arms_ind (λ _ r, ∃ o d', r = Val (o, d') ∧ vga_inv d' ∧ status d' = status d));
    [|intros _; by eexists _, _].
  rewrite !Forall_cons, Forall_nil. cbn [fst snd]. split_and!; [intros _..|done].
  - rewrite clear_screen_val by apply Hinv. cbn [mbind outcome_bind]. eexists _, _.
    split; [done|]. split; [|done]. apply cleared_inv, Hinv.
  - destruct data as [|fg [|bg data]]; try (by eexists _, _).
    replace (2 <=? len (fg :: bg :: data)) with true by (unfold len; cbn [length]; symmetry; apply Z.leb_le; lia).
    change (index (fg :: bg :: data) 0) with (Val fg). change (index (fg :: bg :: data) 1) with (Val bg).
    cbn [mbind outcome_bind]. destruct (_ && _); [|by eexists _, _]. eexists _, _. split; [done|].
    split; [|done]. destruct Hinv. split; cbn; try done. apply color_code_range.
  - destruct data as [|row [|col data]]; try (by eexists _, _).
    replace (2 <=? len (row :: col :: data)) with true by (unfold len; cbn [length]; symmetry; apply Z.leb_le; lia).
    change (index (row :: col :: data) 0) with (Val row). change (index (row :: col :: data) 1) with (Val col).
    cbn [mbind outcome_bind]. eexists _, _. split; [done|].
    apply Forall_cons in Hdata as [? [? _]%Forall_cons].
    unfold set_cursor, VGA_BUFFER_HEIGHT, VGA_BUFFER_WIDTH.
    destruct (Z.ltb_spec row 25), (Z.ltb_spec col 80); cbn [andb]; try done.
    destruct Hinv. split; [|done]. split; cbn; try done; lia.
Qed.

#[export] Program Instance vga_contract : DriverContract VgaTextDriver := {| kd_inv := vga_inv |}.
Next Obligation. intros caps d Hinv. apply init_val, Hinv. Qed.
Next Obligation.
  intros r d Hinv Hr. destruct r as [|o n|o data|command data|[]|id data];
    cbn [kd_handle_request vga_driver handle_request status_after_request];
    try (eexists _, _; split; [reflexivity|]; by split_and!).
  - destruct (init_val [] d (vi_screen _ Hinv)) as (d' & -> & ? & ?). cbn [mbind outcome_bind].
    eexists _, _. split; [done|]. by split_and!.
  - destruct (utf8_valid data); [|eexists _, _; split; [done|]; by split_and!].
    destruct (write_string_val d data Hinv) as [-> ?]. cbn [mbind outcome_bind].
    eexists _, _. split; [done|]. split_and!; [done|apply foldl_status|done].
  - destruct (vga_control_ok command data d Hinv Hr) as (o & d' & -> & ? & ?).
    eexists _, _. split; [done|]. by split_and!.
Qed.
Next Obligation.
  intros d Hinv. cbn. unfold cleanup. rewrite clear_screen_val by apply Hinv. cbn [mbind outcome_bind].
  eexists. split; [done|]. split; [|done]. apply (cleared_inv d), Hinv.
Qed.
Next Obligation.
  intros e d Hinv. destruct e; cbn [kd_handle_power_event vga_driver handle_power_event].
  - eexists. split; [done|]. split; [|done]. by apply set_status_inv.
  - rewrite clear_screen_val by apply Hinv. cbn [mbind outcome_bind]. eexists. split; [done|].
    split; [|done]. apply (cleared_inv d), Hinv.
  - cbn. unfold cleanup. rewrite clear_screen_val by apply Hinv. cbn [mbind outcome_bind].
    eexists. split; [done|]. split; [|done]. apply (cleared_inv d), Hinv.
  - by eexists.
  - by eexists.
Qed.

(** ** Theorems *)

(** From any screen memory, after any sequence of calls with byte data the
    text driver has not panicked, its cursor is on the screen (the column may
    stand just behind the last one), no access left the 25 by 80 cells, and the
    status is the one the calls lead to. *)
Theorem vga_stays_on_screen memory calls : screen memory → Forall call_ok calls →
  ∃ d, for_each run_call calls (new memory) = Val d ∧ vga_inv d ∧
    status d = foldl call_status Uninitialized calls.
Proof.
  intros Hs Hok. assert (vga_inv (new memory)) as Hinv by (split; cbn; [done|lia..|done]).
  exact (lifecycle_run calls (new memory) Hinv Hok).
Qed.

(** C36: writing a string is writing its shown bytes to the reference screen, on
    which a newline on the last row drops the first row and appends a blank one:
    the cell-by-cell loops of the driver scroll exactly so. *)
Theorem write_string_refines d s : vga_inv d →
  write_string d s = Val (foldl (λ d b, ref_write_byte d (shown b)) d s) ∧
  vga_inv (foldl (λ d b, ref_write_byte d (shown b)) d s).
Proof. apply write_string_val. Qed.

(** The kernel's writer as a text driver whose cursor is on the last row. *)
Definition as_driver w : VgaTextDriver :=
  {| buffer := writer_buffer w; cursor_row := 24; cursor_col := column_position w;
     color_code := writer_color w; status := Ready |}.

Lemma writer_new_line_eq w : new_line (as_driver w) = as_driver <$> writer_new_line w.
Proof.
  unfold new_line, writer_new_line. change (VGA_BUFFER_HEIGHT - 1 <=? cursor_row (as_driver w)) with true.
  cbn [buffer as_driver]. destruct (scroll_up (writer_buffer w)) as [b| |]; try done.
  cbn [mbind outcome_bind]. unfold clear_row, writer_clear_row.
  cbn [buffer set_buffer color_code as_driver set_writer_buffer writer_buffer writer_color].
  by destruct (fill_row b _ _).
Qed.

Lemma writer_write_byte_eq w byte : write_byte (as_driver w) byte = as_driver <$> writer_write_byte w byte.
Proof.
  unfold write_byte, writer_write_byte. destruct (byte =? 10); [apply writer_new_line_eq|].
  cbn [cursor_col as_driver]. destruct (VGA_BUFFER_WIDTH <=? column_position w).
  - rewrite writer_new_line_eq. destruct (writer_new_line w) as [w'| |]; try done.
    cbn [mbind outcome_bind fmap outcome_fmap buffer cursor_row cursor_col color_code as_driver].
    change (VGA_BUFFER_HEIGHT - 1) with 24. by destruct (write_cell _ _ _ _).
  - cbn [mbind outcome_bind fmap outcome_fmap buffer cursor_row cursor_col color_code as_driver].
    change (VGA_BUFFER_HEIGHT - 1) with 24. by destruct (write_cell _ _ _ _).
Qed.

(** The kernel's console writer and the text driver are the same function: on
    any screen, writing a string with the writer leaves what the driver leaves
    with its cursor on the last row, and the one panics exactly when the other
    does. *)
Theorem writer_equals_driver w s :
  write_string (as_driver w) s = as_driver <$> writer_write_string w s.
Proof.
  unfold write_string, writer_write_string. revert w. induction s as [|b s IH]; intros w; [done|].
  cbn [for_each]. rewrite writer_write_byte_eq.
  destruct (writer_write_byte w (shown b)) as [w'| |]; try done.
  cbn [mbind outcome_bind fmap outcome_fmap]. apply IH.
Qed.

(** A cell and the cells of a text. *)
Definition cell d (byte : Z) : VgaChar := {| ascii_character := byte; cell_color := color_code d |}.

(** Text of printable characters that fits into the rest of the line appears
    there, in the current colour, the cursor moves behind it, and nothing else
    on the screen changes. *)
Theorem written_text_is_visible d s (r : list VgaChar) :
  vga_inv d → Forall (λ b, 0x20 ≤ b ≤ 0x7e) s → cursor_col d + len s ≤ 80 →
  buffer d !! Z.to_nat (cursor_row d) = Some r →
  let c := Z.to_nat (cursor_col d) in
  write_string d s = Val (move_cursor (set_buffer d
    (<[Z.to_nat (cursor_row d) := take c r ++ (cell d <$> s) ++ drop (c + length s) r]> (buffer d)))
    (cursor_row d) (cursor_col d + len s)).
Proof.
  intros Hinv Hs Hfit Hr. cbn zeta. destruct (write_string_val d s Hinv) as [-> _]. f_equal.
  revert d r Hinv Hfit Hr. induction s as [|b s IH]; intros d r Hinv Hfit Hr.
  { cbn. rewrite Nat.add_0_r, take_drop, Z.add_0_r, list_insert_id by done. by destruct d. }
  apply Forall_cons in Hs as [Hb Hs]. specialize (IH Hs).
  destruct Hinv as [Hsc Hrow Hcol Hcl]. unfold len in Hfit. cbn [length] in Hfit.
  assert (length r = 80%nat) as Hlr.
  { destruct (screen_row _ _ Hsc Hrow) as (r' & Hr' & ?). congruence. }
  assert (shown b = b ∧ (b =? 10) = false ∧ (80 <=? cursor_col d) = false) as (Hsh & H10 & H80).
  { unfold shown. rewrite (proj2 (Z.leb_le _ _)), (proj2 (Z.leb_le b _)) by lia.
    split_and!; [done|by apply Z.eqb_neq; lia|by apply Z.leb_gt; lia]. }
  destruct (write_byte_val d b) as [_ Hinv1]; [done|].
  cbn [foldl]. rewrite Hsh. unfold ref_write_byte in *. rewrite H10, H80 in *.
  rewrite (IH _ (<[Z.to_nat (cursor_col d) := cell d b]> r) Hinv1).
  - unfold ref_put. cbn [cursor_row cursor_col move_cursor set_buffer buffer color_code status cell].
    unfold move_cursor, set_buffer. cbn [cursor_row cursor_col buffer color_code status]. f_equal.
    + assert (∀ r', <[Z.to_nat (cursor_row d) := r']> (alter (<[Z.to_nat (cursor_col d) := cell d b]>)
        (Z.to_nat (cursor_row d)) (buffer d)) = <[Z.to_nat (cursor_row d) := r']> (buffer d)) as Hal.
      { intros r'. apply list_eq. intros i. destruct (decide (i = Z.to_nat (cursor_row d))) as [->|].
        - apply lookup_lt_Some in Hr. rewrite !list_lookup_insert_eq; [done|done|by rewrite length_alter].
        - by rewrite !list_lookup_insert_ne, list_lookup_alter_ne. }
      etrans; [apply Hal|]. f_equal. unfold cell at 2. cbn [color_code].
      replace (Z.to_nat (cursor_col d + 1)) with (S (Z.to_nat (cursor_col d))) by lia.
      set (c := Z.to_nat (cursor_col d)). cbn [fmap list_fmap].
      rewrite (take_S_r _ _ (cell d b)) by (apply list_lookup_insert_eq; lia).
      rewrite take_insert_ge, drop_insert_lt by lia. rewrite <-app_assoc. cbn [app length].
      by replace (S c + length s)%nat with (c + S (length s))%nat by lia.
    + unfold len. cbn [length]. lia.
  - unfold ref_put, len. cbn. lia.
  - unfold ref_put. cbn. by rewrite list_lookup_alter_eq, Hr.
Qed.

(** ** Witnesses *)
Definition demo_screen : list (list VgaChar) := replicate 25 (blank_row 7).
Lemma demo_screen_ok : screen demo_screen.
Proof. apply screen_blank. Qed.
Lemma demo_vga_inv : vga_inv (new demo_screen).
Proof. split; cbn; [apply demo_screen_ok|lia..|done]. Qed.

Lemma vga_stays_on_screen_witness :
  ∃ d, for_each run_call [CallInit []; CallRequest (Control 0x03 [24; 79]);
      CallRequest (Write 0 [65; 66; 10])] (new demo_screen) = Val d ∧ status d = Ready.
Proof.
  destruct (vga_stays_on_screen demo_screen [CallInit []; CallRequest (Control 0x03 [24; 79]);
      CallRequest (Write 0 [65; 66; 10])] demo_screen_ok) as (d & Hd & _ & Hs).
  - rewrite !Forall_cons, Forall_nil. cbn [call_ok request_ok]. unfold bytes.
    rewrite !Forall_cons, !Forall_nil. lia.
  - exists d. split; [exact Hd|exact Hs].
Defined.

Lemma write_string_refines_witness :
  ∃ d, write_string (new demo_screen) [72; 105] = Val d ∧ get_cursor d = (0, 2).
Proof.
  destruct (write_string_refines (new demo_screen) [72; 105] demo_vga_inv) as [E _].
  eexists. split; [exact E|reflexivity].
Defined.

Lemma written_text_is_visible_witness :
  ∃ d, write_string (new demo_screen) [72; 105] = Val d ∧
    take 2 <$> head (buffer d) = Some [cell (new demo_screen) 72; cell (new demo_screen) 105].
Proof.
  assert (Forall (λ b, 0x20 ≤ b ≤ 0x7e) [72; 105]) as Hs by (rewrite !Forall_cons, Forall_nil; lia).
  pose proof (written_text_is_visible (new demo_screen) [72; 105] (blank_row 7) demo_vga_inv Hs
    ltac:(vm_compute; congruence) ltac:(reflexivity)) as E.
  eexists. split; [exact E|reflexivity].
Defined.
