(* ===== verification/Console.v ===== *)
(** * The kernel console

    Models the rest of [kernel/src/vga_buffer.rs] (colours, the global [WRITER],
    the printing macros), [kernel/src/serial.rs], the console self-test of
    [kernel/src/boot.rs] and the panic handler of [kernel/src/main.rs].

    The writer itself is in [Vga].  [format_args!] hands [write_fmt] the pieces of
    a message one after the other; a message is the list of its pieces.  The UART
    driver is a crate: the class [SerialPort], with what it sends as its law. *)
From S2P Require Import Prelude Text Vga.

(** ** Colours *)
Module Color.
Inductive Color :=
  | Black | Blue | Green | Cyan | Red | Magenta | Brown | LightGray
  | DarkGray | LightBlue | LightGreen | LightCyan | LightRed | Pink | Yellow | White.
Definition as_u8 (c : Color) : Z :=
  match c with
  | Black => 0 | Blue => 1 | Green => 2 | Cyan => 3 | Red => 4 | Magenta => 5 | Brown => 6 | LightGray => 7
  | DarkGray => 8 | LightBlue => 9 | LightGreen => 10 | LightCyan => 11 | LightRed => 12 | Pink => 13
  | Yellow => 14 | White => 15
  end.
(** [ColorCode::new]. *)
Definition code_new (foreground background : Color) : Z :=
  Z.lor (Z.shiftl (as_u8 background) 4 mod 2 ^ 8) (as_u8 foreground).
End Color.

(** ** The serial port *)

(** [SerialPort] of the [uart_16550] crate: writing a string fails or leaves the
    port in a new state.  Text without backspace and delete is sent as it is. *)
Class SerialPort (S : Type) := {
  serial_init : S → S;
  serial_write_str : S → list Z → option S;
  transmitted : S → list Z;
}.
Definition plain (s : text) : Prop := Forall (λ b, b = 10 ∨ 0x20 ≤ b ≤ 0x7e) s.
Class SerialPortLaws (S : Type) `{SerialPort S} := {
  serial_write_sends s b : plain b →
    ∃ s', serial_write_str s b = Some s' ∧ transmitted s' = transmitted s ++ b;
}.

(** ** Printing *)

(** A line printed on the serial port or on the screen. *)
Inductive line := Serial (s : text) | Screen (s : text).
#[export] Instance line_eq_dec : EqDecision line.
Proof. solve_decision. Defined.

Section console.
Context {S : Type} `{SerialPort S}.

(** The globals [WRITER] and [SERIAL1]. *)
Record Consoles := { WRITER : Writer; SERIAL1 : S }.
Definition WRITER_start (memory : list (list VgaChar)) : Writer :=
  {| column_position := 0; writer_color := Color.code_new Color.Yellow Color.Black; writer_buffer := memory |}.
Definition consoles_start (memory : list (list VgaChar)) (port : S) : Consoles :=
  {| WRITER := WRITER_start memory; SERIAL1 := serial_init port |}.

(** [Write::write_str] of the writer never fails, so the [unwrap] of [_print] does
    not panic; the [expect] of the serial [_print] may. *)
Definition write_str (s : list Z) (w : Writer) : outcome Writer := writer_write_string w s.
Definition vga_print (args : list text) (w : Writer) : outcome Writer := for_each write_str args w.
Definition serial_write_fmt (args : list text) (p : S) : outcome S :=
  for_each (λ s p, match serial_write_str p s with Some p => Val p | None => Panic end) args p.

(** [print!], [println!], [serial_print!] and [serial_println!]. *)
Definition print (args : list text) (c : Consoles) : outcome Consoles :=
  w ← vga_print args (WRITER c); Val {| WRITER := w; SERIAL1 := SERIAL1 c |}.
Definition println (args : list text) (c : Consoles) : outcome Consoles := print (args ++ [[newline]]) c.
Definition serial_print (args : list text) (c : Consoles) : outcome Consoles :=
  p ← serial_write_fmt args (SERIAL1 c); Val {| WRITER := WRITER c; SERIAL1 := p |}.
Definition serial_println (args : list text) (c : Consoles) : outcome Consoles := serial_print (args ++ [[newline]]) c.

(** One printing statement, and a sequence of them. *)
Definition emit_line (l : line) (c : Consoles) : outcome Consoles :=
  match l with Serial s => serial_println [s] c | Screen s => println [s] c end.
Definition emit (ls : list line) (c : Consoles) : outcome Consoles := for_each emit_line ls c.

(** ** The console self-test and the panic handler *)
Definition test_console_output : list line :=
  [Serial (txt "Testing console output..."); Screen (txt "VGA console test: Colors and formatting");
   Serial (txt "Serial console test: Debug output working")] ++
  mjoin ((λ i, [Screen (txt "Console test line " ++ number (i + 1)); Serial (txt "Serial test line " ++ number (i + 1))])
           <$> seqZ 0 3) ++
  [Serial (txt "Console output test complete")].

(** The [PanicInfo]: where and why. *)
Record PanicInfo := { location : option (text * Z); message : text }.
Definition panic_details (info : PanicInfo) : list line :=
  match location info with
  | Some (file, l) =>
      [Serial (txt "Panic occurred in file '" ++ file ++ txt "' at line " ++ number l);
       Screen (txt "Panic at " ++ file ++ txt ":" ++ number l)]
  | None => []
  end ++
  [Serial (txt "Panic message: " ++ message info); Screen (txt "Message: " ++ message info);
   Serial (txt "System halted."); Screen (txt "System halted.")].
Definition panic_lines (info : PanicInfo) : list line :=
  Serial (newline :: txt "!!! KERNEL PANIC !!!") :: Screen (newline :: txt "!!! KERNEL PANIC !!!") :: panic_details info.
(** Then the processor is halted for good; the result is what it leaves behind. *)
Definition panic (info : PanicInfo) (c : Consoles) : outcome Consoles := emit (panic_lines info) c.
End console.

(** ** The screen as a window on the lines printed *)

(** A line of printable characters that fits on a row, and the row that shows it. *)
Definition line_ok (s : text) : Prop := Forall (λ b, 0x20 ≤ b ≤ 0x7e) s ∧ len s ≤ 80.
Definition row_of (color : Z) (s : text) : list VgaChar :=
  ((λ b, {| ascii_character := b; cell_color := color |}) <$> s) ++ replicate (80 - length s) (Vga.blank color).

Record writer_ok (w : Writer) : Prop := {
  wo_screen : screen (writer_buffer w);
  wo_column : 0 ≤ column_position w ≤ 80;
  wo_color : 0 ≤ writer_color w < 256;
}.
(** At the start of an empty last row. *)
Record writer_ready (w : Writer) : Prop := {
  wr_ok : writer_ok w;
  wr_column : column_position w = 0;
  wr_last : writer_buffer w !! 24%nat = Some (blank_row (writer_color w));
}.
Definition window (w : Writer) : list (list VgaChar) := take 24 (writer_buffer w).

Lemma as_driver_inj w w' : as_driver w = as_driver w' → w = w'.
Proof. destruct w, w'. unfold as_driver. cbn. by intros [= -> -> ->]. Qed.
Lemma writer_of_driver w s w' : write_string (as_driver w) s = Val (as_driver w') → writer_write_string w s = Val w'.
Proof.
  rewrite writer_equals_driver. destruct (writer_write_string w s) as [w1| |]; try done.
  cbn. intros E. f_equal. apply as_driver_inj. congruence.
Qed.
Lemma writer_ok_inv w : writer_ok w → vga_inv (as_driver w).
Proof. intros []. split; cbn; [done|lia|done|done]. Qed.

(** A newline from anywhere leaves the writer ready. *)
Lemma newline_val w : writer_ok w →
  ∃ w', writer_write_string w [newline] = Val w' ∧ writer_ready w' ∧ window w' = tail (writer_buffer w) ∧
    writer_color w' = writer_color w.
Proof.
  intros Hw. destruct Hw as [Hs Hc Hcol].
  set (w' := {| column_position := 0; writer_color := writer_color w;
                writer_buffer := tail (writer_buffer w) ++ [blank_row (writer_color w)] |}).
  assert (length (tail (writer_buffer w)) = 24%nat) as Hlen.
  { destruct Hs as [Hl _]. destruct (writer_buffer w); cbn in *; lia. }
  exists w'. split_and!; [| | |done].
  - apply writer_of_driver. destruct (write_string_val (as_driver w) [newline]) as [-> _]; [by apply writer_ok_inv|].
    done.
  - split; [|done|]; [split; cbn; [by apply screen_scrolled|lia|done]|].
    cbn. rewrite lookup_app_r, Hlen by lia. done.
  - unfold window. cbn. by rewrite take_app_le, take_ge by lia.
Qed.

Lemma write_string_app w s s' : writer_write_string w (s ++ s') = (w ← writer_write_string w s; writer_write_string w s').
Proof. unfold writer_write_string. apply for_each_app. Qed.

(** A line from the start of an empty row scrolls into view. *)
Lemma line_val w s : writer_ready w → line_ok s →
  ∃ w', writer_write_string w (s ++ [newline]) = Val w' ∧ writer_ready w' ∧
    window w' = drop 1 (window w ++ [row_of (writer_color w) s]) ∧ writer_color w' = writer_color w.
Proof.
  intros [Hw Hc Hlast] [Hs Hlen]. pose proof Hw as [Hscr _ Hcol].
  set (w1 := {| column_position := len s; writer_color := writer_color w;
                writer_buffer := <[24%nat := row_of (writer_color w) s]> (writer_buffer w) |}).
  assert (length (row_of (writer_color w) s) = 80%nat) as Hrow.
  { unfold row_of. rewrite length_app, length_fmap, length_replicate. unfold len in Hlen. lia. }
  assert (writer_ok w1) as Hw1.
  { split; cbn; [by apply screen_insert|unfold len in *; lia|done]. }
  assert (writer_write_string w s = Val w1) as Hwrite.
  { apply writer_of_driver.
    rewrite (written_text_is_visible (as_driver w) s (blank_row (writer_color w))); [|by apply writer_ok_inv|done|cbn; lia|done].
    cbn [as_driver cursor_row cursor_col color_code]. rewrite Hc. unfold as_driver. cbn -[blank_row]. f_equal.
    unfold move_cursor, set_buffer. cbn -[blank_row]. f_equal. f_equal. unfold row_of.
    change (Z.to_nat 0) with 0%nat. rewrite take_0, app_nil_l, Nat.add_0_l. f_equal.
    unfold blank_row. by rewrite drop_replicate. }
  destruct (newline_val w1 Hw1) as (w' & Hw' & Hr' & Hwin & Hcl).
  exists w'. rewrite write_string_app, Hwrite. cbn [mbind outcome_bind]. split_and!; [done|done| |done].
  rewrite Hwin. cbn [w1 writer_buffer]. unfold window. destruct Hscr as [Hl _].
  rewrite insert_take_drop, (drop_ge _ 25) by lia.
  destruct (writer_buffer w) as [|r0 b]; done.
Qed.

Section console_theory.
Context {S : Type} `{SerialPortLaws S}.
Implicit Types c : Consoles (S:=S).

Definition screen_lines (ls : list line) : list text := omap (λ l, match l with Screen s => Some s | Serial _ => None end) ls.
Definition serial_lines (ls : list line) : list text := omap (λ l, match l with Serial s => Some s | Screen _ => None end) ls.
(** What a list of lines sends. *)
Definition sent (ls : list text) : text := mjoin ((λ s, s ++ [newline]) <$> ls).

Lemma vga_print_pieces (args : list text) w : vga_print args w = writer_write_string w (mjoin args).
Proof.
  revert w. induction args as [|s args IH]; intros w; [done|].
  change (mjoin (s :: args)) with (s ++ mjoin args). rewrite write_string_app. unfold vga_print in *.
  cbn [for_each]. change (write_str s w) with (writer_write_string w s). destruct (writer_write_string w s); [apply IH|done..].
Qed.

Lemma println_val c (s : text) : writer_ready (WRITER c) → line_ok s →
  ∃ c', emit_line (Screen s) c = Val c' ∧ SERIAL1 c' = SERIAL1 c ∧ writer_ready (WRITER c') ∧
    writer_color (WRITER c') = writer_color (WRITER c) ∧
    window (WRITER c') = drop 1 (window (WRITER c) ++ [row_of (writer_color (WRITER c)) s]).
Proof.
  intros Hr Hs. destruct (line_val _ s Hr Hs) as (w' & Hw & ? & ? & ?).
  cbn [emit_line]. unfold println, print. rewrite vga_print_pieces. change (mjoin ([s] ++ [[newline]])) with (s ++ [newline]). rewrite Hw. cbn [mbind outcome_bind].
  eexists. by split_and!.
Qed.
Lemma serial_println_val c (s : text) : plain s →
  ∃ c', emit_line (Serial s) c = Val c' ∧ WRITER c' = WRITER c ∧
    transmitted (SERIAL1 c') = transmitted (SERIAL1 c) ++ s ++ [newline].
Proof.
  intros Hs. cbn [emit_line]. unfold serial_println, serial_print, serial_write_fmt. cbn.
  destruct (serial_write_sends (SERIAL1 c) s Hs) as (p & -> & E). cbn.
  destruct (serial_write_sends p [newline]) as (p' & -> & E'); [repeat constructor|]. cbn.
  eexists. split_and!; [done|done|]. cbn. by rewrite E', E, app_assoc.
Qed.

Definition printable_line (l : line) : Prop := match l with Screen s => line_ok s | Serial s => plain s end.

#[export] Instance printable_line_dec l : Decision (printable_line l).
Proof. destruct l; unfold printable_line, line_ok, plain; apply _. Defined.

Lemma emit_val ls c : writer_ready (WRITER c) → Forall printable_line ls →
  ∃ c', emit ls c = Val c' ∧ writer_ready (WRITER c') ∧
    writer_color (WRITER c') = writer_color (WRITER c) ∧
    window (WRITER c') = drop (length (screen_lines ls))
      (window (WRITER c) ++ (row_of (writer_color (WRITER c)) <$> screen_lines ls)) ∧
    transmitted (SERIAL1 c') = transmitted (SERIAL1 c) ++ sent (serial_lines ls).
Proof.
  intros Hr Hls. revert c Hr. induction Hls as [|l ls Hl _ IH]; intros c Hr.
  { exists c. cbn. rewrite !app_nil_r. done. }
  unfold emit in *. cbn [for_each]. destruct l as [s|s]; cbn [printable_line] in *.
  - destruct (serial_println_val c s Hl) as (c1 & -> & Ew & Et). cbn [mbind outcome_bind].
    destruct (IH c1) as (c' & Hc' & ? & ? & ? & E); [by rewrite Ew|]. rewrite Ew in *. exists c'. split_and!; try done.
    rewrite E, Et. cbn. by rewrite <-!app_assoc.
  - destruct (println_val c s Hr Hl) as (c1 & -> & Es & Hr1 & Hcl & Hwin). cbn [mbind outcome_bind].
    destruct (IH c1 Hr1) as (c' & Hc' & ? & Hcl' & Hwin' & E). rewrite Hcl, Hwin, Es in *. exists c'. split_and!; try done.
    rewrite Hwin'. cbn. assert (window (WRITER c) ≠ []) as Hne.
    { unfold window. pose proof (wo_screen _ (wr_ok _ Hr)) as [Hlen _]. destruct (writer_buffer (WRITER c)); done. }
    destruct (window (WRITER c)) as [|r0 b]; [done|]. cbn. by rewrite drop_0, <-app_assoc.
Qed.

(** C28: The screen is a window on everything printed.  However serial and screen
    output are interleaved, printing lines that fit on a row never panics; the 24
    rows above the cursor are the last 24 of what they showed before followed by
    the screen lines, in order and in the writer's colour; the serial port has
    sent the serial lines, in order. *)
Theorem console_shows_latest ls c : writer_ready (WRITER c) → Forall printable_line ls →
  ∃ c', emit ls c = Val c' ∧ writer_ready (WRITER c') ∧
    window (WRITER c') = drop (length (screen_lines ls))
      (window (WRITER c) ++ (row_of (writer_color (WRITER c)) <$> screen_lines ls)) ∧
    transmitted (SERIAL1 c') = transmitted (SERIAL1 c) ++ sent (serial_lines ls).
Proof. intros Hr Hls. destruct (emit_val ls c Hr Hls) as (c' & ? & ? & _ & ? & ?). by exists c'. Qed.

Lemma break_println_val c (s : text) : writer_ok (WRITER c) → line_ok s →
  ∃ c', emit_line (Screen (newline :: s)) c = Val c' ∧ SERIAL1 c' = SERIAL1 c ∧ writer_ready (WRITER c') ∧
    writer_color (WRITER c') = writer_color (WRITER c) ∧
    window (WRITER c') = drop 1 (tail (writer_buffer (WRITER c)) ++ [row_of (writer_color (WRITER c)) s]).
Proof.
  intros Hw Hs. destruct (newline_val _ Hw) as (w1 & Hw1 & Hr1 & Hwin & Hcl).
  destruct (line_val w1 s Hr1 Hs) as (w' & Hw' & ? & ? & ?). cbn [emit_line]. unfold println, print.
  rewrite vga_print_pieces. change (mjoin ([newline :: s : text] ++ [[newline]])) with ([newline] ++ (s ++ [newline])). rewrite write_string_app, Hw1.
  cbn [mbind outcome_bind]. rewrite Hw'. cbn [mbind outcome_bind]. rewrite Hwin, Hcl in *. eexists. by split_and!.
Qed.

(** The panic screen.  Wherever the cursor is when the kernel panics, the
    handler returns to the start of a line and the screen ends with the banner,
    the place (if it is known), the message and the notice that the system is
    halted, above an empty row; the rows before are those that were there.  The
    serial port has sent the same report. *)
Theorem panic_report_visible info c : writer_ok (WRITER c) → Forall printable_line (panic_details info) →
  ∃ c', panic info c = Val c' ∧ writer_ready (WRITER c') ∧
    (let shown := txt "!!! KERNEL PANIC !!!" :: screen_lines (panic_details info) in
     window (WRITER c') = drop (length shown)
       (tail (writer_buffer (WRITER c)) ++ (row_of (writer_color (WRITER c)) <$> shown))) ∧
    transmitted (SERIAL1 c') = transmitted (SERIAL1 c) ++ sent (serial_lines (panic_lines info)).
Proof.
  intros Hw Hd. unfold panic, emit, panic_lines. cbn [for_each].
  destruct (serial_println_val c (newline :: txt "!!! KERNEL PANIC !!!")) as (c1 & -> & Ew & Et).
  { apply (bool_decide_unpack _). vm_compute. done. }
  cbn [mbind outcome_bind].
  destruct (break_println_val c1 (txt "!!! KERNEL PANIC !!!")) as (c2 & -> & Es & Hr2 & Hcl & Hwin); [by rewrite Ew| |].
  { split; [apply (bool_decide_unpack _); vm_compute; done|vm_compute; done]. }
  cbn [mbind outcome_bind].
  fold (emit (panic_details info) c2).
  destruct (emit_val (panic_details info) c2 Hr2 Hd) as (c' & -> & Hr' & _ & Hwin' & Et').
  exists c'. rewrite Hwin, Hcl, Ew in *. split_and!; [done|done| |].
  - cbn zeta. rewrite Hwin'. pose proof (wo_screen _ Hw) as [Hlen _].
    destruct (writer_buffer (WRITER c)) as [|r0 [|r1 b]]; [done..|]. cbn [tail app drop length fmap list_fmap].
    by rewrite drop_0, <-app_assoc.
  - rewrite Et', Es, Et. cbn. by rewrite <-!app_assoc.
Qed.
End console_theory.

(** The console self-test: four lines on the screen, six on the serial port. *)
Lemma console_selftest_output {S} `{SerialPortLaws S} (c : Consoles (S:=S)) : writer_ready (WRITER c) →
  ∃ c', emit test_console_output c = Val c' ∧ writer_ready (WRITER c') ∧
    window (WRITER c') = drop 4 (window (WRITER c) ++ (row_of (writer_color (WRITER c)) ∘ txt <$>
      ["VGA console test: Colors and formatting"; "Console test line 1"; "Console test line 2"; "Console test line 3"])).
Proof.
  intros Hr. destruct (emit_val test_console_output c Hr) as (c' & ? & ? & _ & Hwin & _).
  - apply (bool_decide_unpack _). vm_compute. done.
  - exists c'. split_and!; [done|done|]. rewrite Hwin. done.
Qed.

(** ** A port that logs what it is asked to write, and a cleared screen *)
#[export] Instance log_port : SerialPort (list Z) := {|
  serial_init := id; serial_write_str s b := Some (s ++ b); transmitted := id |}.
#[export] Instance log_port_laws : SerialPortLaws (list Z).
Proof. split. intros s b _. by exists (s ++ b). Qed.
Definition cleared : Consoles (S:=list Z) := consoles_start (replicate 25 (blank_row 14)) [].
Lemma cleared_ready : writer_ready (WRITER cleared).
Proof. split; [|done|done]. split; [apply screen_blank|cbn; lia|vm_compute; intuition discriminate]. Qed.

Lemma console_shows_latest_witness : ∃ c',
  emit [Serial (txt "up"); Screen (txt "hello")] cleared = Val c' ∧
  last (window (WRITER c')) = Some (row_of 14 (txt "hello")) ∧ SERIAL1 c' = txt "up" ++ [newline].
Proof.
  destruct (console_shows_latest [Serial (txt "up"); Screen (txt "hello")] cleared cleared_ready) as (c' & ? & _ & Hw & Ht).
  { apply (bool_decide_unpack _). vm_compute. done. }
  exists c'. split_and!; [done| |exact Ht]. rewrite Hw. reflexivity.
Defined.

Definition demo_panic : PanicInfo :=
  {| location := Some (txt "kernel/src/boot.rs", 696); message := txt "Virtual memory initialization failed" |}.
Lemma panic_report_visible_witness : ∃ c', panic demo_panic cleared = Val c' ∧
  last (window (WRITER c')) = Some (row_of 14 (txt "System halted.")).
Proof.
  destruct (panic_report_visible demo_panic cleared) as (c' & ? & _ & Hw & _).
  { apply cleared_ready. }
  { apply (bool_decide_unpack _). vm_compute. done. }
  exists c'. split; [done|]. rewrite Hw. reflexivity.
Defined.
