(* ===== verification/BootParams.v ===== *)
(** * The boot command line

    Models [parse_boot_parameters] of [kernel/src/main.rs]: what it prints on the
    serial line and on the screen.  What the boot loader passes (the tags of the
    multiboot2 crate) is its argument. *)
From S2P Require Import Prelude Text Console.

Definition eqs (s : text) (lit : string) : bool := bool_decide (s = txt lit).
Definition on (value : text) : bool := eqs value "1" || eqs value "true".
Definition off (value : text) : bool := eqs value "false" || eqs value "0".
Definition announce (b : bool) (serial screen : string) : list line :=
  if b then [Serial (txt serial); Screen (txt screen)] else [].

(** [key=value]. *)
Definition keyed (key value : text) : list line :=
  if eqs key "debug" then announce (on value) "Debug mode enabled" "Debug mode: ON"
  else if eqs key "log_level" then [Serial (txt "Log level set to: " ++ value); Screen (txt "Log level: " ++ value)]
  else if eqs key "safe_mode" then announce (on value) "Safe mode enabled" "Safe mode: ON"
  else if eqs key "driver_autoload" then announce (off value) "Driver autoload disabled" "Driver autoload: OFF"
  else if eqs key "recovery" then announce (on value) "Recovery mode enabled" "Recovery mode: ON"
  else if eqs key "single_user" then announce (on value) "Single user mode enabled" "Single user mode: ON"
  else [Serial (txt "Unknown boot parameter: " ++ key ++ txt "=" ++ value)].
(** A flag without a value. *)
Definition flag (param : text) : list line :=
  if eqs param "debug" then announce true "Debug mode enabled (flag)" "Debug mode: ON"
  else if eqs param "safe_mode" then announce true "Safe mode enabled (flag)" "Safe mode: ON"
  else [Serial (txt "Unknown boot flag: " ++ param)].
Definition equals_sign : Z := 61.
Definition handle_param (param : text) : list line :=
  match split_once equals_sign param with
  | Some (key, value) => keyed key value
  | None => flag param
  end.

(** The tags: the command line ([None]: no tag; [Some None]: not UTF-8), the name
    of the boot loader, the number of ELF sections, the framebuffer. *)
Record BootInfo := {
  command_line_tag : option (option text);
  boot_loader_name_tag : option (option text);
  elf_sections : option Z;
  framebuffer_tag : option (option (Z * Z * Z));
}.
Definition command_line_lines (i : BootInfo) : list line :=
  match command_line_tag i with
  | Some (Some cmdline) =>
      Serial (txt "Kernel command line: " ++ cmdline) :: Screen (txt "Boot parameters: " ++ cmdline) ::
      mjoin (handle_param <$> split_whitespace cmdline)
  | Some None => []
  | None => [Serial (txt "No command line parameters found"); Screen (txt "No boot parameters")]
  end.
Definition parse_boot_parameters (i : BootInfo) : list line :=
  [Serial (txt "Parsing boot parameters...")] ++ command_line_lines i ++
  match boot_loader_name_tag i with
  | Some (Some name) => [Serial (txt "Bootloader: " ++ name); Screen (txt "Bootloader: " ++ name)]
  | _ => []
  end ++
  match elf_sections i with
  | Some n => [Serial (txt "ELF sections available: " ++ number n ++ txt " sections")]
  | None => []
  end ++
  match framebuffer_tag i with
  | Some (Some (w, h, bpp)) =>
      [Serial (txt "Framebuffer: " ++ number w ++ txt "x" ++ number h ++ txt " @ " ++ number bpp ++ txt " bpp")]
  | _ => []
  end ++
  [Serial (txt "Boot parameter parsing complete")].

(** ** Specification

    Which words announce what on the screen. *)
Definition announcements : list (string * string) :=
  [("debug", "Debug mode: ON"); ("debug=1", "Debug mode: ON"); ("debug=true", "Debug mode: ON");
   ("safe_mode", "Safe mode: ON"); ("safe_mode=1", "Safe mode: ON"); ("safe_mode=true", "Safe mode: ON");
   ("driver_autoload=false", "Driver autoload: OFF"); ("driver_autoload=0", "Driver autoload: OFF");
   ("recovery=1", "Recovery mode: ON"); ("recovery=true", "Recovery mode: ON");
   ("single_user=1", "Single user mode: ON"); ("single_user=true", "Single user mode: ON")].
Definition announces (w l : text) : Prop :=
  (∃ a, a ∈ announcements ∧ w = txt a.1 ∧ l = txt a.2) ∨
  ∃ v, w = txt "log_level=" ++ v ∧ l = txt "Log level: " ++ v.

Lemma is_spec s lit : eqs s lit = true ↔ s = txt lit.
Proof. apply bool_decide_eq_true. Qed.

Lemma screen_announce b serial screen l : Screen l ∈ announce b serial screen ↔ b = true ∧ l = txt screen.
Proof.
  unfold announce. destruct b; [|split; [by intros ?%not_elem_of_nil|by intros []]].
  rewrite elem_of_cons, list_elem_of_singleton. split; [intros [?|[= ->]]; done|intros [_ ->]; auto].
Qed.

Lemma on_spec v : on v = true ↔ v = txt "1" ∨ v = txt "true".
Proof. unfold on. by rewrite orb_true_iff, !is_spec. Qed.
Lemma off_spec v : off v = true ↔ v = txt "false" ∨ v = txt "0".
Proof. unfold off. by rewrite orb_true_iff, !is_spec. Qed.

(** Finds the entry of the list of announcements for a literal word and line. *)
Ltac listed_at k := eexists; split; [apply (list_elem_of_lookup_2 announcements k); reflexivity|split; reflexivity].
Ltac listed := left; first
  [ listed_at 0%nat | listed_at 1%nat | listed_at 2%nat | listed_at 3%nat | listed_at 4%nat | listed_at 5%nat
  | listed_at 6%nat | listed_at 7%nat | listed_at 8%nat | listed_at 9%nat | listed_at 10%nat | listed_at 11%nat ].

Lemma keyed_announces key value l : Screen l ∈ keyed key value → announces (key ++ equals_sign :: value) l.
Proof.
  unfold keyed. destruct (eqs key "debug") eqn:E1.
  { apply is_spec in E1 as ->. intros [[-> | ->]%on_spec ->]%screen_announce; listed. }
  destruct (eqs key "log_level") eqn:E2.
  { apply is_spec in E2 as ->. intros [?|[= ->]%list_elem_of_singleton]%elem_of_cons; [done|]. right. by exists value. }
  destruct (eqs key "safe_mode") eqn:E3.
  { apply is_spec in E3 as ->. intros [[-> | ->]%on_spec ->]%screen_announce; listed. }
  destruct (eqs key "driver_autoload") eqn:E4.
  { apply is_spec in E4 as ->. intros [[-> | ->]%off_spec ->]%screen_announce; listed. }
  destruct (eqs key "recovery") eqn:E5.
  { apply is_spec in E5 as ->. intros [[-> | ->]%on_spec ->]%screen_announce; listed. }
  destruct (eqs key "single_user") eqn:E6.
  { apply is_spec in E6 as ->. intros [[-> | ->]%on_spec ->]%screen_announce; listed. }
  by intros ?%list_elem_of_singleton.
Qed.

Lemma handle_param_announces w l : Screen l ∈ handle_param w ↔ announces w l.
Proof.
  split.
  - unfold handle_param. destruct (split_once equals_sign w) as [[key value]|] eqn:E.
    + apply split_once_Some in E as [-> _]. apply keyed_announces.
    + unfold flag. destruct (eqs w "debug") eqn:E1.
      { apply is_spec in E1 as ->. intros [_ ->]%screen_announce. listed. }
      destruct (eqs w "safe_mode") eqn:E2; [|by intros ?%list_elem_of_singleton].
      apply is_spec in E2 as ->. intros [_ ->]%screen_announce. listed.
  - intros [([a b] & Hin & -> & ->)|(v & -> & ->)].
    + cbn [fst snd]. unfold announcements in Hin. rewrite !elem_of_cons, elem_of_nil in Hin.
      destruct_or!; try done; injection Hin as -> ->; apply (bool_decide_unpack _); vm_compute; done.
    + apply elem_of_cons. right. apply elem_of_cons. by left.
Qed.

(** The boot command line is read word by word.  However the words are
    separated, the screen announces a setting exactly if one of the words asks for
    it: [debug], [safe_mode] alone or switched on with [=1] or [=true],
    [driver_autoload] switched off, [recovery] and [single_user] switched on, and
    the value of every [log_level]; apart from the command line itself nothing else
    is shown. *)
Theorem boot_parameters_announced ws cmdline l : spaced ws cmdline →
  Screen l ∈ command_line_lines {| command_line_tag := Some (Some cmdline); boot_loader_name_tag := None;
                                   elf_sections := None; framebuffer_tag := None |} ↔
  l = txt "Boot parameters: " ++ cmdline ∨ ∃ w, w ∈ ws ∧ announces w l.
Proof.
  intros Hs. unfold command_line_lines. cbn [command_line_tag]. rewrite (spaced_split ws cmdline Hs), !elem_of_cons.
  rewrite list_elem_of_join. setoid_rewrite list_elem_of_fmap. split.
  - intros [?|[[= ->]|(ls & Hl & w & -> & Hw)]]; [done|by left|right]. exists w. split; [done|]. by apply handle_param_announces.
  - intros [->|(w & Hw & Ha)]; [auto|]. right; right. exists (handle_param w). split; [by apply handle_param_announces|].
    by exists w.
Qed.

Lemma boot_parameters_announced_witness :
  Screen (txt "Safe mode: ON") ∈ command_line_lines {| command_line_tag := Some (Some (txt "root=/dev/sda1  safe_mode=true"));
    boot_loader_name_tag := None; elf_sections := None; framebuffer_tag := None |}.
Proof.
  apply (boot_parameters_announced [txt "root=/dev/sda1"; txt "safe_mode=true"]).
  - apply (split_spaced (txt "root=/dev/sda1  safe_mode=true")).
  - right. exists (txt "safe_mode=true"). split; [right; by left|]. listed.
Defined.
