(* ===== verification/Descriptors.v ===== *)
(** * Segment descriptors and the task state

    Models the statics [TSS] and [GDT] and the function [init_gdt] of
    [kernel/src/boot.rs].  The tables are built with the [x86_64] crate: the types
    and functions the source uses of it are the class [DescriptorTables], where
    [None] is a panic, and what the crate documents of them is
    [DescriptorTablesLaws].  The class also holds the address the linker gives the
    double-fault stack. *)
From S2P Require Import Prelude Context Vmm.

Class DescriptorTables := {
  TaskStateSegment : Type;
  tss_new : TaskStateSegment;
  interrupt_stack_table : TaskStateSegment → list Z;
  set_interrupt_stack : TaskStateSegment → Z → Z → option TaskStateSegment;
  VirtAddr_from_ptr : Z → option Z;
  VirtAddr_add : Z → Z → option Z;
  Descriptor : Type;
  kernel_code_segment : Descriptor;
  kernel_data_segment : Descriptor;
  tss_segment : TaskStateSegment → Descriptor;
  GlobalDescriptorTable : Type;
  gdt_new : GlobalDescriptorTable;
  add_entry : GlobalDescriptorTable → Descriptor → option (Z * GlobalDescriptorTable);
  table_words : GlobalDescriptorTable → list Z;
  STACK : Z;
}.

(** What the processor has loaded: the words of the descriptor table, the segment
    registers and the task register. *)
Record Segments := {
  gdtr : list Z;
  seg_cs : Z; seg_ds : Z; seg_es : Z; seg_fs : Z; seg_gs : Z; seg_ss : Z;
  task_register : Z;
}.
(** Before [init_gdt] they are the boot loader's, which it replaces; they start at 0 here. *)
Definition loader_segments : Segments :=
  {| gdtr := []; seg_cs := 0; seg_ds := 0; seg_es := 0; seg_fs := 0; seg_gs := 0; seg_ss := 0;
     task_register := 0 |}.

Record Selectors := { code_selector : Z; data_selector : Z; tss_selector : Z }.

Section tables.
Context {T : DescriptorTables}.

Definition DOUBLE_FAULT_IST_INDEX : Z := 0.
Definition STACK_SIZE : Z := 4096 * 5.

(** A call of the crate that may panic. *)
Definition crate {A} (o : option A) : outcome A := match o with Some a => Val a | None => Panic end.

Definition TSS : outcome TaskStateSegment :=
  stack_start ← crate (VirtAddr_from_ptr STACK);
  stack_end ← crate (VirtAddr_add stack_start STACK_SIZE);
  crate (set_interrupt_stack tss_new DOUBLE_FAULT_IST_INDEX stack_end).

Definition GDT : outcome (GlobalDescriptorTable * Selectors) :=
  '(code, gdt) ← crate (add_entry gdt_new kernel_code_segment);
  '(data, gdt) ← crate (add_entry gdt kernel_data_segment);
  tss ← TSS;
  '(task, gdt) ← crate (add_entry gdt (tss_segment tss));
  Val (gdt, {| code_selector := code; data_selector := data; tss_selector := task |}).

(** [load], [CS::set_reg], the five data segments and [load_tss]. *)
Definition load_gdt (gdt : GlobalDescriptorTable) (s : Segments) : Segments :=
  {| gdtr := table_words gdt; seg_cs := seg_cs s; seg_ds := seg_ds s; seg_es := seg_es s; seg_fs := seg_fs s;
     seg_gs := seg_gs s; seg_ss := seg_ss s; task_register := task_register s |}.
Definition set_selectors (sel : Selectors) (s : Segments) : Segments :=
  {| gdtr := gdtr s; seg_cs := code_selector sel; seg_ds := data_selector sel; seg_es := data_selector sel;
     seg_fs := data_selector sel; seg_gs := data_selector sel; seg_ss := data_selector sel;
     task_register := tss_selector sel |}.
Definition init_gdt (s : Segments) : outcome Segments :=
  '(gdt, sel) ← GDT;
  Val (set_selectors sel (load_gdt gdt s)).

Lemma init_gdt_ends s : ends (init_gdt s).
Proof. unfold init_gdt, GDT, TSS, crate. ends_tac. Qed.
End tables.

(** ** What the crate documents *)
Class DescriptorTablesLaws `{DescriptorTables} := {
  words : Descriptor → list Z;
  code_words : length (words kernel_code_segment) = 1%nat;
  data_words : length (words kernel_data_segment) = 1%nat;
  tss_words t : length (words (tss_segment t)) = 2%nat;
  (** A table starts with the null descriptor and has room for eight words; the
      selector of an entry is its index, at privilege level 0 for the kernel's. *)
  new_words : table_words gdt_new = [0];
  add_entry_words g d : (length (table_words g) + length (words d) ≤ 8)%nat →
    ∃ g', add_entry g d = Some (8 * len (table_words g), g') ∧ table_words g' = table_words g ++ words d;
  from_ptr_canonical a : canonical a → VirtAddr_from_ptr a = Some a;
  add_canonical a n : canonical (a + n) → VirtAddr_add a n = Some (a + n);
  tss_new_table : interrupt_stack_table tss_new = replicate 7 0;
  set_interrupt_stack_table t i a : 0 ≤ i < 7 → length (interrupt_stack_table t) = 7%nat →
    ∃ t', set_interrupt_stack t i a = Some t' ∧
      interrupt_stack_table t' = <[Z.to_nat i := a]> (interrupt_stack_table t);
}.

(** The descriptor a selector denotes: the low three bits are the privilege level and
    the table indicator. *)
Definition descriptor_index (sel : Z) : nat := Z.to_nat (sel / 8).
Definition denotes (s : Segments) (sel : Z) (ws : list Z) : Prop :=
  take (length ws) (drop (descriptor_index sel) (gdtr s)) = ws.

Section theorems.
Context `{L : DescriptorTablesLaws}.
Context (Hlow : canonical STACK) (Hhigh : canonical (STACK + STACK_SIZE)).

Lemma TSS_val : ∃ t, TSS = Val t ∧ interrupt_stack_table t = (STACK + STACK_SIZE) :: replicate 6 0.
Proof.
  unfold TSS. rewrite from_ptr_canonical by done. cbn [crate mbind outcome_bind].
  rewrite add_canonical by done. cbn [crate mbind outcome_bind].
  destruct (set_interrupt_stack_table tss_new DOUBLE_FAULT_IST_INDEX (STACK + STACK_SIZE)) as (t & Ht & Htab);
    [done|by rewrite tss_new_table|]. exists t. rewrite Ht, Htab, tss_new_table. done.
Qed.

Lemma GDT_val : ∃ t gdt, TSS = Val t ∧
  GDT = Val (gdt, {| code_selector := 0x08; data_selector := 0x10; tss_selector := 0x18 |}) ∧
  table_words gdt = [0] ++ words kernel_code_segment ++ words kernel_data_segment ++ words (tss_segment t).
Proof.
  destruct TSS_val as (t & Ht & _). pose proof code_words as Hc. pose proof data_words as Hd.
  pose proof (tss_words t) as Hs. unfold GDT.
  destruct (add_entry_words gdt_new kernel_code_segment) as (g1 & E1 & W1); [rewrite new_words; cbn; lia|].
  rewrite E1, new_words in *. cbn [crate mbind outcome_bind].
  destruct (add_entry_words g1 kernel_data_segment) as (g2 & E2 & W2); [rewrite W1, length_app; cbn; lia|].
  rewrite E2, W1 in *. cbn [crate mbind outcome_bind]. rewrite Ht. cbn [crate mbind outcome_bind].
  destruct (add_entry_words g2 (tss_segment t)) as (g3 & E3 & W3); [rewrite W2, !length_app; cbn; lia|].
  rewrite E3, W2 in *. cbn [crate mbind outcome_bind]. exists t, g3. rewrite W3, <-!app_assoc.
  split_and!; [done| |done]. repeat f_equal; unfold len; rewrite ?length_app, Hc, ?Hd; done.
Qed.

Lemma denotes_app s pre ws post : gdtr s = pre ++ ws ++ post → denotes s (8 * len pre) ws.
Proof.
  intros Hg. unfold denotes, descriptor_index, len. rewrite Hg, (Z.mul_comm 8), Z.div_mul, Nat2Z.id by done.
  by rewrite drop_app_length, take_app_length.
Qed.

Lemma init_gdt_val s : ∃ t s', TSS = Val t ∧ init_gdt s = Val s' ∧
  gdtr s' = [0] ++ words kernel_code_segment ++ words kernel_data_segment ++ words (tss_segment t) ∧
  seg_cs s' = 0x08 ∧ Forall (λ r, r = 0x10) [seg_ds s'; seg_es s'; seg_fs s'; seg_gs s'; seg_ss s'] ∧
  task_register s' = 0x18.
Proof.
  destruct GDT_val as (t & gdt & Ht & HG & HW). eexists t, _. split; [done|]. unfold init_gdt. rewrite HG.
  split; [reflexivity|]. split; [done|]. by repeat constructor.
Qed.

(** C39: Descriptor tables are consistent: wherever the linker puts the double-fault stack,
    [init_gdt] succeeds, every selector it loads denotes in the loaded table the
    descriptor it was made for, the first interrupt stack of the task state the task
    register denotes is the top of the 20 KiB stack and the others are unset, and the
    registers of a new kernel thread's context agree with the ones loaded. *)
Theorem init_gdt_consistent s entry sp : ∃ t s', TSS = Val t ∧ init_gdt s = Val s' ∧
  denotes s' (seg_cs s') (words kernel_code_segment) ∧
  Forall (λ r, denotes s' r (words kernel_data_segment)) [seg_ds s'; seg_es s'; seg_fs s'; seg_gs s'; seg_ss s'] ∧
  denotes s' (task_register s') (words (tss_segment t)) ∧
  interrupt_stack_table t = (STACK + STACK_SIZE) :: replicate 6 0 ∧
  let c := new_kernel_thread entry sp in
  [c_cs c; c_ds c; c_es c; c_fs c; c_gs c; c_ss c] =
    [seg_cs s'; seg_ds s'; seg_es s'; seg_fs s'; seg_gs s'; seg_ss s'].
Proof.
  destruct (init_gdt_val s) as (t & s' & Ht & Hi & Hg & Hcs & Hds & Htr).
  destruct TSS_val as (t' & Ht' & Htab). rewrite Ht in Ht'. injection Ht' as <-.
  pose proof code_words as Hc. pose proof data_words as Hd. exists t, s'. split_and!; try done.
  - rewrite Hcs. by apply (denotes_app s' [0]) in Hg.
  - eapply Forall_impl; [exact Hds|]. intros r ->.
    rewrite app_assoc in Hg. apply denotes_app in Hg. unfold len in Hg. rewrite length_app, Hc in Hg. exact Hg.
  - rewrite Htr. rewrite <-(app_nil_r (words (tss_segment t))), !app_assoc, <-(app_assoc _ _ []) in Hg.
    apply denotes_app in Hg. unfold len in Hg. rewrite !length_app, Hc, Hd in Hg. exact Hg.
  - apply Forall_cons in Hds as [-> Hds]. repeat (apply Forall_cons in Hds as [-> Hds]). by rewrite Hcs.
Qed.

(** User segments are missing: the selectors a new user process starts with (0x1b and
    0x23) denote, in the table the kernel loads, the two words of the task state's
    descriptor. *)
Theorem user_selectors_denote_tss s entry sp : ∃ t s', TSS = Val t ∧ init_gdt s = Val s' ∧
  let c := new_user_process entry sp in
  descriptor_index (c_cs c) = descriptor_index (task_register s') ∧
  gdtr s' !! descriptor_index (c_cs c) = head (words (tss_segment t)) ∧
  Forall (λ r, gdtr s' !! descriptor_index r = last (words (tss_segment t))) [c_ds c; c_es c; c_fs c; c_gs c; c_ss c].
Proof.
  destruct (init_gdt_val s) as (t & s' & Ht & Hi & Hg & _ & _ & Htr). exists t, s'. split; [done|]. split; [done|].
  pose proof code_words as Hc. pose proof data_words as Hd. pose proof (tss_words t) as Hs. rewrite Htr.
  destruct (words kernel_code_segment) as [|w1 []]; try done.
  destruct (words kernel_data_segment) as [|w2 []]; try done.
  destruct (words (tss_segment t)) as [|w3 [|w4 []]]; try done.
  rewrite Hg. split; [done|]. split; [done|]. by repeat constructor.
Qed.
End theorems.

(** ** A crate with this behaviour *)
Definition demo_tables (stack : Z) : DescriptorTables := {|
  TaskStateSegment := list Z; tss_new := replicate 7 0; interrupt_stack_table := id;
  set_interrupt_stack t i a := if (0 <=? i) && (i <? 7) then Some (<[Z.to_nat i := a]> t) else None;
  VirtAddr_from_ptr := Some; VirtAddr_add a n := Some (a + n);
  Descriptor := list Z; kernel_code_segment := [0xaf9b000000ffff]; kernel_data_segment := [0xcf93000000ffff];
  tss_segment t := [0x890000000067; 0];
  GlobalDescriptorTable := list Z; gdt_new := [0];
  add_entry g d := if Nat.leb (length g + length d) 8 then Some (8 * len g, g ++ d) else None;
  table_words := id;
  STACK := stack;
|}.
Definition demo_laws stack : DescriptorTablesLaws (H := demo_tables stack).
Proof.
  refine {| words := (id : list Z → list Z) : @Descriptor (demo_tables stack) → list Z |}; try done.
  - intros g d Hl. exists (g ++ d). cbn in *. by rewrite (proj2 (Nat.leb_le _ _)) by done.
  - intros t i a Hi _. cbn. exists (<[Z.to_nat i := a]> t).
    rewrite (proj2 (Z.leb_le _ _)), (proj2 (Z.ltb_lt _ _)) by lia. done.
Defined.

Lemma demo_stack_canonical : canonical (@STACK (demo_tables 0x200000)) ∧
  canonical (@STACK (demo_tables 0x200000) + STACK_SIZE).
Proof. unfold canonical, STACK_SIZE. cbn [STACK demo_tables]. lia. Qed.

Lemma init_gdt_consistent_witness :
  ∃ s', init_gdt (T := demo_tables 0x200000) loader_segments = Val s' ∧
    seg_cs s' = 0x08 ∧ denotes s' (seg_cs s') [0xaf9b000000ffff].
Proof.
  destruct (init_gdt_consistent (H := demo_tables 0x200000) (L := demo_laws 0x200000) (proj1 demo_stack_canonical)
    (proj2 demo_stack_canonical) loader_segments 0 0) as (t & s' & _ & Hi & Hcs & _).
  exists s'. split; [exact Hi|]. split; [|exact Hcs]. by injection Hi as <-.
Defined.
Lemma user_selectors_denote_tss_witness :
  ∃ s', init_gdt (T := demo_tables 0x200000) loader_segments = Val s' ∧ gdtr s' !! 3%nat = Some 0x890000000067.
Proof.
  destruct (user_selectors_denote_tss (H := demo_tables 0x200000) (L := demo_laws 0x200000) (proj1 demo_stack_canonical)
    (proj2 demo_stack_canonical) loader_segments 0x1000 0x2000) as (t & s' & _ & Hi & _ & Hcs & _).
  exists s'. split; [exact Hi|exact Hcs].
Defined.
