(* ===== verification/Boot.v ===== *)
(** * Boot

    Models [kernel/src/boot.rs]: [init_kernel] with the loading of the descriptor
    tables and its memory stages, over the models of the platform, the descriptor
    tables, the physical memory, the virtual memory and the heap.  A vector that
    grows asks the kernel heap for memory; a null answer is an allocation failure,
    which panics. *)
From S2P Require Import Prelude Bytes Platform X86_64 Physical Heap Vmm Descriptors.
Local Open Scope kosh_scope.

(** ** State *)
Section boot.
Context {P : Profile} {X : X86_64} {T : DescriptorTables}.

Record BootState := {
  bs_machine : Machine;
  bs_segments : Segments;
  bs_platform : PlatformGlobals;
  bs_physical : option PhysicalMemoryManager;
  bs_vmm : option VirtualAddressSpace;
  bs_heap : KernelHeapAllocator;
}.
Definition set_physical (b : BootState) (g : option PhysicalMemoryManager) : BootState :=
  {| bs_machine := bs_machine b; bs_segments := bs_segments b; bs_platform := bs_platform b; bs_physical := g; bs_vmm := bs_vmm b; bs_heap := bs_heap b |}.
Definition set_vmm (b : BootState) (v : option VirtualAddressSpace) (w : KernelHeapAllocator) : BootState :=
  {| bs_machine := bs_machine b; bs_segments := bs_segments b; bs_platform := bs_platform b; bs_physical := bs_physical b; bs_vmm := v; bs_heap := w |}.
Definition set_heap (b : BootState) (g : option PhysicalMemoryManager) (w : KernelHeapAllocator) : BootState :=
  {| bs_machine := bs_machine b; bs_segments := bs_segments b; bs_platform := bs_platform b; bs_physical := g; bs_vmm := bs_vmm b; bs_heap := w |}.
Definition boot_image (m : Machine) : BootState :=
  {| bs_machine := m; bs_segments := loader_segments; bs_platform := globals_start; bs_physical := None; bs_vmm := None; bs_heap := heap_new |}.

(** ** Vectors on the kernel heap

    [Vec::push] on a vector without capacity asks the global allocator for four
    elements (of at most 1024 bytes each). *)
Definition alloc_or_panic (w : KernelHeapAllocator) (bytes align : Z) : outcome (Z * KernelHeapAllocator) :=
  '(p, w) ← global_alloc w bytes align;
  if p =? 0 then Panic else Val (p, w).
Definition first_push (w : KernelHeapAllocator) (elem_size align : Z) : outcome (Z * KernelHeapAllocator) :=
  alloc_or_panic w (4 * elem_size) align.

(** A vector's buffer; growing moves to a buffer of twice the capacity (at least
    eight bytes or four elements): allocate, copy, release the old one. *)
Record RawVec := { rv_ptr : Z; rv_cap : Z }.
Definition raw_vec_new : RawVec := {| rv_ptr := 0; rv_cap := 0 |}.
Definition grow (w : KernelHeapAllocator) (v : RawVec) (elem_size align : Z) : outcome (RawVec * KernelHeapAllocator) :=
  let cap := Z.max (2 * rv_cap v) (if elem_size =? 1 then 8 else 4) in
  '(p, w) ← alloc_or_panic w (cap * elem_size) align;
  w ← (if rv_cap v =? 0 then Val w
       else let w := write_bytes w p (rv_cap v * elem_size) in global_dealloc w (rv_ptr v));
  Val ({| rv_ptr := p; rv_cap := cap |}, w).
(** [n] pushes on a new vector. *)
Definition push_one (elem_size align i : Z) (s : RawVec * KernelHeapAllocator) : outcome (RawVec * KernelHeapAllocator) :=
  let '(v, w) := s in if i =? rv_cap v then grow w v elem_size align else Val (v, w).
Definition push_all (w : KernelHeapAllocator) (n elem_size align : Z) : outcome (RawVec * KernelHeapAllocator) :=
  for_each (push_one elem_size align) (seqZ 0 n) (raw_vec_new, w).
Definition drop_vec (w : KernelHeapAllocator) (v : RawVec) : outcome KernelHeapAllocator :=
  if rv_cap v =? 0 then Val w else global_dealloc w (rv_ptr v).

(** ** The stages *)

(** [boot::parse_memory_map]: the sizes are summed for display. *)
Definition boot_parse_memory_map (memory_map : option (list MemoryArea)) : outcome unit :=
  match memory_map with
  | None => Val ()
  | Some areas =>
      _ ← for_each (λ a '(total, usable),
        usable ← uadd 64 usable (area_size a);
        total ← uadd 64 total (area_size a);
        Val (total, usable)) areas (0, 0);
      Val ()
  end.

Definition test_contiguous (g : option PhysicalMemoryManager) : outcome (option PhysicalMemoryManager) :=
  '(r, g) ← global_allocate_frames g 3;
  match r with
  | Some frame2 => _ ← frame_address frame2; global_deallocate_frames g frame2 3
  | None => Val g
  end.
Definition test_physical_allocator (g : option PhysicalMemoryManager) : outcome (option PhysicalMemoryManager) :=
  '(r, g) ← global_allocate_frame g;
  g ← match r with
      | None => Val g
      | Some frame1 =>
          _ ← frame_address frame1;
          g ← test_contiguous g;
          global_deallocate_frame g frame1
      end;
  _ ← match g with Some m => print_stats m | None => Val () end;
  Val g.

Definition boot_init_physical_memory (b : BootState) (memory_map : option (list MemoryArea)) : outcome BootState :=
  '(r, g) ← Physical.init_physical_memory (bs_physical b) memory_map;
  match r with
  | Ok _ => g ← test_physical_allocator g; Val (set_physical b g)
  | Err _ => Panic
  end.

(** The three regions of the kernel layout are pushed on a new vector; a region is
    two words, four flags and a string slice. *)
Definition region_bytes : Z := 40.
Definition test_virtual_memory (v : option VirtualAddressSpace) : outcome unit :=
  _ ← print_virtual_memory_stats v;
  _ ← translate_virtual_address v 0xFFFFFFFF80000000;
  Val ().
Definition boot_init_virtual_memory (b : BootState) : outcome BootState :=
  '(_, w) ← first_push (bs_heap b) region_bytes 8;
  '(r, v) ← Vmm.init_virtual_memory (bs_vmm b);
  match r with
  | Ok _ =>
      _ ← test_virtual_memory v;
      Val (set_vmm b v w)
  | Err _ => Panic
  end.

Definition HEAP_SIZE_PAGES : Z := 256.
Definition init_kernel_heap (b : BootState) (pages : Z) : outcome (result unit string * BootState) :=
  match bs_physical b with
  | None =>
      if pages =? 0 then Val (Err "Heap size cannot be zero", b)
      else Val (Err "Failed to allocate physical memory for heap", b)
  | Some m => '(r, w, m) ← heap_init (bs_heap b) m pages; Val (r, set_heap b (Some m) w)
  end.

(** [heap::test_heap_allocator]: one block, then up to ten, kept in a vector of
    pointers and layouts (24 bytes each), and their release. *)
Definition test_one_block (w : KernelHeapAllocator) : outcome KernelHeapAllocator :=
  '(r, w) ← allocate w 64 8;
  match r with
  | Ok p => '(_, w) ← deallocate (write_bytes w p 64) p; Val w
  | Err _ => Val w
  end.
Definition test_blocks_step (i : Z) (s : list Z * RawVec * KernelHeapAllocator) :
    outcome (flow (list Z * RawVec * KernelHeapAllocator) (list Z * RawVec * KernelHeapAllocator)) :=
  let '(ptrs, v, w) := s in
  '(r, w) ← allocate w (32 + i * 16) 8;
  match r with
  | Ok p => '(v, w) ← push_one 24 8 (len ptrs) (v, w); Val (Next (ptrs ++ [p], v, w))
  | Err _ => Val (Return (ptrs, v, w))
  end.
Definition heap_test (w : KernelHeapAllocator) : outcome (result unit string * KernelHeapAllocator) :=
  w ← test_one_block w;
  f ← for_loop test_blocks_step (seqZ 0 10) ([], raw_vec_new, w);
  let '(ptrs, v, w) := match f with Next s | Return s => s end in
  w ← for_each (λ p w, '(_, w) ← deallocate w p; Val w) ptrs w;
  w ← drop_vec w v;
  r ← validate_heap w;
  Val (r, w).
(** [boot::test_heap_allocator]: the test above, then a vector of 100 [u32], a
    string of 24 bytes and a vector of 4096 bytes, dropped in reverse order. *)
Definition test_heap_allocator (w : KernelHeapAllocator) : outcome (result unit string * KernelHeapAllocator) :=
  '(_, w) ← heap_test w;
  '(test_vec, w) ← push_all w 100 4 4;
  '(test_string, w) ← alloc_or_panic w 24 1;
  '(large_vec, w) ← push_all w 4096 1 1;
  w ← drop_vec w large_vec;
  w ← global_dealloc w test_string;
  w ← drop_vec w test_vec;
  r ← validate_heap w;
  Val (r, w).
Definition boot_init_heap_allocator (b : BootState) : outcome BootState :=
  '(r, b) ← init_kernel_heap b HEAP_SIZE_PAGES;
  match r with
  | Ok _ => '(_, w) ← test_heap_allocator (bs_heap b); Val (set_heap b (bs_physical b) w)
  | Err _ => Panic
  end.

Definition boot_init_platform (b : BootState) : outcome BootState :=
  '(_, g) ← init_platform_abstraction X86_64.init report (bs_platform b);
  Val {| bs_machine := bs_machine b; bs_segments := bs_segments b; bs_platform := g; bs_physical := bs_physical b; bs_vmm := bs_vmm b; bs_heap := bs_heap b |}.
Definition boot_init_cpu_state (b : BootState) : BootState :=
  {| bs_machine := init_cpu_state (bs_machine b); bs_segments := bs_segments b; bs_platform := bs_platform b; bs_physical := bs_physical b;
     bs_vmm := bs_vmm b; bs_heap := bs_heap b |}.

Definition boot_init_gdt (b : BootState) : outcome BootState :=
  s ← init_gdt (bs_segments b);
  Val {| bs_machine := bs_machine b; bs_segments := s; bs_platform := bs_platform b; bs_physical := bs_physical b;
         bs_vmm := bs_vmm b; bs_heap := bs_heap b |}.

(** [init_kernel] up to the heap, then the stages that follow it: [rest]. *)
Definition init_kernel {A} (rest : BootState → outcome A) (memory_map : option (list MemoryArea)) (b : BootState) :
    outcome A :=
  b ← boot_init_platform b;
  let b := boot_init_cpu_state b in
  b ← boot_init_gdt b;
  _ ← boot_parse_memory_map memory_map;
  b ← boot_init_physical_memory b memory_map;
  b ← boot_init_virtual_memory b;
  b ← boot_init_heap_allocator b;
  rest b.
End boot.

(** ** The self-test of the heap, on a heap of 256 pages *)
Definition demo_boot_heap `{Profile} : KernelHeapAllocator :=
  {| headers := {[0x300000 := header_new (1048576 - block_header_size)]}; heap_start := 0x300000;
     heap_size := 1048576; free_list_head := Some 0x300000;
     heap_stats := {| total_allocations := 0; total_deallocations := 0; current_allocations := 0;
       bytes_allocated := 0; bytes_deallocated := 0; current_bytes := 0; peak_bytes := 0;
       stat_heap_size := 1048576; free_bytes := 1048576 - block_header_size |};
     next_alloc_id := 1 |}.

Example heap_selftest_passes :
  (∃ w, test_heap_allocator (P:=dev) (demo_boot_heap (H:=dev)) = Val (Ok (), w) ∧ live w = ∅) ∧
  (∃ w, test_heap_allocator (P:=release) (demo_boot_heap (H:=release)) = Val (Ok (), w) ∧ live w = ∅).
Proof. split; (eexists; split; [vm_compute; reflexivity|vm_compute; reflexivity]). Qed.

(** ** Proofs *)
Section boot_proofs.
Context {P : Profile} {X : X86_64} {T : DescriptorTables}.

Lemma mark_used_ends m f : ends (mark_frame_used m f).
Proof. unfold mark_frame_used, usub, uadd. ends_tac. Qed.
Lemma mark_free_ends m f : ends (mark_frame_free m f).
Proof. unfold mark_frame_free, usub, uadd. ends_tac. Qed.
Hint Resolve mark_used_ends mark_free_ends : kosh.
Lemma scan_byte_ends m byte i : ends (scan_byte m byte i).
Proof. unfold scan_byte, umul, uadd. ends_tac. Qed.
Hint Resolve scan_byte_ends : kosh.
Lemma allocate_frame_ends m : ends (allocate_frame m).
Proof. unfold allocate_frame, scan_bitmap. ends_tac. Qed.
Hint Resolve allocate_frame_ends : kosh.
Lemma allocate_frames_ends m n : ends (allocate_frames m n).
Proof. unfold allocate_frames, scan_run, uadd. ends_tac. Qed.
Hint Resolve allocate_frames_ends : kosh.
Lemma deallocate_frame_ends m f : ends (deallocate_frame m f).
Proof. unfold deallocate_frame. ends_tac. Qed.
Hint Resolve deallocate_frame_ends : kosh.
Lemma print_stats_ends m : ends (print_stats m).
Proof. unfold print_stats, total_memory_mb, used_memory_mb, free_memory_mb, pages_mb, umul. ends_tac. Qed.
Hint Resolve print_stats_ends : kosh.
Lemma new_ends map : ends (Physical.new map).
Proof.
  unfold Physical.new, max_end_addr, parse_memory_map, area_frames, available_frame, reserved_frame, skip_frame, uadd,
    usub, umul. ends_tac.
Qed.
Hint Resolve new_ends : kosh.
Lemma test_physical_allocator_ends g : ends (test_physical_allocator g).
Proof.
  unfold test_physical_allocator, test_contiguous, global_allocate_frame, global_allocate_frames, global_deallocate_frames,
    global_deallocate_frame, deallocate_frames, frame_address, umul, uadd. ends_tac.
Qed.
Hint Resolve test_physical_allocator_ends : kosh.
Lemma physical_stage_ends b map : ends (boot_init_physical_memory b map).
Proof. unfold boot_init_physical_memory, Physical.init_physical_memory. ends_tac. Qed.

(** Before the heap is initialised every request is answered with null. *)
Lemma no_heap_no_memory n al : 0 ≤ n ≤ MAX_ALLOC_SIZE → alloc_or_panic heap_new n al = Panic.
Proof.
  intros Hn. unfold alloc_or_panic, global_alloc, allocate.
  rewrite (proj2 (Z.ltb_ge _ _)) by (unfold MAX_ALLOC_SIZE, MIN_ALLOC_SIZE in *; lia). done.
Qed.
(** Requests above 1 MiB are refused by every heap. *)
Lemma large_request_fails w n al : MAX_ALLOC_SIZE < n → alloc_or_panic w n al = Panic.
Proof.
  intros Hn. unfold alloc_or_panic, global_alloc, allocate. by rewrite (proj2 (Z.ltb_lt _ _)) by lia.
Qed.

Lemma no_vectors_yet b : bs_heap b = heap_new → boot_init_virtual_memory b = Panic.
Proof.
  intros Hb. unfold boot_init_virtual_memory, first_push. rewrite Hb, no_heap_no_memory; [done|].
  unfold region_bytes, MAX_ALLOC_SIZE. lia.
Qed.
Lemma init_kernel_always_panics {A} (rest : BootState → outcome A) memory_map m : init_kernel rest memory_map (boot_image m) = Panic.
Proof.
  unfold init_kernel.
  assert (∃ b0, boot_init_platform (boot_image m) = Val b0 ∧ bs_heap b0 = heap_new) as (b0 & -> & Hb0)
    by (eexists; split; reflexivity).
  cbn [mbind outcome_bind]. set (b := boot_init_cpu_state b0).
  pose proof (init_gdt_ends (bs_segments b)) as Hs. unfold boot_init_gdt at 1.
  destruct (init_gdt (bs_segments b)) as [s| |]; [|done|done]. cbn [mbind outcome_bind]. set (b1 := Build_BootState _ _ _ _ _ _).
  destruct (boot_parse_memory_map memory_map) as [[]| |] eqn:Hmap; [|done|].
  - cbn [mbind outcome_bind]. pose proof (physical_stage_ends b1 memory_map) as He.
    destruct (boot_init_physical_memory b1 memory_map) as [b'| |] eqn:Hb; [|done|done]. cbn [mbind outcome_bind].
    assert (bs_heap b' = heap_new) as Hh.
    { unfold boot_init_physical_memory in Hb. apply bind_val in Hb as ([r g] & _ & Hb).
      destruct r; [|done]. apply bind_val in Hb as (g' & _ & Hb). by injection Hb as <-. }
    by rewrite no_vectors_yet.
  - exfalso. revert Hmap. change (ends (boot_parse_memory_map memory_map)).
    unfold boot_parse_memory_map, uadd. ends_tac.
Qed.

(** Boot does not complete.  Whatever memory map the boot loader passes and
    whatever follows, in both build profiles [init_kernel] panics: the virtual
    memory stage pushes the kernel regions on a vector before the heap the vector
    needs is initialised (in a build with overflow checks the physical memory stage
    may panic before that). *)
Theorem init_kernel_panics {A} (rest : BootState → outcome A) memory_map m : init_kernel rest memory_map (boot_image m) = Panic.
Proof. apply init_kernel_always_panics. Qed.

Lemma pages_mb_ends p : (debug_assertions = true → 0 ≤ p < 2 ^ 52) → ∃ v, pages_mb p = Val v.
Proof.
  intros Hp. unfold pages_mb, umul.
  destruct (arith_total 64 (p * PAGE_SIZE)) as (v & -> & _); [lia|intros E; specialize (Hp E); unfold PAGE_SIZE; lia|].
  cbn [mbind outcome_bind]. rewrite udiv_val by done. eauto.
Qed.
Lemma print_stats_val m : wf m → print_stats m = Val ().
Proof.
  intros Hwf. pose proof (wf_total m Hwf). pose proof (wf_free m Hwf). pose proof (wf_used_exact m Hwf).
  pose proof (free_set_size_le m ltac:(lia)).
  unfold print_stats, total_memory_mb, used_memory_mb, free_memory_mb, stats.
  cbn [total_pages used_pages free_pages].
  destruct (pages_mb_ends (total_frames m)) as [? ->]; [lia|]. cbn [mbind outcome_bind].
  destruct (pages_mb_ends (used_frames m)) as [? ->]; [intros E; specialize (H1 E); lia|]. cbn [mbind outcome_bind].
  destruct (pages_mb_ends (free_frames m)) as [? ->]; [lia|]. done.
Qed.

(** Three frames in a row, if there are any, go back where they came from. *)
Lemma test_contiguous_restores m : wf m →
  ∃ m', test_contiguous (Some m) = Val (Some m') ∧ wf m' ∧ same_layout m m' ∧ free_set m' = free_set m.
Proof.
  intros Hwf. unfold test_contiguous. cbn [global_allocate_frames].
  pose proof (allocate_frames_spec m 3 Hwf ltac:(lia)) as H2.
  destruct (allocate_frames m 3) as [[[s|] m2]| |]; try done; cbn [mbind outcome_bind].
  2: { destruct H2 as [-> _]. by exists m. }
  destruct H2 as (_ & Hs & Hrun & _ & Hwf2 & Hl2 & Hfs2).
  assert (s + 2 < total_frames m) by (pose proof (Hrun (s + 2) ltac:(lia)) as [? _]%elem_of_free_set; lia).
  pose proof (wf_total m Hwf). unfold frame_address. rewrite umul_val by (unfold PAGE_SIZE; lia).
  cbn [mbind outcome_bind global_deallocate_frames].
  destruct (deallocate_frames_spec m2 s 3 Hwf2) as (m3 & -> & Hwf3 & Hl3 & Hfs3); [lia..|].
  exists m3. cbn [mbind outcome_bind]. split_and!; [done|done|unfold same_layout in *; intuition congruence|].
  apply set_eq. intros x. rewrite Hfs3, Hfs2, elem_of_difference, elem_of_list_to_set, elem_of_seqZ.
  split; [intros [[? _]|[? _]]; [done|apply Hrun; lia]|]. intros Hx.
  destruct (decide (s ≤ x < s + 3)); [right|left; split; [done|lia]].
  split; [done|]. destruct Hl2 as [-> _]. lia.
Qed.

(** The self-test of the physical allocator, which runs at boot, leaves the
    allocator as it found it: on a well-formed manager it does not panic and the
    same frames are free afterwards. *)
Theorem physical_selftest_restores m : wf m →
  ∃ m', test_physical_allocator (Some m) = Val (Some m') ∧ wf m' ∧ free_set m' = free_set m.
Proof.
  intros Hwf. unfold test_physical_allocator. cbn [global_allocate_frame].
  pose proof (allocate_frame_spec m Hwf) as H1. destruct (allocate_frame m) as [[[f|] m1]| |]; try done.
  2: { destruct H1 as [-> _]. exists m. cbn [mbind outcome_bind]. by rewrite print_stats_val. }
  destruct H1 as (Hf & _ & Hwf1 & Hl1 & Hfs1). pose proof Hf as [Hfr _]%elem_of_free_set.
  pose proof (wf_total m Hwf). cbn [mbind outcome_bind]. unfold frame_address.
  rewrite (umul_val 64 f) by (unfold PAGE_SIZE; lia). cbn [mbind outcome_bind].
  destruct (test_contiguous_restores m1 Hwf1) as (m2 & -> & Hwf2 & Hl2 & Hfs2).
  cbn [mbind outcome_bind global_deallocate_frame].
  destruct (deallocate_frame_spec m2 f Hwf2) as (m3 & -> & Hwf3 & Hl3 & Hfs3); [lia|].
  cbn [mbind outcome_bind]. rewrite print_stats_val by done. exists m3. split_and!; [done|done|].
  rewrite (proj2 (Z.ltb_lt _ _)) in Hfs3
    by (destruct Hl1 as [E1 _], Hl2 as [E2 _]; lia).
  rewrite Hfs3, Hfs2, Hfs1. apply set_eq. intros x. destruct (decide (x = f)); set_solver.
Qed.
End boot_proofs.

Lemma physical_selftest_restores_witness :
  ∃ m', test_physical_allocator (P:=dev) (Some demo) = Val (Some m') ∧ free_set m' = free_set demo.
Proof.
  destruct (physical_selftest_restores (P:=dev) demo demo_wf) as (m' & ? & _ & ?). by exists m'.
Defined.

(** With a heap the virtual memory stage gets past the vector: the order of the
    stages is what fails. *)
Example vector_after_heap :
  ∃ p w, first_push (P:=dev) (demo_boot_heap (H:=dev)) region_bytes 8 = Val (p, w) ∧ p ≠ 0.
Proof. eexists _, _. split; [vm_compute; reflexivity|done]. Qed.
