(* ===== verification/SelfTest.v ===== *)
(** * The self-tests of the boot sequence

    After each stage [boot.rs] exercises what it has initialised, on the kernel's
    real globals.  This file models the stages for swap, processes, IPC and system
    calls with their tests ([boot.rs], [process/context.rs], [syscall/test.rs]), and
    proves what state they leave behind. *)
From S2P Require Import Prelude Heap Boot Swap SwapFile Replacement Swapper SwapConfig.
From S2P Require Import Capability Context Process Ipc Scheduler Syscall Kernel.
Local Open Scope kosh_scope.

(** ** Swap *)
Section swap_tests.
Context {P : Profile} {D : Type} `{SwapDevice D}.
Implicit Types w : SwapGlobals D.

(** What the swap test logs. *)
Inductive swap_report := SwapOutFailed | NotMarked | SwapInFailed | SwapDone (data_matches unmarked : bool).

Definition test_pattern : Page := (λ i, i mod 256) <$> seqZ 0 4096.
Definition test_frame : Z := 1000.
Definition test_swap_operations w : outcome (swap_report * SwapGlobals D) :=
  '(r, g) ← global_swap_out_page (swap_manager w) test_frame test_pattern;
  match r with
  | Err _ => Val (SwapOutFailed, set_manager w g)
  | Ok _ =>
      if global_is_page_swapped g test_frame then
        '(r, g) ← global_swap_in_page g test_frame;
        match r with
        | Ok read_data =>
            Val (SwapDone (bool_decide (read_data = test_pattern)) (negb (global_is_page_swapped g test_frame)),
                 set_manager w g)
        | Err _ => Val (SwapInFailed, set_manager w g)
        end
      else Val (NotMarked, set_manager w g)
  end.

(** One round of [test_page_swapping_algorithms]. *)
Definition test_accesses w : outcome (SwapGlobals D) :=
  for_each (λ i w, record_page_access w (0x10000000 + i * 0x1000) (2000 + i) (i mod 3 =? 0)) (seqZ 0 10) w.
Definition test_pressure w : outcome (SwapGlobals D) :=
  '(r, w) ← global_set_memory_pressure_threshold w 5;
  match r with
  | Err _ => Val w
  | Ok _ => '(_, w) ← global_check_memory_pressure w; Val w
  end.
Definition test_algorithm (a : PageReplacementAlgorithm) w : outcome (SwapGlobals D) :=
  '(r, w) ← set_page_replacement_algorithm w a;
  match r with
  | Err _ => Val w
  | Ok _ =>
      w ← test_accesses w;
      w ← test_pressure w;
      '(_, w) ← global_swap_out_pages w 2;
      '(_, w) ← global_handle_page_fault w 0x20000000 3000;
      Val w
  end.
Definition test_page_swapping_algorithms w : outcome (SwapGlobals D) :=
  for_each test_algorithm [LRU; FIFO; Clock; LFU] w.
End swap_tests.

Section swap_stage.
Context {P : Profile}.
Implicit Types w : SwapGlobals SwapBox.

(** [FileSwapDevice::new] with its storage on the kernel heap.  The strings and the
    list of the default configuration also live there; those small requests are left
    out, since whatever they leave, the request for the storage is too large. *)
Definition file_new_on_heap (h : KernelHeapAllocator) (name : string) (size_mb : Z) :
    outcome (result FileSwapDevice SwapError * KernelHeapAllocator) :=
  if size_mb =? 0 then Val (Err InvalidSlot, h)
  else
    size ← aligned_size size_mb;
    '(_, h) ← alloc_or_panic h size 1;
    r ← file_new name size_mb;
    Val (r, h).
Definition test_swap_management (h : KernelHeapAllocator) w : outcome (SwapGlobals SwapBox * KernelHeapAllocator) :=
  '(d, h) ← file_new_on_heap h "test_swap" 8;
  w ← match d with
      | Err _ => Val w
      | Ok d =>
          '(r, g) ← add_swap_device (swap_manager w) (FileBox d);
          let w := set_manager w g in
          match r with
          | Err _ => Val w
          | Ok _ => '(_, w) ← test_swap_operations w; test_page_swapping_algorithms w
          end
      end;
  '(_, _, g) ← initialize_all create_default_config (swap_manager w);
  Val (set_manager w g, h).
Definition boot_swap_management (h : KernelHeapAllocator) w : outcome (SwapGlobals SwapBox * KernelHeapAllocator) :=
  let '(r, g) := init_swap_manager (swap_manager w) in
  let w := set_manager w g in
  match r with
  | Err _ => Val (w, h)
  | Ok _ =>
      let '(r, w) := init_page_swapper w LRU 1024 in
      match r with Err _ => Val (w, h) | Ok _ => test_swap_management h w end
  end.
End swap_stage.

(** ** Processes *)
Section process_tests.
Context {P : Profile} {W : PowerPolicy}.
Implicit Types k : Kernel.

Definition test_scheduler k : outcome Kernel :=
  '(_, k) ← schedule_next_process k;
  let '(r, k) := set_scheduling_algorithm k Priority in
  match r with
  | Ok _ => '(_, k) ← schedule_next_process k; Val k
  | Err _ => Val k
  end.

(** Two contexts are made for the test functions at [f1] and [f2], and four fields
    are asserted. *)
Definition test_context_switching (f1 f2 : Z) : outcome unit :=
  let context1 := new_kernel_thread f1 0x100000 in
  let context2 := new_kernel_thread f2 0x200000 in
  if (c_rip context1 =? f1) && (c_rip context2 =? f2) && (c_rsp context1 =? 0x100000) && (c_rsp context2 =? 0x200000)
  then Val () else Panic.

Definition kernel_create_process k (parent : option Z) (nm : string) (prio : ProcessPriority) :
    outcome (result Z ProcessError * Kernel) :=
  '(r, st) ← create_process_global (ipc k) parent nm prio; Val (r, set_ipc k st).

Definition test_process_management (f1 f2 : Z) k : outcome Kernel :=
  '(init, k) ← kernel_create_process k None "init" System;
  match init with
  | Err _ => Val k
  | Ok init_pid =>
      '(shell, k) ← kernel_create_process k (Some init_pid) "shell" Interactive;
      '(background, k) ← kernel_create_process k (Some init_pid) "background_task" Background;
      match shell, background with
      | Ok _, Ok _ => k ← test_scheduler k; _ ← test_context_switching f1 f2; Val k
      | _, _ => Val k
      end
  end.
Definition boot_process_management (f1 f2 : Z) k : outcome Kernel :=
  test_process_management f1 f2 (init_process_management k).
End process_tests.

(** ** IPC *)
Section ipc_tests.
Context {P : Profile} {L : Layout} {W : PowerPolicy}.
Implicit Types k : Kernel.

Definition sender_pid : Z := 1.
Definition receiver_pid : Z := 2.

(** The message is sent before any capability is granted. *)
Definition test_message (st : IpcState) : outcome (result unit MessageError * IpcState) :=
  '(m, st) ← create_message st sender_pid receiver_pid ServiceRequest (Text "Hello, IPC!");
  '(r, st) ← send_message st m;
  match r with
  | Ok _ => '(_, st) ← receive_message st receiver_pid; Val (r, st)
  | Err _ => Val (r, st)
  end.
Definition file_resource : ResourceId := FileResource "/test/file.txt".
Definition test_capabilities (c : CapState) : outcome CapState :=
  '(r, c) ← create_capability c sender_pid Read file_resource None;
  match r with
  | Ok _ =>
      '(_, c) ← check_capability c sender_pid Read file_resource;
      '(_, c) ← check_capability c sender_pid Write file_resource;
      Val c
  | Err _ => Val c
  end.
Definition test_policy k : outcome Kernel :=
  '(_, k) ← grant_system_process_capabilities k sender_pid;
  '(_, k) ← grant_user_process_capabilities k receiver_pid;
  '(_, c) ← create_secure_ipc_channel (caps (ipc k)) sender_pid receiver_pid;
  let k := set_ipc k (set_caps (ipc k) c) in
  '(_, k) ← global_validate_capability_request k sender_pid SendMessage (ProcessResource receiver_pid);
  Val k.
Definition test_ipc_system k : outcome Kernel :=
  '(_, st) ← test_message (ipc k);
  c ← test_capabilities (caps st);
  test_policy (set_ipc k (set_caps st c)).
Definition boot_ipc_system k : outcome Kernel := test_ipc_system (init_ipc k).
End ipc_tests.

(** ** System calls *)
Section syscall_tests.
Context {P : Profile} {L : Layout} {W : PowerPolicy}.
Implicit Types st : IpcState.

Definition no_args : Args := {| arg0 := 0; arg1 := 0; arg2 := 0; arg3 := 0; arg4 := 0; arg5 := 0 |}.
(** [boot::test_syscall_interface]: the answers are only logged. *)
Definition test_syscall_interface st : outcome IpcState :=
  '(_, st) ← dispatch_syscall st 1 SYS_GETPID no_args;
  '(_, st) ← dispatch_syscall st 1 SYS_TIME no_args;
  '(_, st) ← dispatch_syscall st 1 999 no_args;
  if debug_assertions then
    '(_, st) ← dispatch_syscall st 1 SYS_DEBUG_PRINT
      {| arg0 := 0x1000; arg1 := 10; arg2 := 0; arg3 := 0; arg4 := 0; arg5 := 0 |};
    Val st
  else Val st.

(** [syscall/test.rs]: a wrong answer panics. *)
Definition expect (st : IpcState) (pid num : Z) (ok : SyscallResult → bool) : outcome IpcState :=
  '(r, st) ← dispatch_syscall st pid num no_args;
  if ok r then Val st else Panic.
Definition test_syscall_basic st : outcome IpcState :=
  st ← expect st 42 SYS_GETPID (λ r, match r with Ok v => v =? 42 | Err _ => false end);
  st ← expect st 42 SYS_TIME is_ok;
  expect st 42 999 (λ r, match r with Err Sys.InvalidSyscall => true | _ => false end).
Definition test_syscall_validation st : outcome IpcState := expect st 1 SYS_GETPID is_ok.
Definition test_syscall_error_handling st : outcome IpcState :=
  for_each (λ num st, expect st 1 num (λ r, match r with Err Sys.InvalidSyscall => true | _ => false end)) [999; 0] st.
Definition run_all_syscall_tests st : outcome IpcState :=
  st ← test_syscall_basic st;
  st ← test_syscall_validation st;
  test_syscall_error_handling st.
Definition boot_syscall_interface (k : Kernel) : outcome Kernel :=
  match init_syscall_interface with
  | Err _ => Panic
  | Ok _ =>
      st ← test_syscall_interface (ipc k);
      st ← run_all_syscall_tests st;
      Val (set_ipc k st)
  end.
End syscall_tests.

(** The stages in the order of [init_kernel]. *)
Definition boot_services {P : Profile} {L : Layout} {W : PowerPolicy} (f1 f2 : Z) (k : Kernel) : outcome Kernel :=
  k ← boot_process_management f1 f2 k;
  k ← boot_ipc_system k;
  boot_syscall_interface k.

(** ** What the stages leave behind *)
Section stages.
Context {P : Profile} {L : Layout} {W : PowerPolicy} {WL : PowerPolicyLaws W}.
Context (Hhead : 0 ≤ header_size < 2 ^ 62) (Hcap : 0 ≤ capability_size).
Implicit Types k : Kernel.

(** The table with the three processes of the test. *)
Definition test_table : ProcessTable :=
  {| processes := [Some (add_child (add_child (set_state (process_new 1 None "init" System) Ready) 2) 3);
                   Some (set_state (process_new 2 (Some 1) "shell" Interactive) Ready);
                   Some (set_state (process_new 3 (Some 1) "background_task" Background) Ready)];
     next_pid := 4; current_pid := None; max_processes := MAX_PROCESSES |}.

Lemma test_table_created :
  ∃ t1 t2, create_process (table_new MAX_PROCESSES) None "init" System = Val (Ok 1, t1) ∧
    create_process t1 (Some 1) "shell" Interactive = Val (Ok 2, t2) ∧
    create_process t2 (Some 1) "background_task" Background = Val (Ok 3, test_table).
Proof. by eexists _, _. Qed.

Lemma test_table_wf : table_wf test_table.
Proof.
  destruct test_table_created as (t1 & t2 & H1 & H2 & H3).
  assert (table_wf (table_new MAX_PROCESSES)) as H0 by (apply table_new_wf; unfold MAX_PROCESSES; lia).
  destruct (table_step_wf _ (OpCreate None "init" System) H0) as (t1' & E1 & W1 & _).
  unfold table_step in E1. rewrite H1 in E1. injection E1 as <-.
  destruct (table_step_wf _ (OpCreate (Some 1) "shell" Interactive) W1) as (t2' & E2 & W2 & _).
  unfold table_step in E2. rewrite H2 in E2. injection E2 as <-.
  destruct (table_step_wf _ (OpCreate (Some 1) "background_task" Background) W2) as (t3' & E3 & W3 & _).
  unfold table_step in E3. rewrite H3 in E3. by injection E3 as <-.
Qed.

Lemma test_table_alive q : table_alive test_table q ↔ q = 1 ∨ q = 2 ∨ q = 3.
Proof.
  split; [|by intros [->|[->| ->]]; eexists].
  intros [p Hp]. destruct (decide (q = 1 ∨ q = 2 ∨ q = 3)) as [|Hn]; [done|]. exfalso. unfold get_process in Hp.
  assert (position (has_pid q) (processes test_table) = None) as E; [|by rewrite E in Hp].
  unfold test_table. cbn -[Z.eqb]. change (pid _) with 1. rewrite !(proj2 (Z.eqb_neq _ _)) by lia. done.
Qed.

(** The process stage: the processes are there, one may run. *)
Lemma process_stage f1 f2 :
  ∃ k t s, boot_process_management f1 f2 kernel_image = Val k ∧ table (ipc k) = Some t ∧ table_wf t ∧
    caps (ipc k) = caps (ipc kernel_image) ∧ next_message_id (ipc k) = 1 ∧
    scheduler k = Some s ∧ sched_room (2 ^ 62) s ∧ notify_ready (2 ^ 62) s (power k) ∧ 0 ≤ last_scheduled_index s ∧
    (∀ q, table_alive t q ↔ q = 1 ∨ q = 2 ∨ q = 3) ∧
    ∀ I, notify_stable I → I power_image → I (power k).
Proof.
  unfold boot_process_management, test_process_management, kernel_create_process, create_process_global.
  destruct test_table_created as (t1 & t2 & H1 & H2 & H3).
  cbn [init_process_management init_scheduler set_scheduler set_ipc set_table ipc table init_process_table kernel_image].
  rewrite H1. cbn [mbind outcome_bind ipc table set_ipc]. rewrite H2. cbn [mbind outcome_bind ipc table set_ipc].
  rewrite H3. cbn [mbind outcome_bind ipc table set_ipc].
  unfold test_scheduler, schedule_next_process. cbn [scheduler set_ipc set_scheduler power ipc table].
  change (scheduler (init_process_management kernel_image))
    with (Some (scheduler_new RoundRobin DEFAULT_TIME_SLICE_MS)).
  cbv beta iota.
  destruct (schedule_total (scheduler_new RoundRobin DEFAULT_TIME_SLICE_MS) test_table power_image (2 ^ 62 + 1) test_table_wf)
    as (n1 & s1 & t4 & w1 & E1 & Hwf1 & _ & _ & Hr1 & Hw1 & Hi1 & Ha1);
    [unfold sched_room; simpl; lia|apply power_image_room|lia|done|].
  change (power (init_process_management _)) with power_image. rewrite E1.
  cbn [mbind outcome_bind set_scheduling_algorithm set_scheduler set_power power scheduler ipc table set_ipc set_table].
  destruct (schedule_total (set_algorithm s1 Priority) t4 w1 (2 ^ 62) Hwf1)
    as (n2 & s2 & t5 & w2 & E2 & Hwf2 & _ & _ & Hr2 & Hw2 & Hi2 & Ha2); [done|done|lia|done|].
  rewrite E2. cbn [mbind outcome_bind].
  assert (test_context_switching f1 f2 = Val ()) as ->.
  { unfold test_context_switching. simpl. by rewrite !Z.eqb_refl. }
  eexists _, t5, s2. split; [reflexivity|]. cbn [set_scheduler set_ipc set_power power ipc table set_table scheduler].
  split_and!; try done; [intros q; by rewrite Ha2, Ha1, test_table_alive|].
  intros I HI H0. eapply (schedule_power I); [done| |exact E2]. by eapply (schedule_power I); [done| |exact E1].
Qed.

(** The test message is refused: nobody has a capability yet. *)
Lemma message_refused n st : kernel_wf n ∅ st → 2 ≤ n → alive st 1 → alive st 2 →
  ∃ st', test_message st = Val (Err MsgPermissionDenied, st') ∧ kernel_wf (n - 2) ∅ st' ∧ table st' = table st ∧
    ∀ q, pending st' q = pending st q.
Proof.
  intros Hw Hn H1 H2. unfold test_message.
  destruct (create_message_spec Hhead n ∅ st sender_pid receiver_pid ServiceRequest (Text "Hello, IPC!"))
    as (m & -> & Hm & Hid & Hs & Hr & _); [done|lia|done|].
  cbn [mbind outcome_bind].
  destruct (send_new_spec Hhead Hcap n ∅ st m Hw Hn Hm Hid) as (r & st' & -> & Hw' & Ht & Hres).
  rewrite Hs, Hr in Hres.
  assert (¬ may_send ∅ sender_pid receiver_pid) as Hno by (intros (id & e & He & _); by rewrite lookup_empty in He).
  cbn [mbind outcome_bind]. exists st'. destruct r as [[]|e]; [naive_solver|].
  destruct Hres as [Hp [[-> ?]|[(-> & ? & ?)|[(-> & ? & ? & ?)|(-> & ? & ? & ? & ?)]]]]; naive_solver.
Qed.

Lemma capability_test_ok n c : cap_rel ∅ c → cap_room n c → 3 ≤ n →
  ∃ i c', test_capabilities c = Val c' ∧ cap_rel {[i := (1, Read, file_resource)]} c' ∧ cap_room (n - 3) c'.
Proof.
  intros Hrel Hroom Hn. unfold test_capabilities, sender_pid.
  destruct (create_spec ∅ c n 1 Read file_resource None Hrel Hroom) as (c1 & -> & _ & Hrel1 & Hroom1); [lia|].
  cbn [mbind outcome_bind].
  destruct (check_spec _ c1 (n - 1) 1 Read file_resource Hrel1 Hroom1) as (b1 & c2 & -> & Hrel2 & Hroom2 & _); [lia|].
  cbn [mbind outcome_bind].
  destruct (check_spec _ c2 (n - 1 - 1) 1 Write file_resource Hrel2 Hroom2) as (b2 & c3 & -> & Hrel3 & Hroom3 & _); [lia|].
  cbn [mbind outcome_bind]. exists (next_capability_id c), c3. split_and!; [done|done|].
  by replace (n - 3) with (n - 1 - 1 - 1) by lia.
Qed.

(** After the policy test process 1 may send to anybody, process 2 to process 1
    and nobody else to anybody. *)
Definition test_grants (σ : gmap Z Grant) : Prop :=
  (∀ q, may_send σ 1 q) ∧ (∀ q, may_send σ 2 q ↔ q = 1) ∧ ∀ p q, p ≠ 1 → p ≠ 2 → ¬ may_send σ p q.

Lemma test_senders i j1 j2 (σ1 σ2 : gmap Z Grant) id e p q :
  (∀ id e, σ1 !! id = Some e → ({[i := (1, Read, file_resource)]} : gmap Z Grant) !! id = Some e ∨
     e.1.1 = 1 ∧ (e.1.2, e.2) ∈ system_capabilities new_policy) →
  (∀ id e, σ2 !! id = Some e → σ1 !! id = Some e ∨ e.1.1 = 2 ∧ (e.1.2, e.2) ∈ user_capabilities new_policy) →
  <[j2 := (2, SendMessage, ProcessResource 1)]> (<[j1 := (1, SendMessage, ProcessResource 2)]> σ2) !! id = Some e →
  permits e p SendMessage (ProcessResource q) → p = 1 ∨ p = 2 ∧ q = 1.
Proof.
  intros Hg1 Hg2 He (<- & Hty & Hres).
  apply lookup_insert_Some in He as [[_ <-]|[_ He]].
  { right. split; [done|]. apply bool_decide_eq_true in Hres. by injection Hres as <-. }
  apply lookup_insert_Some in He as [[_ <-]|[_ He]]; [by left|].
  apply Hg2 in He as [He|[-> Hin]].
  - apply Hg1 in He as [He|[-> _]]; [|by left]. apply lookup_singleton_Some in He as [_ <-]. done.
  - exfalso. destruct e as [[p' ty] res]. simpl in *. subst ty.
    repeat (apply elem_of_cons in Hin as [Hin|Hin]; [injection Hin; intros; subst; done|]). by apply not_elem_of_nil in Hin.
Qed.

Lemma policy_test_ok n i k : kernel_inv n {[i := (1, Read, file_resource)]} k → 13 ≤ n →
  ∃ c σ, test_policy k = Val (set_ipc k (set_caps (ipc k) c)) ∧
    kernel_inv (n - 13) σ (set_ipc k (set_caps (ipc k) c)) ∧ test_grants σ.
Proof.
  intros Hk Hn. unfold test_policy, grant_system_process_capabilities, grant_user_process_capabilities, sender_pid, receiver_pid.
  set (σ0 := {[i := (1, Read, file_resource)]}) in *.
  destruct (policy_grants n σ0 k 1 (system_capabilities new_policy) (Err ResourceExhausted)
    (λ p, grant_system_capabilities p 1) Hk) as (ids1 & c1 & σ1 & -> & Hk1 & _ & Hall1 & Hg1); [unfold len; simpl; lia|done|].
  cbn [mbind outcome_bind].
  destruct (policy_grants _ σ1 _ 2 (user_capabilities new_policy) (Err ResourceExhausted)
    (λ p, grant_user_capabilities p 2) Hk1) as (ids2 & c2 & σ2 & -> & Hk2 & Hsub2 & _ & Hg2); [unfold len; simpl; lia|done|].
  cbn [mbind outcome_bind ipc set_ipc caps set_caps].
  destruct (channel_spec (n - 6 - 3) σ2 c2 1 2) as (j1 & j2 & c3 & -> & Hne & F1 & F2 & Hrel3 & Hroom3);
    [apply Hk2|apply Hk2|lia|].
  cbn [mbind outcome_bind ipc set_ipc caps set_caps].
  set (σ3 := <[j2 := (2, SendMessage, ProcessResource 1)]> (<[j1 := (1, SendMessage, ProcessResource 2)]> σ2)) in *.
  unfold global_validate_capability_request, with_policy_caps, with_security_policy.
  cbn [security_policy set_ipc]. rewrite (ki_policy _ _ _ Hk). cbn [fmap option_fmap option_map ipc caps]. cbv beta.
  cbn [ipc set_ipc caps set_caps].
  destruct (validate_spec (n - 6 - 3 - 2) σ3 c3 1 SendMessage (ProcessResource 2)) as (b & c4 & -> & Hrel4 & Hroom4);
    [done|done|lia|].
  cbn [mbind outcome_bind]. exists c4, σ3. split; [done|]. split; [|split_and!].
  - apply (kernel_inv_ipc n _ σ0); [done| |lia]. replace (n - 13) with (n - 6 - 3 - 2 - 2) by lia.
    apply (kernel_wf_caps n _ σ0); [apply Hk|done|done|lia].
  - intros q. destruct (Hall1 (SendMessage, AnyResource)) as [id Hid]; [by left|].
    exists id, (1, SendMessage, AnyResource). split; [|done]. unfold σ3.
    assert (σ2 !! id = Some (1, SendMessage, AnyResource)) as H2 by (by eapply lookup_weaken).
    rewrite !lookup_insert_ne; [done|by intros ->; congruence|by intros ->; congruence].
  - intros q. split.
    + intros (id & e & He & Hp). destruct (test_senders _ _ _ _ _ _ _ _ _ Hg1 Hg2 He Hp) as [?|[_ ?]]; [lia|done].
    + intros ->. exists j2, (2, SendMessage, ProcessResource 1). unfold σ3. by rewrite lookup_insert_eq.
  - intros p q H1 H2 (id & e & He & Hp). destruct (test_senders _ _ _ _ _ _ _ _ _ Hg1 Hg2 He Hp) as [?|[? _]]; lia.
Qed.

Lemma ipc_stage k t s : table (ipc k) = Some t → table_wf t → table_alive t 1 → table_alive t 2 →
  caps (ipc k) = caps (ipc kernel_image) → next_message_id (ipc k) = 1 →
  scheduler k = Some s → sched_room (2 ^ 62) s → notify_ready (2 ^ 62) s (power k) → 0 ≤ last_scheduled_index s →
  ∃ k' σ, boot_ipc_system k = Val k' ∧ kernel_inv (2 ^ 62 - 18) σ k' ∧ test_grants σ ∧
    table (ipc k') = Some t ∧ power k' = power k ∧ ∀ q, pending (ipc k') q = [].
Proof.
  intros Ht Hwf H1 H2 Hc Hnx Hs Hr Hw Hi.
  pose proof (init_ipc_inv k t s Ht Hwf Hc Hnx Hs Hr Hw Hi) as Hk. unfold boot_ipc_system, test_ipc_system.
  assert (∀ q, table_alive t q → alive (ipc (init_ipc k)) q) as Hal.
  { intros q. unfold table_alive, alive, lookup_process. cbn. by rewrite Ht. }
  destruct (message_refused (2 ^ 62) (ipc (init_ipc k))) as (st1 & -> & Hw1 & Ht1 & Hp1); [apply Hk|lia|by apply Hal..|].
  cbn [mbind outcome_bind].
  destruct (capability_test_ok (2 ^ 62 - 2) (caps st1)) as (i & c1 & -> & Hrel1 & Hroom1); [apply Hw1|apply Hw1|lia|].
  cbn [mbind outcome_bind].
  destruct (policy_test_ok (2 ^ 62 - 2 - 3) i (set_ipc (init_ipc k) (set_caps st1 c1))) as (c2 & σ & -> & Hk2 & Hg);
    [|lia|].
  { apply (kernel_inv_ipc (2 ^ 62) _ ∅); [done| |lia]. apply (kernel_wf_caps (2 ^ 62 - 2) _ ∅); [done|done|done|lia]. }
  eexists _, σ. split; [done|].
  split_and!; [by replace (2 ^ 62 - 18) with (2 ^ 62 - 2 - 3 - 13) by lia|done|cbn; by rewrite Ht1|done|].
  intros q. change (pending st1 q = []). by rewrite Hp1.
Qed.

Lemma syscall_stage k : boot_syscall_interface k = Val k.
Proof. by destruct P, k. Qed.

(** C17: The services come up.  From the kernel image, the process, IPC and
    system-call stages with all their self-tests run without panic, in both build
    profiles and for every lawful power policy, which the scheduler's self-test
    notifies.  They leave a kernel that satisfies every
    invariant, with the three test processes alive, no pending message (the test
    message is refused, since it is sent before any grant), and authority to send
    exactly where the tests granted it: process 1 to everybody, process 2 to
    process 1. *)
Theorem boot_services_come_up f1 f2 :
  ∃ k σ t, boot_services f1 f2 kernel_image = Val k ∧ kernel_inv (2 ^ 62 - 18) σ k ∧ test_grants σ ∧
    table (ipc k) = Some t ∧ (∀ q, table_alive t q ↔ q = 1 ∨ q = 2 ∨ q = 3) ∧ ∀ q, pending (ipc k) q = [].
Proof.
  unfold boot_services.
  destruct (process_stage f1 f2) as (k1 & t & s & -> & Ht & Hwf & Hc & Hnx & Hs & Hr & Hw & Hi & Hal & _).
  cbn [mbind outcome_bind].
  destruct (ipc_stage k1 t s) as (k2 & σ & -> & Hk2 & Hg & Ht2 & _ & Hp2); try done; [by apply Hal; auto..|].
  cbn [mbind outcome_bind]. rewrite syscall_stage. by exists k2, σ, t.
Qed.
End stages.

Lemma boot_services_come_up_witness :
  ∃ k σ, boot_services (P:=dev) (L:=demo_layout) (W:=demo_policy) 0x1000 0x2000 kernel_image = Val k ∧
    may_send σ 2 1 ∧ ¬ may_send σ 2 3.
Proof.
  destruct (boot_services_come_up (P:=dev) (L:=demo_layout) (WL:=demo_policy_laws) ltac:(simpl; lia) ltac:(simpl; lia)
    0x1000 0x2000) as (k & σ & t & Hb & _ & (_ & H2 & _) & _).
  exists k, σ. split; [exact Hb|]. split; [by apply H2|]. intros H3. apply H2 in H3. lia.
Defined.

(** ** Swap: proofs *)
Section swap_proofs.
Context {P : Profile}.

(** The swap self-test cannot run.  Whatever the state of the kernel heap, the
    swap stage of the boot panics: the test device asks the heap for 8 MiB, and the
    heap refuses every request above 1 MiB (it has 256 pages itself). *)
Theorem swap_selftest_out_of_memory h w : boot_swap_management h w = Panic.
Proof.
  unfold boot_swap_management, test_swap_management, file_new_on_heap. cbn [init_swap_manager init_page_swapper].
  rewrite aligned_size_exact by lia. cbn [mbind outcome_bind Z.eqb].
  rewrite large_request_fails; [done|]. unfold MAX_ALLOC_SIZE. lia.
Qed.

Context {D : Type} `{SwapDeviceLaws D}.

(** What the swap self-test checks is true.  On every well-formed swap manager
    that does not hold the test page, either every device rejects the page, or the
    page comes back with the data that was swapped out, marked while it is out and
    unmarked afterwards; in both cases the swapped pages are what they were. *)
Theorem swap_operations_selftest (w : SwapGlobals D) m :
  swap_manager w = Some m → mgr_wf m → swapped m test_frame = None →
  ∃ rep m', test_swap_operations w = Val (rep, set_manager w (Some m')) ∧ mgr_wf m' ∧
    (∀ f, swapped m' f = swapped m f) ∧
    (rep = SwapDone true true ∨
     rep = SwapOutFailed ∧ ∀ i, (i < length (allocators m))%nat → device_rejects m test_pattern i).
Proof.
  intros Hw Hm Hf. unfold test_swap_operations. rewrite Hw. unfold global_swap_out_page, with_manager.
  pose proof (swap_out_page_spec m test_frame test_pattern Hm ltac:(done)) as Hout.
  destruct (swap_out_page m test_frame test_pattern) as [[[s|[]] m1]| |]; try done; cbn [mbind outcome_bind].
  - destruct Hout as (_ & Hm1 & (i & Hi) & Hsw1). cbn [global_is_page_swapped]. unfold is_page_swapped.
    rewrite bool_decide_true by (rewrite Hi; eauto). unfold global_swap_in_page, with_manager.
    pose proof (swap_in_page_spec m1 test_frame Hm1) as Hin.
    assert (swapped m1 test_frame = Some test_pattern) as Hs1 by (by rewrite Hsw1, decide_True).
    destruct (swap_in_page m1 test_frame) as [[[data|e] m2]| |]; try done; cbn [mbind outcome_bind];
      [|destruct Hin as (_ & _ & ?); congruence].
    destruct Hin as (Hd & Hm2 & _ & Hsw2). rewrite Hs1 in Hd. injection Hd as <-.
    eexists _, m2. split; [done|]. split_and!; [done| |].
    + intros f. rewrite Hsw2. case_decide as E; [subst; done|]. by rewrite Hsw1, decide_False.
    + left. rewrite bool_decide_true by done. cbn [global_is_page_swapped]. unfold is_page_swapped.
      rewrite bool_decide_false; [done|]. apply eq_None_not_Some, (swapped_None m2 _ Hm2).
      by rewrite Hsw2, decide_True.
  - destruct Hout as (_ & Hm1 & Hsw & Hrej). eexists _, m1. split; [done|]. auto.
  - destruct Hout as [_ [x Hx]]. congruence.
Qed.
End swap_proofs.

Lemma swap_operations_selftest_witness :
  ∃ rep m', test_swap_operations (P:=dev) {| page_swapper := None; swap_manager := Some mgr1 |} =
      Val (rep, {| page_swapper := None; swap_manager := Some m' |}) ∧ mgr_wf m' ∧ swapped m' 1000 = None.
Proof.
  destruct (swap_operations_selftest (P:=dev) {| page_swapper := None; swap_manager := Some mgr1 |} mgr1)
    as (rep & m' & Hr & Hm & Hs & _); [done|apply mgr1_wf|done|].
  exists rep, m'. split_and!; [exact Hr|exact Hm|]. by rewrite Hs.
Defined.

(** With a device of sixteen pages the algorithm test runs through.  The first round
    moves five pages out under pressure and two by hand; the victims of the other
    rounds are out already, so their swap is refused and the round ends.  The page
    faults find nothing to bring back. *)
Definition small_disk : SwapBox :=
  FileBox {| fd_name := "disk"; fd_size := 16 * 4096; fd_storage := replicate (Z.to_nat 65536) 0; fd_available := true |}.
Definition small_world : SwapGlobals SwapBox :=
  (init_page_swapper {| page_swapper := None;
     swap_manager := Some (state_of (add_device (P:=dev) new_manager small_disk)) |} LRU 1024).2.
Example algorithm_selftest_runs :
  (match test_page_swapping_algorithms (P:=dev) small_world with
   | Val w => Some (get_swapper_stats w, swap_stats (swap_manager w))
   | _ => None
   end) =
  Some (Some {| pages_swapped_out := 7; pages_swapped_in := 0; page_faults := 4; algorithm_switches := 3 |},
        Some {| total_slots := 16; used_slots := 7; free_slots := 9 |}).
Proof. vm_compute. reflexivity. Qed.
