(* ===== verification/CpuScaling.v ===== *)
(** * CPU frequency scaling

    Models [kernel/src/power/cpu_scaling.rs]: the governors, the load history
    and the interactive boost. *)
From S2P Require Import Prelude Power.

Record CpuScalingManager := {
  current_governor : CpuGovernor;
  current_frequency : Z;
  min_frequency : Z;
  max_frequency : Z;
  load_history : list Z;
  load_index : Z;
  process_activities : gmap Z ProcessActivity;
  boost_active : bool;
  boost_end_time : Z;
}.
Definition new : CpuScalingManager := {|
  current_governor := GovOnDemand; current_frequency := 1000; min_frequency := 800;
  max_frequency := 2400; load_history := replicate 10 0; load_index := 0; process_activities := ∅;
  boost_active := false; boost_end_time := 0;
|}.
Definition set_cur (m : CpuScalingManager) v : CpuScalingManager := {|
  current_governor := current_governor m; current_frequency := v; min_frequency := min_frequency m;
  max_frequency := max_frequency m; load_history := load_history m; load_index := load_index m;
  process_activities := process_activities m; boost_active := boost_active m;
  boost_end_time := boost_end_time m |}.
Definition set_gov (m : CpuScalingManager) v : CpuScalingManager := {|
  current_governor := v; current_frequency := current_frequency m; min_frequency := min_frequency m;
  max_frequency := max_frequency m; load_history := load_history m; load_index := load_index m;
  process_activities := process_activities m; boost_active := boost_active m;
  boost_end_time := boost_end_time m |}.
Definition set_load (m : CpuScalingManager) h i : CpuScalingManager := {|
  current_governor := current_governor m; current_frequency := current_frequency m;
  min_frequency := min_frequency m; max_frequency := max_frequency m; load_history := h;
  load_index := i; process_activities := process_activities m; boost_active := boost_active m;
  boost_end_time := boost_end_time m |}.
Definition set_activities (m : CpuScalingManager) v : CpuScalingManager := {|
  current_governor := current_governor m; current_frequency := current_frequency m;
  min_frequency := min_frequency m; max_frequency := max_frequency m; load_history := load_history m;
  load_index := load_index m; process_activities := v; boost_active := boost_active m;
  boost_end_time := boost_end_time m |}.
Definition set_boost (m : CpuScalingManager) b t : CpuScalingManager := {|
  current_governor := current_governor m; current_frequency := current_frequency m;
  min_frequency := min_frequency m; max_frequency := max_frequency m; load_history := load_history m;
  load_index := load_index m; process_activities := process_activities m; boost_active := b;
  boost_end_time := t |}.

Section scaling.
Context {P : Profile}.
Implicit Types m : CpuScalingManager.

Definition set_frequency m (frequency_mhz : Z) : outcome (result unit PowerError * CpuScalingManager) :=
  if (frequency_mhz <? min_frequency m) || (max_frequency m <? frequency_mhz)
  then Val (Err InvalidTransition, m) else Val (Ok (), set_cur m frequency_mhz).
(** [min + ((max - min) * load) / 100]. *)
Definition proportional m (load_percent : Z) : outcome Z :=
  range ← usub 32 (max_frequency m) (min_frequency m);
  p ← umul 32 range load_percent;
  uadd 32 (min_frequency m) (p / 100).
Definition detect_frequency_range m : outcome (result unit PowerError * CpuScalingManager) := Val (Ok (), m).
Definition init m : outcome (result unit PowerError * CpuScalingManager) :=
  ptry (detect_frequency_range m) (λ _ m, set_frequency m (current_frequency m)).

Definition set_governor m (governor : CpuGovernor) : outcome (result unit PowerError * CpuScalingManager) :=
  let m := set_gov m governor in
  match governor with
  | GovPerformance => set_frequency m (max_frequency m)
  | GovPowerSave => set_frequency m (min_frequency m)
  | _ => Val (Ok (), m)
  end.
Definition get_frequency_info m : CpuFrequency :=
  {| current_mhz := current_frequency m; min_mhz := min_frequency m; max_mhz := max_frequency m |}.

Definition on_demand_scaling m (load_percent : Z) : outcome (result unit PowerError * CpuScalingManager) :=
  target ← (if 80 <? load_percent then Val (max_frequency m)
            else if 50 <? load_percent then proportional m load_percent
            else Val (min_frequency m));
  set_frequency m target.
Definition conservative_scaling m (load_percent : Z) : outcome (result unit PowerError * CpuScalingManager) :=
  range ← usub 32 (max_frequency m) (min_frequency m);
  let step_size := range / 10 in
  let current := current_frequency m in
  target ← (if (75 <? load_percent) && (current <? max_frequency m)
            then f ← uadd 32 current step_size; Val (Z.min f (max_frequency m))
            else if (load_percent <? 25) && (min_frequency m <? current)
            then f ← usub 32 current step_size; Val (Z.max f (min_frequency m))
            else Val current);
  set_frequency m target.
Definition interactive_scaling m (load_percent : Z) : outcome (result unit PowerError * CpuScalingManager) :=
  let has_interactive_processes := any_interactive (process_activities m) in
  target ← (if boost_active m || has_interactive_processes
            then if 30 <? load_percent then Val (max_frequency m)
                 else range ← usub 32 (max_frequency m) (min_frequency m);
                      uadd 32 (min_frequency m) (range / 2)
            else if 60 <? load_percent then Val (max_frequency m)
            else if 30 <? load_percent then proportional m load_percent
            else Val (min_frequency m));
  set_frequency m target.

Definition update_load m (load_percent : Z) : outcome (result unit PowerError * CpuScalingManager) :=
  h ← index_set (load_history m) (load_index m) load_percent;
  i ← uadd 64 (load_index m) 1;
  i ← urem i (len h);
  let m := set_load m h i in
  match current_governor m with
  | GovOnDemand => on_demand_scaling m load_percent
  | GovConservative => conservative_scaling m load_percent
  | GovInteractive => interactive_scaling m load_percent
  | _ => Val (Ok (), m)
  end.

Definition activate_interactive_boost m : CpuScalingManager := set_boost m true 10.
Definition notify_process_activity m (pid : Z) (activity : ProcessActivity) : CpuScalingManager :=
  let m := set_activities m (<[pid := activity]> (process_activities m)) in
  if bool_decide (activity = ActInteractive) then activate_interactive_boost m else m.
Definition remove_process m (pid : Z) : CpuScalingManager :=
  set_activities m (delete pid (process_activities m)).

(** [iter().map(..).sum()] adds from the left at width 32. *)
Definition get_average_load m : outcome Z :=
  sum ← for_each (λ x s, uadd 32 s x) (load_history m) 0;
  avg ← udiv sum (len (load_history m));
  Val (avg mod 2 ^ 8).
Definition tick m (current_time : Z) : outcome (result unit PowerError * CpuScalingManager) :=
  let m := if boost_active m && (boost_end_time m <=? current_time)
           then set_boost m false (boost_end_time m) else m in
  if bool_decide (current_governor m = GovInteractive)
  then avg_load ← get_average_load m; interactive_scaling m avg_load
  else Val (Ok (), m).

(** ** The global manager *)
Definition global_init : outcome (result unit PowerError * option CpuScalingManager) :=
  '(r, m) ← init new; Val (match r with Ok _ => (Ok (), Some m) | Err e => (Err e, None) end).
Definition global_set_governor (g : option CpuScalingManager) (governor : CpuGovernor) :=
  on_global g NotSupported (λ m, set_governor m governor).
Definition global_get_frequency_info (g : option CpuScalingManager) : result CpuFrequency PowerError :=
  ok_or (get_frequency_info <$> g) FrequencyScalingUnavailable.
Definition global_update_load (g : option CpuScalingManager) (load_percent : Z) :=
  on_global g NotSupported (λ m, update_load m load_percent).
Definition global_notify_process_activity (g : option CpuScalingManager) (pid : Z) (a : ProcessActivity) :
    option CpuScalingManager := (λ m, notify_process_activity m pid a) <$> g.
Definition global_remove_process (g : option CpuScalingManager) (pid : Z) : option CpuScalingManager :=
  (λ m, remove_process m pid) <$> g.
Definition global_tick (g : option CpuScalingManager) (current_time : Z) :
    outcome (result unit PowerError * option CpuScalingManager) :=
  match g with
  | Some m => '(r, m) ← tick m current_time; Val (r, Some m)
  | None => Val (Ok (), None)
  end.
End scaling.

(** ** Targets

    The frequency range is never changed, so the targets are functions of the
    load (and of the current frequency for the conservative governor). *)
Definition on_demand_target (load : Z) : Z :=
  if 80 <? load then 2400 else if 50 <? load then 800 + 16 * load else 800.
Definition conservative_target (current load : Z) : Z :=
  if 75 <? load then Z.min (current + 160) 2400
  else if load <? 25 then Z.max (current - 160) 800 else current.
Definition interactive_target (boosted : bool) (load : Z) : Z :=
  if boosted then (if 30 <? load then 2400 else 1600)
  else if 60 <? load then 2400 else if 30 <? load then 800 + 16 * load else 800.
(** What a load measurement makes of the frequency. *)
Definition load_target (m : CpuScalingManager) (load : Z) : Z :=
  match current_governor m with
  | GovOnDemand => on_demand_target load
  | GovConservative => conservative_target (current_frequency m) load
  | GovInteractive => interactive_target (boost_active m || any_interactive (process_activities m)) load
  | _ => current_frequency m
  end.

Record cpu_wf (m : CpuScalingManager) : Prop := {
  wf_range : min_frequency m = 800 ∧ max_frequency m = 2400;
  wf_current : 800 ≤ current_frequency m ≤ 2400;
  wf_history : length (load_history m) = 10%nat ∧ Forall (λ l, 0 ≤ l < 256) (load_history m);
  wf_index : 0 ≤ load_index m < 10;
}.
Lemma set_cur_wf m f : cpu_wf m → 800 ≤ f ≤ 2400 → cpu_wf (set_cur m f).
Proof. intros []. by split. Qed.

Section theorems.
Context {P : Profile}.
Implicit Types m : CpuScalingManager.

Lemma set_frequency_val m f : cpu_wf m → 800 ≤ f ≤ 2400 → set_frequency m f = Val (Ok (), set_cur m f).
Proof. intros [[Hmin Hmax]] Hf. unfold set_frequency. rewrite Hmin, Hmax. zcase; try lia; done. Qed.
Lemma proportional_val m l : cpu_wf m → 0 ≤ l < 256 → proportional m l = Val (800 + 16 * l).
Proof.
  intros [[Hmin Hmax]] Hl. unfold proportional. rewrite Hmin, Hmax.
  rewrite usub_val by lia. cbn [mbind outcome_bind]. rewrite umul_val by lia. cbn [mbind outcome_bind].
  rewrite uadd_val by divlia. f_equal. divlia.
Qed.
Lemma on_demand_val m l : cpu_wf m → 0 ≤ l < 256 →
  on_demand_scaling m l = Val (Ok (), set_cur m (on_demand_target l)).
Proof.
  intros Hm Hl. pose proof Hm as [[Hmin Hmax]]. unfold on_demand_scaling, on_demand_target.
  destruct (Z.ltb_spec 80 l); [rewrite Hmax; apply set_frequency_val; [done|lia]|].
  destruct (Z.ltb_spec 50 l); [rewrite proportional_val by done|rewrite Hmin];
    apply set_frequency_val; done || lia.
Qed.
Lemma conservative_val m l : cpu_wf m → 0 ≤ l < 256 →
  conservative_scaling m l = Val (Ok (), set_cur m (conservative_target (current_frequency m) l)).
Proof.
  intros Hm Hl. pose proof Hm as [[Hmin Hmax] Hc]. unfold conservative_scaling, conservative_target.
  rewrite Hmin, Hmax, usub_val by lia. cbn [mbind outcome_bind]. change ((2400 - 800) / 10) with 160.
  rewrite uadd_val, usub_val by lia. cbn [mbind outcome_bind].
  destruct (Z.ltb_spec 75 l), (Z.ltb_spec (current_frequency m) 2400), (Z.ltb_spec l 25),
    (Z.ltb_spec 800 (current_frequency m)); simpl; rewrite ?set_frequency_val by (done || lia);
    try done; try lia; do 3 f_equal; lia.
Qed.
Lemma interactive_val m l : cpu_wf m → 0 ≤ l < 256 →
  interactive_scaling m l = Val (Ok (), set_cur m
    (interactive_target (boost_active m || any_interactive (process_activities m)) l)).
Proof.
  intros Hm Hl. pose proof Hm as [[Hmin Hmax]]. unfold interactive_scaling, interactive_target.
  destruct (boost_active m || _).
  - destruct (Z.ltb_spec 30 l).
    + rewrite Hmax. by apply set_frequency_val.
    + rewrite Hmin, Hmax, usub_val by lia. cbn [mbind outcome_bind]. change ((2400 - 800) / 2) with 800.
      rewrite uadd_val by lia. by apply set_frequency_val.
  - destruct (Z.ltb_spec 60 l); [rewrite Hmax; by apply set_frequency_val|].
    destruct (Z.ltb_spec 30 l); [rewrite proportional_val by done|rewrite Hmin];
      apply set_frequency_val; done || lia.
Qed.
Lemma load_target_range m l : cpu_wf m → 0 ≤ l < 256 → 800 ≤ load_target m l ≤ 2400.
Proof.
  intros [_ Hc] Hl. unfold load_target, on_demand_target, conservative_target, interactive_target.
  destruct (current_governor m); try done; try destruct (_ || _); zcase; lia.
Qed.

(** What a load measurement does, for every governor. *)
Lemma update_load_val m l : cpu_wf m → 0 ≤ l < 256 →
  ∃ m', update_load m l = Val (Ok (), m') ∧ cpu_wf m' ∧ current_frequency m' = load_target m l ∧
    current_governor m' = current_governor m ∧
    load_history m' = <[Z.to_nat (load_index m) := l]> (load_history m).
Proof.
  intros Hm Hl. pose proof (load_target_range m l Hm Hl) as Hr. pose proof Hm as [Hmm Hc [Hlen Hall] Hi].
  unfold update_load. rewrite index_set_val by lia. cbn [mbind outcome_bind].
  rewrite uadd_val by lia. cbn [mbind outcome_bind]. unfold len. rewrite length_insert, Hlen.
  rewrite urem_val by done. cbn [mbind outcome_bind].
  set (m1 := set_load m _ _). assert (cpu_wf m1) as Hm1.
  { split; simpl; [done..| |apply Z.mod_pos_bound; lia]. rewrite length_insert. split; [done|].
    by apply Forall_insert. }
  assert (cpu_wf (set_cur m1 (load_target m l))) as Hwf by by apply set_cur_wf.
  exists (set_cur m1 (load_target m l)). split; [|done]. unfold load_target in *. simpl.
  destruct (current_governor m).
  - by destruct m.
  - by rewrite (on_demand_val m1).
  - by destruct m.
  - by rewrite (conservative_val m1).
  - by rewrite (interactive_val m1).
Qed.

Lemma average_load_val m : cpu_wf m → ∃ l, get_average_load m = Val l ∧ 0 ≤ l < 256.
Proof.
  intros [_ _ [Hlen Hall]]. unfold get_average_load.
  assert (∀ h s, Forall (λ l, 0 ≤ l < 256) h → 0 ≤ s → s + 256 * len h < 2 ^ 32 →
    ∃ t, for_each (λ x s, uadd 32 s x) h s = Val t ∧ s ≤ t ≤ s + 255 * len h) as Hsum.
  { induction h as [|x h IH]; intros s Hh Hs Hb; [exists s; simpl; unfold len; simpl; split; [done|lia]|].
    apply Forall_cons in Hh as [Hx Hh]. change (x :: h) with ([x] ++ h) in *.
    rewrite len_app, len_singleton in *. pose proof (len_nonneg h). simpl.
    rewrite uadd_val by lia. cbn [mbind outcome_bind].
    destruct (IH (s + x)) as (t & -> & Ht); [done|lia..|]. exists t. split; [done|lia]. }
  destruct (Hsum (load_history m) 0 Hall) as (t & -> & Ht); [done|unfold len; lia|].
  cbn [mbind outcome_bind]. unfold len in *. rewrite Hlen in *.
  rewrite udiv_val by done. cbn [mbind outcome_bind]. eexists. split; [done|]. apply Z.mod_pos_bound. lia.
Qed.

Inductive cpu_op :=
  | OpGovernor (g : CpuGovernor)
  | OpLoad (load : Z)
  | OpNotify (pid : Z) (a : ProcessActivity)
  | OpRemove (pid : Z)
  | OpTick (time : Z).
Definition cpu_op_ok (o : cpu_op) : Prop := match o with OpLoad l => 0 ≤ l < 256 | _ => True end.
Definition cpu_step m (o : cpu_op) : outcome (result unit PowerError * CpuScalingManager) :=
  match o with
  | OpGovernor g => set_governor m g
  | OpLoad l => update_load m l
  | OpNotify pid a => Val (Ok (), notify_process_activity m pid a)
  | OpRemove pid => Val (Ok (), remove_process m pid)
  | OpTick t => tick m t
  end.
(** Run the operations, stopping at the first error. *)
Fixpoint cpu_run m (os : list cpu_op) : outcome (result unit PowerError * CpuScalingManager) :=
  match os with
  | [] => Val (Ok (), m)
  | o :: os => ptry (cpu_step m o) (λ _ m, cpu_run m os)
  end.

Lemma cpu_step_ok m o : cpu_wf m → cpu_op_ok o → ∃ m', cpu_step m o = Val (Ok (), m') ∧ cpu_wf m'.
Proof.
  intros Hm Ho. pose proof Hm as [[Hmin Hmax] Hc Hh Hi]. destruct o as [g|l|pid a|pid|t]; simpl.
  - assert (cpu_wf (set_gov m g)) as Hg by (split; done).
    destruct g; simpl; rewrite ?Hmin, ?Hmax; rewrite ?set_frequency_val by done;
      (eexists; split; [done|]); by try apply set_cur_wf.
  - destruct (update_load_val m l Hm Ho) as (m' & -> & ? & _). eauto.
  - eexists. split; [done|]. unfold notify_process_activity. case_bool_decide; by split.
  - eexists. split; [done|]. by split.
  - unfold tick. set (m1 := if boost_active m && _ then _ else _).
    assert (cpu_wf m1) as Hm1 by (unfold m1; destruct (_ && _); by split).
    case_bool_decide; [|by exists m1]. destruct (average_load_val m1 Hm1) as (l & -> & Hl).
    cbn [mbind outcome_bind]. rewrite interactive_val by done. eexists. split; [done|].
    apply set_cur_wf; [done|]. unfold interactive_target. destruct (_ || _); zcase; lia.
Qed.
Lemma cpu_run_ok os m : cpu_wf m → Forall cpu_op_ok os → ∃ m', cpu_run m os = Val (Ok (), m') ∧ cpu_wf m'.
Proof.
  revert m. induction os as [|o os IH]; intros m Hm Hos; [by exists m|].
  apply Forall_cons in Hos as [Ho Hos]. destruct (cpu_step_ok m o Hm Ho) as (m1 & Hs & Hm1).
  simpl. rewrite Hs. unfold ptry. cbn [mbind outcome_bind]. by apply IH.
Qed.
Lemma init_wf : ∃ m, init new = Val (Ok (), m) ∧ cpu_wf m.
Proof.
  exists (set_cur new 1000). split; [done|]. split; simpl; [done|lia| |lia]. split; [done|].
  repeat constructor; lia.
Qed.
Lemma cpu_run_app os os' m m' : cpu_run m os = Val (Ok (), m') → cpu_run m (os ++ os') = cpu_run m' os'.
Proof.
  revert m. induction os as [|o os IH]; intros m; simpl; [by intros [= <-]|].
  unfold ptry. destruct (cpu_step m o) as [[[[]|e] m1]| |]; try done. apply IH.
Qed.

(** C31: The CPU frequency stays between 800 and 2400 MHz and follows the
    governor.  After any operations (governor changes, loads of any byte value,
    process activity, ticks at any time) from initialisation, nothing panics and
    no operation fails, and the next load measurement sets exactly the
    governor's target for it. *)
Theorem frequency_follows_governor os load :
  Forall cpu_op_ok os → 0 ≤ load < 256 →
  ∃ m0 m m', init new = Val (Ok (), m0) ∧ cpu_run m0 os = Val (Ok (), m) ∧
    800 ≤ current_frequency m ≤ 2400 ∧
    update_load m load = Val (Ok (), m') ∧ current_frequency m' = load_target m load.
Proof.
  intros Hos Hl. destruct init_wf as (m0 & -> & Hm0). destruct (cpu_run_ok os m0 Hm0 Hos) as (m & Hr & Hm).
  destruct (update_load_val m load Hm Hl) as (m' & Hu & _ & Hf & _).
  exists m0, m, m'. split_and!; try done; apply Hm.
Qed.

(** A higher load never gets a lower frequency. *)
Theorem load_target_monotone m l l' : cpu_wf m → 0 ≤ l ≤ l' → load_target m l ≤ load_target m l'.
Proof.
  intros [_ Hc] Hl. unfold load_target, on_demand_target, conservative_target, interactive_target.
  destruct (current_governor m); try done; try destruct (_ || _); zcase; lia.
Qed.

(** The conservative governor converges: whatever happened before, ten
    consecutive loads above 75 percent bring the frequency to its maximum, and
    ten below 25 percent to its minimum. *)
Theorem conservative_converges os loads :
  Forall cpu_op_ok os → length loads = 10%nat → Forall (λ l, 0 ≤ l < 256) loads →
  ∃ m0 m, init new = Val (Ok (), m0) ∧
    cpu_run m0 (os ++ OpGovernor GovConservative :: (OpLoad <$> loads)) = Val (Ok (), m) ∧
    (Forall (λ l, 75 < l) loads → current_frequency m = 2400) ∧
    (Forall (λ l, l < 25) loads → current_frequency m = 800).
Proof.
  intros Hos Hlen Hall. destruct init_wf as (m0 & -> & Hm0). exists m0.
  destruct (cpu_run_ok os m0 Hm0 Hos) as (m1 & Hr & Hm1). rewrite (cpu_run_app _ _ _ _ Hr). simpl.
  unfold ptry. cbn [mbind outcome_bind].
  cut (∀ ls m, Forall (λ l, 0 ≤ l < 256) ls → cpu_wf m → current_governor m = GovConservative →
    ∃ m', cpu_run m (OpLoad <$> ls) = Val (Ok (), m') ∧
      (Forall (λ l, 75 < l) ls → current_frequency m' = Z.min 2400 (current_frequency m + 160 * len ls)) ∧
      (Forall (λ l, l < 25) ls → current_frequency m' = Z.max 800 (current_frequency m - 160 * len ls))).
  { intros Hrun. destruct (Hrun loads (set_gov m1 GovConservative)) as (m' & Hm' & Hhi & Hlo); [done|by destruct Hm1|done|].
    exists m'. split_and!; [done|done| |]; destruct Hm1 as [_ Hc _ _]; simpl in *; unfold len in *;
      rewrite Hlen in *; [intros H%Hhi|intros H%Hlo]; rewrite H; lia. }
  clear. induction ls as [|l ls IH]; intros m Hall Hm Hg.
  { exists m. simpl. unfold len. simpl. destruct Hm as [_ Hc _ _]. split_and!; [done|lia..]. }
  apply Forall_cons in Hall as [Hl Hall].
  destruct (update_load_val m l Hm Hl) as (m1 & Hu & Hm1 & Hf & Hg1 & _). simpl. rewrite Hu.
  unfold ptry. cbn [mbind outcome_bind]. destruct (IH m1) as (m' & Hr & Hhi & Hlo); [done|done|congruence|].
  exists m'. split; [done|]. unfold load_target in Hf. rewrite Hg in Hf. destruct Hm as [_ Hc _ _].
  assert (len (l :: ls) = 1 + len ls) as -> by (unfold len; simpl; lia). unfold conservative_target in Hf.
  pose proof (len_nonneg ls). split; intros [Hx Hxs]%Forall_cons.
  - rewrite (Hhi Hxs), Hf. destruct (Z.ltb_spec 75 l); lia.
  - rewrite (Hlo Hxs), Hf. destruct (Z.ltb_spec 75 l), (Z.ltb_spec l 25); lia.
Qed.

(** The boost has no duration: its end is the constant 10, so the first tick at
    time 10 or later ends it, however recent the activity was. *)
Theorem boost_ends_at_next_tick m pid t : cpu_wf m → 10 ≤ t →
  ∃ m', tick (notify_process_activity m pid ActInteractive) t = Val (Ok (), m') ∧ boost_active m' = false.
Proof.
  intros Hm Ht. unfold notify_process_activity. rewrite bool_decide_true by done. unfold tick. simpl.
  rewrite (proj2 (Z.leb_le 10 t)) by done. set (m1 := set_boost _ _ _).
  assert (cpu_wf m1) as Hm1 by (destruct Hm; by split).
  simpl. case_bool_decide; [|by exists m1]. destruct (average_load_val m1 Hm1) as (l & -> & Hl).
  cbn [mbind outcome_bind]. rewrite interactive_val by done. by eexists.
Qed.
End theorems.

Lemma frequency_follows_governor_witness :
  ∃ m0 m m', @init new = Val (Ok (), m0) ∧
    @cpu_run dev m0 [OpGovernor GovConservative; OpLoad 90] = Val (Ok (), m) ∧
    800 ≤ current_frequency m ≤ 2400 ∧
    @update_load dev m 255 = Val (Ok (), m') ∧ current_frequency m' = load_target m 255.
Proof.
  apply (@frequency_follows_governor dev); [|lia]. repeat constructor; vm_compute; congruence.
Defined.
Lemma conservative_converges_witness :
  ∃ m0 m, @init new = Val (Ok (), m0) ∧
    @cpu_run dev m0 ([OpTick 5] ++ OpGovernor GovConservative :: (OpLoad <$> replicate 10 100)) = Val (Ok (), m) ∧
    (Forall (λ l, 75 < l) (replicate 10 100) → current_frequency m = 2400) ∧
    (Forall (λ l, l < 25) (replicate 10 100) → current_frequency m = 800).
Proof.
  apply (@conservative_converges dev); [by repeat constructor|done|]. apply Forall_replicate. lia.
Defined.
