(* ===== verification/Idle.v ===== *)
(** * Idle state management

    Models [kernel/src/power/idle_management.rs]: the choice of a C-state, the
    transitions and the statistics.  The halt routines of the source are empty. *)
From S2P Require Import Prelude Power.

Inductive IdleState := C0 | C1 | C2 | C3 | C4.
#[export] Instance IdleState_eq_dec : EqDecision IdleState.
Proof. solve_decision. Defined.
(** [state as usize], and the [match] back. *)
Definition state_index (s : IdleState) : Z :=
  match s with C0 => 0 | C1 => 1 | C2 => 2 | C3 => 3 | C4 => 4 end.
Definition state_of_index (i : Z) : IdleState :=
  match_arms [(0, C0); (1, C1); (2, C2); (3, C3); (4, C4)] i C0.

Record IdleStateInfo := {
  info_state : IdleState;
  entry_latency_us : Z;
  exit_latency_us : Z;
  power_consumption_mw : Z;
  available : bool;
}.
Record IdleStats := {
  time_in_c0 : Z;
  time_in_c1 : Z;
  time_in_c2 : Z;
  time_in_c3 : Z;
  time_in_c4 : Z;
  total_idle_entries : Z;
  total_idle_time : Z;
}.
Record IdleManager := {
  current_state : IdleState;
  available_states : list IdleStateInfo;
  stats : IdleStats;
  last_activity_time : Z;
  idle_threshold_ms : Z;
  deep_idle_threshold_ms : Z;
  active_processes : gmap Z ProcessActivity;
  prevent_deep_idle : bool;
}.

Definition state_info s en ex mw av : IdleStateInfo := {|
  info_state := s; entry_latency_us := en; exit_latency_us := ex; power_consumption_mw := mw;
  available := av |}.
Definition stats_default : IdleStats := {|
  time_in_c0 := 0; time_in_c1 := 0; time_in_c2 := 0; time_in_c3 := 0; time_in_c4 := 0;
  total_idle_entries := 0; total_idle_time := 0 |}.
Definition new : IdleManager := {|
  current_state := C0;
  available_states := [state_info C0 0 0 1000 true; state_info C1 1 1 500 true;
    state_info C2 10 20 200 true; state_info C3 50 100 50 true; state_info C4 200 500 10 false];
  stats := stats_default; last_activity_time := 0; idle_threshold_ms := 10;
  deep_idle_threshold_ms := 100; active_processes := ∅; prevent_deep_idle := false;
|}.
Definition set_state (m : IdleManager) s st : IdleManager := {|
  current_state := s; available_states := available_states m; stats := st;
  last_activity_time := last_activity_time m; idle_threshold_ms := idle_threshold_ms m;
  deep_idle_threshold_ms := deep_idle_threshold_ms m; active_processes := active_processes m;
  prevent_deep_idle := prevent_deep_idle m |}.
Definition set_available (m : IdleManager) l : IdleManager := {|
  current_state := current_state m; available_states := l; stats := stats m;
  last_activity_time := last_activity_time m; idle_threshold_ms := idle_threshold_ms m;
  deep_idle_threshold_ms := deep_idle_threshold_ms m; active_processes := active_processes m;
  prevent_deep_idle := prevent_deep_idle m |}.
Definition set_last_activity (m : IdleManager) t : IdleManager := {|
  current_state := current_state m; available_states := available_states m; stats := stats m;
  last_activity_time := t; idle_threshold_ms := idle_threshold_ms m;
  deep_idle_threshold_ms := deep_idle_threshold_ms m; active_processes := active_processes m;
  prevent_deep_idle := prevent_deep_idle m |}.
Definition set_processes (m : IdleManager) a p : IdleManager := {|
  current_state := current_state m; available_states := available_states m; stats := stats m;
  last_activity_time := last_activity_time m; idle_threshold_ms := idle_threshold_ms m;
  deep_idle_threshold_ms := deep_idle_threshold_ms m; active_processes := a; prevent_deep_idle := p |}.
Definition set_thresholds (m : IdleManager) (idle deep : Z) : IdleManager := {|
  current_state := current_state m; available_states := available_states m; stats := stats m;
  last_activity_time := last_activity_time m; idle_threshold_ms := idle; deep_idle_threshold_ms := deep;
  active_processes := active_processes m; prevent_deep_idle := prevent_deep_idle m |}.

Section idle.
Context {P : Profile}.
Implicit Types m : IdleManager.

Definition detect_deep_idle_support m : bool := true.
Definition init m : outcome (result unit PowerError * IdleManager) :=
  i ← index (available_states m) 4;
  l ← index_set (available_states m) 4 (state_info (info_state i) (entry_latency_us i) (exit_latency_us i)
        (power_consumption_mw i) (detect_deep_idle_support m));
  Val (Ok (), set_available m l).

(** The shallower states below [i], deepest first. *)
Fixpoint fallback_below m (i : nat) : outcome IdleState :=
  match i with
  | O => Val C0
  | S i => info ← index (available_states m) (Z.of_nat i);
           if available info then Val (state_of_index (Z.of_nat i)) else fallback_below m i
  end.
Definition find_fallback_state m (requested_state : IdleState) : outcome IdleState :=
  fallback_below m (Z.to_nat (state_index requested_state)).

Definition select_idle_state m (idle_duration_ms : Z) : outcome IdleState :=
  if idle_duration_ms <? idle_threshold_ms m then Val C0
  else
    let has_interactive := any_interactive (active_processes m) in
    target_state ←
      (if has_interactive then
         Val (if 50 <? idle_duration_ms then C2 else if 20 <? idle_duration_ms then C1 else C0)
       else if prevent_deep_idle m then
         Val (if deep_idle_threshold_ms m <? idle_duration_ms then C2
              else if 20 <? idle_duration_ms then C1 else C0)
       else
         deep ← (if 500 <? idle_duration_ms
                 then i ← index (available_states m) 4; Val (available i) else Val false);
         Val (if deep : bool then C4
              else if deep_idle_threshold_ms m <? idle_duration_ms then C3
              else if 50 <? idle_duration_ms then C2
              else if 20 <? idle_duration_ms then C1 else C0));
    info ← index (available_states m) (state_index target_state);
    if available info then Val target_state else find_fallback_state m target_state.

Definition transition_to_state m (target_state : IdleState) : outcome IdleManager :=
  let s := stats m in
  n ← uadd 64 (total_idle_entries s) 1;
  Val (set_state m target_state {|
    time_in_c0 := time_in_c0 s; time_in_c1 := time_in_c1 s; time_in_c2 := time_in_c2 s;
    time_in_c3 := time_in_c3 s; time_in_c4 := time_in_c4 s; total_idle_entries := n;
    total_idle_time := total_idle_time s |}).

Definition update_idle_stats m (idle_time : Z) : outcome IdleManager :=
  let s := stats m in
  total ← uadd 64 (total_idle_time s) idle_time;
  let done c0 c1 c2 c3 c4 := Val (set_state m (current_state m) {|
    time_in_c0 := c0; time_in_c1 := c1; time_in_c2 := c2; time_in_c3 := c3; time_in_c4 := c4;
    total_idle_entries := total_idle_entries s; total_idle_time := total |}) in
  let '(c0, c1, c2, c3, c4) := (time_in_c0 s, time_in_c1 s, time_in_c2 s, time_in_c3 s, time_in_c4 s) in
  match current_state m with
  | C0 => t ← uadd 64 c0 idle_time; done t c1 c2 c3 c4
  | C1 => t ← uadd 64 c1 idle_time; done c0 t c2 c3 c4
  | C2 => t ← uadd 64 c2 idle_time; done c0 c1 t c3 c4
  | C3 => t ← uadd 64 c3 idle_time; done c0 c1 c2 t c4
  | C4 => t ← uadd 64 c4 idle_time; done c0 c1 c2 c3 t
  end.

Definition enter_idle m (current_time : Z) : outcome (result IdleState PowerError * IdleManager) :=
  let idle_duration := saturating_sub current_time (last_activity_time m) in
  target_state ← select_idle_state m idle_duration;
  m ← (if bool_decide (target_state = current_state m) then Val m else transition_to_state m target_state);
  Val (Ok target_state, m).
Definition exit_idle m (current_time : Z) : outcome (result unit PowerError * IdleManager) :=
  m ← (if bool_decide (current_state m = C0) then Val m
       else m ← update_idle_stats m (saturating_sub current_time (last_activity_time m));
            transition_to_state m C0);
  Val (Ok (), set_last_activity m current_time).

Definition notify_process_activity m (pid : Z) (activity : ProcessActivity) (current_time : Z) : IdleManager :=
  let a := <[pid := activity]> (active_processes m) in
  set_processes (set_last_activity m current_time) a (any_interactive a).
Definition remove_process m (pid : Z) : IdleManager :=
  let a := delete pid (active_processes m) in set_processes m a (any_interactive a).
Definition get_current_state m : IdleState := current_state m.
Definition get_stats m : IdleStats := stats m.

(** ** The global manager *)
Definition global_init : outcome (result unit PowerError * option IdleManager) :=
  '(r, m) ← init new; Val (match r with Ok _ => (Ok (), Some m) | Err e => (Err e, None) end).
Definition global_enter_idle (g : option IdleManager) (t : Z) := on_global g NotSupported (λ m, enter_idle m t).
Definition global_exit_idle (g : option IdleManager) (t : Z) := on_global g NotSupported (λ m, exit_idle m t).
Definition global_notify_process_activity (g : option IdleManager) (pid : Z) (a : ProcessActivity) (t : Z) :
    option IdleManager := (λ m, notify_process_activity m pid a t) <$> g.
Definition global_remove_process (g : option IdleManager) (pid : Z) : option IdleManager :=
  (λ m, remove_process m pid) <$> g.
Definition global_get_current_state (g : option IdleManager) : result IdleState PowerError :=
  ok_or (get_current_state <$> g) NotSupported.
Definition global_get_stats (g : option IdleManager) : result IdleStats PowerError :=
  ok_or (get_stats <$> g) NotSupported.
End idle.

(** ** Invariant *)

(** All states are available after [init] and stay so; the flag that prevents
    deep idle says whether an interactive process is tracked; the times of the
    states add up, and [k] more transitions and [b] more milliseconds fit. *)
Record idle_inv (k b : Z) (m : IdleManager) : Prop := {
  inv_available : length (available_states m) = 5%nat ∧ Forall (λ i, available i = true) (available_states m);
  inv_prevent : prevent_deep_idle m = any_interactive (active_processes m);
  inv_times : Forall (λ t, 0 ≤ t) [time_in_c0 (stats m); time_in_c1 (stats m); time_in_c2 (stats m);
                                   time_in_c3 (stats m); time_in_c4 (stats m)];
  inv_total : total_idle_time (stats m) = time_in_c0 (stats m) + time_in_c1 (stats m) +
    time_in_c2 (stats m) + time_in_c3 (stats m) + time_in_c4 (stats m);
  inv_c0 : time_in_c0 (stats m) = 0;
  inv_room : 0 ≤ total_idle_entries (stats m) ∧ total_idle_entries (stats m) + k < 2 ^ 64 ∧
             total_idle_time (stats m) + b < 2 ^ 64;
  inv_last : 0 ≤ last_activity_time m;
}.

(** The choice as a function of the duration: the branch for a set
    [prevent_deep_idle] without an interactive process does not occur. *)
Definition chosen_state (m : IdleManager) (d : Z) : IdleState :=
  if d <? idle_threshold_ms m then C0
  else if any_interactive (active_processes m)
  then if 50 <? d then C2 else if 20 <? d then C1 else C0
  else if 500 <? d then C4
  else if deep_idle_threshold_ms m <? d then C3
  else if 50 <? d then C2 else if 20 <? d then C1 else C0.

Section idle_theorems.
Context {P : Profile}.
Implicit Types m : IdleManager.

Lemma available_index m k b i : idle_inv k b m → 0 ≤ i < 5 →
  ∃ info, index (available_states m) i = Val info ∧ available info = true.
Proof.
  intros Hm Hi. destruct (inv_available _ _ _ Hm) as [Hlen Hall].
  destruct (lookup_lt_is_Some_2 (available_states m) (Z.to_nat i)) as [info Hinfo]; [lia|].
  exists info. split; [by apply index_val|]. rewrite Forall_forall in Hall.
  apply Hall. by eapply list_elem_of_lookup_2.
Qed.
Lemma select_idle_state_val m k b d : idle_inv k b m → select_idle_state m d = Val (chosen_state m d).
Proof.
  intros Hm. unfold select_idle_state, chosen_state. destruct (_ <? idle_threshold_ms m); [done|].
  assert (∀ s, (info ← index (available_states m) (state_index s);
    if available info then Val s else find_fallback_state m s) = Val s) as Hs.
  { intros s. destruct (available_index m k b (state_index s) Hm) as (i & -> & Hi); [by destruct s|].
    cbn [mbind outcome_bind]. by rewrite Hi. }
  rewrite (inv_prevent _ _ _ Hm). destruct (any_interactive (active_processes m)).
  - cbn [mbind outcome_bind]. apply Hs.
  - destruct (available_index m k b 4 Hm) as (i & Hi & Ha); [lia|]. rewrite Hi.
    destruct (500 <? d); cbn [mbind outcome_bind]; rewrite ?Ha; apply Hs.
Qed.
Lemma transition_val m k b s : idle_inv k b m → 1 ≤ k →
  ∃ m', transition_to_state m s = Val m' ∧ idle_inv (k - 1) b m' ∧ current_state m' = s ∧
    last_activity_time m' = last_activity_time m ∧
    total_idle_entries (stats m') = total_idle_entries (stats m) + 1 ∧
    total_idle_time (stats m') = total_idle_time (stats m).
Proof.
  intros Hm Hk. pose proof (inv_room _ _ _ Hm). unfold transition_to_state. rewrite uadd_val by lia.
  eexists. split; [done|]. split; [|done]. destruct Hm. split; simpl; try done; lia.
Qed.

(** The idle state entered is the one the duration asks for.  From any
    reachable manager, [enter_idle] returns and enters the chosen state: C0
    before the idle threshold, never deeper than C2 while an interactive process
    is tracked, and C4 only after half a second; the branch of the source for
    [prevent_deep_idle] alone is never taken. *)
Theorem enter_idle_exact m k b now :
  idle_inv k b m → 1 ≤ k →
  let s := chosen_state m (saturating_sub now (last_activity_time m)) in
  ∃ m', enter_idle m now = Val (Ok s, m') ∧ current_state m' = s ∧ idle_inv (k - 1) b m'.
Proof.
  intros Hm Hk s. unfold enter_idle. rewrite (select_idle_state_val m k b) by done. fold s.
  cbn [mbind outcome_bind]. case_bool_decide as Hs.
  - exists m. split; [done|]. split; [done|]. destruct Hm. split; try done. lia.
  - destruct (transition_val m k b s Hm Hk) as (m' & -> & Hm' & Hc & _). by exists m'.
Qed.

Lemma update_stats_val m k b t : idle_inv k b m → 0 ≤ t ≤ b → current_state m ≠ C0 →
  ∃ m', update_idle_stats m t = Val m' ∧ idle_inv k (b - t) m' ∧
    total_idle_time (stats m') = total_idle_time (stats m) + t ∧
    total_idle_entries (stats m') = total_idle_entries (stats m) ∧ last_activity_time m' = last_activity_time m.
Proof.
  intros Hm Ht Hs. pose proof Hm as [Ha Hp Ht0 Htot Hc0 Hr Hl].
  rewrite !Forall_cons in Ht0. unfold update_idle_stats. rewrite (uadd_val 64 (total_idle_time (stats m))) by lia.
  cbn [mbind outcome_bind].
  destruct (current_state m) eqn:Hs'; try done; rewrite uadd_val by lia; cbn [mbind outcome_bind];
    (eexists; split; [reflexivity|]); (split; [|done]); split; simpl; rewrite ?Forall_cons, ?Forall_nil; try done; lia.
Qed.

(** Waking up accounts for the whole time since the last activity.  From an
    idle state, [exit_idle] returns to C0, adds that time to the total and to the
    state that is left (the times of the states always add up to the total), and
    counts an entry, though it leaves the idle state. *)
Theorem exit_idle_exact m k b now :
  idle_inv k b m → 1 ≤ k → current_state m ≠ C0 → 0 ≤ now →
  let t := saturating_sub now (last_activity_time m) in t ≤ b →
  ∃ m', exit_idle m now = Val (Ok (), m') ∧ current_state m' = C0 ∧ last_activity_time m' = now ∧
    idle_inv (k - 1) (b - t) m' ∧ total_idle_time (stats m') = total_idle_time (stats m) + t ∧
    total_idle_entries (stats m') = total_idle_entries (stats m) + 1.
Proof.
  intros Hm Hk Hs Hnow t Ht. unfold exit_idle. rewrite bool_decide_false by done. fold t.
  destruct (update_stats_val m k b t Hm) as (m1 & -> & Hm1 & Htot & Hent & Hl);
    [unfold t, saturating_sub in *; lia|done|]. cbn [mbind outcome_bind].
  destruct (transition_val m1 k (b - t) C0 Hm1 Hk) as (m2 & -> & Hm2 & Hc & _ & Hent2 & Htot2).
  cbn [mbind outcome_bind]. eexists. split; [done|]. simpl. split_and!; try done; [|lia..].
  destruct Hm2. by split.
Qed.

Lemma init_inv k b : 0 ≤ k < 2 ^ 64 → 0 ≤ b < 2 ^ 64 → ∃ m, init new = Val (Ok (), m) ∧ idle_inv k b m.
Proof.
  intros Hk Hb. eexists. split; [vm_compute; reflexivity|]. split; simpl; try done; [|repeat constructor; lia|lia].
  split; [done|]. by repeat constructor.
Qed.
Lemma notify_inv m k b pid a t : idle_inv k b m → 0 ≤ t → idle_inv k b (notify_process_activity m pid a t).
Proof. intros [] Ht. by split. Qed.
Lemma remove_inv m k b pid : idle_inv k b m → idle_inv k b (remove_process m pid).
Proof. intros []. by split. Qed.

(** While an interactive process is tracked the CPU stays in C0 to C2. *)
Theorem interactive_keeps_shallow m d pid :
  active_processes m !! pid = Some ActInteractive → state_index (chosen_state m d) ≤ 2.
Proof.
  intros Hp. unfold chosen_state. rewrite (proj2 (any_interactive_iff _)) by eauto. zcase; simpl; lia.
Qed.
End idle_theorems.

Lemma enter_idle_exact_witness :
  ∃ m m', @init new = Val (Ok (), m) ∧ @enter_idle dev m 1000 = Val (Ok C4, m') ∧ current_state m' = C4.
Proof.
  destruct (init_inv 5 5) as (m & Hm & Hi); [lia..|]. exists m.
  destruct (@enter_idle_exact dev m 5 5 1000 Hi) as (m' & He & Hc & _); [lia|].
  exists m'. split; [done|]. injection Hm as <-. by split.
Defined.
Lemma exit_idle_exact_witness :
  ∃ m m', @exit_idle dev m 30 = Val (Ok (), m') ∧ current_state m = C1 ∧
    total_idle_time (stats m') = 30 ∧ total_idle_entries (stats m') = 2.
Proof.
  destruct (init_inv 5 50) as (m0 & Hm0 & Hi); [lia..|].
  destruct (@transition_val dev m0 5 50 C1 Hi) as (m & Hm & Hi1 & Hc & Hl & He & Ht); [lia|].
  assert (last_activity_time m = 0) as Hlast by (rewrite Hl; injection Hm0 as <-; done).
  destruct (@exit_idle_exact dev m 4 50 30 Hi1) as (m' & Hx & _ & _ & _ & Ht' & He');
    [lia|by rewrite Hc|lia|rewrite Hlast; vm_compute; congruence|].
  exists m, m'. rewrite Hlast in Ht'. injection Hm0 as <-. simpl in He, Ht.
  split_and!; [done|done|rewrite Ht', Ht; done|rewrite He', He; done].
Defined.
