(* ===== verification/Battery.v ===== *)
(** * Battery monitoring

    Models [kernel/src/power/battery_monitor.rs].  The state of the simulated
    battery is a static of the source and is passed explicitly; a callback is
    the one function the kernel registers, and triggering an event returns the
    calls to make. *)
From S2P Require Import Prelude Float Power.

Inductive BatteryEvent :=
  | LevelChanged (level : Z)
  | ChargingStateChanged (charging : bool)
  | CriticalLevel
  | LowLevel
  | FullyCharged
  | BatteryPresenceChanged (present : bool).
Record BatteryConfig := {
  critical_level : Z;
  low_level : Z;
  monitor_interval_ms : Z;
  auto_power_management : bool;
}.
Definition config_default : BatteryConfig :=
  {| critical_level := 5; low_level := 15; monitor_interval_ms := 5000; auto_power_management := true |}.
(** [PowerPolicyManager::handle_battery_event]. *)
Inductive BatteryEventCallback := HandleBatteryEvent.
Record BatteryMonitor := {
  current_info : BatteryInfo;
  config : BatteryConfig;
  last_update_time : Z;
  event_callbacks : list BatteryEventCallback;
  battery_present : bool;
  charging_history : list bool;
  level_history : list Z;
  history_index : Z;
}.
(** The static [SIMULATION_STATE]. *)
Record Simulation := { sim_level : Z; sim_charging : bool; sim_last_change : Z }.
Definition simulation_start : Simulation := {| sim_level := 100; sim_charging := false; sim_last_change := 0 |}.

Definition new : BatteryMonitor := {|
  current_info := {| level_percent := 100; is_charging := false; estimated_time_remaining := None |};
  config := config_default; last_update_time := 0; event_callbacks := []; battery_present := true;
  charging_history := replicate 10 false; level_history := replicate 20 100; history_index := 0;
|}.
Definition set_info (m : BatteryMonitor) i : BatteryMonitor := {|
  current_info := i; config := config m; last_update_time := last_update_time m;
  event_callbacks := event_callbacks m; battery_present := battery_present m;
  charging_history := charging_history m; level_history := level_history m;
  history_index := history_index m |}.
Definition set_config (m : BatteryMonitor) c : BatteryMonitor := {|
  current_info := current_info m; config := c; last_update_time := last_update_time m;
  event_callbacks := event_callbacks m; battery_present := battery_present m;
  charging_history := charging_history m; level_history := level_history m;
  history_index := history_index m |}.
Definition get_config (m : BatteryMonitor) : BatteryConfig := config m.
Definition set_update_time (m : BatteryMonitor) t : BatteryMonitor := {|
  current_info := current_info m; config := config m; last_update_time := t;
  event_callbacks := event_callbacks m; battery_present := battery_present m;
  charging_history := charging_history m; level_history := level_history m;
  history_index := history_index m |}.
Definition register_callback (m : BatteryMonitor) c : BatteryMonitor := {|
  current_info := current_info m; config := config m; last_update_time := last_update_time m;
  event_callbacks := event_callbacks m ++ [c]; battery_present := battery_present m;
  charging_history := charging_history m; level_history := level_history m;
  history_index := history_index m |}.
Definition set_present (m : BatteryMonitor) b : BatteryMonitor := {|
  current_info := current_info m; config := config m; last_update_time := last_update_time m;
  event_callbacks := event_callbacks m; battery_present := b;
  charging_history := charging_history m; level_history := level_history m;
  history_index := history_index m |}.
Definition set_history (m : BatteryMonitor) c l i : BatteryMonitor := {|
  current_info := current_info m; config := config m; last_update_time := last_update_time m;
  event_callbacks := event_callbacks m; battery_present := battery_present m;
  charging_history := c; level_history := l; history_index := i |}.

Section battery.
Context {P : Profile}.
Implicit Types (m : BatteryMonitor) (s : Simulation).

Definition get_battery_info m : result BatteryInfo PowerError :=
  if battery_present m then Ok (current_info m) else Err BatteryUnavailable.
Definition get_recommended_power_state m : PowerState :=
  if negb (battery_present m) then StBalanced
  else if level_percent (current_info m) <=? critical_level (config m) then StCritical
  else if level_percent (current_info m) <=? low_level (config m) then StPowerSaver
  else if is_charging (current_info m) then StPerformance
  else StBalanced.
Definition is_critical m : bool :=
  battery_present m && negb (is_charging (current_info m)) &&
  (level_percent (current_info m) <=? critical_level (config m)).
Definition is_low m : bool :=
  battery_present m && negb (is_charging (current_info m)) &&
  (level_percent (current_info m) <=? low_level (config m)).

(** One round of the loop over the level samples; the state is the total change
    and the number of samples. *)
Definition discharge_step m (i : Z) (st : Z * Z) : outcome (Z * Z) :=
  let '(total_change, samples) := st in
  n ← uadd 64 (history_index m) (len (level_history m));
  a ← usub 64 n i;
  b ← usub 64 a 1;
  prev_idx ← urem b (len (level_history m));
  n ← uadd 64 (history_index m) (len (level_history m));
  c ← usub 64 n i;
  curr_idx ← urem c (len (level_history m));
  charging ← index (charging_history m) curr_idx;
  if charging : bool then Val (total_change, samples)
  else
    prev ← index (level_history m) prev_idx;
    curr ← index (level_history m) curr_idx;
    change ← iarith 32 (prev - curr);
    if 0 <? change
    then total_change ← iarith 32 (total_change + change);
         samples ← iarith 32 (samples + 1);
         Val (total_change, samples)
    else Val (total_change, samples).
Definition calculate_discharge_rate m : outcome f32 :=
  '(total_change, samples) ← for_each (discharge_step m) (seqZ 1 (len (level_history m) - 1)) (0, 0);
  Val (if 0 <? samples
       then f32_mul (f32_div (f32_of_int total_change) (f32_of_int samples))
                    (f32_div (f32_of_int 60000) (f32_of_int (monitor_interval_ms (config m))))
       else f32_of_int 0).
Definition estimate_charge_time m : outcome (option Z) :=
  if negb (is_charging (current_info m)) then Val None
  else remaining_capacity ← usub 8 100 (level_percent (current_info m));
       t ← umul 32 remaining_capacity 2;
       Val (Some t).
Definition estimate_time_remaining m : outcome (option Z) :=
  if is_charging (current_info m) then estimate_charge_time m
  else
    discharge_rate ← calculate_discharge_rate m;
    Val (if f32_gt0 discharge_rate
         then Some (f32_to_uint 32 (f32_div (f32_of_int (level_percent (current_info m))) discharge_rate))
         else None).

Definition simulate_battery_behavior m s : outcome (BatteryMonitor * Simulation) :=
  '(level, charging) ←
    (if sim_charging s then
       level ← (if sim_level s <? 100 then uadd 8 (sim_level s) 1 else Val (sim_level s));
       Val (level, if 100 <=? level then false else true)
     else
       let level := if 0 <? sim_level s then saturating_sub (sim_level s) 1 else sim_level s in
       Val (level, if level <=? 20 then true else false));
  let s := {| sim_level := level; sim_charging := charging; sim_last_change := sim_last_change s |} in
  let m := set_info m {| level_percent := level; is_charging := charging;
                         estimated_time_remaining := estimated_time_remaining (current_info m) |} in
  t ← estimate_time_remaining m;
  Val (set_info m {| level_percent := level; is_charging := charging; estimated_time_remaining := t |}, s).
Definition update_battery_info m s : outcome (result unit PowerError * BatteryMonitor * Simulation) :=
  '(m, s) ← simulate_battery_behavior m s; Val (Ok (), m, s).
Definition detect_battery_presence m : bool := true.
Definition init m s : outcome (result unit PowerError * BatteryMonitor * Simulation) :=
  let m := set_present m (detect_battery_presence m) in
  if battery_present m then update_battery_info m s else Val (Ok (), m, s).

Definition trigger_event m (event : BatteryEvent) : list (BatteryEventCallback * BatteryEvent) :=
  (λ callback, (callback, event)) <$> event_callbacks m.
Definition check_for_events m (old_info : BatteryInfo) : list (BatteryEventCallback * BatteryEvent) :=
  let info := current_info m in
  (if 5 <=? Z.abs (level_percent old_info - level_percent info)
   then trigger_event m (LevelChanged (level_percent info)) else []) ++
  (if negb (Bool.eqb (is_charging old_info) (is_charging info))
   then trigger_event m (ChargingStateChanged (is_charging info)) else []) ++
  (if negb (is_charging old_info) && (level_percent info <=? critical_level (config m))
   then trigger_event m CriticalLevel
   else if negb (is_charging old_info) && (level_percent info <=? low_level (config m))
   then trigger_event m LowLevel else []) ++
  (if is_charging info && (100 <=? level_percent info) then trigger_event m FullyCharged else []).
Definition update_history m : outcome BatteryMonitor :=
  i ← urem (history_index m) (len (charging_history m));
  c ← index_set (charging_history m) i (is_charging (current_info m));
  j ← urem (history_index m) (len (level_history m));
  l ← index_set (level_history m) j (level_percent (current_info m));
  n ← uadd 64 (history_index m) 1;
  Val (set_history m c l n).
(** The third component are the callback calls, in order. *)
Definition update m s (current_time : Z) :
    outcome (result unit PowerError * BatteryMonitor * Simulation * list (BatteryEventCallback * BatteryEvent)) :=
  if negb (battery_present m) then Val (Ok (), m, s, [])
  else if monitor_interval_ms (config m) <=? saturating_sub current_time (last_update_time m) then
    let old_info := current_info m in
    '(r, m, s) ← update_battery_info m s;
    match r with
    | Err e => Val (Err e, m, s, [])
    | Ok _ =>
        let calls := check_for_events m old_info in
        m ← update_history m;
        Val (Ok (), set_update_time m current_time, s, calls)
    end
  else Val (Ok (), m, s, []).

(** ** The global monitor *)
Definition global_init s : outcome (result unit PowerError * option BatteryMonitor * Simulation) :=
  '(r, m, s) ← init new s; Val (r, match r with Ok _ => Some m | Err _ => None end, s).
Definition global_update (g : option BatteryMonitor) s (current_time : Z) :
    outcome (result unit PowerError * option BatteryMonitor * Simulation *
             list (BatteryEventCallback * BatteryEvent)) :=
  match g with
  | Some m => '(r, m, s, calls) ← update m s current_time; Val (r, Some m, s, calls)
  | None => Val (Err BatteryUnavailable, None, s, [])
  end.
Definition global_get_battery_info (g : option BatteryMonitor) : result BatteryInfo PowerError :=
  match g with Some m => get_battery_info m | None => Err BatteryUnavailable end.
Definition global_get_recommended_power_state (g : option BatteryMonitor) : PowerState :=
  match g with Some m => get_recommended_power_state m | None => StBalanced end.
Definition global_register_callback (g : option BatteryMonitor) c : option BatteryMonitor :=
  (λ m, register_callback m c) <$> g.
Definition global_is_critical (g : option BatteryMonitor) : bool :=
  match g with Some m => is_critical m | None => false end.
Definition global_is_low (g : option BatteryMonitor) : bool :=
  match g with Some m => is_low m | None => false end.
End battery.

(** ** Theorems *)
Definition history_wf (m : BatteryMonitor) : Prop :=
  length (charging_history m) = 10%nat ∧ length (level_history m) = 20%nat ∧
  0 ≤ history_index m ∧ history_index m + 20 < 2 ^ 64.

Section battery_theorems.
Context {P : Profile}.
Implicit Types (m : BatteryMonitor) (s : Simulation).

(** [i as i32] arithmetic returns or panics. *)
Lemma iarith_panic_or w z : iarith w z = Panic ∨ ∃ z', iarith w z = Val z'.
Proof. unfold iarith. destruct (_ && _); [by eauto|]. destruct debug_assertions; eauto. Qed.
Lemma index_panic_or {A} (l : list A) i : index l i = Panic ∨ ∃ x, index l i = Val x.
Proof. unfold index. destruct (l !! _); eauto. Qed.

Lemma discharge_step_eq m i st : history_wf m → 1 ≤ i ≤ 19 →
  discharge_step m i st =
    (charging ← index (charging_history m) ((history_index m + 20 - i) mod 20);
     if charging : bool then Val st
     else prev ← index (level_history m) ((history_index m + 20 - i - 1) mod 20);
          curr ← index (level_history m) ((history_index m + 20 - i) mod 20);
          change ← iarith 32 (prev - curr);
          if 0 <? change then t ← iarith 32 (st.1 + change); n ← iarith 32 (st.2 + 1); Val (t, n)
          else Val st).
Proof.
  intros (_ & Hl & Hi0 & Hi1) Hi. unfold discharge_step, len. rewrite Hl. change (Z.of_nat 20) with 20.
  destruct st as [t n]. rewrite uadd_val by lia. cbn [mbind outcome_bind].
  rewrite !usub_val by lia. cbn [mbind outcome_bind]. rewrite !usub_val by lia. cbn [mbind outcome_bind].
  rewrite !urem_val by done. done.
Qed.
Lemma discharge_step_panic_or m i st : history_wf m → 1 ≤ i ≤ 19 →
  discharge_step m i st = Panic ∨ ∃ st', discharge_step m i st = Val st' ∧ True.
Proof.
  intros Hm Hi. rewrite discharge_step_eq by done.
  destruct (index_panic_or (charging_history m) ((history_index m + 20 - i) mod 20)) as [->|[[] ->]];
    cbn [mbind outcome_bind]; [by left|by eauto|].
  destruct (index_panic_or (level_history m) ((history_index m + 20 - i - 1) mod 20)) as [->|[prev ->]];
    cbn [mbind outcome_bind]; [by left|].
  destruct (index_panic_or (level_history m) ((history_index m + 20 - i) mod 20)) as [->|[curr ->]];
    cbn [mbind outcome_bind]; [by left|].
  destruct (iarith_panic_or 32 (prev - curr)) as [->|[ch ->]]; cbn [mbind outcome_bind]; [by left|].
  destruct (0 <? ch); [|by eauto].
  destruct (iarith_panic_or 32 (st.1 + ch)) as [->|[t ->]]; cbn [mbind outcome_bind]; [by left|].
  destruct (iarith_panic_or 32 (st.2 + 1)) as [->|[n ->]]; cbn [mbind outcome_bind]; eauto.
Qed.

(** The loop looks at 19 of the 20 level positions and uses each as an index
    into the 10 charging samples. *)
Lemma discharge_rate_panics m : history_wf m → calculate_discharge_rate m = Panic.
Proof.
  intros Hm. pose proof Hm as (Hc & Hl & Hi0 & Hi1). unfold calculate_discharge_rate.
  set (r := history_index m mod 20). assert (0 ≤ r < 20) as Hr by (apply Z.mod_pos_bound; lia).
  assert (∃ i, 1 ≤ i ≤ 19 ∧ 10 ≤ (history_index m + 20 - i) mod 20) as (i & Hi & Hbad).
  { destruct (decide (r = 19)).
    - exists 1. split; [lia|]. unfold r in *. divlia.
    - exists (r + 1). split; [lia|]. unfold r in *. divlia. }
  rewrite (for_each_panics (λ _, True) (discharge_step m) _ (0, 0) i); [done|..].
  - intros x st Hx%elem_of_seqZ _. apply discharge_step_panic_or; [done|]. unfold len in Hx. lia.
  - apply elem_of_seqZ. unfold len. lia.
  - intros st _. rewrite discharge_step_eq by done.
    assert (index (charging_history m) ((history_index m + 20 - i) mod 20) = Panic) as ->; [|done].
    unfold index. rewrite lookup_ge_None_2; [done|]. rewrite Hc. lia.
  - done.
Qed.

Lemma estimate_panics m : history_wf m → is_charging (current_info m) = false →
  estimate_time_remaining m = Panic.
Proof. intros Hm Hc. unfold estimate_time_remaining. by rewrite Hc, discharge_rate_panics. Qed.
(** A discharging battery above 20 percent stays discharging. *)
Lemma simulate_panics m s : history_wf m → sim_charging s = false → 21 < sim_level s →
  simulate_battery_behavior m s = Panic.
Proof.
  intros Hm Hc Hl. unfold simulate_battery_behavior. rewrite Hc.
  rewrite (proj2 (Z.ltb_lt 0 (sim_level s))) by lia. unfold saturating_sub. rewrite Z.max_r by lia.
  rewrite (proj2 (Z.leb_gt (sim_level s - 1) 20)) by lia. cbn [mbind outcome_bind].
  by rewrite estimate_panics.
Qed.

Lemma global_init_panics : global_init simulation_start = Panic.
Proof.
  unfold global_init, init. cbn [battery_present set_present detect_battery_presence].
  unfold update_battery_info. rewrite simulate_panics; [done|split_and!; simpl; done || lia|done|simpl; lia].
Qed.

(** Battery monitoring panics while the battery discharges.  The charging
    samples are an array of 10 that the discharge-rate loop indexes with
    positions up to 19, so in both build profiles every status update of a
    discharging battery above 21 percent panics, whatever the history; in
    particular initialisation of the monitor does. *)
Theorem battery_update_panics m s :
  history_wf m → sim_charging s = false → 21 < sim_level s →
  update_battery_info m s = Panic ∧ global_init simulation_start = Panic.
Proof.
  intros Hm Hc Hl. split; [|apply global_init_panics]. unfold update_battery_info. by rewrite simulate_panics.
Qed.

(** A critical battery recommends the critical state, a low one at least power
    saving; the recommendation ignores that a nearly empty battery is charging. *)
Theorem recommended_state_exact m :
  battery_present m = true →
  get_recommended_power_state m =
    (let l := level_percent (current_info m) in
     if l <=? critical_level (config m) then StCritical
     else if l <=? low_level (config m) then StPowerSaver
     else if is_charging (current_info m) then StPerformance else StBalanced) ∧
  (is_critical m = true → get_recommended_power_state m = StCritical) ∧
  (is_low m = true → get_recommended_power_state m = StCritical ∨
                     get_recommended_power_state m = StPowerSaver).
Proof.
  intros Hp. unfold get_recommended_power_state, is_critical, is_low. rewrite Hp. simpl.
  split; [done|]. split.
  - intros [_ H]%andb_true_iff. by rewrite H.
  - intros [_ H]%andb_true_iff. rewrite H. destruct (_ <=? critical_level _); auto.
Qed.
End battery_theorems.

Lemma battery_update_panics_witness :
  @update_battery_info release new simulation_start = Panic ∧ @global_init release simulation_start = Panic.
Proof.
  apply (@battery_update_panics release); [|done|vm_compute; reflexivity].
  split_and!; [done|done|vm_compute; congruence|vm_compute; reflexivity].
Defined.
