(* ===== verification/Responsiveness.v ===== *)
(** * Responsiveness optimisation

    Models [kernel/src/power/responsiveness.rs]: the touch queue, interactive
    boosts, adaptive time slices and throttling.  Time slices are scaled in
    single precision, as in the source. *)
From S2P Require Import Prelude Float Power.

Inductive SwipeDirection := SwipeUp | SwipeDown | SwipeLeft | SwipeRight.
Inductive GestureType := Pinch | Swipe (d : SwipeDirection) | Tap | LongPress.
Inductive TouchEvent :=
  | TouchDown (x y : Z)
  | TouchMove (x y : Z)
  | TouchUp (x y : Z)
  | Gesture (g : GestureType).

Record InteractiveBoostConfig := {
  boost_duration_ms : Z;
  cpu_boost_percent : Z;
  priority_boost_levels : Z;
  time_slice_multiplier : f32;
}.
Definition boost_default : InteractiveBoostConfig := {|
  boost_duration_ms := 100; cpu_boost_percent := 20; priority_boost_levels := 1;
  time_slice_multiplier := f32_lit 15 10 |}.
Record TouchLatencyConfig := {
  max_latency_us : Z;
  polling_rate_hz : Z;
  enable_prediction : bool;
  prediction_lookahead_ms : Z;
}.
Definition latency_default : TouchLatencyConfig := {|
  max_latency_us := 16000; polling_rate_hz := 120; enable_prediction := true;
  prediction_lookahead_ms := 8 |}.
Record AdaptiveSchedulingConfig := {
  base_time_slice_ms : Z;
  min_time_slice_ms : Z;
  max_time_slice_ms : Z;
  load_threshold_percent : Z;
  interactive_window_ms : Z;
}.
Definition adaptive_default : AdaptiveSchedulingConfig := {|
  base_time_slice_ms := 10; min_time_slice_ms := 1; max_time_slice_ms := 50;
  load_threshold_percent := 70; interactive_window_ms := 500 |}.
Record ThrottlingConfig := {
  enable_throttling : bool;
  cpu_threshold_percent : Z;
  memory_threshold_percent : Z;
  throttling_factor : f32;
  min_throttled_time_slice_ms : Z;
}.
Definition throttling_default : ThrottlingConfig := {|
  enable_throttling := true; cpu_threshold_percent := 80; memory_threshold_percent := 85;
  throttling_factor := f32_lit 3 10; min_throttled_time_slice_ms := 1 |}.

Record ProcessInteraction := {
  last_interactive_time : Z;
  interaction_count : Z;
  touch_events_handled : Z;
  average_response_time_us : Z;
}.
Record ResponsivenessOptimizer := {
  interactive_boost_config : InteractiveBoostConfig;
  touch_latency_config : TouchLatencyConfig;
  adaptive_scheduling_config : AdaptiveSchedulingConfig;
  throttling_config : ThrottlingConfig;
  process_interactions : gmap Z ProcessInteraction;
  current_interactive_processes : gmap Z Z;
  touch_input_queue : list (TouchEvent * Z);
  system_load_percent : Z;
  memory_usage_percent : Z;
  last_update_time : Z;
}.
Definition new : ResponsivenessOptimizer := {|
  interactive_boost_config := boost_default; touch_latency_config := latency_default;
  adaptive_scheduling_config := adaptive_default; throttling_config := throttling_default;
  process_interactions := ∅; current_interactive_processes := ∅; touch_input_queue := [];
  system_load_percent := 0; memory_usage_percent := 0; last_update_time := 0;
|}.
(** The state besides the configurations. *)
Definition with_state (o : ResponsivenessOptimizer) pi cur q load mem t : ResponsivenessOptimizer := {|
  interactive_boost_config := interactive_boost_config o; touch_latency_config := touch_latency_config o;
  adaptive_scheduling_config := adaptive_scheduling_config o; throttling_config := throttling_config o;
  process_interactions := pi; current_interactive_processes := cur; touch_input_queue := q;
  system_load_percent := load; memory_usage_percent := mem; last_update_time := t |}.
Definition set_interactions (o : ResponsivenessOptimizer) v : ResponsivenessOptimizer :=
  with_state o v (current_interactive_processes o) (touch_input_queue o) (system_load_percent o)
    (memory_usage_percent o) (last_update_time o).
Definition set_current (o : ResponsivenessOptimizer) v : ResponsivenessOptimizer :=
  with_state o (process_interactions o) v (touch_input_queue o) (system_load_percent o)
    (memory_usage_percent o) (last_update_time o).
Definition set_queue (o : ResponsivenessOptimizer) v : ResponsivenessOptimizer :=
  with_state o (process_interactions o) (current_interactive_processes o) v (system_load_percent o)
    (memory_usage_percent o) (last_update_time o).

Section responsiveness.
Context {P : Profile}.
Implicit Types o : ResponsivenessOptimizer.

Definition init o : result unit PowerError * ResponsivenessOptimizer := (Ok (), o).

Definition trigger_interactive_boost o (current_time : Z) : outcome ResponsivenessOptimizer :=
  boost_end_time ← uadd 64 current_time (boost_duration_ms (interactive_boost_config o));
  Val (set_current o (foldl (λ cur '(pid, i),
    if saturating_sub current_time (last_interactive_time i) <? boost_duration_ms (interactive_boost_config o)
    then <[pid := boost_end_time]> cur else cur)
    (current_interactive_processes o) (btree_entries (process_interactions o)))).
Definition find_touch_handlers o : list Z := (btree_entries (current_interactive_processes o)).*1.
Definition boost_process_for_touch o (pid timestamp : Z) : outcome ResponsivenessOptimizer :=
  boost_end_time ← uadd 64 timestamp (boost_duration_ms (interactive_boost_config o));
  Val (set_current o (<[pid := boost_end_time]> (current_interactive_processes o))).
Definition update_process_interaction o (pid timestamp : Z) : outcome ResponsivenessOptimizer :=
  let i := default {| last_interactive_time := timestamp; interaction_count := 0;
                      touch_events_handled := 0; average_response_time_us := 0 |}
                   (process_interactions o !! pid) in
  n ← uadd 32 (interaction_count i) 1;
  t ← uadd 32 (touch_events_handled i) 1;
  Val (set_interactions o (<[pid := {|
    last_interactive_time := timestamp; interaction_count := n; touch_events_handled := t;
    average_response_time_us := average_response_time_us i |}]> (process_interactions o))).
Definition predict_next_touch o (_event : TouchEvent) (_timestamp : Z) : ResponsivenessOptimizer := o.
Definition process_touch_event_immediate o (event : TouchEvent) (timestamp : Z) :
    outcome (result unit PowerError * ResponsivenessOptimizer) :=
  o ← for_each (λ pid o, o ← boost_process_for_touch o pid timestamp;
                         update_process_interaction o pid timestamp) (find_touch_handlers o) o;
  Val (Ok (), if enable_prediction (touch_latency_config o) then predict_next_touch o event timestamp else o).
Definition handle_touch_event o (event : TouchEvent) (timestamp : Z) :
    outcome (result unit PowerError * ResponsivenessOptimizer) :=
  let q := touch_input_queue o ++ [(event, timestamp)] in
  let o := set_queue o (if 100 <? len q then vec_remove 0 q else q) in
  o ← trigger_interactive_boost o timestamp;
  process_touch_event_immediate o event timestamp.

Definition should_throttle_process o (pid : Z) : bool :=
  if negb (enable_throttling (throttling_config o)) then false
  else if bool_decide (is_Some (current_interactive_processes o !! pid)) then false
  else if (system_load_percent o <? cpu_threshold_percent (throttling_config o)) &&
          (memory_usage_percent o <? memory_threshold_percent (throttling_config o)) then false
  else match process_interactions o !! pid with
       | Some i => interaction_count i <? 5
       | None => true
       end.
(** [x.clamp(lo, hi)]: a reversed range panics. *)
Definition clamp (x lo hi : Z) : outcome Z :=
  if hi <? lo then Panic else Val (if x <? lo then lo else if hi <? x then hi else x).
Definition get_adaptive_time_slice o (pid base_time_slice current_time : Z) : outcome Z :=
  let boosted := match current_interactive_processes o !! pid with
                 | Some boost_end_time => current_time <? boost_end_time
                 | None => false
                 end in
  if boosted then Val (scale_u64 base_time_slice (time_slice_multiplier (interactive_boost_config o)))
  else if should_throttle_process o pid then
    Val (Z.max (scale_u64 base_time_slice (throttling_factor (throttling_config o)))
               (min_throttled_time_slice_ms (throttling_config o)))
  else
    let load_factor := if load_threshold_percent (adaptive_scheduling_config o) <? system_load_percent o
                       then f32_lit 7 10 else f32_of_int 1 in
    clamp (scale_u64 base_time_slice load_factor) (min_time_slice_ms (adaptive_scheduling_config o))
      (max_time_slice_ms (adaptive_scheduling_config o)).

Definition update_system_metrics o (cpu_load memory_usage current_time : Z) : ResponsivenessOptimizer :=
  with_state o (process_interactions o)
    (filter (λ '(_, boost_end_time), current_time < boost_end_time) (current_interactive_processes o))
    (touch_input_queue o) cpu_load memory_usage current_time.
Definition decay (i : ProcessInteraction) : ProcessInteraction := {|
  last_interactive_time := last_interactive_time i;
  interaction_count := saturating_sub (interaction_count i) 1;
  touch_events_handled := touch_events_handled i; average_response_time_us := average_response_time_us i |}.
Definition notify_process_activity o (pid : Z) (activity : ProcessActivity) (current_time : Z) :
    outcome ResponsivenessOptimizer :=
  if bool_decide (activity = ActInteractive) then
    o ← update_process_interaction o pid current_time;
    boost_end_time ← uadd 64 current_time (boost_duration_ms (interactive_boost_config o));
    Val (set_current o (<[pid := boost_end_time]> (current_interactive_processes o)))
  else Val (set_interactions o (alter decay pid (process_interactions o))).

Record ResponsivenessStats := {
  interactive_processes_count : Z;
  tracked_processes_count : Z;
  stat_average_response_time_us : Z;
  stat_system_load_percent : Z;
  stat_memory_usage_percent : Z;
  touch_events_queued : Z;
  throttled_processes_count : Z;
}.
Definition calculate_average_response_time o : outcome Z :=
  let tracked := (btree_entries (process_interactions o)).*2 in
  if is_empty tracked then Val 0
  else total ← for_each (λ i t, uadd 32 t (average_response_time_us i)) tracked 0;
       udiv total (len tracked mod 2 ^ 32).
Definition count_throttled_processes o : Z :=
  len (filter (λ pid, should_throttle_process o pid = true) (btree_entries (process_interactions o)).*1).
Definition get_statistics o : outcome ResponsivenessStats :=
  average ← calculate_average_response_time o;
  Val {| interactive_processes_count := Z.of_nat (size (current_interactive_processes o));
         tracked_processes_count := Z.of_nat (size (process_interactions o));
         stat_average_response_time_us := average; stat_system_load_percent := system_load_percent o;
         stat_memory_usage_percent := memory_usage_percent o;
         touch_events_queued := len (touch_input_queue o);
         throttled_processes_count := count_throttled_processes o |}.

(** ** The global optimizer *)
Definition global_init : result unit PowerError * option ResponsivenessOptimizer :=
  let '(r, o) := init new in (r, match r with Ok _ => Some o | Err _ => None end).
Definition global_handle_touch_event (g : option ResponsivenessOptimizer) (e : TouchEvent) (t : Z) :=
  on_global g NotSupported (λ o, handle_touch_event o e t).
Definition global_get_adaptive_time_slice (g : option ResponsivenessOptimizer) (pid base t : Z) : outcome Z :=
  match g with Some o => get_adaptive_time_slice o pid base t | None => Val base end.
Definition global_should_throttle_process (g : option ResponsivenessOptimizer) (pid : Z) : bool :=
  match g with Some o => should_throttle_process o pid | None => false end.
Definition global_update_system_metrics (g : option ResponsivenessOptimizer) (cpu mem t : Z) :=
  (λ o, update_system_metrics o cpu mem t) <$> g.
Definition global_notify_process_activity (g : option ResponsivenessOptimizer) (pid : Z) (a : ProcessActivity)
    (t : Z) : outcome (option ResponsivenessOptimizer) :=
  match g with Some o => o ← notify_process_activity o pid a t; Val (Some o) | None => Val None end.
Definition global_get_statistics (g : option ResponsivenessOptimizer) : outcome (option ResponsivenessStats) :=
  match g with Some o => s ← get_statistics o; Val (Some s) | None => Val None end.
End responsiveness.

(** ** Time slices *)

(** The configurations are those of [new]. *)
Record config_default (o : ResponsivenessOptimizer) : Prop := {
  cfg_boost : interactive_boost_config o = boost_default;
  cfg_adaptive : adaptive_scheduling_config o = adaptive_default;
  cfg_throttling : throttling_config o = throttling_default;
}.
(** The process has a boost that has not ended. *)
Definition boosted (o : ResponsivenessOptimizer) (pid now : Z) : bool :=
  match current_interactive_processes o !! pid with Some t => now <? t | None => false end.

(** Below a second, the single-precision products are the exact ones rounded
    down: checked for every base time slice. *)
Definition scaling_exact (b : Z) : bool :=
  (scale_u64 b (f32_lit 15 10) =? b * 3 / 2) && (scale_u64 b (f32_lit 3 10) =? b * 3 / 10) &&
  (scale_u64 b (f32_lit 7 10) =? b * 7 / 10) && (scale_u64 b (f32_of_int 1) =? b).
Lemma scaling_table : forallb scaling_exact (seqZ 0 1000) = true.
Proof. vm_compute. reflexivity. Qed.
Lemma scaling_below_second b : 0 ≤ b < 1000 →
  scale_u64 b (f32_lit 15 10) = b * 3 / 2 ∧ scale_u64 b (f32_lit 3 10) = b * 3 / 10 ∧
  scale_u64 b (f32_lit 7 10) = b * 7 / 10 ∧ scale_u64 b (f32_of_int 1) = b.
Proof.
  intros Hb. pose proof (proj1 (forallb_forall scaling_exact _) scaling_table b) as Ht.
  assert (scaling_exact b = true) as H by (apply Ht, list_elem_of_In, elem_of_seqZ; lia).
  unfold scaling_exact in H. rewrite !andb_true_iff, !Z.eqb_eq in H. tauto.
Qed.

(** The time slice as exact arithmetic. *)
Definition exact_slice (o : ResponsivenessOptimizer) (pid base now : Z) : Z :=
  if boosted o pid now then base * 3 / 2
  else if should_throttle_process o pid then Z.max (base * 3 / 10) 1
  else Z.max 1 (Z.min 50 (if 70 <? system_load_percent o then base * 7 / 10 else base)).

Section responsiveness_theorems.
Context {P : Profile}.
Implicit Types o : ResponsivenessOptimizer.

Lemma adaptive_slice_val o pid base now : config_default o → 0 ≤ base < 1000 →
  get_adaptive_time_slice o pid base now = Val (exact_slice o pid base now).
Proof.
  intros [Hb Ha Ht] Hbase. destruct (scaling_below_second base Hbase) as (H15 & H3 & H7 & H1).
  unfold get_adaptive_time_slice, exact_slice. fold (boosted o pid now).
  rewrite Hb, Ht, Ha. unfold boost_default, throttling_default, adaptive_default.
  cbn [time_slice_multiplier throttling_factor min_throttled_time_slice_ms load_threshold_percent
       min_time_slice_ms max_time_slice_ms].
  rewrite H15, H3. destruct (boosted o pid now); [done|].
  destruct (should_throttle_process o pid); [done|].
  destruct (70 <? system_load_percent o); rewrite ?H7, ?H1; unfold clamp; simpl; zcase; f_equal; lia.
Qed.

(** Time slices are exact and bounded.  For every base time slice below a
    second, the single-precision computation gives the exact product rounded
    down: half as much again for a boosted process, three tenths (at least 1 ms)
    for a throttled one, and otherwise the base, or seven tenths of it under
    load, kept between 1 and 50 ms.  Only a boosted slice can exceed the
    maximum. *)
Theorem adaptive_time_slice_exact o pid base now :
  config_default o → 0 ≤ base < 1000 →
  get_adaptive_time_slice o pid base now = Val (exact_slice o pid base now) ∧
  (boosted o pid now = false → should_throttle_process o pid = false →
   1 ≤ exact_slice o pid base now ≤ 50).
Proof.
  intros Hc Hbase. split; [by apply adaptive_slice_val|]. intros Hb Ht. unfold exact_slice.
  rewrite Hb, Ht. lia.
Qed.

(** Who is throttled: exactly the processes without a boost entry, while the
    CPU load is at least 80 or the memory usage at least 85 percent, that have
    fewer than 5 interactions or are unknown.  An ended boost protects until the
    next metrics update removes it. *)
Theorem should_throttle_iff o pid :
  config_default o →
  (should_throttle_process o pid = true ↔
     current_interactive_processes o !! pid = None ∧
     (80 ≤ system_load_percent o ∨ 85 ≤ memory_usage_percent o) ∧
     ∀ i, process_interactions o !! pid = Some i → interaction_count i < 5).
Proof.
  intros [_ _ Ht]. unfold should_throttle_process. rewrite Ht. cbn.
  case_bool_decide as Hc; [split; [done|intros (Hn & _); rewrite Hn in Hc; by destruct Hc]|].
  rewrite eq_None_not_Some. destruct (Z.ltb_spec (system_load_percent o) 80), (Z.ltb_spec (memory_usage_percent o) 85);
    simpl; try (split; [done|]; intros (_ & [?|?] & _); lia);
    (destruct (process_interactions o !! pid) as [i|];
      [rewrite Z.ltb_lt; split; [intros ?; split_and!; [done|lia|by intros ? [= <-]]|naive_solver]
      |split; [intros _; split_and!; [done|lia|done]|done]]).
Qed.

(** ** Histories *)
Inductive resp_op :=
  | OpTouch (e : TouchEvent) (t : Z)
  | OpNotify (pid : Z) (a : ProcessActivity) (t : Z)
  | OpMetrics (cpu mem t : Z).
Definition op_time (x : resp_op) : Z := match x with OpTouch _ t | OpNotify _ _ t | OpMetrics _ _ t => t end.
Definition resp_step o (x : resp_op) : outcome ResponsivenessOptimizer :=
  match x with
  | OpTouch e t => '(_, o) ← handle_touch_event o e t; Val o
  | OpNotify pid a t => notify_process_activity o pid a t
  | OpMetrics cpu mem t => Val (update_system_metrics o cpu mem t)
  end.
Definition resp_run (xs : list resp_op) o : outcome ResponsivenessOptimizer := for_each (λ x o, resp_step o x) xs o.
(** The touch events of a history. *)
Definition touches (xs : list resp_op) : list (TouchEvent * Z) :=
  omap (λ x, match x with OpTouch e t => Some (e, t) | _ => None end) xs.
Definition latest {A} (n : nat) (l : list A) : list A := drop (length l - n) l.

(** [n] more interactions of a process can be counted. *)
Definition counts_ok (n : Z) (i : ProcessInteraction) : Prop :=
  0 ≤ interaction_count i ∧ interaction_count i + n < 2 ^ 32 ∧
  0 ≤ touch_events_handled i ∧ touch_events_handled i + n < 2 ^ 32.
Record resp_inv (n : Z) (ts : list (TouchEvent * Z)) o : Prop := {
  inv_config : config_default o;
  inv_queue : touch_input_queue o = latest 100 ts;
  inv_counts : map_Forall (λ _, counts_ok n) (process_interactions o);
}.

Lemma latest_push {A} n (l : list A) x : (0 < n)%nat →
  latest n (l ++ [x]) = let q := latest n l ++ [x] in if bool_decide (n < length q)%nat then vec_remove 0 q else q.
Proof.
  intros Hn. unfold latest. rewrite !length_app, !length_drop. simpl. case_bool_decide.
  - unfold vec_remove. simpl. replace (length l + 1 - n)%nat with (S (length l - n)) by lia.
    rewrite drop_app_le by lia. destruct (drop (length l - n) l) as [|y r] eqn:E.
    + apply (f_equal length) in E. rewrite length_drop in E. simpl in E. lia.
    + simpl. f_equal. replace (S (length l - n)) with (length l - n + 1)%nat by lia.
      by rewrite <-drop_drop, E.
  - replace (length l + 1 - n)%nat with (length l - n)%nat by lia. rewrite drop_app_le by lia. done.
Qed.

Lemma counts_weaken n i : counts_ok (n + 1) i → counts_ok n i.
Proof. intros (? & ? & ? & ?). split_and!; lia. Qed.
Lemma decay_counts n i : counts_ok n i → counts_ok n (decay i).
Proof. intros (? & ? & ? & ?). unfold counts_ok, decay, saturating_sub. simpl. lia. Qed.

(** One more interaction of a process. *)
Lemma update_interaction_val o pid t n :
  0 ≤ n < 2 ^ 32 - 1 → (∀ i, process_interactions o !! pid = Some i → counts_ok (n + 1) i) →
  ∃ i, update_process_interaction o pid t = Val (set_interactions o (<[pid := i]> (process_interactions o))) ∧
    counts_ok n i.
Proof.
  intros Hn Hp. unfold update_process_interaction.
  destruct (process_interactions o !! pid) as [i|]; simpl.
  - destruct (Hp i eq_refl) as (? & ? & ? & ?). rewrite !uadd_val by lia. cbn [mbind outcome_bind].
    eexists. split; [done|]. split_and!; simpl; lia.
  - rewrite ?uadd_val by lia. cbn [mbind outcome_bind]. eexists. split; [done|]. split_and!; simpl; lia.
Qed.

Lemma find_touch_handlers_NoDup o : NoDup (find_touch_handlers o).
Proof.
  unfold find_touch_handlers, btree_entries. rewrite merge_sort_Permutation. apply NoDup_fst_map_to_list.
Qed.

(** The handlers are boosted one after the other; each is counted once. *)
Definition handlers_inv (n : Z) q (dn : list Z) o : Prop :=
  config_default o ∧ touch_input_queue o = q ∧
  ∀ pid i, process_interactions o !! pid = Some i → counts_ok (if decide (pid ∈ dn) then n else n + 1) i.
Lemma handlers_val n ts o e t :
  0 ≤ n < 2 ^ 32 - 1 → 0 ≤ t < 2 ^ 64 - 100 → resp_inv (n + 1) ts o →
  ∃ o', process_touch_event_immediate o e t = Val (Ok (), o') ∧ resp_inv n ts o'.
Proof.
  intros Hn Ht [Hc Hq Hi]. unfold process_touch_event_immediate.
  destruct (for_each_inv (handlers_inv n (latest 100 ts)) (λ pid o, o ← boost_process_for_touch o pid t;
    update_process_interaction o pid t) (find_touch_handlers o) o) as (o' & -> & Hc' & Hq' & Hi').
  - intros dn pid todo o1 Hl (Hc1 & Hq1 & Hi1). pose proof (find_touch_handlers_NoDup o) as Hnd.
    rewrite Hl in Hnd. apply NoDup_app in Hnd as (_ & Hnd & _).
    unfold boost_process_for_touch. rewrite (cfg_boost _ Hc1). simpl. rewrite uadd_val by lia.
    cbn [mbind outcome_bind].
    destruct (update_interaction_val (set_current o1 (<[pid := t + 100]> (current_interactive_processes o1))) pid t n)
      as (i & -> & Hcount); [done| |].
    { intros i Hpi. specialize (Hi1 pid i Hpi). rewrite decide_False in Hi1; [done|]. set_solver. }
    eexists. split; [done|]. split_and!; [by destruct Hc1|done|]. simpl. intros p j.
    rewrite lookup_insert_Some. intros [[<- <-]|[Hne Hj]]; [rewrite decide_True by set_solver; done|].
    specialize (Hi1 p j Hj). destruct (decide (p ∈ dn)); [rewrite decide_True by set_solver; done|].
    rewrite decide_False by set_solver. done.
  - split_and!; [done..|]. intros p i Hp. rewrite decide_False by set_solver. by apply (Hi p).
  - cbn [mbind outcome_bind]. exists o'. split; [by destruct (enable_prediction _)|]. split; [done..|].
    intros p i Hp. specialize (Hi' p i Hp). destruct (decide _); [done|]. by apply counts_weaken.
Qed.

Lemma resp_step_val n xs o x :
  0 ≤ n < 2 ^ 32 - 1 → 0 ≤ op_time x < 2 ^ 64 - 100 → resp_inv (n + 1) (touches xs) o →
  ∃ o', resp_step o x = Val o' ∧ resp_inv n (touches (xs ++ [x])) o'.
Proof.
  intros Hn Ht Ho. pose proof Ho as [Hc Hq Hi].
  assert (map_Forall (λ _, counts_ok n) (process_interactions o)) as Hi'
    by (eapply map_Forall_impl; [done|]; intros p i; apply counts_weaken).
  unfold touches. rewrite omap_app. fold (touches xs). destruct x as [e t|pid a t|cpu mem t]; simpl in *.
  - unfold handle_touch_event. set (o1 := set_queue o _).
    assert (resp_inv (n + 1) (touches xs ++ [(e, t)]) o1) as Ho1.
    { split; [by destruct Hc| |done]. simpl. rewrite Hq, latest_push by lia. simpl. unfold len.
      destruct (Z.ltb_spec 100 (Z.of_nat (length (latest 100 (touches xs) ++ [(e, t)]))));
        case_bool_decide; done || lia. }
    unfold trigger_interactive_boost. rewrite (cfg_boost _ (inv_config _ _ _ Ho1)). cbn [boost_duration_ms boost_default].
    rewrite uadd_val by lia. cbn [mbind outcome_bind]. set (o2 := set_current o1 _).
    destruct (handlers_val n (touches xs ++ [(e, t)]) o2 e t) as (o' & -> & Ho'); [done..| |by exists o'].
    destruct Ho1 as [[] ? ?]. by split.
  - rewrite app_nil_r. unfold notify_process_activity. case_bool_decide.
    + destruct (update_interaction_val o pid t n) as (i & -> & Hcount); [done|by intros i; apply Hi|].
      cbn [mbind outcome_bind]. simpl. rewrite (cfg_boost _ Hc). simpl. rewrite uadd_val by lia.
      cbn [mbind outcome_bind]. eexists. split; [done|]. split; [by destruct Hc|done|].
      by apply map_Forall_insert_2.
    + eexists. split; [done|]. split; [by destruct Hc|done|]. simpl. intros p i.
      rewrite lookup_alter_Some. intros [(<- & j & Hj & ->)|[_ Hj]]; [|by apply (Hi' p)].
      apply decay_counts. by apply (Hi' pid).
  - rewrite app_nil_r. eexists. split; [done|]. split; [by destruct Hc|done|done].
Qed.

(** Under any history of touch events, process activity and metrics updates
    (fewer than 2^32 - 1 of them, at times at least 100 ms before the end of the
    clock), the optimizer never panics, and its bounded queue holds exactly the
    latest 100 touch events in order. *)
Theorem touch_queue_keeps_latest xs :
  Forall (λ x, 0 ≤ op_time x < 2 ^ 64 - 100) xs → len xs < 2 ^ 32 - 1 →
  ∃ o, resp_run xs new = Val o ∧ touch_input_queue o = latest 100 (touches xs).
Proof.
  intros Hxs Hlen. unfold resp_run.
  destruct (for_each_inv (λ dn o, resp_inv (len xs - len dn) (touches dn) o) (λ x o, resp_step o x) xs new)
    as (o & -> & Ho).
  - intros dn x todo o Hl Ho. rewrite Forall_forall in Hxs.
    assert (len xs = len dn + 1 + len todo) as Hlx.
    { rewrite Hl, len_app. unfold len. simpl. lia. }
    pose proof (len_nonneg todo). pose proof (len_nonneg dn). rewrite len_snoc.
    apply resp_step_val; [lia|apply Hxs; rewrite Hl; set_solver|].
    by replace (len xs - (len dn + 1) + 1) with (len xs - len dn) by lia.
  - split; [done|done|apply map_Forall_empty].
  - exists o. split; [done|apply Ho].
Qed.
End responsiveness_theorems.

Lemma adaptive_time_slice_exact_witness :
  config_default new ∧ @get_adaptive_time_slice new 7 10 0 = Val 10.
Proof.
  assert (config_default new) as Hc by done. split; [done|].
  by destruct (@adaptive_time_slice_exact new 7 10 0 Hc) as [-> _].
Defined.
Lemma should_throttle_iff_witness :
  should_throttle_process (update_system_metrics new 90 0 0) 7 = true.
Proof.
  apply (should_throttle_iff (update_system_metrics new 90 0 0) 7); [done|].
  split_and!; [done|left; vm_compute; congruence|by intros i].
Defined.
Lemma touch_queue_keeps_latest_witness :
  ∃ o, @resp_run dev [OpNotify 1 ActInteractive 5; OpTouch (TouchDown 1 2) 6] new = Val o ∧
       touch_input_queue o = [(TouchDown 1 2, 6)].
Proof.
  apply (@touch_queue_keeps_latest dev [OpNotify 1 ActInteractive 5; OpTouch (TouchDown 1 2) 6]);
    [|vm_compute; reflexivity]. repeat constructor; vm_compute; congruence.
Defined.
