(* ===== verification/Policy.v ===== *)
(** * Power policy and the composition of power management

    Models [kernel/src/power/power_policy.rs] over the CPU, idle, battery and
    responsiveness managers, and what the scheduler asks of it: the policy and the
    optimizer are an instance of the class [PowerPolicy] of [Scheduler].

    The globals are one record, [PowerWorld].  A manager is locked while one of
    its global functions runs; [spin_lock] is the spin lock, which does not
    return when the lock is held by its own caller. *)
From S2P Require Import Prelude Float CpuScaling Idle Battery Responsiveness Power Process Scheduler.

Inductive SchedulingPolicy :=
  | PolPerformance | PolBalanced | PolPowerSaver | PolInteractive | PolCritical.
#[export] Instance SchedulingPolicy_eq_dec : EqDecision SchedulingPolicy.
Proof. solve_decision. Defined.
Inductive ProcessPowerClass := ClsCritical | ClsInteractive | ClsBackground | ClsBatch.
#[export] Instance ProcessPowerClass_eq_dec : EqDecision ProcessPowerClass.
Proof. solve_decision. Defined.

Record PowerPolicyManager := {
  current_state : PowerState;
  current_policy : SchedulingPolicy;
  process_classifications : gmap Z ProcessPowerClass;
  interactive_boost_active : bool;
  boost_end_time : Z;
  last_policy_update : Z;
  policy_update_interval : Z;
  thermal_throttling_active : bool;
}.
Definition new : PowerPolicyManager := {|
  current_state := StBalanced; current_policy := PolBalanced; process_classifications := ∅;
  interactive_boost_active := false; boost_end_time := 0; last_policy_update := 0;
  policy_update_interval := 1000; thermal_throttling_active := false;
|}.
Definition set_state (m : PowerPolicyManager) s p : PowerPolicyManager := {|
  current_state := s; current_policy := p; process_classifications := process_classifications m;
  interactive_boost_active := interactive_boost_active m; boost_end_time := boost_end_time m;
  last_policy_update := last_policy_update m; policy_update_interval := policy_update_interval m;
  thermal_throttling_active := thermal_throttling_active m |}.
Definition set_classes (m : PowerPolicyManager) c : PowerPolicyManager := {|
  current_state := current_state m; current_policy := current_policy m; process_classifications := c;
  interactive_boost_active := interactive_boost_active m; boost_end_time := boost_end_time m;
  last_policy_update := last_policy_update m; policy_update_interval := policy_update_interval m;
  thermal_throttling_active := thermal_throttling_active m |}.
Definition set_boost (m : PowerPolicyManager) b t : PowerPolicyManager := {|
  current_state := current_state m; current_policy := current_policy m;
  process_classifications := process_classifications m; interactive_boost_active := b;
  boost_end_time := t; last_policy_update := last_policy_update m;
  policy_update_interval := policy_update_interval m;
  thermal_throttling_active := thermal_throttling_active m |}.
Definition set_last_update (m : PowerPolicyManager) t : PowerPolicyManager := {|
  current_state := current_state m; current_policy := current_policy m;
  process_classifications := process_classifications m;
  interactive_boost_active := interactive_boost_active m; boost_end_time := boost_end_time m;
  last_policy_update := t; policy_update_interval := policy_update_interval m;
  thermal_throttling_active := thermal_throttling_active m |}.
Definition set_thermal (m : PowerPolicyManager) b : PowerPolicyManager := {|
  current_state := current_state m; current_policy := current_policy m;
  process_classifications := process_classifications m;
  interactive_boost_active := interactive_boost_active m; boost_end_time := boost_end_time m;
  last_policy_update := last_policy_update m; policy_update_interval := policy_update_interval m;
  thermal_throttling_active := b |}.

(** The global managers and the simulated battery. *)
Record PowerWorld := {
  policy : option PowerPolicyManager;
  cpu : option CpuScaling.CpuScalingManager;
  idle : option Idle.IdleManager;
  battery : option Battery.BatteryMonitor;
  simulation : Battery.Simulation;
  optimizer : option Responsiveness.ResponsivenessOptimizer;
}.
Definition world_start : PowerWorld := {|
  policy := None; cpu := None; idle := None; battery := None;
  simulation := Battery.simulation_start; optimizer := None |}.
Definition with_policy (w : PowerWorld) v : PowerWorld := {|
  policy := v; cpu := cpu w; idle := idle w; battery := battery w; simulation := simulation w;
  optimizer := optimizer w |}.
Definition with_cpu (w : PowerWorld) v : PowerWorld := {|
  policy := policy w; cpu := v; idle := idle w; battery := battery w; simulation := simulation w;
  optimizer := optimizer w |}.
Definition with_idle (w : PowerWorld) v : PowerWorld := {|
  policy := policy w; cpu := cpu w; idle := v; battery := battery w; simulation := simulation w;
  optimizer := optimizer w |}.
Definition with_battery (w : PowerWorld) v s : PowerWorld := {|
  policy := policy w; cpu := cpu w; idle := idle w; battery := v; simulation := s;
  optimizer := optimizer w |}.
Definition with_optimizer (w : PowerWorld) v : PowerWorld := {|
  policy := policy w; cpu := cpu w; idle := idle w; battery := battery w; simulation := simulation w;
  optimizer := v |}.

(** [while locked { spin }], for [fuel] rounds. *)
Definition spin_lock (held : bool) (fuel : nat) : outcome unit :=
  loop_fuel fuel (λ u : unit, Val (if held then Next u else Return u)) ().

Section policy.
Context {P : Profile}.
Implicit Types (m : PowerPolicyManager) (w : PowerWorld).

Definition policy_of (s : PowerState) : SchedulingPolicy :=
  match s with
  | StPerformance => PolPerformance
  | StBalanced => PolBalanced
  | StPowerSaver => PolPowerSaver
  | StCritical => PolCritical
  end.
Definition governor_of (s : PowerState) : CpuGovernor :=
  match s with
  | StPerformance => GovPerformance
  | StBalanced => GovInteractive
  | StPowerSaver => GovPowerSave
  | StCritical => GovPowerSave
  end.
Definition apply_power_aware_scheduling m : result unit PowerError := Ok ().

(** The methods get the world with the other managers. *)
Definition set_power_state m w (s : PowerState) :
    outcome (result unit PowerError * (PowerPolicyManager * PowerWorld)) :=
  if bool_decide (s = current_state m) then Val (Ok (), (m, w))
  else
    let m := set_state m s (policy_of s) in
    '(r, c) ← CpuScaling.global_set_governor (cpu w) (governor_of s);
    let w := with_cpu w c in
    match r with
    | Err e => Val (Err e, (m, w))
    | Ok _ => Val (apply_power_aware_scheduling m, (m, w))
    end.
Definition recommended w : PowerState := Battery.global_get_recommended_power_state (battery w).
Definition init m w : outcome (result unit PowerError * (PowerPolicyManager * PowerWorld)) :=
  let w := with_battery w (Battery.global_register_callback (battery w) Battery.HandleBatteryEvent)
             (simulation w) in
  set_power_state m w (recommended w).

Definition classify_process m (pid : Z) (class : ProcessPowerClass) : PowerPolicyManager :=
  set_classes m (<[pid := class]> (process_classifications m)).
Definition remove_process m w (pid : Z) : PowerPolicyManager * PowerWorld :=
  (set_classes m (delete pid (process_classifications m)),
   with_idle (with_cpu w (CpuScaling.global_remove_process (cpu w) pid))
     (Idle.global_remove_process (idle w) pid)).
Definition activate_interactive_boost m (current_time : Z) : outcome PowerPolicyManager :=
  t ← uadd 64 current_time 500; Val (set_boost m true t).
Definition notify_process_activity m w (pid : Z) (activity : ProcessActivity) (current_time : Z) :
    outcome (PowerPolicyManager * PowerWorld) :=
  let w := with_cpu w (CpuScaling.global_notify_process_activity (cpu w) pid activity) in
  let w := with_idle w (Idle.global_notify_process_activity (idle w) pid activity current_time) in
  m ← (if bool_decide (activity = ActInteractive) then activate_interactive_boost m current_time else Val m);
  Val (m, w).

(** The events on which the callback takes the policy's lock. *)
Definition event_locks (e : Battery.BatteryEvent) : bool :=
  match e with
  | Battery.CriticalLevel | Battery.LowLevel => true
  | Battery.ChargingStateChanged charging => charging
  | _ => false
  end.
(** The callback calls made while the policy is locked by the caller. *)
Definition run_callbacks (fuel : nat) (calls : list (Battery.BatteryEventCallback * Battery.BatteryEvent)) :
    outcome unit :=
  for_each (λ '(_, e) u, if event_locks e then spin_lock true fuel else Val u) calls ().
(** The callback when nobody holds the lock. *)
Definition handle_battery_event w (e : Battery.BatteryEvent) : outcome PowerWorld :=
  let set s := match policy w with
               | None => Val w
               | Some m => '(_, (m, w)) ← set_power_state m w s; Val (with_policy w (Some m))
               end in
  match e with
  | Battery.CriticalLevel => set StCritical
  | Battery.LowLevel => set StPowerSaver
  | Battery.ChargingStateChanged charging => if charging then set StPerformance else Val w
  | _ => Val w
  end.

Definition update (fuel : nat) m w (current_time : Z) :
    outcome (result unit PowerError * (PowerPolicyManager * PowerWorld)) :=
  if policy_update_interval m <=? saturating_sub current_time (last_policy_update m) then
    '(r, b, s, calls) ← Battery.global_update (battery w) (simulation w) current_time;
    _ ← run_callbacks fuel calls;
    let w := with_battery w b s in
    match r with
    | Err e => Val (Err e, (m, w))
    | Ok _ =>
        ptry (if bool_decide (recommended w = current_state m) then Val (Ok (), (m, w))
              else set_power_state m w (recommended w)) (λ _ '(m, w),
        '(r, c) ← CpuScaling.global_tick (cpu w) current_time;
        let w := with_cpu w c in
        match r with
        | Err e => Val (Err e, (m, w))
        | Ok _ =>
            let m := if interactive_boost_active m && (boost_end_time m <=? current_time)
                     then set_boost m false (boost_end_time m) else m in
            Val (Ok (), (set_last_update m current_time, w))
        end)
    end
  else Val (Ok (), (m, w)).

Definition class_of m (pid : Z) : ProcessPowerClass :=
  default ClsBackground (process_classifications m !! pid).
Definition get_power_aware_priority m (pid : Z) (base : ProcessPriority) : outcome ProcessPriority :=
  match current_policy m with
  | PolPerformance => Val base
  | PolInteractive =>
      match class_of m pid with
      | ClsInteractive => Val (boost base 2)
      | ClsCritical => Val base
      | _ => reduce base 1
      end
  | PolBalanced =>
      match class_of m pid with
      | ClsCritical => Val base
      | ClsInteractive => if interactive_boost_active m then Val (boost base 1) else Val base
      | ClsBackground => reduce base 1
      | ClsBatch => reduce base 2
      end
  | PolPowerSaver | PolCritical =>
      match class_of m pid with
      | ClsCritical => Val base
      | ClsInteractive => reduce base 1
      | ClsBackground => reduce base 2
      | ClsBatch => reduce base 3
      end
  end.
(** The multipliers are decimal literals; here in tenths. *)
Definition multiplier_tenths m (pid : Z) : Z :=
  match current_policy m with
  | PolPerformance => 10
  | PolInteractive =>
      match class_of m pid with ClsInteractive => 15 | ClsCritical => 10 | _ => 8 end
  | PolBalanced =>
      match class_of m pid with
      | ClsCritical => 10
      | ClsInteractive => if interactive_boost_active m then 12 else 10
      | ClsBackground => 8
      | ClsBatch => 6
      end
  | PolPowerSaver | PolCritical =>
      match class_of m pid with
      | ClsCritical => 10
      | ClsInteractive => 8
      | ClsBackground => 5
      | ClsBatch => 3
      end
  end.
Definition get_time_slice_multiplier m (pid : Z) : f32 := f32_lit (multiplier_tenths m pid) 10.
Definition should_throttle_background m (pid : Z) : bool :=
  match current_policy m with
  | PolPerformance => false
  | PolInteractive => bool_decide (class_of m pid = ClsBatch)
  | PolBalanced => bool_decide (class_of m pid = ClsBatch) && negb (interactive_boost_active m)
  | PolPowerSaver | PolCritical =>
      bool_decide (class_of m pid = ClsBackground) || bool_decide (class_of m pid = ClsBatch)
  end.

Definition enable_thermal_throttling m w :
    outcome (result unit PowerError * (PowerPolicyManager * PowerWorld)) :=
  let m := set_thermal m true in
  if bool_decide (current_state m = StCritical) then Val (Ok (), (m, w))
  else set_power_state m w StPowerSaver.
Definition disable_thermal_throttling m w :
    outcome (result unit PowerError * (PowerPolicyManager * PowerWorld)) :=
  set_power_state (set_thermal m false) w (recommended w).

(** ** The global policy *)
Definition global_init w : outcome (result unit PowerError * PowerWorld) :=
  '(r, (m, w)) ← init new w;
  Val (r, match r with Ok _ => with_policy w (Some m) | Err _ => w end).
Definition on_policy {A} w (e : result A PowerError)
    (k : PowerPolicyManager → PowerWorld → outcome (result A PowerError * (PowerPolicyManager * PowerWorld))) :
    outcome (result A PowerError * PowerWorld) :=
  match policy w with
  | None => Val (e, w)
  | Some m => '(r, (m, w)) ← k m w; Val (r, with_policy w (Some m))
  end.
Definition global_set_power_state w (s : PowerState) :=
  on_policy w (Err NotSupported) (λ m w, set_power_state m w s).
Definition global_get_power_state w : PowerState :=
  match policy w with Some m => current_state m | None => StBalanced end.
Definition global_classify_process w (pid : Z) (c : ProcessPowerClass) : PowerWorld :=
  match policy w with Some m => with_policy w (Some (classify_process m pid c)) | None => w end.
Definition global_remove_process w (pid : Z) : PowerWorld :=
  match policy w with
  | Some m => let '(m, w) := remove_process m w pid in with_policy w (Some m)
  | None => w
  end.
Definition global_notify_process_activity w (pid : Z) (a : ProcessActivity) (t : Z) : outcome PowerWorld :=
  match policy w with
  | Some m => '(m, w) ← notify_process_activity m w pid a t; Val (with_policy w (Some m))
  | None => Val w
  end.
Definition global_update (fuel : nat) w (t : Z) := on_policy w (Ok ()) (λ m w, update fuel m w t).
Definition global_get_power_aware_priority w (pid : Z) (base : ProcessPriority) : outcome ProcessPriority :=
  match policy w with Some m => get_power_aware_priority m pid base | None => Val base end.
Definition global_get_time_slice_multiplier w (pid : Z) : f32 :=
  match policy w with Some m => get_time_slice_multiplier m pid | None => f32_lit 10 10 end.
Definition global_should_throttle_background w (pid : Z) : bool :=
  match policy w with Some m => should_throttle_background m pid | None => false end.
Definition global_enable_thermal_throttling w := on_policy w (Err NotSupported) enable_thermal_throttling.
Definition global_disable_thermal_throttling w := on_policy w (Err NotSupported) disable_thermal_throttling.

(** ** What the scheduler uses *)

(** [Scheduler::get_power_aware_time_slice]. *)
Definition get_power_aware_time_slice w (time_slice_ms context_switches pid : Z) : outcome Z :=
  let base_time_slice := scale_u64 time_slice_ms (global_get_time_slice_multiplier w pid) in
  Responsiveness.global_get_adaptive_time_slice (optimizer w) pid base_time_slice context_switches.
(** [Scheduler::notify_power_management]. *)
Definition notify_power_management w (context_switches pid : Z) (a : ProcessActivity) : outcome PowerWorld :=
  w ← global_notify_process_activity w pid a context_switches;
  o ← Responsiveness.global_notify_process_activity (optimizer w) pid a context_switches;
  Val (with_optimizer w o).
End policy.

(** ** Priorities *)

(** How many levels down (up when negative) the policy moves a process. *)
Definition priority_shift (p : SchedulingPolicy) (boost : bool) (c : ProcessPowerClass) : Z :=
  match p, c with
  | PolPerformance, _ => 0
  | _, ClsCritical => 0
  | PolInteractive, ClsInteractive => -2
  | PolInteractive, _ => 1
  | PolBalanced, ClsInteractive => if boost then -1 else 0
  | PolBalanced, ClsBackground => 1
  | PolBalanced, ClsBatch => 2
  | (PolPowerSaver | PolCritical), ClsInteractive => 1
  | (PolPowerSaver | PolCritical), ClsBackground => 2
  | (PolPowerSaver | PolCritical), ClsBatch => 3
  end.

Section priorities.
Context {P : Profile}.
Implicit Types (m : PowerPolicyManager) (w : PowerWorld).

Lemma priority_val m pid base : get_power_aware_priority m pid base =
  Val (of_level (Z.max 0 (Z.min 3 (level base +
    priority_shift (current_policy m) (interactive_boost_active m) (class_of m pid))))).
Proof.
  unfold get_power_aware_priority, priority_shift.
  destruct P, (current_policy m), (class_of m pid), (interactive_boost_active m), base; vm_compute; reflexivity.
Qed.

(** The priority the policy gives is the base priority shifted by the table
    of the policy, the class of the process and the boost, and kept in range:
    no computation panics, critical processes and the performance policy leave
    it alone, and only interactive processes are ever raised. *)
Theorem power_aware_priority_exact m pid base :
  let k := priority_shift (current_policy m) (interactive_boost_active m) (class_of m pid) in
  ∃ p, get_power_aware_priority m pid base = Val p ∧
    level p = Z.max 0 (Z.min 3 (level base + k)) ∧
    (level p < level base → class_of m pid = ClsInteractive).
Proof.
  intros k. rewrite priority_val. eexists. split; [done|]. fold k.
  assert (∀ n, 0 ≤ n ≤ 3 → level (of_level n) = n) as Hl.
  { intros n Hn. assert (n = 0 ∨ n = 1 ∨ n = 2 ∨ n = 3) as [->|[->|[->| ->]]] by lia; done. }
  rewrite Hl by lia. split; [done|]. intros Hlt.
  assert (0 ≤ level base ≤ 3) by (destruct base; simpl; lia). unfold k, priority_shift in *.
  destruct (class_of m pid); try done; destruct (current_policy m); lia.
Qed.

(** The instance the scheduler's theorems apply to. *)
Definition kernel_power_policy : PowerPolicy := {|
  PowerGlobals := PowerWorld;
  power_image := world_start;
  Scheduler.get_power_aware_priority w pid base :=
    match global_get_power_aware_priority w pid base with Val p => p | _ => base end;
  Scheduler.should_throttle_background := global_should_throttle_background;
  Scheduler.should_throttle_process w pid :=
    Responsiveness.global_should_throttle_process (optimizer w) pid;
  Scheduler.notify_power_management := notify_power_management;
|}.
(** Room for [n] more notifications after time [t]: a boost ends before the end of
    time, and the counters of every process stay below 2^32. *)
Definition world_room (n t : Z) w : Prop :=
  (is_Some (policy w) → t + n + 500 < 2 ^ 64) ∧
  ∀ o, optimizer w = Some o →
    0 ≤ Responsiveness.boost_duration_ms (Responsiveness.interactive_boost_config o) ∧
    t + n + Responsiveness.boost_duration_ms (Responsiveness.interactive_boost_config o) < 2 ^ 64 ∧ n < 2 ^ 32 ∧
    ∀ pid i, Responsiveness.process_interactions o !! pid = Some i →
      0 ≤ Responsiveness.interaction_count i ∧ Responsiveness.interaction_count i + n < 2 ^ 32 ∧
      0 ≤ Responsiveness.touch_events_handled i ∧ Responsiveness.touch_events_handled i + n < 2 ^ 32.

Lemma policy_notified n t w pid a : world_room n t w → 1 ≤ n → 0 ≤ t →
  ∃ w', global_notify_process_activity w pid a (t + 1) = Val w' ∧ optimizer w' = optimizer w ∧
    (is_Some (policy w') ↔ is_Some (policy w)).
Proof.
  intros [Hp _] Hn Ht. unfold global_notify_process_activity, notify_process_activity, activate_interactive_boost.
  destruct (policy w) as [m|] eqn:E; [|exists w; by rewrite E]. specialize (Hp ltac:(eauto)).
  case_bool_decide; [rewrite uadd_val by lia|]; cbn [mbind outcome_bind]; eexists; split_and!; try done; split; eauto.
Qed.
Lemma optimizer_notified n t (o : Responsiveness.ResponsivenessOptimizer) pid a w :
  world_room n t w → optimizer w = Some o → 1 ≤ n → 0 ≤ t →
  ∃ o', Responsiveness.notify_process_activity o pid a (t + 1) = Val o' ∧
    Responsiveness.interactive_boost_config o' = Responsiveness.interactive_boost_config o ∧
    ∀ q i, Responsiveness.process_interactions o' !! q = Some i →
      0 ≤ Responsiveness.interaction_count i ∧ Responsiveness.interaction_count i + (n - 1) < 2 ^ 32 ∧
      0 ≤ Responsiveness.touch_events_handled i ∧ Responsiveness.touch_events_handled i + (n - 1) < 2 ^ 32.
Proof.
  intros [_ Hw] Ho Hn Ht. destruct (Hw o Ho) as (Hb & Hbt & Hn32 & Hi).
  unfold Responsiveness.notify_process_activity, Responsiveness.update_process_interaction. case_bool_decide.
  - set (i0 := default _ _). assert (0 ≤ Responsiveness.interaction_count i0 ∧ Responsiveness.interaction_count i0 + n < 2 ^ 32 ∧
      0 ≤ Responsiveness.touch_events_handled i0 ∧ Responsiveness.touch_events_handled i0 + n < 2 ^ 32) as H0.
    { unfold i0. destruct (Responsiveness.process_interactions o !! pid) as [i|] eqn:E; simpl; [by eapply Hi|lia]. }
    rewrite !uadd_val by lia. cbn [mbind outcome_bind Responsiveness.interactive_boost_config Responsiveness.set_interactions].
    cbn. rewrite uadd_val by lia. cbn [mbind outcome_bind]. eexists. split; [done|]. split; [done|]. cbn.
    intros q i [[<- <-]|[_ Hq]]%lookup_insert_Some; [cbn; lia|]. specialize (Hi q i Hq). lia.
  - eexists. split; [done|]. split; [done|]. cbn. intros q i Hq.
    rewrite lookup_alter in Hq. case_decide as E; [subst|specialize (Hi q i Hq); lia].
    destruct (Responsiveness.process_interactions o !! q) as [j|] eqn:Ej; [|done]. injection Hq as <-.
    specialize (Hi q j Ej). unfold Responsiveness.decay, saturating_sub. cbn. lia.
Qed.
(** The policy keeps the laws: the scheduler's notifications panic at most when a
    counter is full. *)
Definition kernel_power_laws : PowerPolicyLaws kernel_power_policy.
Proof.
  refine {| power_room := world_room : Z → Z → @PowerGlobals kernel_power_policy → Prop |}.
  - intros n t. split; [by intros [? ?]|done].
  - intros n n' t w [Hp Ho] Hn. split; [intros H; specialize (Hp H); lia|]. intros o Hoo.
    destruct (Ho o Hoo) as (? & ? & ? & Hi). split_and!; [lia..|]. intros pid i Hpi. specialize (Hi pid i Hpi). lia.
  - intros n t w id a Hw Hn Ht _. destruct (policy_notified n t w id a Hw Hn Ht) as (w1 & Hw1 & Ho1 & Hp1).
    cbn [Scheduler.notify_power_management kernel_power_policy]. unfold notify_power_management. rewrite Hw1.
    cbn [mbind outcome_bind]. rewrite Ho1. unfold Responsiveness.global_notify_process_activity.
    destruct (optimizer w) as [o|] eqn:Eo; cbn [mbind outcome_bind].
    + destruct (optimizer_notified n t o id a w Hw Eo Hn Ht) as (o' & -> & Hb & Hi). cbn [mbind outcome_bind].
      eexists. split; [done|]. destruct Hw as [Hp Hw]. destruct (Hw o Eo) as (? & ? & ? & _). split; cbn.
      * intros Hs%Hp1. specialize (Hp Hs). lia.
      * intros ? [= <-]. rewrite Hb. split_and!; [lia..|done].
    + eexists. split; [done|]. destruct Hw as [Hp _]. split; [|done]. cbn. intros Hs%Hp1. specialize (Hp Hs). lia.
Defined.
(** Before initialisation notifications do nothing. *)
Lemma image_notified : notify_stable (W := kernel_power_policy) (λ w, w = world_start).
Proof. intros w c id a w' -> H. by injection H as <-. Qed.
(** Every priority the scheduler asks for is computed. *)
Lemma kernel_power_policy_total w pid base : ∃ p, global_get_power_aware_priority w pid base = Val p.
Proof. unfold global_get_power_aware_priority. destruct (policy w); [rewrite priority_val|]; eauto. Qed.
End priorities.

(** ** Histories *)
Section policy_histories.
Context {P : Profile}.
Implicit Types (m : PowerPolicyManager) (w : PowerWorld).

Inductive policy_op :=
  | OpSet (s : PowerState)
  | OpClassify (pid : Z) (c : ProcessPowerClass)
  | OpRemove (pid : Z)
  | OpNotify (pid : Z) (a : ProcessActivity) (t : Z)
  | OpUpdate (t : Z)
  | OpThermal (on : bool)
  | OpEvent (e : Battery.BatteryEvent).
Definition policy_step (fuel : nat) w (o : policy_op) : outcome PowerWorld :=
  match o with
  | OpSet s => '(_, w) ← global_set_power_state w s; Val w
  | OpClassify pid c => Val (global_classify_process w pid c)
  | OpRemove pid => Val (global_remove_process w pid)
  | OpNotify pid a t => global_notify_process_activity w pid a t
  | OpUpdate t => '(_, w) ← global_update fuel w t; Val w
  | OpThermal on => '(_, w) ← (if on then global_enable_thermal_throttling w
                               else global_disable_thermal_throttling w); Val w
  | OpEvent e => handle_battery_event w e
  end.

(** The scheduling policy is the one of the power state. *)
Definition policy_matches m : Prop := current_policy m = policy_of (current_state m).
Definition world_matches w : Prop := ∀ m, policy w = Some m → policy_matches m.

Lemma set_power_state_matches m w s r m' w' :
  policy_matches m → set_power_state m w s = Val (r, (m', w')) → policy_matches m' ∧ policy w' = policy w.
Proof.
  intros Hm. unfold set_power_state. case_bool_decide; [intros [= <- <- <-]; done|].
  intros H'. inv_val. destruct r0; inv_val; done.
Qed.
Lemma on_policy_matches {A} w (e : result A PowerError) k r w' :
  world_matches w →
  (∀ m r m' w', policy w = Some m → policy_matches m → k m w = Val (r, (m', w')) → policy_matches m') →
  on_policy w e k = Val (r, w') → world_matches w'.
Proof.
  intros Hw Hk. unfold on_policy. destruct (policy w) as [m|] eqn:Em; [|by intros [= <- <-]; intros ? ?; congruence].
  intros H'. inv_val. intros m' [= <-]. eapply Hk; [done|by apply Hw|done].
Qed.
Lemma update_matches fuel m w t r m' w' :
  policy_matches m → update fuel m w t = Val (r, (m', w')) → policy_matches m'.
Proof.
  intros Hm. unfold update. destruct (_ <=? _); [|intros [= <- <- <-]; done].
  intros H'. inv_val. destruct r0 as [u|e]; [|by inv_val].
  unfold ptry in H'. inv_val.
  destruct p as [m1 w1]. assert (policy_matches m1) as Hp.
  { case_bool_decide; [by inv_val|]. by eapply set_power_state_matches. }
  destruct r0; inv_val; [|done]. destruct r0; inv_val; [|done].
  by destruct (_ && _).
Qed.

Lemma policy_step_matches fuel w o w' :
  world_matches w → policy_step fuel w o = Val w' → world_matches w'.
Proof.
  intros Hw. destruct o as [s|pid c|pid|pid a t|t|on|e]; simpl; intros Hs.
  - inv_val. eapply on_policy_matches; [done| |done]. intros m r' m' w1 _ Hm Hk.
    by apply (set_power_state_matches m w s r' m' w1).
  - inv_val. unfold global_classify_process. destruct (policy w) as [m|] eqn:Em; [|done].
    intros m' [= <-]. exact (Hw m Em).
  - inv_val. unfold global_remove_process. destruct (policy w) as [m|] eqn:Em; [|done].
    intros m' [= <-]. exact (Hw m Em).
  - unfold global_notify_process_activity, notify_process_activity in Hs.
    destruct (policy w) as [m|] eqn:Em; [|by inv_val]. unfold activate_interactive_boost in Hs. inv_val.
    intros m' [= <-]. case_bool_decide; inv_val; exact (Hw _ Em).
  - inv_val. eapply on_policy_matches; [done| |done]. intros m r' m' w1 _ Hm Hk.
    by apply (update_matches fuel m w t r' m' w1).
  - inv_val. destruct on; (eapply on_policy_matches; [done| |done]);
      unfold enable_thermal_throttling, disable_thermal_throttling; intros m r' m' w1 _ Hm Hk.
    + case_bool_decide; [by inv_val|]. by eapply (set_power_state_matches (set_thermal m true)); [|done].
    + by eapply (set_power_state_matches (set_thermal m false)); [|done].
  - assert (∀ s, match policy w with
      | None => Val w
      | Some m => '(_, (m, w)) ← set_power_state m w s; Val (with_policy w (Some m))
      end = Val w' → world_matches w') as Hset.
    { intros s. destruct (policy w) as [m|] eqn:Em; [|by intros [= <-]]. intros H'. inv_val.
      intros m' [= <-]. eapply set_power_state_matches; [|done]. by apply Hw. }
    destruct e as [|[]| | | |]; simpl in Hs; first [by eapply Hset | by inv_val].
Qed.

(** The states of power management: what initialising the policy leaves, and
    what operations that return make of it. *)
Inductive reachable : PowerWorld → Prop :=
  | reachable_init w w' r : policy w = None → global_init w = Val (r, w') → reachable w'
  | reachable_step fuel w o w' : reachable w → policy_step fuel w o = Val w' → reachable w'.

(** C32: In every reachable state of power management the scheduling policy is
    the one of the power state, as the table lists them: the policy for interactive
    use, which only the priority tables mention, is never active.  So which processes
    are held back depends on the power state as it should: none for performance,
    batch processes outside a boost when balanced, and background and batch
    processes when saving power or critical. *)
Theorem policy_follows_state w m :
  reachable w → policy w = Some m →
  (current_state m, current_policy m) ∈
    [(StPerformance, PolPerformance); (StBalanced, PolBalanced); (StPowerSaver, PolPowerSaver);
     (StCritical, PolCritical)] ∧
  ∀ pid, should_throttle_background m pid =
    match current_state m, class_of m pid with
    | StBalanced, ClsBatch => negb (interactive_boost_active m)
    | (StPowerSaver | StCritical), (ClsBackground | ClsBatch) => true
    | _, _ => false
    end.
Proof.
  intros Hw Hm. assert (world_matches w) as Hall.
  { clear Hm m. induction Hw as [w w' r Hn Hi|fuel w o w' _ IH Hs]; [|by eapply policy_step_matches].
    unfold global_init, init in Hi. inv_val. intros m Hm. destruct r; inv_val.
    - by eapply set_power_state_matches; [|done].
    - apply set_power_state_matches in Hb as [_ Hp]; [|done]. simpl in Hp. congruence. }
  specialize (Hall m Hm). unfold policy_matches in Hall. unfold should_throttle_background. rewrite Hall.
  split; [by destruct (current_state m); set_solver|]. intros pid.
  by destruct (current_state m), (class_of m pid).
Qed.

(** A failed change of the power state takes effect all the same.  Without
    CPU scaling, changing to another state reports [NotSupported], but the state
    and the policy have changed, and asking again reports success. *)
Theorem failed_state_change_sticks m w s :
  cpu w = None → s ≠ current_state m →
  ∃ m' w', set_power_state m w s = Val (Err NotSupported, (m', w')) ∧
    current_state m' = s ∧ current_policy m' = policy_of s ∧ set_power_state m' w' s = Val (Ok (), (m', w')).
Proof.
  intros Hc Hs. unfold set_power_state at 1. rewrite bool_decide_false by done. rewrite Hc.
  simpl. eexists _, _. split; [done|]. split_and!; try done.
  unfold set_power_state. by rewrite bool_decide_true.
Qed.

(** Battery events deadlock the policy's own update.  If the battery update
    that [update] performs calls back with a critical, low or charging-started
    event, the callback waits for the lock its caller holds: no number of
    rounds of the spin lock lets the update return. *)
Theorem battery_event_deadlocks fuel m w t r b s calls c e :
  policy_update_interval m ≤ saturating_sub t (last_policy_update m) →
  Battery.global_update (battery w) (simulation w) t = Val (r, b, s, calls) →
  (c, e) ∈ calls → event_locks e = true → update fuel m w t = Fuel.
Proof.
  intros Hi Hu Hin He. unfold update. rewrite (proj2 (Z.leb_le _ _)) by done. rewrite Hu.
  cbn [mbind outcome_bind]. assert (spin_lock true fuel = Fuel) as Hspin.
  { unfold spin_lock. induction fuel; simpl; [done|]. apply IHfuel. }
  assert (run_callbacks fuel calls = Fuel) as ->; [|done]. unfold run_callbacks. clear Hu.
  induction calls as [|[c' e'] calls IH]; [by apply not_elem_of_nil in Hin|]. simpl.
  destruct (event_locks e') eqn:He'; [by rewrite Hspin|]. apply IH.
  apply elem_of_cons in Hin as [Heq|]; [|done]. injection Heq as <-. congruence.
Qed.

(** Thermal throttling ends with the next policy update: while the battery
    is not due for a refresh, an update puts the power state back to what the
    battery recommends, although throttling is still switched on. *)
Theorem thermal_throttling_forgotten fuel m w t bm cm :
  thermal_throttling_active m = true → battery w = Some bm → cpu w = Some cm → CpuScaling.cpu_wf cm →
  policy_update_interval m ≤ saturating_sub t (last_policy_update m) →
  saturating_sub t (Battery.last_update_time bm) < Battery.monitor_interval_ms (Battery.config bm) →
  ∃ m' w', update fuel m w t = Val (Ok (), (m', w')) ∧
    current_state m' = Battery.get_recommended_power_state bm ∧ thermal_throttling_active m' = true.
Proof.
  intros Hth Hb Hc Hwf Hi Hfresh. unfold update. rewrite (proj2 (Z.leb_le _ _)) by done. rewrite Hb. simpl.
  assert (Battery.update bm (simulation w) t = Val (Ok (), bm, simulation w, [])) as ->.
  { unfold Battery.update. destruct (negb _); [done|]. by rewrite (proj2 (Z.leb_gt _ _)) by done. }
  cbn [mbind outcome_bind]. simpl. unfold recommended. simpl.
  assert (∃ m1 w1 c1, (if bool_decide (Battery.get_recommended_power_state bm = current_state m)
     then Val (Ok (), (m, with_battery w (Some bm) (simulation w)))
     else set_power_state m (with_battery w (Some bm) (simulation w)) (Battery.get_recommended_power_state bm))
     = Val (Ok (), (m1, w1)) ∧ current_state m1 = Battery.get_recommended_power_state bm ∧
     thermal_throttling_active m1 = true ∧ cpu w1 = Some c1 ∧ CpuScaling.cpu_wf c1)
    as (m1 & w1 & c1 & -> & Hs1 & Ht1 & Hc1 & Hwf1).
  { case_bool_decide as Hr; [by exists m, (with_battery w (Some bm) (simulation w)), cm|].
    unfold set_power_state. rewrite bool_decide_false by done. simpl. rewrite Hc. simpl.
    destruct (CpuScaling.cpu_step_ok cm (CpuScaling.OpGovernor (governor_of (Battery.get_recommended_power_state bm))) Hwf I)
      as (c1 & Hg & Hc1). simpl in Hg. rewrite Hg. cbn [mbind outcome_bind]. by eexists _, _, c1. }
  unfold ptry. cbn [mbind outcome_bind]. rewrite Hc1. simpl.
  destruct (CpuScaling.cpu_step_ok c1 (CpuScaling.OpTick t) Hwf1 I) as (c2 & Hk & _). simpl in Hk.
  rewrite Hk. cbn [mbind outcome_bind]. eexists _, _. split; [done|]. by destruct (_ && _).
Qed.
End policy_histories.

(** ** Time slices the scheduler asks for *)
Definition tenths : list Z := [3; 5; 6; 8; 10; 12; 15].
Lemma tenths_table :
  forallb (λ n, forallb (λ b, scale_u64 b (f32_lit n 10) =? b * n / 10) (seqZ 0 600)) tenths = true.
Proof. vm_compute. reflexivity. Qed.
Lemma multiplier_in_tenths m pid : multiplier_tenths m pid ∈ tenths.
Proof.
  unfold multiplier_tenths, tenths.
  destruct (current_policy m), (class_of m pid), (interactive_boost_active m); set_solver.
Qed.
Definition world_tenths (w : PowerWorld) (pid : Z) : Z :=
  match policy w with Some m => multiplier_tenths m pid | None => 10 end.
Lemma scaled_slice w pid ts : 0 ≤ ts < 600 →
  scale_u64 ts (global_get_time_slice_multiplier w pid) = ts * world_tenths w pid / 10 ∧
  3 ≤ world_tenths w pid ≤ 15.
Proof.
  intros Hts. unfold global_get_time_slice_multiplier, world_tenths.
  assert (∀ n, n ∈ tenths → scale_u64 ts (f32_lit n 10) = ts * n / 10 ∧ 3 ≤ n ≤ 15) as Hn.
  { intros n Hn. pose proof tenths_table as Ht. rewrite forallb_forall in Ht.
    specialize (Ht n (proj1 (list_elem_of_In _ _) Hn)). rewrite forallb_forall in Ht. split.
    - apply Z.eqb_eq, Ht, list_elem_of_In, elem_of_seqZ. lia.
    - unfold tenths in Hn. repeat (apply elem_of_cons in Hn as [->|Hn]; [lia|]). by apply not_elem_of_nil in Hn. }
  destruct (policy w) as [m|]; [apply Hn, multiplier_in_tenths|]. apply Hn. unfold tenths. set_solver.
Qed.

(** The scheduler's time slice, end to end.  For a configured time slice
    below 600 ms, with the optimizer running, the slice of a process is exactly
    the configured one times the policy's multiplier (rounded down), adapted by
    the optimizer; a process that is not boosted always gets at least 1 ms. *)
Theorem time_slice_exact w o ts now pid :
  optimizer w = Some o → Responsiveness.config_default o → 0 ≤ ts < 600 →
  let base := ts * world_tenths w pid / 10 in
  get_power_aware_time_slice w ts now pid = Val (Responsiveness.exact_slice o pid base now) ∧
  (Responsiveness.boosted o pid now = false → 1 ≤ Responsiveness.exact_slice o pid base now).
Proof.
  intros Ho Hc Hts base. destruct (scaled_slice w pid ts Hts) as [Hs Ht].
  unfold get_power_aware_time_slice. rewrite Ho, Hs. fold base. simpl.
  assert (0 ≤ base < 1000) as Hb by (unfold base; split; [apply Z.div_pos; nia|apply Z.div_lt_upper_bound; nia]).
  split.
  - unfold Responsiveness.get_adaptive_time_slice. by apply Responsiveness.adaptive_slice_val.
  - intros Hnb. unfold Responsiveness.exact_slice. rewrite Hnb. destruct (Responsiveness.should_throttle_process _ _); lia.
Qed.

(** ** Witnesses *)
Definition small_world : PowerWorld := with_policy world_start (Some new).

(** Power saving, as set after initialisation. *)
Definition saving_world : PowerWorld :=
  with_policy (with_cpu world_start (Some CpuScaling.new)) (Some new).
Lemma policy_follows_state_witness : ∃ w m, reachable (P:=dev) w ∧ policy w = Some m ∧
  current_state m = StPowerSaver ∧ current_policy m = PolPowerSaver ∧ should_throttle_background m 7 = true.
Proof.
  assert (reachable (P:=dev) saving_world) as H0
    by (apply (reachable_init (P:=dev) (with_cpu world_start (Some CpuScaling.new)) saving_world (Ok ())); reflexivity).
  destruct (policy_step (P:=dev) 0 saving_world (OpSet StPowerSaver)) as [w| |] eqn:E; [|discriminate E..].
  pose proof (reachable_step (P:=dev) 0 saving_world (OpSet StPowerSaver) w H0 E) as Hr.
  vm_compute in E. injection E as <-. eexists _, _. split; [exact Hr|]. split; [reflexivity|].
  destruct (policy_follows_state (P:=dev) _ _ Hr eq_refl) as [_ Ht].
  split; [reflexivity|]. split; [reflexivity|]. rewrite Ht. reflexivity.
Defined.
Lemma failed_state_change_sticks_witness : ∃ m' w',
  set_power_state new world_start StCritical = Val (Err NotSupported, (m', w')) ∧
  current_state m' = StCritical ∧ current_policy m' = PolCritical ∧
  set_power_state m' w' StCritical = Val (Ok (), (m', w')).
Proof. by apply (failed_state_change_sticks new world_start StCritical). Defined.

(** A battery at 21 percent that is about to be plugged in, with the policy's
    callback registered. *)
Definition low_battery : Battery.BatteryMonitor :=
  Battery.register_callback (Battery.set_info Battery.new
    {| level_percent := 21; is_charging := false; estimated_time_remaining := None |}) Battery.HandleBatteryEvent.
Definition low_world : PowerWorld :=
  with_battery world_start (Some low_battery)
    {| Battery.sim_level := 21; Battery.sim_charging := false; Battery.sim_last_change := 0 |}.
Lemma battery_event_deadlocks_witness : update (P:=dev) 3 new low_world 5000 = Fuel.
Proof.
  destruct (Battery.global_update (P:=dev) (battery low_world) (simulation low_world) 5000)
    as [[[[r b] s] calls]| |] eqn:E; [|discriminate E..].
  refine (battery_event_deadlocks (P:=dev) 3 new low_world 5000 r b s calls
    Battery.HandleBatteryEvent (Battery.ChargingStateChanged true) _ E _ _).
  - vm_compute. congruence.
  - vm_compute in E. injection E as <- <- <- <-. set_solver.
  - done.
Defined.
Lemma thermal_throttling_forgotten_witness : ∃ cm m' w',
  update (P:=dev) 0 (set_state (set_thermal new true) StPowerSaver PolPowerSaver)
    (with_cpu (with_battery world_start (Some Battery.new) Battery.simulation_start) (Some cm)) 2000 =
    Val (Ok (), (m', w')) ∧
  current_state m' = StBalanced ∧ thermal_throttling_active m' = true.
Proof.
  destruct CpuScaling.init_wf as (cm & _ & Hcm). exists cm.
  refine (thermal_throttling_forgotten (P:=dev) 0 _ _ 2000 Battery.new cm _ _ _ Hcm _ _);
    try reflexivity; vm_compute; congruence.
Defined.
Lemma time_slice_exact_witness :
  get_power_aware_time_slice (with_optimizer small_world (Some Responsiveness.new)) 10 0 7 = Val 8.
Proof.
  destruct (time_slice_exact (with_optimizer small_world (Some Responsiveness.new)) Responsiveness.new 10 0 7)
    as [-> _]; [done|done|lia|]. vm_compute. reflexivity.
Defined.
