(* ===== verification/PowerScheduling.v ===== *)
(** * Scheduling with power management

    The scheduler of [Kernel] over the power policy of [Policy]: what the
    notification of a switch does to the policy and to the responsiveness optimizer,
    a kernel with power management initialised on which scheduling is proved to
    succeed, and the limit of that: the counters of a process are 32 bits wide. *)
From S2P Require Import Prelude Power Responsiveness Policy Capability Process Ipc Scheduler Syscall Kernel.
Local Open Scope kosh_scope.
#[local] Existing Instance kernel_power_policy.
#[local] Existing Instance kernel_power_laws.

(** A switch to a system or interactive process starts the boost of the policy and
    the boost of the process, which end 500 and [boost_duration_ms] switches later. *)
Lemma interactive_switch_boosts {P : Profile} n t w m o pid p : world_room n t w → 1 ≤ n → 0 ≤ t →
  policy w = Some m → optimizer w = Some o → activity_of p = ActInteractive →
  ∃ w' m' o', Policy.notify_power_management w (t + 1) pid (activity_of p) = Val w' ∧
    policy w' = Some m' ∧ interactive_boost_active m' = true ∧ boost_end_time m' = t + 501 ∧
    optimizer w' = Some o' ∧
    current_interactive_processes o' !! pid = Some (t + 1 + boost_duration_ms (interactive_boost_config o)).
Proof.
  intros Hw Hn Ht Hm Ho Hp. pose proof Hw as [H1 H2]. rewrite Hm in H1. specialize (H1 ltac:(eauto)).
  destruct (H2 o Ho) as (Hb & Hbt & Hn32 & Hi). rewrite Hp.
  unfold Policy.notify_power_management, Policy.global_notify_process_activity, Policy.notify_process_activity,
    activate_interactive_boost.
  rewrite Hm. rewrite bool_decide_true by done. rewrite uadd_val by lia. cbn [mbind outcome_bind]. cbn.
  rewrite Ho. unfold Responsiveness.global_notify_process_activity.
  destruct (optimizer_notified n t o pid ActInteractive w Hw Ho Hn Ht) as (o' & Hn' & _).
  rewrite Hn'. cbn [mbind outcome_bind]. eexists _, _, o'. split; [done|]. cbn. split_and!; try done; [simpl; lia|].
  unfold Responsiveness.notify_process_activity in Hn'. rewrite bool_decide_true in Hn' by done.
  unfold update_process_interaction in Hn'. inv_val. rewrite uadd_val in Hb1 by lia. injection Hb1 as <-.
  by rewrite lookup_insert_eq.
Qed.

(** ** A kernel with power management up and two processes *)
Definition duo : ProcessTable := run_table [OpCreate None "init" System; OpCreate None "job" Normal] 8.
Lemma duo_wf : table_wf duo.
Proof.
  unfold duo, run_table.
  by destruct (table_run_wf (P:=dev) [OpCreate None "init" System; OpCreate None "job" Normal]
    (table_new 8) (table_new_wf 8 ltac:(lia))) as (t & -> & ? & _).
Qed.
Definition power_up : PowerWorld := with_optimizer small_world (Some Responsiveness.new).
Definition duo_kernel {P : Profile} (w : PowerWorld) : Kernel :=
  set_power (set_ipc boot_core (set_table (ipc boot_core) (Some duo))) w.

Lemma duo_kernel_inv : kernel_inv (L:=demo_layout) (WL:=kernel_power_laws (P:=dev)) (2 ^ 31) ∅ (duo_kernel (P:=dev) power_up).
Proof.
  pose proof (boot_core_inv (L:=demo_layout) (WL:=kernel_power_laws (P:=dev))) as [Hi (s & Hs & Hr & _ & Hx) Hp].
  split; [|exists s; split_and!|done].
  - apply kernel_wf_table; [|apply duo_wf]. apply (kernel_wf_mono (2 ^ 62)); [done|lia].
  - done.
  - by apply (sched_room_mono (2 ^ 62)); [|lia].
  - injection Hs as <-. split; [cbn; lia|]. intros o [= <-]. split_and!; [cbn; lia..|]. by intros pid i Hpi.
  - done.
Qed.

(** What a decision shows: the process, whether the policy boosts, and the counters of
    the process. *)
Definition decision {P : Profile} (r : outcome (result (option Z) SchedulerError * Kernel)) :
    outcome (option Z * option bool * option (Z * Z)) :=
  '(r, k) ← r;
  match r with
  | Err _ => Val (None, None, None)
  | Ok next =>
      let w : PowerWorld := power k in
      let i := o ← optimizer w; pid ← next; process_interactions o !! pid in
      Val (next, interactive_boost_active <$> policy w,
           (λ i, (interaction_count i, touch_events_handled i)) <$> i)
  end.

Lemma scheduling_never_fails_witness :
  ∃ k', schedule_next_process (P:=dev) (duo_kernel (P:=dev) power_up) = Val (Ok (Some 1), k') ∧
    decision (P:=dev) (Val (Ok (Some 1), k')) = Val (Some 1, Some true, Some (1, 1)) ∧
    kernel_inv (L:=demo_layout) (WL:=kernel_power_laws (P:=dev)) (2 ^ 31 - 1) ∅ k'.
Proof.
  destruct (scheduling_never_fails (P:=dev) (L:=demo_layout) (2 ^ 31) ∅ (duo_kernel (P:=dev) power_up)
    duo_kernel_inv ltac:(lia)) as (next & k' & t & t' & Hs & _ & _ & _ & _ & _ & _ & _ & Hk).
  assert (decision (P:=dev) (schedule_next_process (P:=dev) (duo_kernel (P:=dev) power_up)) =
    Val (Some 1, Some true, Some (1, 1))) as Hd by (vm_compute; reflexivity).
  rewrite Hs in Hd. assert (next = Some 1) as -> by (injection Hd as -> _ _; reflexivity).
  exists k'. split; [exact Hs|]. split; [exact Hd|exact Hk].
Defined.

(** The room is needed: the counters of a process are 32 bits wide and only grow while
    it is interactive.  When process 1 has been switched to 2^32 - 1 times, the next
    switch to it panics in builds with overflow checks; in release builds the counters
    start again at 0. *)
Definition worn_out : PowerWorld :=
  with_optimizer small_world (Some (set_interactions Responsiveness.new
    {[1 := {| last_interactive_time := 0; interaction_count := 2 ^ 32 - 1; touch_events_handled := 2 ^ 32 - 1;
              average_response_time_us := 0 |}]})).
Theorem switch_count_overflows :
  decision (P:=dev) (schedule_next_process (P:=dev) (duo_kernel (P:=dev) worn_out)) = Panic ∧
  decision (P:=release) (schedule_next_process (P:=release) (duo_kernel (P:=release) worn_out)) =
    Val (Some 1, Some true, Some (0, 0)).
Proof. split; vm_compute; reflexivity. Qed.
