(* ===== verification/PowerBoot.v ===== *)
(** * Power management at boot

    Models [init_power_management] of [kernel/src/boot.rs] and the self-test it
    ends with, over the managers of [CpuScaling], [Idle], [Battery],
    [Responsiveness] and [Policy].  Reads whose results are only printed and that
    cannot fail are left out. *)
From S2P Require Import Prelude CpuScaling Idle Battery Responsiveness Power Process Scheduler Policy.

Section power_boot.
Context {P : Profile}.
Implicit Types w : PowerWorld.

(** ** The self-test, one part per manager *)
Definition test_pid : Z := 100.
Definition test_time : Z := 1000.

Definition test_cpu_scaling (g : option CpuScaling.CpuScalingManager) : outcome (option CpuScaling.CpuScalingManager) :=
  g ← for_each (λ gov g, '(_, g) ← CpuScaling.global_set_governor g gov; Val g)
        [GovPerformance; GovOnDemand; GovPowerSave; GovInteractive] g;
  g ← for_each (λ load g, '(_, g) ← CpuScaling.global_update_load g load; Val g) [10; 30; 50; 70; 90] g;
  Val (CpuScaling.global_notify_process_activity g test_pid ActInteractive).
Definition test_idle_management (g : option Idle.IdleManager) : outcome (option Idle.IdleManager) :=
  '(_, g) ← Idle.global_enter_idle g test_time;
  let g := Idle.global_notify_process_activity g test_pid ActInteractive (test_time + 100) in
  '(_, g) ← Idle.global_exit_idle g (test_time + 200);
  Val g.
Definition test_power_policy w : outcome PowerWorld :=
  w ← for_each (λ s w, '(_, w) ← Policy.global_set_power_state w s; Val w) [StPerformance; StBalanced; StPowerSaver] w;
  let w := Policy.global_classify_process w test_pid ClsInteractive in
  w ← Policy.global_notify_process_activity w test_pid ActInteractive (test_time + 300);
  _ ← Policy.global_get_power_aware_priority w test_pid Normal;
  Val w.
Definition test_touch_events : list TouchEvent :=
  [TouchDown 100 200; TouchMove 105 205; TouchMove 110 210; TouchUp 115 215; Gesture (Swipe SwipeRight)].
Definition test_responsiveness (g : option Responsiveness.ResponsivenessOptimizer) :
    outcome (option Responsiveness.ResponsivenessOptimizer) :=
  g ← for_each (λ '(i, event) g,
        '(_, g) ← Responsiveness.global_handle_touch_event g event (test_time + 400 + i * 10); Val g)
        (zip (seqZ 0 5) test_touch_events) g;
  _ ← Responsiveness.global_get_adaptive_time_slice g test_pid 10 (test_time + 500);
  let g := Responsiveness.global_update_system_metrics g 75 60 (test_time + 600) in
  _ ← Responsiveness.global_get_statistics g;
  Val g.
Definition test_power_management w : outcome PowerWorld :=
  c ← test_cpu_scaling (cpu w);
  let w := with_cpu w c in
  i ← test_idle_management (idle w);
  let w := with_idle w i in
  w ← test_power_policy w;
  o ← test_responsiveness (optimizer w);
  Val (with_optimizer w o).

(** ** Boot: an error of a component is only a warning *)
Definition init_power_management w : outcome PowerWorld :=
  '(_, c) ← CpuScaling.global_init;
  let w := with_cpu w c in
  '(_, i) ← Idle.global_init;
  let w := with_idle w i in
  '(_, b, s) ← Battery.global_init (simulation w);
  let w := with_battery w b s in
  '(_, w) ← Policy.global_init w;
  let '(r, o) := Responsiveness.global_init in
  let w := with_optimizer w o in
  match r with Ok _ => test_power_management w | Err _ => Val w end.

(** Kernel boot does not get past power management: in both build profiles
    its initialisation panics, because initialising the battery monitor does.
    The errors the boot code turns into warnings do not occur. *)
Theorem boot_power_management_panics : init_power_management world_start = Panic.
Proof.
  unfold init_power_management, CpuScaling.global_init. destruct CpuScaling.init_wf as (c & -> & _).
  cbn [mbind outcome_bind]. unfold Idle.global_init.
  destruct (Idle.init_inv 0 0) as (i & -> & _); [lia..|]. cbn [mbind outcome_bind].
  unfold world_start, with_cpu, with_idle. cbn [simulation]. by rewrite Battery.global_init_panics.
Qed.

(** ** What the self-test leaves behind *)

(** A component that is there satisfies [I]. *)
Definition if_up {M} (I : M → Prop) (g : option M) : Prop := match g with Some m => I m | None => True end.

Lemma governor_up g gov : if_up CpuScaling.cpu_wf g →
  ∃ r g', CpuScaling.global_set_governor g gov = Val (r, g') ∧ if_up CpuScaling.cpu_wf g'.
Proof.
  destruct g as [c|]; intros Hg; [|by eexists _, None].
  destruct (CpuScaling.cpu_step_ok c (CpuScaling.OpGovernor gov) Hg I) as (c' & Hc & ?).
  unfold CpuScaling.global_set_governor. cbn [on_global]. cbn [CpuScaling.cpu_step] in Hc. rewrite Hc. by eexists _, (Some c').
Qed.
Lemma test_cpu_val g : if_up CpuScaling.cpu_wf g → ∃ g', test_cpu_scaling g = Val g' ∧ if_up CpuScaling.cpu_wf g'.
Proof.
  intros Hg. unfold test_cpu_scaling.
  destruct (for_each_inv (λ _, if_up CpuScaling.cpu_wf)
    (λ gov g, '(_, g) ← CpuScaling.global_set_governor g gov; Val g)
    [GovPerformance; GovOnDemand; GovPowerSave; GovInteractive] g) as (g1 & -> & Hg1); [|done|].
  { intros dn gov todo g0 _ Hg0. destruct (governor_up g0 gov Hg0) as (r & g' & -> & ?). by exists g'. }
  cbn [mbind outcome_bind].
  destruct (for_each_inv (λ _, if_up CpuScaling.cpu_wf)
    (λ load g, '(_, g) ← CpuScaling.global_update_load g load; Val g) [10; 30; 50; 70; 90] g1) as (g2 & -> & Hg2); [|done|].
  { intros dn load todo g0 Hl Hg0. assert (0 ≤ load < 256) as Hload.
    { assert (load ∈ [10; 30; 50; 70; 90]) as Hin by (rewrite Hl; set_solver). clear -Hin. set_solver by lia. }
    destruct g0 as [c|]; [|by exists None].
    destruct (CpuScaling.update_load_val c load Hg0 Hload) as (c' & Hc & ? & _).
    unfold CpuScaling.global_update_load. cbn [on_global]. rewrite Hc. by exists (Some c'). }
  cbn [mbind outcome_bind]. eexists. split; [done|]. destruct g2 as [c|]; [|done].
  destruct (CpuScaling.cpu_step_ok c (CpuScaling.OpNotify test_pid ActInteractive) Hg2 I) as (c' & [= <-] & ?). done.
Qed.

Lemma exit_idle_processes m now r m' : Idle.exit_idle m now = Val (r, m') → Idle.active_processes m' = Idle.active_processes m.
Proof.
  unfold Idle.exit_idle, Idle.update_idle_stats, Idle.transition_to_state. intros H. inv_val.
  case_bool_decide; [by inv_val|]. inv_val. destruct (Idle.current_state m); inv_val; done.
Qed.
Lemma test_idle_val g : if_up (Idle.idle_inv 2 100) g →
  ∃ g', test_idle_management g = Val g' ∧ (is_Some g' ↔ is_Some g) ∧
    if_up (λ i, Idle.active_processes i !! test_pid = Some ActInteractive) g'.
Proof.
  destruct g as [i|]; intros Hg; [|by exists None].
  unfold test_idle_management, Idle.global_enter_idle, Idle.global_exit_idle. cbn [on_global].
  destruct (Idle.enter_idle_exact i 2 100 test_time Hg) as (i1 & -> & _ & Hi1); [lia|]. cbn [mbind outcome_bind].
  set (i2 := Idle.notify_process_activity i1 test_pid ActInteractive (test_time + 100)).
  assert (Idle.idle_inv 1 100 i2) as Hi2 by (apply Idle.notify_inv; [done|unfold test_time; lia]).
  change (Idle.global_notify_process_activity (Some i1) test_pid ActInteractive (test_time + 100)) with (Some i2).
  assert (∃ r i3, Idle.exit_idle i2 (test_time + 200) = Val (r, i3)) as (r & i3 & E).
  { destruct (decide (Idle.current_state i2 = Idle.C0)) as [E0|Hne].
    - unfold Idle.exit_idle. rewrite bool_decide_true by done. by eexists _, _.
    - destruct (Idle.exit_idle_exact i2 1 100 (test_time + 200) Hi2) as (i3 & -> & _); [lia|done|unfold test_time; lia| |].
      + unfold i2, Idle.notify_process_activity, test_time, saturating_sub. cbn. lia.
      + by eexists _, i3. }
  cbn [on_global]. rewrite E. cbn [mbind outcome_bind]. eexists. split_and!; [done|by split|]. cbn.
  rewrite (exit_idle_processes _ _ _ _ E). unfold i2, Idle.notify_process_activity. cbn. apply lookup_insert_eq.
Qed.

(** Changing the power state: the policy and, if it is there, the CPU follow. *)
Lemma power_state_up w s m : if_up CpuScaling.cpu_wf (cpu w) → policy w = Some m → s ≠ current_state m →
  ∃ r w' m', Policy.global_set_power_state w s = Val (r, w') ∧ policy w' = Some m' ∧
    current_state m' = s ∧ current_policy m' = policy_of s ∧
    if_up (λ c, CpuScaling.cpu_wf c ∧ CpuScaling.current_governor c = governor_of s ∧
                (s = StPowerSaver → CpuScaling.current_frequency c = 800)) (cpu w') ∧
    w' = with_policy (with_cpu w (cpu w')) (Some m').
Proof.
  intros Hc Hm Hs. unfold Policy.global_set_power_state, on_policy. rewrite Hm. unfold set_power_state.
  rewrite bool_decide_false by done. destruct (cpu w) as [c|] eqn:Ec.
  - destruct (CpuScaling.cpu_step_ok c (CpuScaling.OpGovernor (governor_of s)) Hc I) as (c' & Hc' & Hwf').
    cbn [CpuScaling.cpu_step] in Hc'. unfold CpuScaling.global_set_governor. cbn [on_global]. rewrite Hc'.
    cbn [mbind outcome_bind]. eexists _, _, _. split_and!; try done. cbn. split; [done|].
    pose proof Hc as [[Hmin Hmax] _]. unfold CpuScaling.set_governor in Hc'.
    assert (∀ g, CpuScaling.cpu_wf (CpuScaling.set_gov c g)) as Hg by (intros g; destruct Hc; by split).
    destruct s; cbn in Hc'; rewrite ?Hmin, ?Hmax in Hc'; rewrite ?(CpuScaling.set_frequency_val _ _ (Hg _)) in Hc' by lia;
      injection Hc' as <-; by split.
  - cbn. eexists _, _, _. by split_and!.
Qed.
Lemma power_state_reached w s m : if_up CpuScaling.cpu_wf (cpu w) → policy w = Some m →
  ∃ r w' m', Policy.global_set_power_state w s = Val (r, w') ∧ policy w' = Some m' ∧ current_state m' = s ∧
    if_up CpuScaling.cpu_wf (cpu w') ∧ w' = with_policy (with_cpu w (cpu w')) (Some m').
Proof.
  intros Hc Hm. destruct (decide (s = current_state m)) as [->|Hs].
  - unfold Policy.global_set_power_state, on_policy, set_power_state. rewrite Hm, bool_decide_true by done.
    by eexists _, _, m.
  - destruct (power_state_up w s m Hc Hm Hs) as (r & w' & m' & ? & ? & ? & _ & Hup & ?).
    exists r, w', m'. split_and!; try done. destruct (cpu w'); [apply Hup|done].
Qed.

(** The process the test makes up is still known. *)
Definition test_process_known (i : Idle.IdleManager) : Prop := Idle.active_processes i !! test_pid = Some ActInteractive.
Definition policy_tested (m : PowerPolicyManager) : Prop :=
  current_state m = StPowerSaver ∧ current_policy m = PolPowerSaver ∧
  process_classifications m !! test_pid = Some ClsInteractive ∧
  interactive_boost_active m = true ∧ boost_end_time m = 1800.

Lemma test_policy_val w m : if_up CpuScaling.cpu_wf (cpu w) → policy w = Some m →
  ∃ w' m', test_power_policy w = Val w' ∧ policy w' = Some m' ∧ policy_tested m' ∧
    if_up (λ c, CpuScaling.current_governor c = GovPowerSave ∧ CpuScaling.current_frequency c = 800) (cpu w') ∧
    (if_up test_process_known (idle w) → if_up test_process_known (idle w')) ∧ optimizer w' = optimizer w.
Proof.
  intros Hc Hm. unfold test_power_policy. cbn [for_each].
  destruct (power_state_reached w StPerformance m Hc Hm) as (r1 & w1 & m1 & -> & Hm1 & _ & Hc1 & Hw1).
  cbn [mbind outcome_bind].
  destruct (power_state_reached w1 StBalanced m1 Hc1 Hm1) as (r2 & w2 & m2 & -> & Hm2 & Hs2 & Hc2 & Hw2).
  cbn [mbind outcome_bind].
  destruct (power_state_up w2 StPowerSaver m2 Hc2 Hm2) as (r3 & w3 & m3 & -> & Hm3 & Hs3 & Hp3 & Hc3 & Hw3);
    [by rewrite Hs2|]. cbn [mbind outcome_bind].
  unfold Policy.global_classify_process. rewrite Hm3. unfold Policy.global_notify_process_activity.
  cbn [policy with_policy]. unfold Policy.notify_process_activity, Policy.activate_interactive_boost.
  rewrite bool_decide_true by done. unfold test_time. rewrite uadd_val by lia. cbn [mbind outcome_bind].
  unfold Policy.global_get_power_aware_priority. cbn [policy with_policy].
  rewrite priority_val. cbn [mbind outcome_bind]. eexists _, _. split; [done|]. split; [done|]. split_and!.
  - cbn. split_and!; try done. apply lookup_insert_eq.
  - cbn. destruct (cpu w3) as [c|]; [|done]. cbn. destruct Hc3 as (_ & ? & ?).
    unfold CpuScaling.notify_process_activity. rewrite bool_decide_true by done. cbn. auto.
  - cbn. rewrite Hw3, Hw2, Hw1. cbn. destruct (idle w) as [i|]; [|done]. cbn. intros _. unfold test_process_known. cbn.
    apply lookup_insert_eq.
  - cbn. by rewrite Hw3, Hw2, Hw1.
Qed.

(** A new optimizer after the test: nobody is interactive, the metrics are the
    invented ones and five touch events wait. *)
Lemma test_responsiveness_new : ∃ o, test_responsiveness (Some Responsiveness.new) = Val (Some o) ∧
  Responsiveness.system_load_percent o = 75 ∧ Responsiveness.memory_usage_percent o = 60 ∧
  Responsiveness.touch_input_queue o = zip test_touch_events [1400; 1410; 1420; 1430; 1440].
Proof. destruct P; (eexists; split; [vm_compute; reflexivity|]); done. Qed.

(** The power self-test changes the system it tests.  Run as boot runs it, right
    after the optimizer is created, with the other managers initialised or not and
    in any well-formed state, it does not panic.  It leaves the policy in the
    power-saving state, the CPU on the power-saving governor at its lowest frequency,
    invented load figures and five touch events in the optimizer, and the process it
    made up registered as interactive: the idle manager never again goes deeper
    than C2. *)
Theorem power_selftest_leaves_traces w m :
  policy w = Some m → if_up CpuScaling.cpu_wf (cpu w) → if_up (Idle.idle_inv 2 100) (idle w) →
  optimizer w = Some Responsiveness.new →
  ∃ w' m' o', test_power_management w = Val w' ∧ policy w' = Some m' ∧ policy_tested m' ∧
    if_up (λ c, CpuScaling.current_governor c = GovPowerSave ∧ CpuScaling.current_frequency c = 800) (cpu w') ∧
    if_up (λ i, ∀ d, Idle.state_index (Idle.chosen_state i d) ≤ 2) (idle w') ∧
    optimizer w' = Some o' ∧ Responsiveness.system_load_percent o' = 75 ∧
    Responsiveness.touch_input_queue o' = zip test_touch_events [1400; 1410; 1420; 1430; 1440].
Proof.
  intros Hm Hc Hi Ho. unfold test_power_management.
  destruct (test_cpu_val (cpu w) Hc) as (c & -> & Hc'). cbn [mbind outcome_bind idle with_cpu].
  destruct (test_idle_val (idle w) Hi) as (i & -> & _ & Hi'). cbn [mbind outcome_bind].
  destruct (test_policy_val (with_idle (with_cpu w c) i) m) as (w' & m' & -> & Hm' & Hp & Hcpu & Hidle & Hopt); [done..|].
  cbn [mbind outcome_bind]. rewrite Hopt. cbn [optimizer with_idle with_cpu]. rewrite Ho.
  destruct test_responsiveness_new as (o & -> & Hl & _ & Hq). cbn [mbind outcome_bind].
  eexists _, m', o. split; [done|]. cbn [policy cpu idle optimizer with_optimizer]. split_and!; try done.
  specialize (Hidle Hi'). destruct (idle w') as [i'|]; [|done]. cbn in *. intros d.
  by apply (Idle.interactive_keeps_shallow i' d test_pid).
Qed.
End power_boot.

Lemma power_selftest_leaves_traces_witness : ∃ i w' m',
  test_power_management (P:=dev) (with_optimizer (with_idle small_world (Some i)) (Some Responsiveness.new)) = Val w' ∧
  policy w' = Some m' ∧ current_state m' = StPowerSaver.
Proof.
  destruct (Idle.init_inv 2 100) as (i & _ & Hi); [lia..|]. exists i.
  destruct (power_selftest_leaves_traces (P:=dev)
    (with_optimizer (with_idle small_world (Some i)) (Some Responsiveness.new)) Policy.new)
    as (w' & m' & o' & ? & ? & (? & _) & _); [done|done|done|done|].
  by exists w', m'.
Defined.
