(* ===== verification/Entry.v ===== *)
(** * The entry points of the kernel

    Models the rest of [kernel/src/main.rs]: the multiboot2 header and [_start] for
    x86-64 and for ARM64, over the complete boot sequences of [kernel/src/boot.rs]
    for both.
    What the [multiboot2] crate makes of the address it is given is an argument.
    What [init_kernel] prints is left out. *)
From S2P Require Import Prelude Text Bytes Platform X86_64 AArch64 Physical Heap Vmm Descriptors Swap SwapFile Swapper SwapConfig.
From S2P Require Import Process Ipc Scheduler Kernel Policy PowerBoot Vga Console BootParams Boot SelfTest.
Local Open Scope kosh_scope.

(** ** The multiboot2 header *)
Record Multiboot2Header := {
  magic : Z; architecture : Z; header_length : Z; checksum : Z;
  end_type : Z; end_flags : Z; end_size : Z;
}.
Definition wrapping_sub32 (a b : Z) : Z := (a - b) mod 2 ^ 32.
Definition MULTIBOOT2_HEADER : Multiboot2Header :=
  let MAGIC := 0xE85250D6 in
  let ARCH := 0 in
  let HEADER_LEN := 16 in
  {| magic := MAGIC; architecture := ARCH; header_length := HEADER_LEN;
     checksum := wrapping_sub32 (wrapping_sub32 (wrapping_sub32 0 MAGIC) ARCH) HEADER_LEN;
     end_type := 0; end_flags := 0; end_size := 8 |}.
(** The loader's test: the first four words add up to 0. *)
Example header_checksum_accepted :
  (magic MULTIBOOT2_HEADER + architecture MULTIBOOT2_HEADER + header_length MULTIBOOT2_HEADER +
   checksum MULTIBOOT2_HEADER) mod 2 ^ 32 = 0.
Proof. reflexivity. Qed.

Section entry.
Context {P : Profile} {X : X86_64} {T : DescriptorTables} {L : Layout} {S : Type} `{SerialPort S}.
Implicit Types c : Consoles (S:=S).

(** ** The boot sequences *)

(** All globals of the kernel.  [f1] and [f2] are the addresses of the functions
    the context test starts threads with. *)
Record System := {
  sys_boot : BootState;
  sys_swap : SwapGlobals SwapBox;
  sys_kernel : Kernel (W:=kernel_power_policy);
}.
Definition swap_image : SwapGlobals SwapBox := {| page_swapper := None; swap_manager := None |}.
#[local] Existing Instance kernel_power_policy.
#[local] Existing Instance kernel_power_laws.

(** After the heap. *)
Definition later_stages (f1 f2 : Z) (b : BootState) : outcome System :=
  '(sw, h) ← boot_swap_management (bs_heap b) swap_image;
  k ← boot_services f1 f2 kernel_image;
  w ← init_power_management (power k);
  Val {| sys_boot := set_heap b (bs_physical b) h; sys_swap := sw; sys_kernel := set_power k w |}.
(** ARM64: the processor and the physical memory have no initialisation yet, and
    there are no swap and no system-call stages. *)
Definition later_stages_arm64 (f1 f2 : Z) (b : BootState) : outcome System :=
  k ← boot_process_management f1 f2 kernel_image;
  k ← boot_ipc_system k;
  w ← init_power_management (power k);
  Val {| sys_boot := b; sys_swap := swap_image; sys_kernel := set_power k w |}.
Definition init_cpu_state_arm64 (b : BootState) : BootState := b.
Definition init_physical_memory_arm64 (b : BootState) : BootState := b.
Definition init_kernel_arm64 (f1 f2 : Z) (b : BootState) : outcome System :=
  let b := init_cpu_state_arm64 b in
  let b := init_physical_memory_arm64 b in
  b ← boot_init_virtual_memory b;
  b ← boot_init_heap_allocator b;
  later_stages_arm64 f1 f2 b.

(** ** The entry points; both boot sequences end with the console self-test *)
Definition start_kernel (f1 f2 : Z) (boot_info : option (BootInfo * option (list MemoryArea))) (m : Machine) c :
    outcome (System * Consoles (S:=S)) :=
  c ← emit [Serial (txt "Kosh Kernel Starting..."); Screen (txt "Kosh Kernel Starting...")] c;
  match boot_info with
  | Some (info, memory_map) =>
      c ← emit [Serial (txt "Multiboot2 info parsed successfully")] c;
      c ← emit (parse_boot_parameters info) c;
      s ← init_kernel (later_stages f1 f2) memory_map (boot_image m);
      c ← emit test_console_output c;
      c ← emit [Screen (txt "Kosh kernel initialized successfully!")] c;
      Val (s, c)
  | None => Panic
  end.
(** [main::init_platform_abstraction]. *)
Definition main_init_platform_abstraction (g : PlatformGlobals) : outcome PlatformGlobals :=
  let '(r, g) := AArch64.init g in
  match r with Ok _ => Val g | Err _ => Panic end.
Definition start_kernel_arm64 (f1 f2 : Z) (m : Machine) c : outcome (System * Consoles (S:=S)) :=
  c ← emit [Serial (txt "Kosh Kernel Starting on ARM64..."); Screen (txt "Kosh Kernel Starting on ARM64...")] c;
  let b := boot_image m in
  g ← main_init_platform_abstraction (bs_platform b);
  s ← init_kernel_arm64 f1 f2 {| bs_machine := bs_machine b; bs_segments := bs_segments b; bs_platform := g; bs_physical := bs_physical b;
                                 bs_vmm := bs_vmm b; bs_heap := bs_heap b |};
  c ← emit test_console_output c;
  c ← emit [Screen (txt "Kosh kernel initialized successfully on ARM64!")] c;
  Val (s, c).

Lemma write_cell_ends b row col x : ends (write_cell b row col x).
Proof. unfold write_cell, index_set. ends_tac. Qed.
Lemma scroll_up_ends b : ends (scroll_up b).
Proof.
  apply ends_for_each. intros row b1. apply ends_for_each. intros col b2. unfold read_cell.
  apply ends_bind; [ends_tac|]. intros. apply write_cell_ends.
Qed.
Lemma fill_row_ends b row color : ends (fill_row b row color).
Proof. apply ends_for_each. intros. apply write_cell_ends. Qed.
Lemma new_line_ends w : ends (writer_new_line w).
Proof.
  unfold writer_new_line, writer_clear_row. apply ends_bind; [apply scroll_up_ends|]. intros b.
  apply ends_bind; [|done]. apply ends_bind; [apply fill_row_ends|done].
Qed.
Lemma write_byte_ends w byte : ends (writer_write_byte w byte).
Proof.
  unfold writer_write_byte. destruct (_ =? _); [apply new_line_ends|].
  apply ends_bind; [destruct (_ <=? _); [apply new_line_ends|done]|]. intros w'.
  apply ends_bind; [apply write_cell_ends|done].
Qed.
Lemma emit_ends ls c : ends (emit ls c).
Proof.
  apply ends_for_each. intros [s|s] c'; cbn [emit_line].
  - apply ends_bind; [|done]. apply ends_for_each. intros x p. by destruct (serial_write_str p x).
  - apply ends_bind; [|done]. apply ends_for_each. intros x w. apply ends_for_each. intros. apply write_byte_ends.
Qed.
(** The stages after the heap do not complete either: the swap self-test asks for
    more than the heap ever gives, and power management panics. *)
Lemma later_stages_panic f1 f2 b :
  0 ≤ header_size < 2 ^ 62 → 0 ≤ capability_size →
  later_stages f1 f2 b = Panic ∧ later_stages_arm64 f1 f2 b = Panic.
Proof.
  intros Hh Hc. split.
  - unfold later_stages. by rewrite swap_selftest_out_of_memory.
  - unfold later_stages_arm64.
    destruct (process_stage f1 f2) as (k1 & t & s & -> & Ht & Hwf & Hcp & Hnx & Hs & Hr & Hw & Hi & Hal & Hpow).
    cbn [mbind outcome_bind].
    destruct (ipc_stage Hh Hc k1 t s Ht Hwf (proj2 (Hal 1) ltac:(auto)) (proj2 (Hal 2) ltac:(auto)) Hcp Hnx Hs Hr Hw Hi)
      as (k2 & σ & -> & _ & _ & _ & Hp & _).
    cbn [mbind outcome_bind]. rewrite Hp, (Hpow (λ w, w = world_start) image_notified eq_refl).
    by rewrite boot_power_management_panics.
Qed.

(** C16: The kernel never comes up.  Whatever the boot loader passes and whatever the
    machine and the consoles are, both entry points end in a panic, in both build
    profiles: the message that the kernel was initialised is never printed.  The
    cause is not only the missing heap: from every state of memory, heap and
    platform, the stages that follow the heap panic as well. *)
Theorem kernel_entry_panics f1 f2 boot_info m c b :
  0 ≤ header_size < 2 ^ 62 → 0 ≤ capability_size →
  start_kernel f1 f2 boot_info m c = Panic ∧ start_kernel_arm64 f1 f2 m c = Panic ∧
  later_stages f1 f2 b = Panic ∧ later_stages_arm64 f1 f2 b = Panic.
Proof.
  intros Hh Hc. split; [|split; [|by apply later_stages_panic]].
  - unfold start_kernel. apply ends_then_panic; [apply emit_ends|]. intros c1.
    destruct boot_info as [[info map]|]; [|done].
    apply ends_then_panic; [apply emit_ends|]. intros c2.
    apply ends_then_panic; [apply emit_ends|]. intros c3. by rewrite init_kernel_always_panics.
  - unfold start_kernel_arm64. apply ends_then_panic; [apply emit_ends|]. intros c1.
    apply ends_then_panic; [unfold main_init_platform_abstraction; ends_tac|]. intros g.
    unfold init_kernel_arm64, init_cpu_state_arm64, init_physical_memory_arm64. by rewrite no_vectors_yet.
Qed.
End entry.

(** A machine with paging off, started by a loader that passes no memory map. *)
Definition reset_machine : Machine :=
  {| cr0 := 0; cr3 := 0; rflags := 2; mem := λ _, 0; in_port := λ _ _, 0; cpuid_vendor := None; trace := [] |}.
Definition no_tags : BootInfo :=
  {| command_line_tag := None; boot_loader_name_tag := None; elf_sections := None; framebuffer_tag := None |}.
Lemma kernel_entry_panics_witness :
  start_kernel (P:=release) (X:=soft_mmu) (T:=demo_tables 0x200000) (L:=demo_layout) 0x1000 0x2000 (Some (no_tags, None)) reset_machine cleared = Panic.
Proof.
  assert (0 ≤ header_size (Layout := demo_layout) < 2 ^ 62) as Hh by (simpl; lia).
  assert (0 ≤ capability_size (Layout := demo_layout)) as Hc by (simpl; lia).
  exact (proj1 (kernel_entry_panics (P:=release) (X:=soft_mmu) (T:=demo_tables 0x200000) (L:=demo_layout) 0x1000 0x2000 (Some (no_tags, None))
    reset_machine cleared (boot_image reset_machine) Hh Hc)).
Defined.
