(* ===== verification/Keyboard.v ===== *)
(** * The keyboard driver

    Models [drivers/keyboard/src/lib.rs]: scan codes to key codes to
    characters, the modifier state, the bounded event queue, the requests of
    the driver interface and the global driver.

    State: [PS2KeyboardDriver].  A [char] is its code point, a flag set its
    bits.  The port accesses of the source are placeholders that read nothing;
    they are modelled as they are, and scan codes enter through the control
    request 0x03 or [process_scancode]. *)
From S2P Require Import Prelude DriverKit.

(** ** Data *)
Definition PS2_DATA_PORT : Z := 0x60.
Definition PS2_COMMAND_PORT : Z := 0x64.
(** [PS2Status::OUTPUT_BUFFER_FULL]. *)
Definition OUTPUT_BUFFER_FULL : Z := 2 ^ 0.

Inductive KeyCode :=
  | KeyA | KeyB | KeyC | KeyD | KeyE | KeyF | KeyG | KeyH | KeyI | KeyJ | KeyK | KeyL | KeyM | KeyN | KeyO | KeyP | KeyQ | KeyR | KeyS | KeyT | KeyU | KeyV | KeyW | KeyX | KeyY | KeyZ
  | Key0 | Key1 | Key2 | Key3 | Key4 | Key5 | Key6 | Key7 | Key8 | Key9
  | F1 | F2 | F3 | F4 | F5 | F6 | F7 | F8 | F9 | F10 | F11 | F12
  | Escape | Backspace | Tab | Enter | Space | LeftShift | RightShift | LeftCtrl | LeftAlt | CapsLock
  | ArrowUp | ArrowDown | ArrowLeft | ArrowRight
  | Delete | Home | End_ | PageUp | PageDown | Insert
  | Unknown.
#[export] Instance KeyCode_eq_dec : EqDecision KeyCode.
Proof. solve_decision. Defined.

(** The letters [A] to [Z] of the source are [KeyA] to [KeyZ].

    The discriminants of the [repr(u8)] enum: [key_code as u8]. *)
Definition key_code_u8 (k : KeyCode) : Z :=
  match k with
  | KeyA => 0x1E | KeyB => 0x30 | KeyC => 0x2E | KeyD => 0x20 | KeyE => 0x12 | KeyF => 0x21 | KeyG => 0x22
  | KeyH => 0x23 | KeyI => 0x17 | KeyJ => 0x24 | KeyK => 0x25 | KeyL => 0x26 | KeyM => 0x32 | KeyN => 0x31
  | KeyO => 0x18 | KeyP => 0x19 | KeyQ => 0x10 | KeyR => 0x13 | KeyS => 0x1F | KeyT => 0x14 | KeyU => 0x16
  | KeyV => 0x2F | KeyW => 0x11 | KeyX => 0x2D | KeyY => 0x15 | KeyZ => 0x2C
  | Key0 => 0x0B | Key1 => 0x02 | Key2 => 0x03 | Key3 => 0x04 | Key4 => 0x05
  | Key5 => 0x06 | Key6 => 0x07 | Key7 => 0x08 | Key8 => 0x09 | Key9 => 0x0A
  | F1 => 0x3B | F2 => 0x3C | F3 => 0x3D | F4 => 0x3E | F5 => 0x3F | F6 => 0x40
  | F7 => 0x41 | F8 => 0x42 | F9 => 0x43 | F10 => 0x44 | F11 => 0x57 | F12 => 0x58
  | Escape => 0x01 | Backspace => 0x0E | Tab => 0x0F | Enter => 0x1C | Space => 0x39
  | LeftShift => 0x2A | RightShift => 0x36 | LeftCtrl => 0x1D | LeftAlt => 0x38 | CapsLock => 0x3A
  | ArrowUp => 0x48 | ArrowDown => 0x50 | ArrowLeft => 0x4B | ArrowRight => 0x4D
  | Delete => 0x53 | Home => 0x47 | End_ => 0x4F | PageUp => 0x49 | PageDown => 0x51 | Insert => 0x52
  | Unknown => 0xFF
  end.

Inductive KeyEventType := KeyPress | KeyRelease.
#[export] Instance KeyEventType_eq_dec : EqDecision KeyEventType.
Proof. solve_decision. Defined.
Definition event_type_u8 (t : KeyEventType) : Z := match t with KeyPress => 0 | KeyRelease => 1 end.

(** [KeyModifiers]. *)
Definition SHIFT : Z := 2 ^ 0.
Definition CTRL : Z := 2 ^ 1.
Definition ALT : Z := 2 ^ 2.
Definition CAPS_LOCK : Z := 2 ^ 3.
Definition contains (m f : Z) : bool := Z.land m f =? f.
Definition flag_insert (m f : Z) : Z := Z.lor m f.
Definition flag_remove (m f : Z) : Z := Z.ldiff m f.
Definition flag_toggle (m f : Z) : Z := Z.lxor m f.

Record InputEvent := {
  event_type : KeyEventType;
  key_code : KeyCode;
  scancode : Z;
  event_modifiers : Z;
  ascii_char : option Z;
  event_timestamp : Z;
}.
#[export] Instance InputEvent_eq_dec : EqDecision InputEvent.
Proof. solve_decision. Defined.

Record PS2KeyboardDriver := {
  status : DriverStatus;
  event_queue : list InputEvent;
  modifiers : Z;
  extended_scancode : bool;
  max_queue_size : Z;
}.
Definition new : PS2KeyboardDriver :=
  {| status := Uninitialized; event_queue := []; modifiers := 0; extended_scancode := false;
     max_queue_size := 256 |}.
Implicit Types d : PS2KeyboardDriver.

Definition set_status d s : PS2KeyboardDriver :=
  {| status := s; event_queue := event_queue d; modifiers := modifiers d;
     extended_scancode := extended_scancode d; max_queue_size := max_queue_size d |}.
Definition set_events d q : PS2KeyboardDriver :=
  {| status := status d; event_queue := q; modifiers := modifiers d;
     extended_scancode := extended_scancode d; max_queue_size := max_queue_size d |}.
Definition set_modifiers d m : PS2KeyboardDriver :=
  {| status := status d; event_queue := event_queue d; modifiers := m;
     extended_scancode := extended_scancode d; max_queue_size := max_queue_size d |}.
Definition set_extended d b : PS2KeyboardDriver :=
  {| status := status d; event_queue := event_queue d; modifiers := modifiers d;
     extended_scancode := b; max_queue_size := max_queue_size d |}.
Definition set_max_queue_size d n : PS2KeyboardDriver :=
  {| status := status d; event_queue := event_queue d; modifiers := modifiers d;
     extended_scancode := extended_scancode d; max_queue_size := n |}.

(** ** Ports: placeholders in the source *)
Definition read_data d : Z := 0.
Definition read_status d : Z := 0.

(** ** Decoding *)
Definition plain_arms : list (Z * KeyCode) :=
  [ (0x1E, KeyA); (0x30, KeyB); (0x2E, KeyC); (0x20, KeyD); (0x12, KeyE); (0x21, KeyF); (0x22, KeyG); (0x23, KeyH);
    (0x17, KeyI); (0x24, KeyJ); (0x25, KeyK); (0x26, KeyL); (0x32, KeyM); (0x31, KeyN); (0x18, KeyO); (0x19, KeyP);
    (0x10, KeyQ); (0x13, KeyR); (0x1F, KeyS); (0x14, KeyT); (0x16, KeyU); (0x2F, KeyV); (0x11, KeyW); (0x2D, KeyX);
    (0x15, KeyY); (0x2C, KeyZ);
    (0x0B, Key0); (0x02, Key1); (0x03, Key2); (0x04, Key3); (0x05, Key4); (0x06, Key5);
    (0x07, Key6); (0x08, Key7); (0x09, Key8); (0x0A, Key9);
    (0x3B, F1); (0x3C, F2); (0x3D, F3); (0x3E, F4); (0x3F, F5); (0x40, F6); (0x41, F7);
    (0x42, F8); (0x43, F9); (0x44, F10); (0x57, F11); (0x58, F12);
    (0x01, Escape); (0x0E, Backspace); (0x0F, Tab); (0x1C, Enter); (0x39, Space);
    (0x2A, LeftShift); (0x36, RightShift); (0x1D, LeftCtrl); (0x38, LeftAlt); (0x3A, CapsLock) ].
(** The arms guarded by [if self.extended_scancode]. *)
Definition extended_arms : list (Z * KeyCode) :=
  [ (0x48, ArrowUp); (0x50, ArrowDown); (0x4B, ArrowLeft); (0x4D, ArrowRight); (0x53, Delete);
    (0x47, Home); (0x4F, End_); (0x49, PageUp); (0x51, PageDown); (0x52, Insert) ].
Definition scancode_to_keycode d (sc : Z) : KeyCode :=
  match_arms plain_arms sc
    (if extended_scancode d then match_arms extended_arms sc Unknown else Unknown).

(** [base_char] of the letter arms. *)
Definition letter (k : KeyCode) : option Z :=
  match k with
  | KeyA => Some 97 | KeyB => Some 98 | KeyC => Some 99 | KeyD => Some 100 | KeyE => Some 101 | KeyF => Some 102
  | KeyG => Some 103 | KeyH => Some 104 | KeyI => Some 105 | KeyJ => Some 106 | KeyK => Some 107 | KeyL => Some 108
  | KeyM => Some 109 | KeyN => Some 110 | KeyO => Some 111 | KeyP => Some 112 | KeyQ => Some 113 | KeyR => Some 114
  | KeyS => Some 115 | KeyT => Some 116 | KeyU => Some 117 | KeyV => Some 118 | KeyW => Some 119 | KeyX => Some 120
  | KeyY => Some 121 | KeyZ => Some 122
  | _ => None
  end.
(** [char::to_ascii_uppercase]. *)
Definition to_ascii_uppercase (c : Z) : Z := if (97 <=? c) && (c <=? 122) then c - 32 else c.
Definition keycode_to_ascii d (k : KeyCode) : option Z :=
  let shift_pressed := contains (modifiers d) SHIFT in
  let caps_lock := contains (modifiers d) CAPS_LOCK in
  match letter k with
  | Some base_char =>
      if xorb shift_pressed caps_lock then Some (to_ascii_uppercase base_char) else Some base_char
  | None =>
      match k with
      | Key0 => Some (if shift_pressed then 41 else 48)
      | Key1 => Some (if shift_pressed then 33 else 49)
      | Key2 => Some (if shift_pressed then 64 else 50)
      | Key3 => Some (if shift_pressed then 35 else 51)
      | Key4 => Some (if shift_pressed then 36 else 52)
      | Key5 => Some (if shift_pressed then 37 else 53)
      | Key6 => Some (if shift_pressed then 94 else 54)
      | Key7 => Some (if shift_pressed then 38 else 55)
      | Key8 => Some (if shift_pressed then 42 else 56)
      | Key9 => Some (if shift_pressed then 40 else 57)
      | Space => Some 32
      | Tab => Some 9
      | Enter => Some 10
      | Backspace => Some 8
      | _ => None
      end
  end.

Definition update_modifiers d (k : KeyCode) (t : KeyEventType) : PS2KeyboardDriver :=
  match k, t with
  | (LeftShift | RightShift), KeyPress => set_modifiers d (flag_insert (modifiers d) SHIFT)
  | (LeftShift | RightShift), KeyRelease => set_modifiers d (flag_remove (modifiers d) SHIFT)
  | LeftCtrl, KeyPress => set_modifiers d (flag_insert (modifiers d) CTRL)
  | LeftCtrl, KeyRelease => set_modifiers d (flag_remove (modifiers d) CTRL)
  | LeftAlt, KeyPress => set_modifiers d (flag_insert (modifiers d) ALT)
  | LeftAlt, KeyRelease => set_modifiers d (flag_remove (modifiers d) ALT)
  | CapsLock, KeyPress => set_modifiers d (flag_toggle (modifiers d) CAPS_LOCK)
  | _, _ => d
  end.

(** ** The event queue

    [while len >= max { pop_front() }]: each round but the last drops an
    event, so there are at most as many rounds as events and one more. *)
Definition queue_step d : outcome (flow PS2KeyboardDriver PS2KeyboardDriver) :=
  if max_queue_size d <=? len (event_queue d)
  then Val (Next (set_events d (tail (event_queue d)))) else Val (Return d).
Definition queue_event d (e : InputEvent) : outcome PS2KeyboardDriver :=
  d ← loop_fuel (S (length (event_queue d))) queue_step d;
  Val (set_events d (event_queue d ++ [e])).

Definition process_scancode d (sc : Z) : outcome PS2KeyboardDriver :=
  if sc =? 0xE0 then Val (set_extended d true)
  else
    let is_release := negb (Z.land sc 0x80 =? 0) in
    let base_scancode := Z.land sc 0x7F in
    let t := if is_release then KeyRelease else KeyPress in
    let k := scancode_to_keycode d base_scancode in
    let d := update_modifiers d k t in
    let ascii := if bool_decide (t = KeyPress) then keycode_to_ascii d k else None in
    let event := {| event_type := t; key_code := k; scancode := base_scancode;
                    event_modifiers := modifiers d; ascii_char := ascii; event_timestamp := 0 |} in
    d ← queue_event d event;
    Val (set_extended d false).

Definition get_next_event d : option InputEvent * PS2KeyboardDriver :=
  match event_queue d with
  | [] => (None, d)
  | e :: q => (Some e, set_events d q)
  end.
Definition has_events d : bool := negb (is_empty (event_queue d)).
Definition event_count d : Z := len (event_queue d).
Definition clear_events d : PS2KeyboardDriver := set_events d [].
Definition handle_interrupt d : outcome PS2KeyboardDriver :=
  if contains (read_status d) OUTPUT_BUFFER_FULL then process_scancode d (read_data d) else Val d.
Definition initialize_controller d : result unit DriverError := Ok ().

(** ** The driver interface *)
Definition init (capabilities : list Capability) d : outcome (result unit DriverError * PS2KeyboardDriver) :=
  let d := set_status d Initializing in
  match initialize_controller d with
  | Err e => Val (Err e, d)
  | Ok _ =>
      let d := clear_events d in
      let d := set_extended (set_modifiers d 0) false in
      Val (Ok (), set_status d Ready)
  end.

Definition event_bytes (e : InputEvent) : list Z :=
  [event_type_u8 (event_type e); key_code_u8 (key_code e); scancode e; event_modifiers e] ++
  match ascii_char e with Some c => [1; c mod 2 ^ 8] | None => [0; 0] end.
(** [while let Some(event) = self.get_next_event()]. *)
Definition read_step (s : PS2KeyboardDriver * list Z) :
    outcome (flow (PS2KeyboardDriver * list Z) (PS2KeyboardDriver * list Z)) :=
  let '(d, event_data) := s in
  match get_next_event d with
  | (Some e, d) => Val (Next (d, event_data ++ event_bytes e))
  | (None, d) => Val (Return (d, event_data))
  end.
(** [while len > max { pop_front() }]. *)
Definition trim_step d : outcome (flow PS2KeyboardDriver PS2KeyboardDriver) :=
  if max_queue_size d <? len (event_queue d)
  then Val (Next (set_events d (tail (event_queue d)))) else Val (Return d).

Definition get_driver_info d : DriverInfo :=
  {| name := "PS/2 Keyboard Driver"; version := "1.0.0"; vendor := "Kosh OS";
     description := "PS/2 keyboard driver with scancode translation and input event queuing";
     driver_type := Input;
     hardware_ids := [ {| vendor_id := 0x0000; device_id := 0x0001;
                          subsystem_vendor_id := None; subsystem_device_id := None |} ] |}.

Definition handle_control d (command : Z) (data : list Z) :
    outcome (result DriverResponse DriverError * PS2KeyboardDriver) :=
  match_arms
    [ (0x01, Val (Ok Success, clear_events d));
      (0x02,
        if is_empty data then Val (Err InvalidRequest, d)
        else new_size ← index data 0;
             if (0 <? new_size) && (new_size <=? 1024)
             then let d := set_max_queue_size d new_size in
                  d ← loop_fuel (S (length (event_queue d))) trim_step d;
                  Val (Ok Success, d)
             else Val (Err InvalidRequest, d));
      (0x03,
        if is_empty data then Val (Err InvalidRequest, d)
        else sc ← index data 0; d ← process_scancode d sc; Val (Ok Success, d)) ]
    command (Val (Err InvalidRequest, d)).

Definition handle_request (request : DriverRequest) d :
    outcome (result DriverResponse DriverError * PS2KeyboardDriver) :=
  match request with
  | Initialize =>
      '(r, d) ← init [] d;
      match r with Ok _ => Val (Ok Success, d) | Err e => Val (Err e, d) end
  | Read _ _ =>
      '(d, event_data) ← loop_fuel (S (length (event_queue d))) read_step (d, []);
      Val (Ok (Data event_data), d)
  | Control command data => handle_control d command data
  | Query QStatus => Val (Ok (Status (status d)), d)
  | Query QHardwareInfo => Val (Ok (Info (get_driver_info d)), d)
  | Query QStatistics =>
      Val (Ok (Data [event_count d mod 2 ^ 8; max_queue_size d mod 2 ^ 8; modifiers d]), d)
  | _ => Val (Err InvalidRequest, d)
  end.

Definition cleanup d : outcome (result unit DriverError * PS2KeyboardDriver) :=
  let d := set_status d Stopping in
  let d := clear_events d in
  let d := set_modifiers d 0 in
  Val (Ok (), set_status d Uninitialized).

Definition get_required_capabilities d : list DriverCapabilityType :=
  [Hardware (IoPort PS2_DATA_PORT PS2_COMMAND_PORT); Hardware (Interrupt 1); HardwareAccess].
Definition get_provided_capabilities d : list DriverCapabilityType :=
  [CapCustom "keyboard_input"; CapCustom "input_events"].

Definition handle_power_event (e : PowerEvent) d : outcome (result unit DriverError * PS2KeyboardDriver) :=
  match e with
  | Suspend => Val (Ok (), clear_events (set_status d Suspended))
  | Resume => let d := set_status d Ready in Val (initialize_controller d, d)
  | PowerDown => cleanup d
  | _ => Val (Ok (), d)
  end.
Definition get_status d : DriverStatus := status d.

#[export] Instance keyboard_driver : KoshDriver PS2KeyboardDriver := {|
  kd_init := init;
  kd_handle_request := handle_request;
  kd_cleanup := cleanup;
  kd_required_capabilities := get_required_capabilities;
  kd_provided_capabilities := get_provided_capabilities;
  kd_driver_info := get_driver_info;
  kd_handle_power_event := handle_power_event;
  kd_status := get_status;
|}.

(** ** The global driver and the factory *)
Definition init_keyboard_driver (g : option PS2KeyboardDriver) :
    outcome (result unit DriverError * option PS2KeyboardDriver) :=
  '(r, driver) ← init [] new;
  match r with
  | Ok _ => Val (Ok (), Some driver)
  | Err e => Val (Err e, g)
  end.
Definition keyboard_get_event (g : option PS2KeyboardDriver) :
    option InputEvent * option PS2KeyboardDriver :=
  match g with
  | Some d => let '(e, d) := get_next_event d in (e, Some d)
  | None => (None, g)
  end.
Definition keyboard_has_events (g : option PS2KeyboardDriver) : bool :=
  match g with Some d => has_events d | None => false end.
Definition keyboard_interrupt_handler (g : option PS2KeyboardDriver) :
    outcome (option PS2KeyboardDriver) :=
  match g with Some d => d ← handle_interrupt d; Val (Some d) | None => Val g end.
Definition create_driver (hardware_id : HardwareId) : result PS2KeyboardDriver DriverError := Ok new.
Definition can_handle (hardware_id : HardwareId) : bool :=
  (vendor_id hardware_id =? 0x0000) && (device_id hardware_id =? 0x0001).
Definition get_driver_type : DriverType := Input.
Definition register_keyboard_driver (g : option PS2KeyboardDriver) :
    outcome (result unit DriverError * option PS2KeyboardDriver) := init_keyboard_driver g.

(** ** Reference definitions *)

(** The last [n] elements of a list. *)
Definition latest {A} (n : Z) (l : list A) : list A := drop (length l - Z.to_nat n) l.

(** What one scan code does in a modifier and prefix state: the next state and
    the events it stands for. *)
Definition decode_key (m : Z) (ext : bool) (sc : Z) : Z * bool * list InputEvent :=
  if sc =? 0xE0 then (m, true, [])
  else
    let d := set_extended (set_modifiers new m) ext in
    let t := if Z.land sc 0x80 =? 0 then KeyPress else KeyRelease in
    let k := scancode_to_keycode d (Z.land sc 0x7F) in
    let d := update_modifiers d k t in
    (modifiers d, false,
     [ {| event_type := t; key_code := k; scancode := Z.land sc 0x7F;
          event_modifiers := modifiers d;
          ascii_char := if Z.land sc 0x80 =? 0 then keycode_to_ascii d k else None;
          event_timestamp := 0 |} ]).

(** The events a sequence of scan codes stands for. *)
Fixpoint key_events (m : Z) (ext : bool) (l : list Z) : list InputEvent :=
  match l with
  | [] => []
  | sc :: l => let '(m, ext, es) := decode_key m ext sc in es ++ key_events m ext l
  end.

(** A key is held if the last of its scan codes was a press. *)
Definition held_step (press release : list Z) (b : bool) (sc : Z) : bool :=
  if bool_decide (sc ∈ press) then true else if bool_decide (sc ∈ release) then false else b.
Definition held (press release l : list Z) : bool := foldl (held_step press release) false l.
(** Caps lock is on after an odd number of presses. *)
Definition caps_step (b : bool) (sc : Z) : bool := if sc =? 0x3A then negb b else b.
Definition caps_on (l : list Z) : bool := foldl caps_step false l.
Definition encode_modifiers (shift ctrl alt caps : bool) : Z :=
  Z.b2z shift + 2 * Z.b2z ctrl + 4 * Z.b2z alt + 8 * Z.b2z caps.

(** The reader's side of the records a read request returns. *)
Definition key_of_u8 (n : Z) : KeyCode := match_arms (plain_arms ++ extended_arms) n Unknown.
Fixpoint decode_events (l : list Z) : option (list InputEvent) :=
  match l with
  | [] => Some []
  | t :: k :: sc :: m :: has :: c :: l =>
      es ← decode_events l;
      Some ({| event_type := if t =? 0 then KeyPress else KeyRelease; key_code := key_of_u8 k;
               scancode := sc; event_modifiers := m;
               ascii_char := if has =? 1 then Some c else None; event_timestamp := 0 |} :: es)
  | _ => None
  end.

(** ** Invariant *)
Definition event_okb (e : InputEvent) : bool :=
  (0 <=? scancode e) && (scancode e <? 128) &&
  (0 <=? event_modifiers e) && (event_modifiers e <? 16) && (event_timestamp e =? 0) &&
  (bool_decide (key_code e = Unknown) || (key_code_u8 (key_code e) =? scancode e)) &&
  match ascii_char e with
  | Some c => (0 <=? c) && (c <? 128) && bool_decide (event_type e = KeyPress)
  | None => true
  end.
Record kb_inv d : Prop := {
  ki_max : 1 ≤ max_queue_size d ≤ 256;
  ki_len : len (event_queue d) ≤ max_queue_size d;
  ki_modifiers : 0 ≤ modifiers d < 16;
  ki_events : Forall (λ e, event_okb e = true) (event_queue d);
}.

(** ** Lemmas *)
Lemma new_inv : kb_inv new.
Proof. split; simpl; try lia; done. Qed.

Section latest_lemmas.
Context {A : Type}.
Implicit Types l : list A.

Lemma latest_all n l : len l ≤ n → latest n l = l.
Proof. unfold latest, len. intros. by replace (length l - Z.to_nat n)%nat with 0%nat by lia. Qed.

Lemma len_latest n l : 0 ≤ n → len (latest n l) ≤ n.
Proof. unfold latest, len. intros. rewrite length_drop. lia. Qed.

Lemma latest_snoc n l x : 1 ≤ n → latest (n - 1) l ++ [x] = latest n (l ++ [x]).
Proof.
  intros. unfold latest. rewrite length_app. cbn [length].
  replace (length l - Z.to_nat (n - 1))%nat with (length l + 1 - Z.to_nat n)%nat by lia.
  by rewrite drop_app_le by lia.
Qed.

Lemma latest_app n l1 l2 : latest n (latest n l1 ++ l2) = latest n (l1 ++ l2).
Proof.
  unfold latest. rewrite !length_app, length_drop.
  rewrite <-(drop_app_le l1 l2 (length l1 - Z.to_nat n)) by lia. rewrite drop_drop. f_equal. lia.
Qed.

Lemma Forall_latest (Q : A → Prop) n l : Forall Q l → Forall Q (latest n l).
Proof. apply Forall_drop. Qed.
End latest_lemmas.

(** A loop that drops events while there are more than [n]. *)
Lemma drop_loop (step : PS2KeyboardDriver → outcome (flow PS2KeyboardDriver PS2KeyboardDriver)) n d :
  0 ≤ n →
  (∀ q, step (set_events d q) =
     if n <? len q then Val (Next (set_events d (tail q))) else Val (Return (set_events d q))) →
  ∀ q, loop_fuel (S (length q)) step (set_events d q) = Val (set_events d (latest n q)).
Proof.
  intros Hn Hstep. induction q as [|e q IH]; cbn [length]; rewrite loop_fuel_S, Hstep.
  - destruct (Z.ltb_spec n (len (@nil InputEvent))); [unfold len in *; simpl in *; lia|].
    cbn [mbind outcome_bind]. by rewrite latest_all by (unfold len; simpl; lia).
  - destruct (Z.ltb_spec n (len (e :: q))) as [Hlt|Hge]; cbn [mbind outcome_bind tail].
    + unfold latest in *. rewrite IH. do 2 f_equal. unfold len in *. cbn [length] in *.
      by replace (S (length q) - Z.to_nat n)%nat with (S (length q - Z.to_nat n)) by lia.
    + by rewrite latest_all.
Qed.

Lemma set_events_self d : set_events d (event_queue d) = d.
Proof. by destruct d. Qed.

Lemma queue_event_val d e : 1 ≤ max_queue_size d →
  queue_event d e = Val (set_events d (latest (max_queue_size d) (event_queue d ++ [e]))).
Proof.
  intros Hm. unfold queue_event. rewrite <-(set_events_self d) at 2.
  rewrite (drop_loop queue_step (max_queue_size d - 1)); [|lia|].
  - cbn [mbind outcome_bind event_queue set_events]. by rewrite latest_snoc.
  - intros q. unfold queue_step. cbn [event_queue set_events max_queue_size].
    destruct (Z.leb_spec (max_queue_size d) (len q)), (Z.ltb_spec (max_queue_size d - 1) (len q));
      (done || lia).
Qed.

(** [process_scancode] is [decode_key] and the bounded queue. *)
Lemma process_scancode_val d sc : 1 ≤ max_queue_size d → len (event_queue d) ≤ max_queue_size d →
  let '(m, ext, es) := decode_key (modifiers d) (extended_scancode d) sc in
  process_scancode d sc =
    Val (set_extended (set_modifiers (set_events d (latest (max_queue_size d) (event_queue d ++ es))) m) ext).
Proof.
  intros Hm Hl. unfold decode_key, process_scancode. destruct (sc =? 0xE0).
  { rewrite app_nil_r, latest_all by done. by destruct d. }
  rewrite queue_event_val by (by destruct d, (scancode_to_keycode _ _), (negb _)).
  cbn [mbind outcome_bind]. destruct d as [st q m ext mx]. unfold scancode_to_keycode.
  cbn [extended_scancode set_extended set_modifiers].
  destruct (Z.land sc 0x80 =? 0); cbn [negb];
    destruct (match_arms _ _ _); reflexivity.
Qed.

(** What decoding yields is well formed: an exhaustive check of the modifier
    states and bytes. *)
Definition decode_okb (m : Z) (ext : bool) (sc : Z) : bool :=
  let '(m', _, es) := decode_key m ext sc in
  (0 <=? m') && (m' <? 16) && forallb event_okb es &&
  (m' =? encode_modifiers (held_step [0x2A; 0x36] [0xAA; 0xB6] (Z.testbit m 0) sc)
           (held_step [0x1D] [0x9D] (Z.testbit m 1) sc)
           (held_step [0x38] [0xB8] (Z.testbit m 2) sc) (caps_step (Z.testbit m 3) sc)).

Lemma decode_ok m ext sc : 0 ≤ m < 16 → 0 ≤ sc < 2 ^ 8 → decode_okb m ext sc = true.
Proof.
  intros Hm Hs.
  assert (forallb (λ m, forallb (λ sc, decode_okb m true sc && decode_okb m false sc)
    (seqZ 0 256)) (seqZ 0 16) = true) as Hall by (vm_compute; reflexivity).
  rewrite forallb_forall in Hall. specialize (Hall m).
  rewrite <-list_elem_of_In, elem_of_seqZ, forallb_forall in Hall. specialize (Hall Hm sc).
  rewrite <-list_elem_of_In, elem_of_seqZ, andb_true_iff in Hall.
  destruct (Hall ltac:(lia)). destruct ext; assumption.
Qed.

Lemma process_scancode_inv d sc : kb_inv d → 0 ≤ sc < 2 ^ 8 →
  ∃ d', process_scancode d sc = Val d' ∧ kb_inv d' ∧
    status d' = status d ∧ max_queue_size d' = max_queue_size d ∧
    (modifiers d', extended_scancode d') = (decode_key (modifiers d) (extended_scancode d) sc).1 ∧
    event_queue d' = latest (max_queue_size d)
      (event_queue d ++ (decode_key (modifiers d) (extended_scancode d) sc).2).
Proof.
  intros [Hmax Hlen Hmod Hev] Hsc.
  pose proof (process_scancode_val d sc ltac:(lia) Hlen) as Hp.
  pose proof (decode_ok (modifiers d) (extended_scancode d) sc Hmod Hsc) as Hok.
  unfold decode_okb in Hok. destruct (decode_key _ _ _) as [[m ext] es].
  rewrite !andb_true_iff, Z.leb_le, Z.ltb_lt, forallb_forall in Hok. destruct Hok as ((Hm & Hes) & _).
  rewrite Hp. eexists. split; [done|]. cbn. split_and!; try done. split; cbn; try done; try lia.
  - apply len_latest. lia.
  - apply Forall_latest, Forall_app. split; [done|]. apply Forall_forall. intros e He.
    by apply Hes, list_elem_of_In.
Qed.

(** The modifier bits after one byte. *)
Lemma decode_key_modifiers m ext sc : 0 ≤ m < 16 → 0 ≤ sc < 2 ^ 8 →
  (decode_key m ext sc).1.1 = encode_modifiers
    (held_step [0x2A; 0x36] [0xAA; 0xB6] (Z.testbit m 0) sc) (held_step [0x1D] [0x9D] (Z.testbit m 1) sc)
    (held_step [0x38] [0xB8] (Z.testbit m 2) sc) (caps_step (Z.testbit m 3) sc).
Proof.
  intros Hm Hsc. pose proof (decode_ok m ext sc Hm Hsc) as Hok. unfold decode_okb in Hok.
  destruct (decode_key m ext sc) as [[m' ext'] es].
  rewrite !andb_true_iff, Z.eqb_eq in Hok. by destruct Hok as (_ & ->).
Qed.

Lemma encode_testbit shift ctrl alt caps :
  let m := encode_modifiers shift ctrl alt caps in
  Z.testbit m 0 = shift ∧ Z.testbit m 1 = ctrl ∧ Z.testbit m 2 = alt ∧ Z.testbit m 3 = caps.
Proof. by destruct shift, ctrl, alt, caps. Qed.

Lemma read_loop d : ∀ q acc,
  loop_fuel (S (length q)) read_step (set_events d q, acc) =
    Val (set_events d [], acc ++ concat (event_bytes <$> q)).
Proof.
  induction q as [|e q IH]; intros acc; cbn [length]; rewrite loop_fuel_S.
  - cbn. by rewrite app_nil_r.
  - change (read_step (set_events d (e :: q), acc)) with
      (Val (Next (R := PS2KeyboardDriver * list Z) (set_events d q, acc ++ event_bytes e))).
    cbn [mbind outcome_bind]. rewrite IH. by rewrite <-app_assoc.
Qed.

Lemma read_val d : loop_fuel (S (length (event_queue d))) read_step (d, []) =
  Val (set_events d [], concat (event_bytes <$> event_queue d)).
Proof. destruct d as [st q m ext mx]. exact (read_loop (Build_PS2KeyboardDriver st q m ext mx) q []). Qed.

Lemma key_of_key_code k : key_of_u8 (key_code_u8 k) = k.
Proof. by destruct k. Qed.

Lemma decode_event_bytes q : Forall (λ e, event_okb e = true) q →
  decode_events (concat (event_bytes <$> q)) = Some q ∧ bytes (concat (event_bytes <$> q)) ∧
  len (concat (event_bytes <$> q)) = 6 * len q.
Proof.
  unfold bytes. induction q as [|e q IH]; [done|]. intros [He Hq]%Forall_cons.
  destruct (IH Hq) as (Hd & Hb & Hl). cbn [fmap list_fmap concat].
  assert (∃ c b, event_bytes e = [event_type_u8 (event_type e); key_code_u8 (key_code e); scancode e;
      event_modifiers e; b; c] ∧ 0 ≤ c < 2 ^ 8 ∧ 0 ≤ b < 2 ^ 8 ∧
      (if b =? 1 then Some c else None) = ascii_char e) as (c & b & -> & Hc & Hbb & Ha).
  { unfold event_bytes. unfold event_okb in He. destruct (ascii_char e) as [c|].
    - apply andb_true_iff in He as [_ He]. rewrite !andb_true_iff, Z.leb_le, Z.ltb_lt in He.
      exists (c mod 2 ^ 8), 1. rewrite Z.mod_small by lia. split_and!; (done || lia).
    - exists 0, 0. split_and!; (done || lia). }
  unfold event_okb in He. rewrite !andb_true_iff, !Z.leb_le, !Z.ltb_lt, Z.eqb_eq in He.
  destruct He as ((((((? & ?) & ?) & ?) & Ht) & _) & _).
  split_and!.
  - cbn [app decode_events]. change (concat (list_fmap _ _ event_bytes q)) with (concat (event_bytes <$> q)).
    rewrite Hd. cbn [mbind option_bind]. rewrite Ha, key_of_key_code.
    do 2 f_equal. destruct e as [t k s m a ts]; simpl in *. subst ts. by destruct t.
  - repeat (apply Forall_cons; split); try lia; [by destruct (event_type e)| |done].
    by destruct (key_code e).
  - unfold len in *. rewrite length_app. cbn [length]. lia.
Qed.

(** ** The contract *)
Lemma keyboard_control_ok command data d : kb_inv d → bytes data →
  ∃ o d', handle_control d command data = Val (o, d') ∧ kb_inv d' ∧ status d' = status d.
Proof.
  intros Hinv Hdata. unfold handle_control.
  assert (∀ x l, data = x :: l → index data 0 = Val x ∧ 0 ≤ x < 2 ^ 8) as Hidx.
  { intros x l ->. split; [done|]. by apply Forall_cons in Hdata as [? _]. }
  apply (match_arms_ind (λ _ r, ∃ o d', r = Val (o, d') ∧ kb_inv d' ∧ status d' = status d));
    [|intros _; by eexists _, _].
  rewrite !Forall_cons, Forall_nil. cbn [fst snd]. split_and!; [|intros _..|done].
  - intros _. eexists _, _. split; [done|]. destruct Hinv. split; [|done].
    split; cbn; try done. unfold len; simpl; lia.
  - destruct data as [|x l]; [by eexists _, _|]. cbn [is_empty].
    destruct (Hidx x l eq_refl) as [-> Hx]. cbn [mbind outcome_bind].
    destruct (Z.ltb_spec 0 x), (Z.leb_spec x 1024); cbn [andb]; try (by eexists _, _).
    change (loop_fuel _ trim_step _) with (loop_fuel (S (length (event_queue d))) trim_step
      (set_events (set_max_queue_size d x) (event_queue d))).
    rewrite (drop_loop trim_step x); [|lia|].
    + cbn [mbind outcome_bind]. eexists _, _. split; [done|]. destruct Hinv as [? ? ? ?].
      split; [|done]. split; cbn; try done; [lia|apply len_latest; lia|by apply Forall_latest].
    + done.
  - destruct data as [|x l]; [by eexists _, _|]. cbn [is_empty].
    destruct (Hidx x l eq_refl) as [-> Hx]. cbn [mbind outcome_bind].
    destruct (process_scancode_inv d x Hinv Hx) as (d' & -> & ? & ? & _). by eexists _, _.
Qed.

Lemma clear_inv d st m ext : kb_inv d → 0 ≤ m < 16 →
  kb_inv {| status := st; event_queue := []; modifiers := m; extended_scancode := ext;
            max_queue_size := max_queue_size d |}.
Proof. intros [? ? ? ?] ?. split; cbn; try done. unfold len; simpl; lia. Qed.

#[export] Program Instance keyboard_contract : DriverContract PS2KeyboardDriver :=
  {| kd_inv := kb_inv |}.
Next Obligation.
  intros caps d Hinv. eexists. split; [reflexivity|]. split; [apply (clear_inv d _ 0); [done|lia]|done].
Qed.
Next Obligation.
  intros r d Hinv Hr. destruct r as [|o n|o data|command data|[]|id data];
    cbn [kd_handle_request keyboard_driver handle_request status_after_request];
    try (eexists _, _; split; [reflexivity|]; by split_and!).
  - eexists _, _. split; [reflexivity|]. split_and!; [apply (clear_inv d _ 0); [done|lia]|done..].
  - rewrite read_val. eexists _, _. split; [reflexivity|]. split_and!; [|done..]. apply (clear_inv d _ (modifiers d)); [done|apply Hinv].
  - destruct (keyboard_control_ok command data d Hinv Hr) as (o & d' & -> & ? & ?).
    eexists _, _. split; [done|]. by split_and!.
Qed.
Next Obligation.
  intros d Hinv. eexists. split; [reflexivity|]. split; [apply (clear_inv d _ 0); [done|lia]|done].
Qed.
Next Obligation.
  intros e d Hinv. destruct e; (eexists; split; [reflexivity|]; split; [|done]); try done.
  - apply (clear_inv d _ (modifiers d)); [done|apply Hinv].
  - by destruct Hinv.
  - apply (clear_inv d _ 0); [done|lia].
Qed.

(** ** Theorems *)

(** C34: after any sequence of initialisations, requests carrying bytes, clean-ups
    and power events on a fresh driver, none of which panics, the state is well
    typed: the queue is within its bound, which is between 1 and 256; modifiers
    are four bits; every queued event has a seven-bit scan code that is the
    discriminant of its key (or an unknown key), four-bit modifiers, and an ASCII
    character only on a key press; and the status is the one the calls lead to. *)
Theorem keyboard_well_typed calls : Forall call_ok calls →
  ∃ d, for_each run_call calls new = Val d ∧ kb_inv d ∧
    status d = foldl call_status Uninitialized calls.
Proof. exact (lifecycle_run calls new new_inv). Qed.

(** A read request returns one six-byte record per queued event, in order,
    from which the reader recovers exactly the queued events, and empties the
    queue. *)
Theorem read_events_decode d o n : kb_inv d →
  ∃ bs, handle_request (Read o n) d = Val (Ok (Data bs), set_events d []) ∧
    decode_events bs = Some (event_queue d) ∧ bytes bs ∧ len bs = 6 * len (event_queue d).
Proof.
  intros Hinv. cbn [handle_request]. rewrite read_val. cbn [mbind outcome_bind].
  eexists. split; [done|]. apply decode_event_bytes, Hinv.
Qed.

(** The bounded queue refines an unbounded log: after any scan codes, it holds
    the latest [max_queue_size] of the events it held and the events the scan
    codes stand for. *)
Theorem queue_keeps_latest d l : kb_inv d → bytes l →
  ∃ d', for_each (λ sc d, process_scancode d sc) l d = Val d' ∧ kb_inv d' ∧
    event_queue d' = latest (max_queue_size d)
      (event_queue d ++ key_events (modifiers d) (extended_scancode d) l).
Proof.
  revert d. induction l as [|sc l IH]; intros d Hinv Hl; cbn [for_each key_events].
  { exists d. split_and!; [done..|]. rewrite app_nil_r, latest_all; [done|apply Hinv]. }
  apply Forall_cons in Hl as [Hsc Hl].
  destruct (process_scancode_inv d sc Hinv Hsc) as (d1 & -> & Hinv1 & _ & Hmax & Hst & Hq).
  cbn [mbind outcome_bind]. destruct (IH d1 Hinv1 Hl) as (d' & -> & Hinv' & Hq').
  exists d'. split_and!; [done..|]. destruct (decode_key _ _ _) as [[m ext] es].
  simpl in Hst, Hq. injection Hst as Hm Hx. rewrite Hm, Hx, Hq, Hmax, latest_app in Hq'. by rewrite app_assoc.
Qed.

(** After any scan codes on a fresh driver, SHIFT, CTRL and ALT are set exactly
    when the last scan code of such a key was a press, and CAPS_LOCK when its key
    was pressed an odd number of times. *)
Theorem modifiers_track_history l : bytes l →
  ∃ d, for_each (λ sc d, process_scancode d sc) l new = Val d ∧
    modifiers d = encode_modifiers (held [0x2A; 0x36] [0xAA; 0xB6] l) (held [0x1D] [0x9D] l)
      (held [0x38] [0xB8] l) (caps_on l).
Proof.
  intros Hl. destruct (for_each_inv (λ l d, kb_inv d ∧ bytes l ∧
    modifiers d = encode_modifiers (held [0x2A; 0x36] [0xAA; 0xB6] l) (held [0x1D] [0x9D] l)
      (held [0x38] [0xB8] l) (caps_on l)) (λ sc d, process_scancode d sc) l new)
    as (d & Hd & _ & _ & Hm); [| |by exists d].
  - intros dn sc todo d Heq (Hinv & Hdn & Hm). unfold bytes in *. subst l.
    apply Forall_app in Hl as [_ [Hsc _]%Forall_cons].
    destruct (process_scancode_inv d sc Hinv Hsc) as (d' & -> & Hinv' & _ & _ & Hst & _).
    exists d'. split; [done|]. split; [done|]. split; [apply Forall_app; auto|].
    pose proof (decode_key_modifiers (modifiers d) (extended_scancode d) sc
      (ki_modifiers _ Hinv) Hsc) as Hdec.
    destruct (decode_key _ _ _) as [[m ext] es]. cbn [fst] in Hst, Hdec. injection Hst as -> _.
    rewrite Hdec, Hm. unfold held, caps_on. rewrite !foldl_snoc.
    by destruct (encode_testbit (foldl (held_step [0x2A; 0x36] [0xAA; 0xB6]) false dn)
      (foldl (held_step [0x1D] [0x9D]) false dn) (foldl (held_step [0x38] [0xB8]) false dn)
      (foldl caps_step false dn)) as (-> & -> & -> & ->).
  - split; [apply new_inv|]. split; [apply Forall_nil_2|done].
Qed.

(** Releasing one shift key while the other is still down clears SHIFT: the next
    letter comes out in lower case. *)
Example shift_lost_on_release :
  ∃ d, for_each (λ sc d, process_scancode d sc) [0x2A; 0x36; 0xAA; 0x1E] new = Val d ∧
    omap ascii_char (event_queue d) = [97].
Proof. by eexists. Qed.

(** The right control key (prefix 0xE0) is reported as the left one, and the
    shift that keyboards send around the grey keys (0xE0 0x2A) as a real one. *)
Example extended_modifiers_not_told_apart :
  (decode_key 0 true 0x1D).1.1 = CTRL ∧ (decode_key 0 true 0x2A).1.1 = SHIFT.
Proof. done. Qed.

(** Statistics report a queue bound of 0 for the default of 256. *)
Example statistics_truncate_bound :
  handle_request (Query QStatistics) new = Val (Ok (Data [0; 0; 0]), new).
Proof. done. Qed.

(** ** Witnesses *)
Definition demo_calls : list DriverCall :=
  [CallInit []; CallRequest (Control 0x02 [2]); CallRequest (Control 0x03 [0x2A]);
   CallRequest (Control 0x03 [0x23]); CallRequest (Control 0x03 [0xAA]); CallPower Suspend].

Lemma bytes_demo l : forallb (λ b, (0 <=? b) && (b <? 256)) l = true → bytes l.
Proof.
  rewrite forallb_forall. intros H. apply Forall_forall. intros b Hb.
  apply list_elem_of_In, H in Hb. rewrite andb_true_iff, Z.leb_le, Z.ltb_lt in Hb. lia.
Qed.

Lemma keyboard_well_typed_witness :
  ∃ d, for_each run_call demo_calls new = Val d ∧ status d = Suspended.
Proof.
  destruct (keyboard_well_typed demo_calls) as (d & Hd & _ & Hs).
  - unfold demo_calls. rewrite !Forall_cons. cbn [call_ok request_ok].
    split_and!; try done; try (by apply bytes_demo).
  - exists d. split; [exact Hd|exact Hs].
Defined.

(** Shift, h, release, i. *)
Definition demo_typed : list Z := [0x2A; 0x23; 0xAA; 0x17].
Lemma demo_typed_bytes : bytes demo_typed.
Proof. by apply bytes_demo. Qed.

Lemma queue_keeps_latest_witness :
  ∃ d, for_each (λ sc d, process_scancode d sc) demo_typed new = Val d ∧
    omap ascii_char (event_queue d) = [72; 105].
Proof.
  destruct (queue_keeps_latest new demo_typed new_inv demo_typed_bytes) as (d & Hd & _ & Hq).
  exists d. split; [exact Hd|]. rewrite Hq. vm_compute. reflexivity.
Defined.

(** The letter a in the queue. *)
Definition demo_driver : PS2KeyboardDriver :=
  set_events new [ {| event_type := KeyPress; key_code := KeyA; scancode := 0x1E;
                      event_modifiers := 0; ascii_char := Some 97; event_timestamp := 0 |} ].
Lemma demo_driver_inv : kb_inv demo_driver.
Proof. split; [done..|]. by repeat constructor. Qed.

Lemma read_events_decode_witness :
  handle_request (Read 0 0) demo_driver = Val (Ok (Data [0; 0x1E; 0x1E; 0; 1; 97]), set_events new []) ∧
  decode_events [0; 0x1E; 0x1E; 0; 1; 97] = Some (event_queue demo_driver).
Proof.
  destruct (read_events_decode demo_driver 0 0 demo_driver_inv) as (bs & Hr & Hd & _).
  assert (bs = [0; 0x1E; 0x1E; 0; 1; 97]) as Hbs by (vm_compute in Hr; by injection Hr).
  rewrite Hbs in Hr, Hd. split; [exact Hr|exact Hd].
Defined.

Lemma modifiers_track_history_witness :
  ∃ d, for_each (λ sc d, process_scancode d sc) [0x1D; 0x3A; 0x38; 0xB8] new = Val d ∧
    modifiers d = CTRL + CAPS_LOCK.
Proof.
  destruct (modifiers_track_history [0x1D; 0x3A; 0x38; 0xB8]) as (d & Hd & Hm).
  - by apply bytes_demo.
  - exists d. split; [exact Hd|exact Hm].
Defined.
