(* ===== verification/Touch.v ===== *)
(** * The touch driver

    Models the core of [drivers/touch/src/lib.rs]: calibration in 16.16 fixed
    point on [i32], the sensitivity filter, the bounded event buffer and the
    request interface.  The driver is written against a driver interface that is
    not the one of [shared/kosh-driver]: what it uses of that interface is the
    class [DriverInterface]. *)
From S2P Require Import Prelude Text.

Inductive TouchEventType := Down | Move | Up | Cancel.
#[export] Instance TouchEventType_eq_dec : EqDecision TouchEventType.
Proof. solve_decision. Defined.

Record TouchInputEvent := {
  event_type : TouchEventType;
  x : Z;
  y : Z;
  pressure : Z;
  timestamp_us : Z;
  touch_id : Z;
}.
Record TouchSensitivity := {
  min_pressure : Z;
  movement_threshold : Z;
  debounce_time_us : Z;
}.
Definition default_sensitivity : TouchSensitivity :=
  {| min_pressure := 10; movement_threshold := 5; debounce_time_us := 1000 |}.
Record TouchCalibration := {
  x_offset : Z;
  y_offset : Z;
  x_scale : Z;
  y_scale : Z;
}.
Definition default_calibration : TouchCalibration :=
  {| x_offset := 0; y_offset := 0; x_scale := 0x10000; y_scale := 0x10000 |}.

(** The arms of the driver's [match] on a request; it reads no payload. *)
Inductive touch_request := GetCapabilities | ReadData | WriteData | Configure | GetStatus.
#[export] Instance touch_request_eq_dec : EqDecision touch_request.
Proof. solve_decision. Defined.
Class DriverInterface := {
  DriverCapability : Type;
  InputDevice : DriverCapability;
  InterruptHandler : DriverCapability;
  LowLatency : DriverCapability;
  DriverRequest : Type;
  request_arm : DriverRequest → touch_request;
  DriverResponse : Type;
  Capabilities : list DriverCapability → DriverResponse;
  Data : list Z → DriverResponse;
  Error : text → DriverResponse;
  Success : DriverResponse;
}.

Section interface.
Context {I : DriverInterface}.

Record TouchDriver := {
  capabilities : list DriverCapability;
  input_buffer : list TouchInputEvent;
  max_buffer_size : Z;
  sensitivity : TouchSensitivity;
  calibration : TouchCalibration;
}.
Implicit Types (d : TouchDriver) (e : TouchInputEvent).
Definition new : TouchDriver :=
  {| capabilities := [InputDevice; InterruptHandler; LowLatency]; input_buffer := [];
     max_buffer_size := 64; sensitivity := default_sensitivity; calibration := default_calibration |}.
Definition set_input_buffer d l : TouchDriver :=
  {| capabilities := capabilities d; input_buffer := l;
     max_buffer_size := max_buffer_size d; sensitivity := sensitivity d; calibration := calibration d |}.
Definition set_sensitivity d s : TouchDriver :=
  {| capabilities := capabilities d; input_buffer := input_buffer d; max_buffer_size := max_buffer_size d; sensitivity := s;
     calibration := calibration d |}.
Definition set_calibration d c : TouchDriver :=
  {| capabilities := capabilities d; input_buffer := input_buffer d; max_buffer_size := max_buffer_size d;
     sensitivity := sensitivity d; calibration := c |}.
Definition set_xy e nx ny : TouchInputEvent :=
  {| event_type := event_type e; x := nx; y := ny; pressure := pressure e;
     timestamp_us := timestamp_us e; touch_id := touch_id e |}.

Section driver.
Context {P : Profile}.

(** One axis: [(((v as i32) + (offset as i32)) * (scale as i32) >> 16) as u16]. *)
Definition apply_scale (adjusted scale : Z) : outcome Z :=
  scaled ← iarith 32 (adjusted * to_signed 32 scale); Val (Z.shiftr scaled 16 mod 2 ^ 16).
Definition apply_calibration d e : outcome TouchInputEvent :=
  x_adjusted ← iarith 32 (x e + x_offset (calibration d));
  y_adjusted ← iarith 32 (y e + y_offset (calibration d));
  x_scaled ← apply_scale x_adjusted (x_scale (calibration d));
  y_scaled ← apply_scale y_adjusted (y_scale (calibration d));
  Val (set_xy e x_scaled y_scaled).

(** The squared distance, [(dx * dx + dy * dy) as u32]. *)
Definition distance_sq (e last : TouchInputEvent) : outcome Z :=
  dx ← iarith 32 (x e - x last);
  dy ← iarith 32 (y e - y last);
  dx2 ← iarith 32 (dx * dx); dy2 ← iarith 32 (dy * dy);
  s ← iarith 32 (dx2 + dy2); Val (s mod 2 ^ 32).
Definition moved_enough d e : outcome bool :=
  if bool_decide (event_type e = Move)
  then match last (input_buffer d) with
       | Some last_event =>
           if touch_id last_event =? touch_id e
           then distance ← distance_sq e last_event;
                threshold_sq ← umul 32 (movement_threshold (sensitivity d)) (movement_threshold (sensitivity d));
                Val (negb (distance <? threshold_sq))
           else Val true
       | None => Val true
       end
  else Val true.
Definition debounced d e : bool :=
  match last (input_buffer d) with
  | Some last_event =>
      if touch_id last_event =? touch_id e
      then negb (saturating_sub (timestamp_us e) (timestamp_us last_event) <?
                 debounce_time_us (sensitivity d))
      else true
  | None => true
  end.
Definition passes_sensitivity_filter d e : outcome bool :=
  if pressure e <? min_pressure (sensitivity d) then Val false
  else m ← moved_enough d e; if m : bool then Val (debounced d e) else Val false.

Definition process_touch_event d e : outcome TouchDriver :=
  e ← apply_calibration d e;
  p ← passes_sensitivity_filter d e;
  if p : bool
  then let l := if max_buffer_size d <=? len (input_buffer d)
                then vec_remove 0 (input_buffer d) else input_buffer d in
       Val (set_input_buffer d (l ++ [e]))
  else Val d.

Definition get_current_time_us d : Z := 1000000.
(** The placeholder event the source reads. *)
Definition read_touch_data d : list TouchInputEvent :=
  [ {| event_type := Down; x := 32768; y := 32768; pressure := 128;
       timestamp_us := get_current_time_us d; touch_id := 0 |} ].
Definition handle_touch_interrupt d : outcome TouchDriver :=
  for_each (λ e d, process_touch_event d e) (read_touch_data d) d.
Definition get_pending_events d : list TouchInputEvent * TouchDriver :=
  (input_buffer d, set_input_buffer d []).
Definition cleanup d : TouchDriver := set_input_buffer d [].
End driver.

(** ** The request interface *)
Record TouchStatistics := {
  events_buffered : Z;
  buffer_capacity : Z;
  stat_sensitivity : TouchSensitivity;
  stat_calibration : TouchCalibration;
}.
Definition get_statistics d : TouchStatistics :=
  {| events_buffered := len (input_buffer d); buffer_capacity := max_buffer_size d;
     stat_sensitivity := sensitivity d; stat_calibration := calibration d |}.
Definition get_capabilities d : list DriverCapability := capabilities d.

Definition handle_request d (request : DriverRequest) : DriverResponse * TouchDriver :=
  match request_arm request with
  | GetCapabilities => (Capabilities (capabilities d), d)
  | ReadData =>
      let '(events, d) := get_pending_events d in
      (Data (txt "Touch events: " ++ number (len events) ++ txt " pending"), d)
  | WriteData => (Error (txt "Touch driver is read-only"), d)
  | Configure => (Success, d)
  | GetStatus =>
      let stats := get_statistics d in
      (Data (txt "Touch driver: " ++ number (events_buffered stats) ++ txt " events buffered"), d)
  end.

(** ** Theorems *)
Section theorems.
Context {P : Profile}.

(** The coordinates and offsets of an event fit their types. *)
Definition event_ok e : Prop := 0 ≤ x e < 2 ^ 16 ∧ 0 ≤ y e < 2 ^ 16.

Lemma apply_scale_one v : 0 ≤ v < 2 ^ 16 →
  apply_scale v 0x10000 =
    if (v <? 2 ^ 15) || negb debug_assertions then Val v else Panic.
Proof.
  intros Hv. unfold apply_scale. change (to_signed 32 0x10000) with (2 ^ 16).
  destruct (Z.ltb_spec v (2 ^ 15)); cbn [orb].
  - rewrite iarith_val by lia. cbn [mbind outcome_bind]. f_equal.
    rewrite Z.shiftr_div_pow2, Z.div_mul by lia. apply Z.mod_small. lia.
  - rewrite iarith_bad by lia. destruct debug_assertions; cbn [negb mbind outcome_bind]; [done|].
    f_equal. unfold to_signed. rewrite (Z.mod_small (v * 2 ^ 16)) by lia.
    destruct (Z.ltb_spec (v * 2 ^ 16) (2 ^ (32 - 1))); [lia|].
    rewrite Z.shiftr_div_pow2 by lia.
    replace (v * 2 ^ 16 - 2 ^ 32) with ((v - 2 ^ 16) * 2 ^ 16) by lia. rewrite Z.div_mul by lia.
    replace (v - 2 ^ 16) with (v + (-1) * 2 ^ 16) by lia. rewrite Z_mod_plus_full.
    apply Z.mod_small. lia.
Qed.

Lemma default_calibration_val d e : calibration d = default_calibration → event_ok e →
  apply_calibration d e =
    if negb debug_assertions || ((x e <? 2 ^ 15) && (y e <? 2 ^ 15)) then Val e else Panic.
Proof.
  intros Hc [Hx Hy]. unfold apply_calibration. rewrite Hc.
  cbn [x_offset y_offset x_scale y_scale default_calibration].
  rewrite !Z.add_0_r, !iarith_val by lia. cbn [mbind outcome_bind].
  rewrite !apply_scale_one by done.
  destruct (x e <? 2 ^ 15), (y e <? 2 ^ 15), debug_assertions; cbn; try done; by destruct e.
Qed.

(** With the default calibration (no offset, scale one) the coordinates of an
    event are unchanged in a build without overflow checks, wrap-around and all;
    with them, the fixed-point product overflows [i32] and the driver panics
    exactly when a coordinate is in the upper half of its range. *)
Theorem default_calibration_bounds d e : calibration d = default_calibration → event_ok e →
  apply_calibration d e =
    if negb debug_assertions || ((x e <? 2 ^ 15) && (y e <? 2 ^ 15)) then Val e else Panic.
Proof. apply default_calibration_val. Qed.

(** The event the driver reads is in the middle of the screen, so its interrupt
    handler panics with overflow checks, in any state with the default
    calibration. *)
Theorem touch_interrupt_panics d : calibration d = default_calibration → debug_assertions = true →
  handle_touch_interrupt d = Panic.
Proof.
  intros Hc HD. unfold handle_touch_interrupt. cbn [for_each read_touch_data]. unfold process_touch_event.
  pose proof (default_calibration_val d {| event_type := Down; x := 32768; y := 32768; pressure := 128;
    timestamp_us := get_current_time_us d; touch_id := 0 |} Hc) as E.
  rewrite HD in E. rewrite E; [done|]. split; cbn; lia.
Qed.

(** The squared distance of a move overflows when it crosses most of the screen
    in one step. *)
Theorem long_move_overflows e last : debug_assertions = true →
  event_ok e → event_ok last → 46341 ≤ x e - x last → distance_sq e last = Panic.
Proof.
  intros HD [Hx Hy] [Hx' Hy'] Hd. unfold distance_sq. rewrite !(iarith_val 32 (_ - _)) by lia.
  cbn [mbind outcome_bind].
  assert (46341 * 46341 ≤ (x e - x last) * (x e - x last)) by (apply Z.mul_le_mono_nonneg; lia).
  rewrite (iarith_bad 32 ((x e - x last) * (x e - x last))) by lia. by rewrite HD.
Qed.

(** Whatever events arrive, the buffer keeps at most [max_buffer_size] events,
    the latest at the end. *)
Theorem touch_buffer_bounded d e d' :
  0 < max_buffer_size d → len (input_buffer d) ≤ max_buffer_size d →
  process_touch_event d e = Val d' →
  len (input_buffer d') ≤ max_buffer_size d' ∧ max_buffer_size d' = max_buffer_size d ∧
  (d' = d ∨ ∃ e', apply_calibration d e = Val e' ∧ last (input_buffer d') = Some e').
Proof.
  intros Hm Hl Hp. unfold process_touch_event in Hp.
  destruct (apply_calibration d e) as [e'| |]; try done. cbn [mbind outcome_bind] in Hp.
  destruct (passes_sensitivity_filter d e') as [[]| |]; try done; simplify_eq/=; [|auto].
  split_and!; [|done|right; exists e'; split; [done|apply last_snoc]].
  cbn [input_buffer max_buffer_size set_input_buffer]. rewrite len_snoc. destruct (Z.leb_spec (max_buffer_size d) (len (input_buffer d))); [|lia].
  unfold len in *. rewrite length_vec_remove by lia. lia.
Qed.
End theorems.

(** ** Witness *)
Lemma default_calibration_bounds_witness :
  apply_calibration (P := release) new (set_xy (nth 0 (read_touch_data new)
    {| event_type := Up; x := 0; y := 0; pressure := 0; timestamp_us := 0; touch_id := 0 |}) 40000 7) =
  Val (set_xy (nth 0 (read_touch_data new)
    {| event_type := Up; x := 0; y := 0; pressure := 0; timestamp_us := 0; touch_id := 0 |}) 40000 7).
Proof.
  apply (default_calibration_bounds (P := release) new _ eq_refl). split; cbn; lia.
Defined.

(** ** The request interface, continued *)
Lemma handle_request_keeps d q :
  let d' := (handle_request d q).2 in
  capabilities d' = capabilities d ∧ max_buffer_size d' = max_buffer_size d ∧
  sensitivity d' = sensitivity d ∧ calibration d' = calibration d ∧
  input_buffer d' = if decide (request_arm q = ReadData) then [] else input_buffer d.
Proof. unfold handle_request. destruct (request_arm q); by split_and!. Qed.

(** The answers to a list of requests and the driver after them. *)
Fixpoint serve d (qs : list DriverRequest) : list DriverResponse * TouchDriver :=
  match qs with
  | [] => ([], d)
  | q :: qs =>
      let '(r, d) := handle_request d q in
      let '(rs, d) := serve d qs in (r :: rs, d)
  end.

Definition same_count d d' : Prop :=
  capabilities d = capabilities d' ∧ len (input_buffer d) = len (input_buffer d').
Lemma handle_request_same_count d d' q : same_count d d' →
  (handle_request d q).1 = (handle_request d' q).1 ∧ same_count (handle_request d q).2 (handle_request d' q).2.
Proof.
  intros [Hc Hl]. unfold handle_request, get_pending_events, get_statistics.
  destruct (request_arm q); cbn; rewrite ?Hc, ?Hl; by split_and!.
Qed.

(** No event crosses the request interface: its answers depend on the buffer only
    through the number of events in it, so two drivers that have buffered equally many
    touches answer every sequence of requests alike, wherever the touches were. *)
Theorem requests_see_only_counts d d' qs : same_count d d' → (serve d qs).1 = (serve d' qs).1.
Proof.
  revert d d'. induction qs as [|q qs IH]; intros d d' Hs; [done|]. cbn [serve].
  destruct (handle_request_same_count d d' q Hs) as [Hr Hs'].
  destruct (handle_request d q) as [r e], (handle_request d' q) as [r' e']. cbn in Hr, Hs'. subst r'.
  specialize (IH e e' Hs'). destruct (serve e qs), (serve e' qs). cbn in *. by subst.
Qed.

(** Yet reading empties the buffer: the events a [ReadData] counts are lost. *)
Theorem read_drops_events d q : request_arm q = ReadData →
  handle_request d q =
    (Data (txt "Touch events: " ++ number (len (input_buffer d)) ++ txt " pending"), cleanup d).
Proof. unfold handle_request. by intros ->. Qed.
End interface.

(** An interface with the names the driver uses. *)
Definition demo_interface : DriverInterface := {|
  DriverCapability := Z; InputDevice := 0; InterruptHandler := 1; LowLatency := 2;
  DriverRequest := touch_request; request_arm := id;
  DriverResponse := list Z + text; Capabilities := inl; Data := inr; Error := inr; Success := inr [];
|}.
Definition one_touch (px : Z) : TouchDriver (I := demo_interface) :=
  set_input_buffer new [{| event_type := Down; x := px; y := 7; pressure := 90; timestamp_us := 0; touch_id := 0 |}].
Lemma requests_see_only_counts_witness :
  (serve (one_touch 3) [GetStatus; ReadData; GetStatus]).1 = (serve (one_touch 400) [GetStatus; ReadData; GetStatus]).1.
Proof. apply (requests_see_only_counts (one_touch 3) (one_touch 400)). split; reflexivity. Defined.
