(* ===== verification/StubDrivers.v ===== *)
(** * Storage and network drivers

    Models [drivers/storage] and [drivers/network]: both implement the same small
    driver trait, here a class; the two drivers are its instances.  Requests are not
    looked at. *)
From S2P Require Import Prelude DriverKit.

Record DriverRequest := { request_type : Z; request_data : list Z }.
Inductive DriverStatus := Success | Error (e : DriverError).
Record DriverResponse := { status : DriverStatus; response_data : list Z }.
Record DriverCapabilities := { can_read : bool; can_write : bool; block_size : Z; max_transfer_size : Z }.

Class KoshDriver (X : Type) := {
  drv_new : X;
  drv_init : X → result unit DriverError * X;
  handle_request : X → DriverRequest → DriverResponse * X;
  cleanup : X → X;
  get_capabilities : X → DriverCapabilities;
}.

Record StorageDriver := { st_initialized : bool }.
#[export] Instance storage_driver : KoshDriver StorageDriver := {
  drv_new := {| st_initialized := false |};
  drv_init d := (Ok (), {| st_initialized := true |});
  handle_request d _ := ({| status := Success; response_data := [] |}, d);
  cleanup d := {| st_initialized := false |};
  get_capabilities _ :=
    {| can_read := true; can_write := true; block_size := 512; max_transfer_size := 65536 |};
}.

Record NetworkDriver := { net_initialized : bool; mac_address : list Z }.
#[export] Instance network_driver : KoshDriver NetworkDriver := {
  drv_new := {| net_initialized := false; mac_address := replicate 6 0 |};
  drv_init d := (Ok (), {| net_initialized := true; mac_address := [0x02; 0x00; 0x00; 0x00; 0x00; 0x01] |});
  handle_request d _ := ({| status := Success; response_data := [] |}, d);
  cleanup d := {| net_initialized := false; mac_address := replicate 6 0 |};
  get_capabilities _ :=
    {| can_read := true; can_write := true; block_size := 1500; max_transfer_size := 65536 |};
}.

(** ** Life cycle *)
Inductive driver_call := DInit | DRequest (r : DriverRequest) | DCleanup.
Definition driver_step `{KoshDriver X} (c : driver_call) (d : X) : X :=
  match c with
  | DInit => (drv_init d).2
  | DRequest r => (handle_request d r).2
  | DCleanup => cleanup d
  end.
Definition driver_run `{KoshDriver X} (cs : list driver_call) : X := foldl (λ d c, driver_step c d) drv_new cs.
(** Whether the last call that matters was [init]. *)
Definition running (cs : list driver_call) : bool :=
  default false (last (omap (λ c, match c with DInit => Some true | DCleanup => Some false | DRequest _ => None end) cs)).

(** After any history a driver is initialised exactly if it was initialised after
    the last clean-up, and then the network driver has its default address; requests
    are answered with success in every state, also before initialisation. *)
Theorem stub_driver_lifecycle cs r :
  st_initialized (driver_run cs) = running cs ∧
  net_initialized (driver_run cs) = running cs ∧
  mac_address (driver_run cs) = (if running cs then [2; 0; 0; 0; 0; 1] else replicate 6 0) ∧
  status (handle_request (driver_run cs : StorageDriver) r).1 = Success ∧
  status (handle_request (driver_run cs : NetworkDriver) r).1 = Success.
Proof.
  split_and!; try done; unfold driver_run, running; induction cs as [|c cs IH] using rev_ind; try done;
    rewrite foldl_app, last_omap_snoc; destruct c; done.
Qed.
