(* ===== verification/Service.v ===== *)
(** * The service framework

    Models [shared/kosh-service/src/lib.rs]: the messages of system services,
    the trait [ServiceHandler] (a class) with its runner, the registry of
    services and the client's request numbering. *)
From S2P Require Import Prelude.

Inductive ServiceType :=
  | SvcFileSystem | SvcDriverManager | SvcProcessManager | SvcMemoryManager | SvcNetworkManager
  | SvcDisplayManager | SvcInputManager.
#[export] Instance ServiceType_eq_dec : EqDecision ServiceType.
Proof. solve_decision. Defined.

Inductive FileSystemRequest :=
  | Open (path : string) (flags : Z)
  | Close (fd : Z)
  | FsRead (fd size : Z)
  | FsWrite (fd : Z) (data : list Z)
  | List (path : string)
  | Create (path : string) (is_directory : bool)
  | Delete (path : string).
Inductive DriverRequest :=
  | LoadDriver (path : string)
  | UnloadDriver (driver_id : Z)
  | ListDrivers
  | SendToDriver (driver_id : Z) (data : list Z).
Inductive ProcessRequest :=
  | Spawn (program : string) (args : list string)
  | Kill (pid : Z)
  | ListProcesses
  | GetInfo (pid : Z).
Inductive ServiceData :=
  | Empty
  | Text (s : string)
  | Binary (data : list Z)
  | FileSystemReq (r : FileSystemRequest)
  | DriverReq (r : DriverRequest)
  | ProcessReq (r : ProcessRequest).
Record ServiceMessage := {
  service_type : ServiceType;
  request_id : Z;
  data : ServiceData;
}.
Inductive ServiceStatus :=
  | StSuccess | StError | StNotFound | StPermissionDenied | StInvalidRequest | StServiceUnavailable.
Record ServiceResponse := {
  response_id : Z;
  response_status : ServiceStatus;
  response_data : ServiceData;
}.
Inductive ServiceError :=
  | SeNotFound | SePermissionDenied | SeInvalidRequest | SeCommunicationError | SeTimeout | SeNotImplemented.

(** ** The registry *)
Record ServiceInfo := {
  info_type : ServiceType;
  info_pid : Z;
  info_name : string;
  info_status : ServiceStatus;
}.
Definition ServiceRegistry : Type := list ServiceInfo.
Definition registry_new : ServiceRegistry := [].
Definition register_service (r : ServiceRegistry) (t : ServiceType) (pid : Z) (n : string) : ServiceRegistry :=
  r ++ [ {| info_type := t; info_pid := pid; info_name := n; info_status := StSuccess |} ].
Definition unregister_service (r : ServiceRegistry) (pid : Z) : ServiceRegistry :=
  filter (λ s, info_pid s ≠ pid) (r : list ServiceInfo).
(** [iter().find(p)]. *)
Fixpoint find_first {A} (p : A → bool) (l : list A) : option A :=
  match l with [] => None | x :: l => if p x then Some x else find_first p l end.
Definition find_service (r : ServiceRegistry) (t : ServiceType) : option ServiceInfo :=
  find_first (λ s, bool_decide (info_type s = t)) r.
Definition set_info_status (s : ServiceInfo) (st : ServiceStatus) : ServiceInfo :=
  {| info_type := info_type s; info_pid := info_pid s; info_name := info_name s; info_status := st |}.
(** The first entry of the process is updated. *)
Fixpoint update_service_status (r : list ServiceInfo) (pid : Z) (st : ServiceStatus) : list ServiceInfo :=
  match r with
  | [] => []
  | s :: r => if info_pid s =? pid then set_info_status s st :: r
              else s :: update_service_status r pid st
  end.

(** ** The client *)
Record ServiceClient := { next_request_id : Z }.
Definition client_new : ServiceClient := {| next_request_id := 1 |}.
(** The message is numbered; nothing is sent. *)
Definition send_request `{Profile} (c : ServiceClient) : outcome (result Z ServiceError * ServiceClient) :=
  n ← uadd 64 (next_request_id c) 1;
  Val (Ok (next_request_id c), {| next_request_id := n |}).
Definition receive_response (c : ServiceClient) : result ServiceResponse ServiceError := Err SeNotImplemented.

(** ** Handlers and their runner *)
Class ServiceHandler (T : Type) := {
  sh_handle_request : T → ServiceMessage → outcome (ServiceResponse * T);
  sh_service_type : T → ServiceType;
  sh_initialize : T → outcome (result unit ServiceError * T);
  sh_shutdown : T → outcome (result unit ServiceError * T);
}.

Section runner.
Context `{ServiceHandler T}.

Record ServiceRunner := { handler : T; running : bool }.
Definition runner_new (h : T) : ServiceRunner := {| handler := h; running := false |}.
Definition start (r : ServiceRunner) : outcome (result unit ServiceError * ServiceRunner) :=
  '(o, h) ← sh_initialize (handler r);
  match o with
  | Ok _ => Val (Ok (), {| handler := h; running := true |})
  | Err e => Val (Err e, {| handler := h; running := running r |})
  end.
Definition stop (r : ServiceRunner) : outcome (result unit ServiceError * ServiceRunner) :=
  '(o, h) ← sh_shutdown (handler r); Val (o, {| handler := h; running := false |}).
(** The source polls no messages here yet. *)
Definition run_once (r : ServiceRunner) : result unit ServiceError :=
  if negb (running r) then Err SeInvalidRequest else Ok ().
End runner.

(** ** Theorems *)

(** A registered service is found unless an earlier one of its type is. *)
Theorem find_registered r t pid n :
  find_service (register_service r t pid n) t =
    match find_service r t with
    | Some s => Some s
    | None => Some {| info_type := t; info_pid := pid; info_name := n; info_status := StSuccess |}
    end.
Proof.
  unfold find_service, register_service. induction r as [|s r IH]; simpl.
  - by rewrite bool_decide_true.
  - by destruct (bool_decide (info_type s = t)).
Qed.

(** After a process is unregistered no service of it is found. *)
Theorem unregistered_not_found r pid t s :
  find_service (unregister_service r pid) t = Some s → info_pid s ≠ pid.
Proof.
  unfold find_service, unregister_service. induction r as [|x r IH]; simpl; [done|].
  rewrite filter_cons. destruct (decide (info_pid x ≠ pid)); simpl; [|done].
  destruct (bool_decide (info_type x = t)); [|done]. by intros [= <-].
Qed.
