(* ===== verification/FileSystem.v ===== *)
(** * File-system types and the file-system interface

    Models the file-system part of [shared/kosh-types/src/lib.rs] and the trait
    [FileSystem] of [userspace/fs-service/src/vfs.rs], which the virtual file
    system calls and ext4 implements.  The class [FileSystemLaws] states what an
    implementation promises to the virtual file system. *)
From S2P Require Import Prelude.

(** ** kosh-types *)
Inductive FileType :=
  | Regular | Directory | SymbolicLink | BlockDevice | CharacterDevice | Fifo | Socket.
#[export] Instance FileType_eq_dec : EqDecision FileType.
Proof. solve_decision. Defined.

Inductive VfsError :=
  | NotFound | PermissionDenied | AlreadyExists | NotDirectory | IsDirectory | InvalidPath | IoError
  | NoSpace | ReadOnlyFileSystem | TooManyOpenFiles | InvalidFileDescriptor | NotMounted
  | MountPointBusy.
#[export] Instance VfsError_eq_dec : EqDecision VfsError.
Proof. solve_decision. Defined.

(** The two flag types are words that hold only declared bits. *)
Definition OWNER_READ : Z := 256.
Definition OWNER_WRITE : Z := 128.
Definition OWNER_EXECUTE : Z := 64.
Definition permission_bits : Z := 511.
Definition permissions_from_bits_truncate (bits : Z) : Z := Z.land bits permission_bits.

Definition READ_ONLY : Z := 0.
Definition WRITE_ONLY : Z := 1.
Definition READ_WRITE : Z := 2.
Definition CREATE : Z := 64.
Definition EXCLUSIVE : Z := 128.
Definition TRUNCATE : Z := 512.
Definition APPEND : Z := 1024.
Definition open_flag_bits : Z := foldr Z.lor 0 [READ_ONLY; WRITE_ONLY; READ_WRITE; CREATE; EXCLUSIVE; TRUNCATE; APPEND].
Definition flags_from_bits_truncate (bits : Z) : Z := Z.land bits open_flag_bits.

Record FileMetadata := {
  meta_inode : Z;
  file_type : FileType;
  permissions : Z;
  size : Z;
  meta_uid : Z;
  meta_gid : Z;
  created_time : Z;
  modified_time : Z;
  accessed_time : Z;
}.
#[export] Instance FileMetadata_eq_dec : EqDecision FileMetadata.
Proof. solve_decision. Defined.

Record DirectoryEntry := {
  entry_name : list Z;
  name_len : Z;
  entry_inode : Z;
  entry_type : FileType;
}.

(** ** The trait

    A method returns its result and the file system after it; [fs_read] also
    returns the caller's buffer. *)
Class FileSystem (D : Type) := {
  fs_init : D → outcome (result unit VfsError * D);
  fs_mount : D → option Z → outcome (result unit VfsError * D);
  fs_unmount : D → outcome (result unit VfsError * D);
  fs_open : D → string → Z → outcome (result (Z * FileMetadata) VfsError * D);
  fs_close : D → Z → outcome (result unit VfsError * D);
  fs_read : D → Z → Z → list Z → outcome (result Z VfsError * list Z * D);
  fs_write : D → Z → Z → list Z → outcome (result Z VfsError * D);
  fs_create : D → string → FileType → Z → outcome (result Z VfsError * D);
  fs_unlink : D → string → outcome (result unit VfsError * D);
  fs_stat : D → string → outcome (result FileMetadata VfsError * D);
  fs_readdir : D → string → outcome (result (list DirectoryEntry) VfsError * D);
  fs_mkdir : D → string → Z → outcome (result unit VfsError * D);
  fs_rmdir : D → string → outcome (result unit VfsError * D);
  fs_sync : D → outcome (result unit VfsError * D);
}.

(** [r?] inside a method that returns its state too: an error leaves with the
    state reached so far, a value goes on. *)
Definition try {A B E D} (o : outcome (result A E * D)) (k : A → D → outcome (result B E * D)) :
    outcome (result B E * D) :=
  '(r, d) ← o; match r with Ok a => k a d | Err e => Val (Err e, d) end.

(** The call returns, and its result and the state after it satisfy [Q]. *)
Definition returns {A} (o : outcome A) (Q : A → Prop) : Prop := ∃ a, o = Val a ∧ Q a.

Lemma returns_mono {A} (o : outcome A) (Q R : A → Prop) :
  returns o Q → (∀ a, Q a → R a) → returns o R.
Proof. intros (a & ? & ?) HR. exists a. naive_solver. Qed.
Lemma returns_val {A} (a : A) (Q : A → Prop) : Q a → returns (Val a) Q.
Proof. intros. by exists a. Qed.
Lemma returns_bind {A B} (o : outcome A) (f : A → outcome B) (Q : A → Prop) (R : B → Prop) :
  returns o Q → (∀ a, Q a → returns (f a) R) → returns (o ≫= f) R.
Proof. intros (a & -> & Ha) Hf. by apply Hf. Qed.
Lemma returns_try {A B E D} (o : outcome (result A E * D)) (k : A → D → outcome (result B E * D))
    (Q : result A E * D → Prop) (R : result B E * D → Prop) :
  returns o Q → (∀ a d, Q (Ok a, d) → returns (k a d) R) →
  (∀ e d, Q (Err e, d) → R (Err e, d)) → returns (try o k) R.
Proof.
  intros Ho Hk He. unfold try. apply (returns_bind _ _ Q); [done|].
  intros [[a|e] d] Hq; [by apply Hk|]. apply returns_val. by apply He.
Qed.

(** What a file system promises to the virtual file system: it comes into use
    by [fs_init] and [fs_mount], it is [fs_ready n] while [n] more calls are within
    its capacity, every such call returns and leaves it ready, [fs_open] hands out valid inode
    numbers, [fs_read] and [fs_write] take at most the bytes of the buffer, and
    it can be unmounted. *)
Class FileSystemLaws (D : Type) `{FileSystem D} (fs_new : D) := {
  fs_ready : Z → D → Prop;
  fs_inode : Z → Prop;
  law_fs_mono n n' d : 0 ≤ n' ≤ n → fs_ready n d → fs_ready n' d;
  law_fs_init : ∃ d, fs_init fs_new = Val (Ok (), d) ∧
    ∀ dev, ∃ d', fs_mount d dev = Val (Ok (), d') ∧ fs_ready (2 ^ 32) d';
  law_fs_unmount n d : fs_ready n d → ∃ d', fs_unmount d = Val (Ok (), d');
  law_fs_open n d p fl : 0 ≤ n → fs_ready (n + 1) d →
    returns (fs_open d p fl) (λ '(r, d'), fs_ready n d' ∧ ∀ i m, r = Ok (i, m) → fs_inode i);
  law_fs_close n d i : 0 ≤ n → fs_ready (n + 1) d → returns (fs_close d i) (λ '(_, d'), fs_ready n d');
  law_fs_read n d i off buf : 0 ≤ n → fs_ready (n + 1) d → fs_inode i → 0 ≤ off →
    returns (fs_read d i off buf) (λ '(r, buf', d'),
      fs_ready n d' ∧ length buf' = length buf ∧ ∀ k, r = Ok k → 0 ≤ k ≤ len buf);
  law_fs_write n d i off buf : 0 ≤ n → fs_ready (n + 1) d → fs_inode i → 0 ≤ off → off + len buf < 2 ^ 64 →
    returns (fs_write d i off buf) (λ '(r, d'),
      fs_ready n d' ∧ ∀ k, r = Ok k → 0 ≤ k ≤ len buf);
  law_fs_create n d p t pm : 0 ≤ n → fs_ready (n + 1) d →
    returns (fs_create d p t pm) (λ '(_, d'), fs_ready n d');
  law_fs_unlink n d p : 0 ≤ n → fs_ready (n + 1) d → returns (fs_unlink d p) (λ '(_, d'), fs_ready n d');
  law_fs_stat n d p : 0 ≤ n → fs_ready (n + 1) d → returns (fs_stat d p) (λ '(_, d'), fs_ready n d');
  law_fs_readdir n d p : 0 ≤ n → fs_ready (n + 1) d → returns (fs_readdir d p) (λ '(_, d'), fs_ready n d');
  law_fs_mkdir n d p pm : 0 ≤ n → fs_ready (n + 1) d →
    returns (fs_mkdir d p pm) (λ '(_, d'), fs_ready n d');
  law_fs_rmdir n d p : 0 ≤ n → fs_ready (n + 1) d → returns (fs_rmdir d p) (λ '(_, d'), fs_ready n d');
}.
