(* ===== verification/Ext4.v ===== *)
(** * The ext4 file system

    Models [userspace/fs-service/src/ext4.rs]: the superblock and its parsing
    from raw bytes, the inode cache, the path map and the methods of the trait
    [FileSystem].  The device is not read or written by the source (its block
    routines are placeholders), so all state is [Ext4FileSystem].

    Abstraction: [abs], the map from paths to the metadata [fs_stat] reports.
    [ext4_refines_path_map] shows that every method is an operation on that
    map. *)
From S2P Require Import Prelude FileSystem.

(** ** Data *)
Record Ext4Superblock := {
  s_inodes_count : Z;
  s_blocks_count : Z;
  s_r_blocks_count : Z;
  s_free_blocks_count : Z;
  s_free_inodes_count : Z;
  s_first_data_block : Z;
  s_log_block_size : Z;
  s_log_cluster_size : Z;
  s_blocks_per_group : Z;
  s_clusters_per_group : Z;
  s_inodes_per_group : Z;
  s_mtime : Z;
  s_wtime : Z;
  s_mnt_count : Z;
  s_max_mnt_count : Z;
  s_magic : Z;
  s_state : Z;
  s_errors : Z;
  s_minor_rev_level : Z;
  s_lastcheck : Z;
  s_checkinterval : Z;
  s_creator_os : Z;
  s_rev_level : Z;
  s_def_resuid : Z;
  s_def_resgid : Z;
  s_first_ino : Z;
  s_inode_size : Z;
  s_block_group_nr : Z;
  s_feature_compat : Z;
  s_feature_incompat : Z;
  s_feature_ro_compat : Z;
  s_uuid : list Z;
  s_volume_name : list Z;
  s_last_mounted : list Z;
  s_algorithm_usage_bitmap : Z;
}.

Record Ext4Inode := {
  mode : Z;
  uid : Z;
  size_lo : Z;
  atime : Z;
  ctime : Z;
  mtime : Z;
  dtime : Z;
  gid : Z;
  links_count : Z;
  blocks_lo : Z;
  iflags : Z;
  osd1 : Z;
  block : list Z;
  generation : Z;
  file_acl_lo : Z;
  size_high : Z;
  obso_faddr : Z;
  osd2 : list Z;
  extra_isize : Z;
  checksum_hi : Z;
  ctime_extra : Z;
  mtime_extra : Z;
  atime_extra : Z;
  crtime : Z;
  crtime_extra : Z;
  version_hi : Z;
  projid : Z;
}.

Record Ext4FileSystem := {
  superblock : option Ext4Superblock;
  block_size : Z;
  inode_size : Z;
  device_id : option Z;
  mounted : bool;
  inode_cache : gmap Z Ext4Inode;
  path_to_inode : gmap string Z;
  next_inode : Z;
}.

Definition EXT4_SUPER_MAGIC : Z := 0xEF53.
Definition EXT4_MIN_BLOCK_SIZE : Z := 1024.
Definition EXT4_MAX_BLOCK_SIZE : Z := 65536.
Definition EXT4_FT_REG_FILE : Z := 1.
Definition EXT4_FT_DIR : Z := 2.
Definition EXT4_FT_CHRDEV : Z := 3.
Definition EXT4_FT_BLKDEV : Z := 4.
Definition EXT4_FT_FIFO : Z := 5.
Definition EXT4_FT_SOCK : Z := 6.
Definition EXT4_FT_SYMLINK : Z := 7.
Definition EXT4_S_IFREG : Z := 0x8000.
Definition EXT4_S_IFDIR : Z := 0x4000.
Definition EXT4_S_IFLNK : Z := 0xA000.
Definition EXT4_S_IFBLK : Z := 0x6000.
Definition EXT4_S_IFCHR : Z := 0x2000.
Definition EXT4_S_IFIFO : Z := 0x1000.
Definition EXT4_S_IFSOCK : Z := 0xC000.

Definition new : Ext4FileSystem := {|
  superblock := None; block_size := 0; inode_size := 0; device_id := None; mounted := false;
  inode_cache := ∅; path_to_inode := ∅; next_inode := 100;
|}.
Definition set_block_size (d : Ext4FileSystem) v : Ext4FileSystem := {|
  superblock := superblock d; block_size := v; inode_size := inode_size d; device_id := device_id d;
  mounted := mounted d; inode_cache := inode_cache d; path_to_inode := path_to_inode d;
  next_inode := next_inode d;
|}.
Definition set_inode_size (d : Ext4FileSystem) v : Ext4FileSystem := {|
  superblock := superblock d; block_size := block_size d; inode_size := v; device_id := device_id d;
  mounted := mounted d; inode_cache := inode_cache d; path_to_inode := path_to_inode d;
  next_inode := next_inode d;
|}.
Definition set_superblock (d : Ext4FileSystem) v : Ext4FileSystem := {|
  superblock := v; block_size := block_size d; inode_size := inode_size d; device_id := device_id d;
  mounted := mounted d; inode_cache := inode_cache d; path_to_inode := path_to_inode d;
  next_inode := next_inode d;
|}.
Definition set_device_id (d : Ext4FileSystem) v : Ext4FileSystem := {|
  superblock := superblock d; block_size := block_size d; inode_size := inode_size d; device_id := v;
  mounted := mounted d; inode_cache := inode_cache d; path_to_inode := path_to_inode d;
  next_inode := next_inode d;
|}.
Definition set_mounted (d : Ext4FileSystem) v : Ext4FileSystem := {|
  superblock := superblock d; block_size := block_size d; inode_size := inode_size d;
  device_id := device_id d; mounted := v; inode_cache := inode_cache d;
  path_to_inode := path_to_inode d; next_inode := next_inode d;
|}.
Definition set_cache (d : Ext4FileSystem) v : Ext4FileSystem := {|
  superblock := superblock d; block_size := block_size d; inode_size := inode_size d;
  device_id := device_id d; mounted := mounted d; inode_cache := v;
  path_to_inode := path_to_inode d; next_inode := next_inode d;
|}.
Definition set_paths (d : Ext4FileSystem) v : Ext4FileSystem := {|
  superblock := superblock d; block_size := block_size d; inode_size := inode_size d;
  device_id := device_id d; mounted := mounted d; inode_cache := inode_cache d;
  path_to_inode := v; next_inode := next_inode d;
|}.
Definition set_next_inode (d : Ext4FileSystem) v : Ext4FileSystem := {|
  superblock := superblock d; block_size := block_size d; inode_size := inode_size d;
  device_id := device_id d; mounted := mounted d; inode_cache := inode_cache d;
  path_to_inode := path_to_inode d; next_inode := v;
|}.

(** ** The superblock in memory

    The struct is packed: its fields follow each other, little endian. *)
Definition superblock_size : Z := 204.
Definition le (n : Z) (z : Z) : list Z := Z_to_little_endian n 8 z.
Definition superblock_bytes (s : Ext4Superblock) : list Z :=
  le 4 (s_inodes_count s) ++ le 4 (s_blocks_count s) ++ le 4 (s_r_blocks_count s) ++
  le 4 (s_free_blocks_count s) ++ le 4 (s_free_inodes_count s) ++ le 4 (s_first_data_block s) ++
  le 4 (s_log_block_size s) ++ le 4 (s_log_cluster_size s) ++ le 4 (s_blocks_per_group s) ++
  le 4 (s_clusters_per_group s) ++ le 4 (s_inodes_per_group s) ++ le 4 (s_mtime s) ++
  le 4 (s_wtime s) ++ le 2 (s_mnt_count s) ++ le 2 (s_max_mnt_count s) ++ le 2 (s_magic s) ++
  le 2 (s_state s) ++ le 2 (s_errors s) ++ le 2 (s_minor_rev_level s) ++ le 4 (s_lastcheck s) ++
  le 4 (s_checkinterval s) ++ le 4 (s_creator_os s) ++ le 4 (s_rev_level s) ++
  le 2 (s_def_resuid s) ++ le 2 (s_def_resgid s) ++ le 4 (s_first_ino s) ++ le 2 (s_inode_size s) ++
  le 2 (s_block_group_nr s) ++ le 4 (s_feature_compat s) ++ le 4 (s_feature_incompat s) ++
  le 4 (s_feature_ro_compat s) ++ s_uuid s ++ s_volume_name s ++ s_last_mounted s ++
  le 4 (s_algorithm_usage_bitmap s).

(** [field n k]: read an [n]-byte integer and go on with [k] on the rest. *)
Definition field {A} (n : Z) (k : Z → list Z → A) (l : list Z) : A :=
  k (little_endian_to_Z 8 (take (Z.to_nat n) l)) (drop (Z.to_nat n) l).
Definition bytes_field {A} (n : Z) (k : list Z → list Z → A) (l : list Z) : A :=
  k (take (Z.to_nat n) l) (drop (Z.to_nat n) l).
(** [ptr::read_unaligned(data.as_ptr() as *const Ext4Superblock)]. *)
Definition read_superblock : list Z → Ext4Superblock :=
  field 4 (λ a1, field 4 (λ a2, field 4 (λ a3, field 4 (λ a4, field 4 (λ a5, field 4 (λ a6,
  field 4 (λ a7, field 4 (λ a8, field 4 (λ a9, field 4 (λ a10, field 4 (λ a11, field 4 (λ a12,
  field 4 (λ a13, field 2 (λ a14, field 2 (λ a15, field 2 (λ a16, field 2 (λ a17, field 2 (λ a18,
  field 2 (λ a19, field 4 (λ a20, field 4 (λ a21, field 4 (λ a22, field 4 (λ a23, field 2 (λ a24,
  field 2 (λ a25, field 4 (λ a26, field 2 (λ a27, field 2 (λ a28, field 4 (λ a29, field 4 (λ a30,
  field 4 (λ a31, bytes_field 16 (λ a32, bytes_field 16 (λ a33, bytes_field 64 (λ a34,
  field 4 (λ a35 _, {|
    s_inodes_count := a1; s_blocks_count := a2; s_r_blocks_count := a3; s_free_blocks_count := a4;
    s_free_inodes_count := a5; s_first_data_block := a6; s_log_block_size := a7;
    s_log_cluster_size := a8; s_blocks_per_group := a9; s_clusters_per_group := a10;
    s_inodes_per_group := a11; s_mtime := a12; s_wtime := a13; s_mnt_count := a14;
    s_max_mnt_count := a15; s_magic := a16; s_state := a17; s_errors := a18;
    s_minor_rev_level := a19; s_lastcheck := a20; s_checkinterval := a21; s_creator_os := a22;
    s_rev_level := a23; s_def_resuid := a24; s_def_resgid := a25; s_first_ino := a26;
    s_inode_size := a27; s_block_group_nr := a28; s_feature_compat := a29;
    s_feature_incompat := a30; s_feature_ro_compat := a31; s_uuid := a32; s_volume_name := a33;
    s_last_mounted := a34; s_algorithm_usage_bitmap := a35;
  |}))))))))))))))))))))))))))))))))))).

(** [a << n] on [u32]: the shift amount is checked or masked, high bits are
    lost. *)
Definition ushl32 `{Profile} (a n : Z) : outcome Z :=
  if n <? 32 then Val (Z.shiftl a n mod 2 ^ 32)
  else if debug_assertions then Panic else Val (Z.shiftl a (n mod 32) mod 2 ^ 32).

Section ext4.
Context {P : Profile}.

Definition parse_superblock (d : Ext4FileSystem) (data : list Z) :
    outcome (result unit VfsError * Ext4FileSystem) :=
  if len data <? superblock_size then Val (Err IoError, d)
  else
    let sb := read_superblock data in
    if negb (s_magic sb =? EXT4_SUPER_MAGIC) then Val (Err IoError, d)
    else
      bs ← ushl32 EXT4_MIN_BLOCK_SIZE (s_log_block_size sb);
      let d := set_block_size d bs in
      if (bs <? EXT4_MIN_BLOCK_SIZE) || (EXT4_MAX_BLOCK_SIZE <? bs) then Val (Err IoError, d)
      else
        let isz := if 1 <=? s_rev_level sb then s_inode_size sb else 128 in
        let d := set_inode_size d isz in
        if (isz <? 128) || (bs mod 2 ^ 16 <? isz) then Val (Err IoError, d)
        else Val (Ok (), set_superblock d (Some sb)).

Definition ext4_to_vfs_file_type (ext4_type : Z) : FileType :=
  match_arms [(EXT4_FT_REG_FILE, Regular); (EXT4_FT_DIR, Directory); (EXT4_FT_SYMLINK, SymbolicLink);
              (EXT4_FT_BLKDEV, BlockDevice); (EXT4_FT_CHRDEV, CharacterDevice); (EXT4_FT_FIFO, Fifo);
              (EXT4_FT_SOCK, Socket)] ext4_type Regular.
Definition inode_mode_to_file_type (m : Z) : FileType :=
  match_arms [(EXT4_S_IFREG, Regular); (EXT4_S_IFDIR, Directory); (EXT4_S_IFLNK, SymbolicLink);
              (EXT4_S_IFBLK, BlockDevice); (EXT4_S_IFCHR, CharacterDevice); (EXT4_S_IFIFO, Fifo);
              (EXT4_S_IFSOCK, Socket)] (Z.land m 0xF000) Regular.
Definition inode_mode_to_permissions (m : Z) : Z := permissions_from_bits_truncate m.

(** The placeholder block read zeroes the first block of the buffer. *)
Definition read_block (d : Ext4FileSystem) (block_num : Z) (buffer : list Z) :
    result unit VfsError * list Z :=
  if len buffer <? block_size d then (Err IoError, buffer)
  else (Ok (), replicate (Z.to_nat (block_size d)) 0 ++ drop (Z.to_nat (block_size d)) buffer).
Definition write_block (d : Ext4FileSystem) (block_num : Z) (buffer : list Z) : result unit VfsError :=
  Ok ().

Definition placeholder_inode : Ext4Inode := {|
  mode := Z.lor EXT4_S_IFREG 420; uid := 0; size_lo := 0; atime := 0; ctime := 0; mtime := 0;
  dtime := 0; gid := 0; links_count := 1; blocks_lo := 0; iflags := 0; osd1 := 0;
  block := replicate 15 0; generation := 0; file_acl_lo := 0; size_high := 0; obso_faddr := 0;
  osd2 := replicate 12 0; extra_isize := 0; checksum_hi := 0; ctime_extra := 0; mtime_extra := 0;
  atime_extra := 0; crtime := 0; crtime_extra := 0; version_hi := 0; projid := 0;
|}.
Definition read_inode (d : Ext4FileSystem) (inode_num : Z) :
    outcome (result Ext4Inode VfsError * Ext4FileSystem) :=
  match inode_cache d !! inode_num with
  | Some inode => Val (Ok inode, d)
  | None =>
      match superblock d with
      | None => Val (Err NotMounted, d)
      | Some sb =>
          n ← usub 64 inode_num 1;
          _ ← udiv n (s_inodes_per_group sb);
          _ ← urem n (s_inodes_per_group sb);
          Val (Ok placeholder_inode, set_cache d (<[inode_num := placeholder_inode]> (inode_cache d)))
      end
  end.

(** [(size_high as u64) << 32 | size_lo as u64]. *)
Definition file_size (i : Ext4Inode) : Z := Z.lor (Z.shiftl (size_high i) 32 mod 2 ^ 64) (size_lo i).
Definition inode_to_metadata (inode_num : Z) (i : Ext4Inode) : FileMetadata := {|
  meta_inode := inode_num; file_type := inode_mode_to_file_type (mode i);
  permissions := inode_mode_to_permissions (mode i); size := file_size i; meta_uid := uid i;
  meta_gid := gid i; created_time := crtime i; modified_time := mtime i; accessed_time := atime i;
|}.
Definition resolve_path (d : Ext4FileSystem) (path : string) : result Z VfsError :=
  if bool_decide (path = "/"%string) then Ok 2
  else ok_or (path_to_inode d !! path) NotFound.

(** ** The methods of [FileSystem] *)
Definition init (d : Ext4FileSystem) : outcome (result unit VfsError * Ext4FileSystem) :=
  Val (Ok (), {| superblock := None; block_size := 0; inode_size := 0; device_id := device_id d;
                 mounted := false; inode_cache := ∅; path_to_inode := ∅; next_inode := 100 |}).

Definition test_superblock : Ext4Superblock := {|
  s_inodes_count := 1000; s_blocks_count := 10000; s_r_blocks_count := 500;
  s_free_blocks_count := 8000; s_free_inodes_count := 900; s_first_data_block := 1;
  s_log_block_size := 0; s_log_cluster_size := 0; s_blocks_per_group := 8192;
  s_clusters_per_group := 8192; s_inodes_per_group := 256; s_mtime := 0; s_wtime := 0;
  s_mnt_count := 1; s_max_mnt_count := 20; s_magic := EXT4_SUPER_MAGIC; s_state := 1; s_errors := 1;
  s_minor_rev_level := 0; s_lastcheck := 0; s_checkinterval := 0; s_creator_os := 0;
  s_rev_level := 1; s_def_resuid := 0; s_def_resgid := 0; s_first_ino := 11; s_inode_size := 256;
  s_block_group_nr := 0; s_feature_compat := 0; s_feature_incompat := 0; s_feature_ro_compat := 0;
  s_uuid := replicate 16 0; s_volume_name := replicate 16 0; s_last_mounted := replicate 64 0;
  s_algorithm_usage_bitmap := 0;
|}.
Definition mount (d : Ext4FileSystem) (device_id : option Z) :
    outcome (result unit VfsError * Ext4FileSystem) :=
  if mounted d then Val (Err MountPointBusy, d)
  else
    let d := set_device_id d device_id in
    try (parse_superblock d (superblock_bytes test_superblock)) (λ _ d, Val (Ok (), set_mounted d true)).

(** A method other than [init] and [mount] begins with this check. *)
Definition when_mounted {A} (d : Ext4FileSystem)
    (k : outcome (result A VfsError * Ext4FileSystem)) : outcome (result A VfsError * Ext4FileSystem) :=
  if negb (mounted d) then Val (Err NotMounted, d) else k.

Definition sync (d : Ext4FileSystem) : outcome (result unit VfsError * Ext4FileSystem) :=
  when_mounted d (Val (Ok (), d)).
Definition unmount (d : Ext4FileSystem) : outcome (result unit VfsError * Ext4FileSystem) :=
  when_mounted d (try (sync d) (λ _ d,
    Val (Ok (), {| superblock := None; block_size := 0; inode_size := 0; device_id := None;
                   mounted := false; inode_cache := ∅; path_to_inode := ∅; next_inode := 100 |}))).

(** [let inode_num = self.resolve_path(path)?; let inode = self.read_inode(inode_num)?;] *)
Definition lookup_path {A} (d : Ext4FileSystem) (path : string)
    (k : Z → Ext4Inode → Ext4FileSystem → outcome (result A VfsError * Ext4FileSystem)) :
    outcome (result A VfsError * Ext4FileSystem) :=
  match resolve_path d path with
  | Err e => Val (Err e, d)
  | Ok inode_num => try (read_inode d inode_num) (λ inode d, k inode_num inode d)
  end.

Definition open (d : Ext4FileSystem) (path : string) (_flags : Z) :
    outcome (result (Z * FileMetadata) VfsError * Ext4FileSystem) :=
  when_mounted d (lookup_path d path (λ inode_num inode d,
    Val (Ok (inode_num, inode_to_metadata inode_num inode), d))).
Definition close (d : Ext4FileSystem) (_inode : Z) : outcome (result unit VfsError * Ext4FileSystem) :=
  when_mounted d (Val (Ok (), d)).
Definition read (d : Ext4FileSystem) (inode_num offset : Z) (buffer : list Z) :
    outcome (result Z VfsError * list Z * Ext4FileSystem) :=
  if negb (mounted d) then Val (Err NotMounted, buffer, d)
  else
    '(r, d) ← read_inode d inode_num;
    match r with
    | Err e => Val (Err e, buffer, d)
    | Ok inode =>
        if file_size inode <=? offset then Val (Ok 0, buffer, d)
        else
          rest ← usub 64 (file_size inode) offset;
          let bytes_to_read := Z.min (len buffer) rest in
          Val (Ok bytes_to_read,
               replicate (Z.to_nat bytes_to_read) 0x42 ++ drop (Z.to_nat bytes_to_read) buffer, d)
    end.

Definition set_size (i : Ext4Inode) (new_size : Z) : Ext4Inode := {|
  mode := mode i; uid := uid i; size_lo := new_size mod 2 ^ 32; atime := atime i; ctime := ctime i;
  mtime := 1234567890; dtime := dtime i; gid := gid i; links_count := links_count i;
  blocks_lo := blocks_lo i; iflags := iflags i; osd1 := osd1 i; block := block i;
  generation := generation i; file_acl_lo := file_acl_lo i;
  size_high := Z.shiftr new_size 32 mod 2 ^ 32; obso_faddr := obso_faddr i; osd2 := osd2 i;
  extra_isize := extra_isize i; checksum_hi := checksum_hi i; ctime_extra := ctime_extra i;
  mtime_extra := mtime_extra i; atime_extra := atime_extra i; crtime := crtime i;
  crtime_extra := crtime_extra i; version_hi := version_hi i; projid := projid i;
|}.
Definition write (d : Ext4FileSystem) (inode_num offset : Z) (buffer : list Z) :
    outcome (result Z VfsError * Ext4FileSystem) :=
  when_mounted d (try (read_inode d inode_num) (λ inode d,
    if negb (bool_decide (inode_mode_to_file_type (mode inode) = Regular))
    then Val (Err PermissionDenied, d)
    else
      new_size ← uadd 64 offset (len buffer);
      let d := if file_size inode <? new_size
               then set_cache d (<[inode_num := set_size inode new_size]> (inode_cache d)) else d in
      Val (Ok (len buffer), d))).

Definition file_type_mode (t : FileType) : Z :=
  match t with
  | Regular => EXT4_S_IFREG
  | Directory => EXT4_S_IFDIR
  | SymbolicLink => EXT4_S_IFLNK
  | BlockDevice => EXT4_S_IFBLK
  | CharacterDevice => EXT4_S_IFCHR
  | Fifo => EXT4_S_IFIFO
  | Socket => EXT4_S_IFSOCK
  end.
Definition new_inode (t : FileType) (permissions : Z) : Ext4Inode := {|
  mode := Z.lor (file_type_mode t) permissions; uid := 0; size_lo := 0; atime := 1234567890;
  ctime := 1234567890; mtime := 1234567890; dtime := 0; gid := 0; links_count := 1; blocks_lo := 0;
  iflags := 0; osd1 := 0; block := replicate 15 0; generation := 1; file_acl_lo := 0;
  size_high := 0; obso_faddr := 0; osd2 := replicate 12 0; extra_isize := 0; checksum_hi := 0;
  ctime_extra := 0; mtime_extra := 0; atime_extra := 0; crtime := 1234567890; crtime_extra := 0;
  version_hi := 0; projid := 0;
|}.
Definition create (d : Ext4FileSystem) (path : string) (t : FileType) (permissions : Z) :
    outcome (result Z VfsError * Ext4FileSystem) :=
  when_mounted d
    (if bool_decide (is_Some (path_to_inode d !! path)) then Val (Err AlreadyExists, d)
     else
       let new_inode_num := next_inode d in
       n ← uadd 64 (next_inode d) 1;
       let d := set_next_inode d n in
       let d := set_cache d (<[new_inode_num := new_inode t permissions]> (inode_cache d)) in
       let d := set_paths d (<[path := new_inode_num]> (path_to_inode d)) in
       Val (Ok new_inode_num, d)).

Definition unlink (d : Ext4FileSystem) (path : string) : outcome (result unit VfsError * Ext4FileSystem) :=
  when_mounted d (lookup_path d path (λ inode_num inode d,
    if bool_decide (inode_mode_to_file_type (mode inode) = Directory) then Val (Err IsDirectory, d)
    else Val (Ok (), set_cache d (delete inode_num (inode_cache d))))).
Definition stat (d : Ext4FileSystem) (path : string) :
    outcome (result FileMetadata VfsError * Ext4FileSystem) :=
  when_mounted d (lookup_path d path (λ inode_num inode d,
    Val (Ok (inode_to_metadata inode_num inode), d))).
Definition dot_entries (inode_num : Z) : list DirectoryEntry := [
  {| entry_name := 46 :: replicate 255 0; name_len := 1; entry_inode := inode_num;
     entry_type := Directory |};
  {| entry_name := 46 :: 46 :: replicate 254 0; name_len := 2; entry_inode := 2;
     entry_type := Directory |}].
Definition readdir (d : Ext4FileSystem) (path : string) :
    outcome (result (list DirectoryEntry) VfsError * Ext4FileSystem) :=
  when_mounted d (lookup_path d path (λ inode_num inode d,
    if negb (bool_decide (inode_mode_to_file_type (mode inode) = Directory))
    then Val (Err NotDirectory, d) else Val (Ok (dot_entries inode_num), d))).
Definition mkdir (d : Ext4FileSystem) (path : string) (permissions : Z) :
    outcome (result unit VfsError * Ext4FileSystem) :=
  when_mounted d (try (create d path Directory permissions) (λ _ d, Val (Ok (), d))).
Definition rmdir (d : Ext4FileSystem) (path : string) : outcome (result unit VfsError * Ext4FileSystem) :=
  when_mounted d (lookup_path d path (λ inode_num inode d,
    if negb (bool_decide (inode_mode_to_file_type (mode inode) = Directory))
    then Val (Err NotDirectory, d)
    else Val (Ok (), set_cache d (delete inode_num (inode_cache d))))).

#[export] Instance ext4_filesystem : FileSystem Ext4FileSystem := {|
  fs_init := init; fs_mount := mount; fs_unmount := unmount; fs_open := open; fs_close := close;
  fs_read := read; fs_write := write; fs_create := create; fs_unlink := unlink; fs_stat := stat;
  fs_readdir := readdir; fs_mkdir := mkdir; fs_rmdir := rmdir; fs_sync := sync;
|}.
End ext4.

(** ** The superblock *)

(** The fields of a Rust value: words of their widths, arrays of their
    lengths. *)
Record superblock_typed (s : Ext4Superblock) : Prop := {
  typed_u32 : Forall (λ z, 0 ≤ z < 2 ^ 32)
    [s_inodes_count s; s_blocks_count s; s_r_blocks_count s; s_free_blocks_count s;
     s_free_inodes_count s; s_first_data_block s; s_log_block_size s; s_log_cluster_size s;
     s_blocks_per_group s; s_clusters_per_group s; s_inodes_per_group s; s_mtime s; s_wtime s;
     s_lastcheck s; s_checkinterval s; s_creator_os s; s_rev_level s; s_first_ino s;
     s_feature_compat s; s_feature_incompat s; s_feature_ro_compat s; s_algorithm_usage_bitmap s];
  typed_u16 : Forall (λ z, 0 ≤ z < 2 ^ 16)
    [s_mnt_count s; s_max_mnt_count s; s_magic s; s_state s; s_errors s; s_minor_rev_level s;
     s_def_resuid s; s_def_resgid s; s_inode_size s; s_block_group_nr s];
  typed_uuid : length (s_uuid s) = 16%nat;
  typed_volume_name : length (s_volume_name s) = 16%nat;
  typed_last_mounted : length (s_last_mounted s) = 64%nat;
}.

Lemma length_le n z : 0 ≤ n → length (le n z) = Z.to_nat n.
Proof.
  intros. unfold le. apply Nat2Z.inj. rewrite length_Z_to_little_endian by lia. lia.
Qed.
Lemma field_le {A} n (k : Z → list Z → A) z l :
  0 ≤ n → 0 ≤ z < 2 ^ (n * 8) → field n k (le n z ++ l) = k z l.
Proof.
  intros Hn Hz. unfold field.
  rewrite take_app_length', drop_app_length' by (rewrite length_le; lia). unfold le.
  by rewrite little_endian_to_Z_to_little_endian, Z.mod_small by lia.
Qed.
Lemma bytes_field_app {A} n (k : list Z → list Z → A) bs l :
  length bs = Z.to_nat n → bytes_field n k (bs ++ l) = k bs l.
Proof. intros Hn. unfold bytes_field. by rewrite take_app_length', drop_app_length'. Qed.

Lemma read_superblock_bytes s : superblock_typed s → read_superblock (superblock_bytes s) = s.
Proof.
  intros [H32 H16 Hu Hv Hm]. unfold superblock_bytes. rewrite <-(app_nil_r (le 4 (s_algorithm_usage_bitmap s))).
  unfold read_superblock.
  repeat match goal with H : Forall _ (_ :: _) |- _ => apply Forall_cons in H as [? H] end.
  repeat first [rewrite field_le by first [assumption | lia] | rewrite bytes_field_app by assumption].
  by destruct s.
Qed.
Lemma len_superblock_bytes s : superblock_typed s → len (superblock_bytes s) = superblock_size.
Proof.
  intros [_ _ Hu Hv Hm]. unfold len, superblock_bytes. rewrite !length_app, !length_le, Hu, Hv, Hm by lia.
  reflexivity.
Qed.

(** The inode size the superblock stands for. *)
Definition inode_size_of (s : Ext4Superblock) : Z := if 1 <=? s_rev_level s then s_inode_size s else 128.

Lemma shifted_block_size k : 0 ≤ k < 32 →
  Z.shiftl EXT4_MIN_BLOCK_SIZE k mod 2 ^ 32 = if k <=? 21 then 2 ^ (10 + k) else 0.
Proof.
  intros Hk. rewrite Z.shiftl_mul_pow2 by lia. change EXT4_MIN_BLOCK_SIZE with (2 ^ 10).
  rewrite <-Z.pow_add_r by lia. destruct (Z.leb_spec k 21).
  - apply Z.mod_small. split; [lia|]. apply Z.pow_lt_mono_r; lia.
  - replace (10 + k) with (k - 22 + 32) by lia. rewrite Z.pow_add_r by lia. apply Z_mod_mult.
Qed.
(** Powers of two compare as their exponents. *)
Lemma pow2_le_iff a b : 0 ≤ a → 0 ≤ b → 2 ^ a ≤ 2 ^ b ↔ a ≤ b.
Proof. intros. symmetry. apply Z.pow_le_mono_r_iff; lia. Qed.

Section parse.
Context {P : Profile}.

(** The shift amount the code shifts by, when it does not panic. *)
Lemma ushl32_eq a n : 0 ≤ n →
  ushl32 a n = if debug_assertions && (32 <=? n) then Panic
               else Val (Z.shiftl a (n mod 32) mod 2 ^ 32).
Proof.
  intros Hn. unfold ushl32. destruct (Z.ltb_spec n 32), (Z.leb_spec 32 n); try lia.
  - by rewrite andb_false_r, (Z.mod_small n 32) by lia.
  - rewrite andb_true_r. done.
Qed.

(** The two range checks on the block size [2^(10+k)] and the inode size. *)
Lemma size_checks k isz bs : 0 ≤ k < 32 → bs = (if k <=? 21 then 2 ^ (10 + k) else 0) →
  ((bs <? EXT4_MIN_BLOCK_SIZE) || (EXT4_MAX_BLOCK_SIZE <? bs) = bool_decide (6 < k)) ∧
  (k ≤ 6 → ((isz <? 128) || (bs mod 2 ^ 16 <? isz)) =
           negb (bool_decide (k ≤ 5 ∧ 128 ≤ isz ≤ 2 ^ (10 + k)))).
Proof.
  intros Hk ->. change EXT4_MIN_BLOCK_SIZE with (2 ^ 10). change EXT4_MAX_BLOCK_SIZE with (2 ^ 16).
  split.
  - destruct (Z.leb_spec k 21).
    + pose proof (pow2_le_iff 10 (10 + k) ltac:(lia) ltac:(lia)).
      pose proof (pow2_le_iff (10 + k) 16 ltac:(lia) ltac:(lia)).
      destruct (Z.ltb_spec (2 ^ (10 + k)) (2 ^ 10)), (Z.ltb_spec (2 ^ 16) (2 ^ (10 + k)));
        simpl; symmetry; first [apply bool_decide_eq_true | apply bool_decide_eq_false]; lia.
    + symmetry. apply bool_decide_eq_true. lia.
  - intros Hk6. destruct (decide (k = 6)) as [->|].
    + rewrite bool_decide_false by lia. change ((if 6 <=? 21 then 2 ^ (10 + 6) else 0) mod 2 ^ 16) with 0.
      destruct (Z.ltb_spec isz 128), (Z.ltb_spec 0 isz); try done; lia.
    + rewrite (proj2 (Z.leb_le k 21)) by lia.
      assert (2 ^ (10 + k) ≤ 2 ^ 15) by (apply Z.pow_le_mono_r; lia).
      rewrite Z.mod_small by lia.
      destruct (Z.ltb_spec isz 128), (Z.ltb_spec (2 ^ (10 + k)) isz); simpl; symmetry;
        first [apply negb_true_iff, bool_decide_eq_false | apply negb_false_iff, bool_decide_eq_true]; lia.
Qed.

(** Parsing the packed bytes of a superblock (with anything after them)
    recovers every field.  The result is a panic exactly when overflow checks
    are on and the shift amount is 32 or more; the superblock is stored exactly
    when the magic number is right, the shift is at most 5 (so 64 KiB blocks,
    allowed by the range check, are refused) and the inode size lies between 128
    and the block size; otherwise the answer is an I/O error. *)
Theorem parse_superblock_accepts d s :
  superblock_typed s →
  let k := s_log_block_size s mod 32 in
  parse_superblock d (superblock_bytes s) =
    if negb (s_magic s =? EXT4_SUPER_MAGIC) then Val (Err IoError, d)
    else if debug_assertions && (32 <=? s_log_block_size s) then Panic
    else if bool_decide (k ≤ 5 ∧ 128 ≤ inode_size_of s ≤ 2 ^ (10 + k))
    then Val (Ok (), set_superblock (set_inode_size (set_block_size d (2 ^ (10 + k))) (inode_size_of s)) (Some s))
    else let bs := if k <=? 21 then 2 ^ (10 + k) else 0 in
         let d := set_block_size d bs in
         Val (Err IoError, if bool_decide (6 < k) then d else set_inode_size d (inode_size_of s)).
Proof.
  intros Hs k. unfold parse_superblock.
  rewrite len_superblock_bytes, Z.ltb_irrefl, read_superblock_bytes by done.
  destruct (negb _); [done|].
  assert (0 ≤ s_log_block_size s) as Hl
    by (destruct Hs as [H32 _ _ _ _]; rewrite Forall_forall in H32; apply H32; set_solver).
  rewrite ushl32_eq by done. destruct (debug_assertions && _); [done|]. cbn [mbind outcome_bind].
  assert (0 ≤ k < 32) as Hk by (apply Z.mod_pos_bound; lia).
  fold k. rewrite shifted_block_size by done. fold (inode_size_of s).
  destruct (size_checks k (inode_size_of s) _ Hk eq_refl) as [-> Hc].
  destruct (decide (6 < k)).
  { rewrite bool_decide_true, (bool_decide_false (k ≤ 5 ∧ _)) by lia. done. }
  rewrite (bool_decide_false (6 < k)), Hc by lia.
  case_bool_decide as Hb; [|done]. by rewrite (proj2 (Z.leb_le k 21)) by lia.
Qed.
End parse.

Lemma test_superblock_typed : superblock_typed test_superblock.
Proof.
  split; [| |done..]; repeat (apply Forall_cons_2; [vm_compute; intuition congruence|]); by apply Forall_nil_2.
Qed.
Lemma parse_superblock_accepts_witness :
  @parse_superblock release new (superblock_bytes test_superblock) =
    Val (Ok (), set_superblock (set_inode_size (set_block_size new 1024) 256) (Some test_superblock)).
Proof. exact (@parse_superblock_accepts release new test_superblock test_superblock_typed). Defined.

(** ** The abstract file system: paths and their metadata

    [files] are the paths that resolve and what [stat] reports for them, [names]
    the paths that [create] refuses, [next] the next inode number.  The root
    resolves without having been created. *)
Record PathMap := {
  files : gmap string FileMetadata;
  names : gset string;
  next : Z;
}.

Definition inode_at (d : Ext4FileSystem) (i : Z) : Ext4Inode :=
  default placeholder_inode (inode_cache d !! i).
Definition meta_at (d : Ext4FileSystem) (i : Z) : FileMetadata := inode_to_metadata i (inode_at d i).
Definition abs (d : Ext4FileSystem) : PathMap := {|
  files := <["/"%string := meta_at d 2]> (meta_at d <$> path_to_inode d);
  names := dom (path_to_inode d);
  next := next_inode d;
|}.

(** The requests of a client that knows paths: reading and writing open the
    path first. *)
Inductive request :=
  | RStat (p : string)
  | RCreate (p : string) (t : FileType) (pm : Z)
  | RWrite (p : string) (off : Z) (data : list Z)
  | RRead (p : string) (off : Z) (buffer : list Z)
  | RUnlink (p : string)
  | RReaddir (p : string)
  | RMkdir (p : string) (pm : Z)
  | RRmdir (p : string).
Inductive reply :=
  | Done
  | Meta (m : FileMetadata)
  | Inode (i : Z)
  | Count (n : Z)
  | Bytes (n : Z) (buffer : list Z)
  | Entries (l : list DirectoryEntry).

Definition map_ok {A B E} (f : A → B) (r : result A E) : result B E :=
  match r with Ok a => Ok (f a) | Err e => Err e end.
Definition reply_of {A} (f : A → reply) (o : outcome (result A VfsError * Ext4FileSystem)) :
    outcome (result reply VfsError * Ext4FileSystem) :=
  '(r, d) ← o; Val (map_ok f r, d).

Section client.
Context {P : Profile}.

Definition serve (d : Ext4FileSystem) (q : request) : outcome (result reply VfsError * Ext4FileSystem) :=
  match q with
  | RStat p => reply_of Meta (stat d p)
  | RCreate p t pm => reply_of Inode (create d p t pm)
  | RWrite p off data => try (open d p READ_WRITE) (λ '(i, _) d, reply_of Count (write d i off data))
  | RRead p off buffer => try (open d p READ_ONLY) (λ '(i, _) d,
      '(r, buffer, d) ← read d i off buffer; Val (map_ok (λ n, Bytes n buffer) r, d))
  | RUnlink p => reply_of (λ _, Done) (unlink d p)
  | RReaddir p => reply_of Entries (readdir d p)
  | RMkdir p pm => reply_of (λ _, Done) (mkdir d p pm)
  | RRmdir p => reply_of (λ _, Done) (rmdir d p)
  end.

Fixpoint serve_all (d : Ext4FileSystem) (qs : list request) :
    outcome (list (result reply VfsError) * Ext4FileSystem) :=
  match qs with
  | [] => Val ([], d)
  | q :: qs =>
      '(r, d) ← serve d q;
      '(rs, d) ← serve_all d qs;
      Val (r :: rs, d)
  end.
End client.

(** *** What each request means on the path map *)
Definition fresh_metadata (i : Z) (t : FileType) (pm : Z) : FileMetadata := {|
  meta_inode := i; file_type := t; permissions := pm; size := 0; meta_uid := 0; meta_gid := 0;
  created_time := 1234567890; modified_time := 1234567890; accessed_time := 1234567890;
|}.
(** What is reported for an inode that was removed, or for the root: an empty
    regular file with the permissions 0o644. *)
Definition default_metadata (i : Z) : FileMetadata := {|
  meta_inode := i; file_type := Regular; permissions := 420; size := 0; meta_uid := 0; meta_gid := 0;
  created_time := 0; modified_time := 0; accessed_time := 0;
|}.
Definition extended (m : FileMetadata) (new_size : Z) : FileMetadata :=
  if size m <? new_size then {|
    meta_inode := meta_inode m; file_type := file_type m; permissions := permissions m;
    size := new_size; meta_uid := meta_uid m; meta_gid := meta_gid m; created_time := created_time m;
    modified_time := 1234567890; accessed_time := accessed_time m |}
  else m.

Definition set_file (a : PathMap) (p : string) (m : FileMetadata) : PathMap :=
  {| files := <[p := m]> (files a); names := names a; next := next a |}.
Definition spec_at {R} (a : PathMap) (p : string) (k : FileMetadata → result R VfsError * PathMap) :
    result R VfsError * PathMap :=
  match files a !! p with None => (Err NotFound, a) | Some m => k m end.
Definition spec_create (a : PathMap) (p : string) (t : FileType) (pm : Z) : result Z VfsError * PathMap :=
  if decide (p ∈ names a) then (Err AlreadyExists, a)
  else (Ok (next a),
        {| files := if decide (p = "/"%string) then files a
                    else <[p := fresh_metadata (next a) t pm]> (files a);
           names := {[p]} ∪ names a; next := next a + 1 |}).
(** Bytes read are 0x42 up to the end of the file. *)
Definition spec_read (m : FileMetadata) (off : Z) (buffer : list Z) : reply :=
  let n := Z.max 0 (Z.min (len buffer) (size m - off)) in
  Bytes n (replicate (Z.to_nat n) 0x42 ++ drop (Z.to_nat n) buffer).

Definition spec_serve (a : PathMap) (q : request) : result reply VfsError * PathMap :=
  match q with
  | RStat p => spec_at a p (λ m, (Ok (Meta m), a))
  | RCreate p t pm => let '(r, a') := spec_create a p t pm in (map_ok Inode r, a')
  | RWrite p off data => spec_at a p (λ m,
      if decide (file_type m = Regular) then (Ok (Count (len data)), set_file a p (extended m (off + len data)))
      else (Err PermissionDenied, a))
  | RRead p off buffer => spec_at a p (λ m, (Ok (spec_read m off buffer), a))
  | RUnlink p => spec_at a p (λ m,
      if decide (file_type m = Directory) then (Err IsDirectory, a)
      else (Ok Done, set_file a p (default_metadata (meta_inode m))))
  | RReaddir p => spec_at a p (λ m,
      if decide (file_type m = Directory) then (Ok (Entries (dot_entries (meta_inode m))), a)
      else (Err NotDirectory, a))
  | RMkdir p pm => let '(r, a') := spec_create a p Directory pm in (map_ok (λ _, Done) r, a')
  | RRmdir p => spec_at a p (λ m,
      if decide (file_type m = Directory) then (Ok Done, set_file a p (default_metadata (meta_inode m)))
      else (Err NotDirectory, a))
  end.
Fixpoint spec_serve_all (a : PathMap) (qs : list request) : list (result reply VfsError) * PathMap :=
  match qs with
  | [] => ([], a)
  | q :: qs =>
      let '(r, a) := spec_serve a q in
      let '(rs, a) := spec_serve_all a qs in (r :: rs, a)
  end.

(** Permissions are declared bits; a write ends below 2^64. *)
Definition request_ok (q : request) : Prop :=
  match q with
  | RCreate _ _ pm | RMkdir _ pm => 0 ≤ pm ≤ permission_bits
  | RWrite _ off data => 0 ≤ off ∧ off + len data < 2 ^ 64
  | RRead _ off _ => 0 ≤ off
  | _ => True
  end.

(** ** The invariant *)
Definition inode_ok (i : Ext4Inode) : Prop := 0 ≤ size_lo i < 2 ^ 32 ∧ 0 ≤ size_high i < 2 ^ 32.
Record ext4_inv (d : Ext4FileSystem) : Prop := {
  inv_mounted : mounted d = true;
  inv_superblock : ∃ sb, superblock d = Some sb ∧ s_inodes_per_group sb ≠ 0;
  inv_inodes : map_Forall (λ _ i, inode_ok i) (inode_cache d);
  inv_next : 100 ≤ next_inode d < 2 ^ 64;
  inv_paths : map_Forall (λ _ i, 100 ≤ i < next_inode d) (path_to_inode d);
  inv_inj : ∀ p q i, path_to_inode d !! p = Some i → path_to_inode d !! q = Some i → p = q;
}.

(** *** The size of a file in its two halves *)
Lemma lor_halves hi lo : 0 ≤ hi < 2 ^ 32 → 0 ≤ lo < 2 ^ 32 →
  Z.lor (Z.shiftl hi 32 mod 2 ^ 64) lo = hi * 2 ^ 32 + lo.
Proof.
  intros. rewrite Z.shiftl_mul_pow2 by lia. rewrite Z.mod_small by nia.
  rewrite <-(Z.shiftl_mul_pow2 hi 32) by lia. rewrite <-Z.add_lor_land.
  assert (Z.land (Z.shiftl hi 32) lo = 0) as ->; [|lia].
  apply Z.bits_inj'. intros n Hn. rewrite Z.land_spec, Z.bits_0.
  destruct (decide (n < 32)).
  - by rewrite Z.shiftl_spec_low.
  - rewrite (Z.bits_above_log2 lo n), andb_false_r; [done|lia|].
    destruct (decide (lo = 0)) as [->|]; [simpl; lia|]. apply Z.log2_lt_pow2; [lia|].
    apply Z.lt_le_trans with (2 ^ 32); [lia|]. apply Z.pow_le_mono_r; lia.
Qed.
Lemma file_size_set_size i n : 0 ≤ n < 2 ^ 64 → file_size (set_size i n) = n.
Proof.
  intros. unfold file_size. simpl. rewrite Z.shiftr_div_pow2 by lia.
  rewrite (Z.mod_small (n / 2 ^ 32)) by divlia. rewrite lor_halves by divlia. divlia.
Qed.
Lemma file_size_range i : inode_ok i → 0 ≤ file_size i < 2 ^ 64.
Proof. intros [? ?]. unfold file_size. rewrite lor_halves by done. lia. Qed.
Lemma set_size_ok i n : inode_ok (set_size i n).
Proof. split; simpl; apply Z.mod_pos_bound; lia. Qed.

(** *** File type and permissions in the mode *)
Lemma land_mode_type t pm : 0 ≤ pm ≤ permission_bits →
  Z.land (Z.lor (file_type_mode t) pm) 0xF000 = file_type_mode t ∧
  Z.land (Z.lor (file_type_mode t) pm) permission_bits = pm.
Proof.
  unfold permission_bits. intros Hpm. rewrite !Z.land_lor_distr_l.
  assert (Z.land pm 511 = pm) as Hp.
  { change 511 with (Z.ones 9). rewrite Z.land_ones, Z.mod_small by lia. done. }
  assert (Z.land pm 0xF000 = 0) as ->.
  { rewrite <-Hp, <-Z.land_assoc. apply Z.land_0_r. }
  rewrite Hp. by destruct t.
Qed.
Lemma new_inode_metadata i t pm : 0 ≤ pm ≤ permission_bits →
  inode_to_metadata i (new_inode t pm) = fresh_metadata i t pm.
Proof.
  intros [Ht Hp]%(land_mode_type t). unfold inode_to_metadata, fresh_metadata. simpl.
  unfold inode_mode_to_file_type, inode_mode_to_permissions, permissions_from_bits_truncate.
  rewrite Ht, Hp. f_equal. by destruct t.
Qed.
Lemma extended_metadata i x n : inode_ok x → 0 ≤ n < 2 ^ 64 →
  inode_to_metadata i (if file_size x <? n then set_size x n else x) = extended (inode_to_metadata i x) n.
Proof.
  intros Hx Hn. unfold extended, inode_to_metadata at 2. simpl. destruct (_ <? n); [|done].
  unfold inode_to_metadata. by rewrite file_size_set_size.
Qed.

(** ** Methods against the abstraction *)

(** [d'] differs from [d] at most in cached copies of what [d] would read. *)
Record same (d d' : Ext4FileSystem) : Prop := {
  same_inv : ext4_inv d';
  same_paths : path_to_inode d' = path_to_inode d;
  same_next : next_inode d' = next_inode d;
  same_inode : ∀ i, inode_at d' i = inode_at d i;
}.
Lemma same_refl d : ext4_inv d → same d d.
Proof. by split. Qed.
Lemma same_meta d d' i : same d d' → meta_at d' i = meta_at d i.
Proof. intros [_ _ _ Hi]. unfold meta_at. by rewrite Hi. Qed.
Lemma same_abs d d' : same d d' → abs d' = abs d.
Proof.
  intros Hs. unfold abs. rewrite (same_paths _ _ Hs), (same_next _ _ Hs), (same_meta _ _ _ Hs).
  f_equal. f_equal. apply map_fmap_ext. intros. by apply same_meta.
Qed.
Lemma inode_at_ok d i : ext4_inv d → inode_ok (inode_at d i).
Proof.
  intros Hd. unfold inode_at. destruct (inode_cache d !! i) eqn:E; simpl; [|by split].
  by apply (inv_inodes _ Hd i).
Qed.
Lemma set_cache_inv d c : ext4_inv d → map_Forall (λ _ i, inode_ok i) c → ext4_inv (set_cache d c).
Proof. intros []. by split. Qed.

Lemma files_lookup d p m : files (abs d) !! p = Some m →
  resolve_path d p = Ok (meta_inode m) ∧ m = meta_at d (meta_inode m).
Proof.
  unfold resolve_path. simpl. case_bool_decide as Hp.
  - subst. rewrite lookup_insert_eq. by intros [= <-].
  - rewrite lookup_insert_ne, lookup_fmap by done.
    destruct (path_to_inode d !! p); simpl; [|done]. by intros [= <-].
Qed.
Lemma files_lookup_None d p : files (abs d) !! p = None → resolve_path d p = Err NotFound.
Proof.
  unfold resolve_path. simpl. case_bool_decide as Hp.
  - subst. by rewrite lookup_insert_eq.
  - rewrite lookup_insert_ne, lookup_fmap by done. by destruct (path_to_inode d !! p).
Qed.
Lemma files_inode_range d p m : ext4_inv d → files (abs d) !! p = Some m → 1 ≤ meta_inode m < 2 ^ 64.
Proof.
  intros Hd. simpl. destruct (decide ("/"%string = p)) as [<-|].
  - rewrite lookup_insert_eq. intros [= <-]. simpl. lia.
  - rewrite lookup_insert_ne, lookup_fmap by done.
    destruct (path_to_inode d !! p) as [i|] eqn:E; simpl; [|done]. intros [= <-]. simpl.
    pose proof (inv_paths _ Hd _ _ E). pose proof (inv_next _ Hd). simpl in *. lia.
Qed.
(** Two paths that resolve to the same inode are the same path. *)
Lemma files_inj d p q m m' : ext4_inv d → files (abs d) !! p = Some m → files (abs d) !! q = Some m' →
  meta_inode m = meta_inode m' → p = q.
Proof.
  intros Hd. simpl.
  destruct (decide ("/"%string = p)) as [<-|], (decide ("/"%string = q)) as [<-|]; try done;
    rewrite ?lookup_insert_eq, ?lookup_insert_ne, ?lookup_fmap by done;
    repeat (match goal with |- context [path_to_inode d !! ?x] =>
      let E := fresh "E" in destruct (path_to_inode d !! x) as [?|] eqn:E; simpl; [|naive_solver] end);
    intros; simplify_eq/=.
  - pose proof (inv_paths _ Hd _ _ E). simpl in *. lia.
  - pose proof (inv_paths _ Hd _ _ E). simpl in *. lia.
  - by eapply (inv_inj _ Hd).
Qed.

(** Changing the cached inode of one path changes that path's metadata. *)
Lemma set_cache_abs d p m c :
  ext4_inv d → files (abs d) !! p = Some m → map_Forall (λ _ i, inode_ok i) c →
  (∀ j, j ≠ meta_inode m → c !! j = inode_cache d !! j) →
  ext4_inv (set_cache d c) ∧
  abs (set_cache d c) =
    set_file (abs d) p (inode_to_metadata (meta_inode m) (default placeholder_inode (c !! meta_inode m))).
Proof.
  intros Hd Hm Hc Hj. split; [by apply set_cache_inv|]. unfold set_file.
  assert (∀ q m', files (abs d) !! q = Some m' → files (abs (set_cache d c)) !! q = Some
    (if decide (q = p) then inode_to_metadata (meta_inode m) (default placeholder_inode (c !! meta_inode m))
     else m')) as Hq.
  { intros q m' Hq. destruct (files_lookup _ _ _ Hq) as [Hr Hm'].
    assert (files (abs (set_cache d c)) !! q = Some (meta_at (set_cache d c) (meta_inode m'))) as ->.
    { simpl in Hq |- *. destruct (decide ("/"%string = q)) as [<-|].
      - rewrite lookup_insert_eq in Hq |- *. by simplify_eq.
      - rewrite lookup_insert_ne, lookup_fmap in Hq |- * by done.
        destruct (path_to_inode d !! q); by simplify_eq/=. }
    destruct (decide (q = p)) as [->|Hqp]; [by simplify_eq|].
    rewrite Hm' at 2. unfold meta_at, inode_at. simpl. rewrite Hj; [done|].
    intros Heq. apply Hqp. by eapply files_inj. }
  assert (∀ q, files (abs d) !! q = None → files (abs (set_cache d c)) !! q = None) as Hn.
  { intros q. simpl. destruct (decide ("/"%string = q)) as [<-|].
    - by rewrite lookup_insert_eq.
    - rewrite !lookup_insert_ne, !lookup_fmap by done. by destruct (path_to_inode d !! q). }
  assert (files (abs (set_cache d c)) = <[p := inode_to_metadata (meta_inode m)
    (default placeholder_inode (c !! meta_inode m))]> (files (abs d))) as Hf.
  { apply map_eq. intros q. destruct (files (abs d) !! q) as [m'|] eqn:E.
    - rewrite (Hq _ _ E). case_decide as Hqp; [subst; by rewrite lookup_insert_eq|].
      by rewrite lookup_insert_ne.
    - rewrite (Hn _ E), lookup_insert_ne; [done|]. intros ->. congruence. }
  rewrite <-Hf. done.
Qed.

Section methods.
Context {P : Profile}.
Implicit Types d : Ext4FileSystem.

Lemma read_inode_spec d i : ext4_inv d → 1 ≤ i < 2 ^ 64 →
  ∃ d', read_inode d i = Val (Ok (inode_at d i), d') ∧ same d d'.
Proof.
  intros Hd Hi. unfold read_inode, inode_at. destruct (inode_cache d !! i) as [x|] eqn:E; simpl.
  { exists d. split; [done|by apply same_refl]. }
  destruct (inv_superblock _ Hd) as (sb & -> & Hg).
  rewrite usub_val by lia. cbn [mbind outcome_bind].
  rewrite udiv_val, urem_val by done. cbn [mbind outcome_bind].
  eexists. split; [done|]. split; simpl; try done.
  - apply set_cache_inv; [done|]. apply map_Forall_insert_2; [by split|]. apply (inv_inodes _ Hd).
  - intros j. unfold inode_at. simpl. destruct (decide (j = i)) as [->|].
    + by rewrite lookup_insert_eq, E.
    + by rewrite lookup_insert_ne.
Qed.

(** Resolving a path and reading its inode, in terms of the abstraction. *)
Lemma lookup_path_spec {A} d p (k : Z → Ext4Inode → Ext4FileSystem → outcome (result A VfsError * _)) :
  ext4_inv d →
  match files (abs d) !! p with
  | None => lookup_path d p k = Val (Err NotFound, d)
  | Some m => ∃ d', lookup_path d p k = k (meta_inode m) (inode_at d (meta_inode m)) d' ∧ same d d' ∧
                m = meta_at d (meta_inode m)
  end.
Proof.
  intros Hd. unfold lookup_path. destruct (files (abs d) !! p) as [m|] eqn:E.
  - pose proof (files_inode_range _ _ _ Hd E). apply files_lookup in E as [-> Hm].
    destruct (read_inode_spec d (meta_inode m)) as (d' & -> & Hs); [done..|].
    exists d'. by unfold try.
  - by rewrite (files_lookup_None _ _ E).
Qed.
Lemma when_mounted_inv {A} d (k : outcome (result A VfsError * Ext4FileSystem)) :
  ext4_inv d → when_mounted d k = k.
Proof. intros Hd. unfold when_mounted. by rewrite (inv_mounted _ Hd). Qed.
Lemma meta_type d i : inode_mode_to_file_type (mode (inode_at d i)) = file_type (meta_at d i).
Proof. done. Qed.

(** [o] answers as the path map [a] does with [(r, a')], and the state after it
    is abstracted by [a']; at most one inode number is used. *)
Definition simulates {R} (d : Ext4FileSystem) (o : outcome (result R VfsError * Ext4FileSystem))
    (ra : result R VfsError * PathMap) : Prop :=
  ∃ d', o = Val (ra.1, d') ∧ abs d' = ra.2 ∧ ext4_inv d' ∧ next_inode d ≤ next_inode d' ≤ next_inode d + 1.

Lemma simulates_same {R} d d' (r : result R VfsError) : same d d' → simulates d (Val (r, d')) (r, abs d).
Proof.
  intros Hs. exists d'. rewrite (same_abs _ _ Hs), (same_next _ _ Hs). pose proof (same_inv _ _ Hs).
  split_and!; try done; lia.
Qed.
Lemma simulates_cache {R} d d' p m c (r : result R VfsError) m' :
  same d d' → files (abs d) !! p = Some m → map_Forall (λ _ i, inode_ok i) c →
  (∀ j, j ≠ meta_inode m → c !! j = inode_cache d' !! j) →
  inode_to_metadata (meta_inode m) (default placeholder_inode (c !! meta_inode m)) = m' →
  simulates d (Val (r, set_cache d' c)) (r, set_file (abs d) p m').
Proof.
  intros Hs Hm Hc Hj <-. exists (set_cache d' c). rewrite <-(same_abs _ _ Hs) in Hm |- *.
  destruct (set_cache_abs d' p m c (same_inv _ _ Hs) Hm Hc Hj) as [? ->].
  split_and!; try done; simpl; rewrite (same_next _ _ Hs); lia.
Qed.
(** Removing the cached inode of a path resets its metadata. *)
Lemma simulates_delete {R} d d' p m (r : result R VfsError) :
  same d d' → files (abs d) !! p = Some m →
  simulates d (Val (r, set_cache d' (delete (meta_inode m) (inode_cache d'))))
    (r, set_file (abs d) p (default_metadata (meta_inode m))).
Proof.
  intros Hs Hm. apply (simulates_cache d d' p m); try done.
  - apply map_Forall_delete, (inv_inodes _ (same_inv _ _ Hs)).
  - intros j Hj. by rewrite lookup_delete_ne.
  - by rewrite lookup_delete_eq.
Qed.
Lemma simulates_reply {A} d (f : A → reply) o ra :
  simulates d o ra → simulates d (reply_of f o) (map_ok f ra.1, ra.2).
Proof. intros (d' & -> & ? & ? & ?). by exists d'. Qed.

(** The file system after a successful [create]. *)
Definition created d p t pm : Ext4FileSystem :=
  set_paths (set_cache (set_next_inode d (next_inode d + 1))
    (<[next_inode d := new_inode t pm]> (inode_cache d))) (<[p := next_inode d]> (path_to_inode d)).
Lemma created_inv d p t pm :
  ext4_inv d → next_inode d + 1 < 2 ^ 64 → path_to_inode d !! p = None → ext4_inv (created d p t pm).
Proof.
  intros Hd Hroom Hp. pose proof (inv_next _ Hd). split; simpl.
  - apply (inv_mounted _ Hd).
  - apply (inv_superblock _ Hd).
  - apply map_Forall_insert_2; [by split|apply (inv_inodes _ Hd)].
  - lia.
  - apply map_Forall_insert_2; [lia|]. intros q i Hq. pose proof (inv_paths _ Hd _ _ Hq). simpl in *. lia.
  - intros q1 q2 i. rewrite !lookup_insert_Some. intros Hq1 Hq2.
    destruct Hq1 as [[<- <-]|[? Hq1]], Hq2 as [[<- Hi]|[? Hq2]]; try done.
    + pose proof (inv_paths _ Hd _ _ Hq2). simpl in *. lia.
    + pose proof (inv_paths _ Hd _ _ Hq1). simpl in *. lia.
    + by eapply (inv_inj _ Hd).
Qed.
Lemma created_abs d p t pm :
  ext4_inv d → 0 ≤ pm ≤ permission_bits → p ∉ names (abs d) →
  abs (created d p t pm) = (spec_create (abs d) p t pm).2.
Proof.
  intros Hd Hpm Hp. pose proof (inv_next _ Hd).
  assert (∀ j, j ≠ next_inode d → meta_at (created d p t pm) j = meta_at d j) as Hold.
  { intros j Hj. unfold meta_at, inode_at. simpl. by rewrite lookup_insert_ne. }
  assert (meta_at (created d p t pm) (next_inode d) = fresh_metadata (next_inode d) t pm) as Hnew.
  { unfold meta_at, inode_at. simpl. rewrite lookup_insert_eq. by apply new_inode_metadata. }
  unfold spec_create. rewrite decide_False by done. simpl. unfold abs at 1. f_equal; simpl.
  - rewrite fmap_insert, Hnew, Hold by lia.
    rewrite (map_fmap_ext (meta_at (created d p t pm)) (meta_at d)).
    2:{ intros q i Hq. apply Hold. pose proof (inv_paths _ Hd _ _ Hq). simpl in *. lia. }
    case_decide as Hr; [subst; by rewrite insert_insert_eq|]. by rewrite insert_insert_ne.
  - by rewrite dom_insert_L.
Qed.
Lemma create_eq d p t pm : ext4_inv d → next_inode d + 1 < 2 ^ 64 →
  create d p t pm = if decide (p ∈ names (abs d)) then Val (Err AlreadyExists, d)
                    else Val (Ok (next_inode d), created d p t pm).
Proof.
  intros Hd Hroom. unfold create. rewrite when_mounted_inv by done. simpl.
  case_bool_decide as Hp; rewrite <-elem_of_dom in Hp.
  - by rewrite decide_True.
  - rewrite decide_False by done. pose proof (inv_next _ Hd). by rewrite uadd_val by lia.
Qed.
Lemma create_simulates d p t pm :
  ext4_inv d → 0 ≤ pm ≤ permission_bits → next_inode d + 1 < 2 ^ 64 →
  simulates d (create d p t pm) (spec_create (abs d) p t pm).
Proof.
  intros Hd Hpm Hroom. rewrite create_eq by done. unfold spec_create at 1. case_decide as Hp.
  - by apply simulates_same, same_refl.
  - exists (created d p t pm). rewrite created_abs by done. unfold spec_create.
    rewrite (decide_False (P:=p ∈ names (abs d))) by done.
    split_and!; [done|done| |simpl; lia..]. apply created_inv; [done..|]. by apply not_elem_of_dom.
Qed.

Lemma write_spec d i off buf :
  ext4_inv d → 1 ≤ i < 2 ^ 64 → 0 ≤ off → off + len buf < 2 ^ 64 →
  ∃ d', same d d' ∧ write d i off buf =
    if decide (file_type (meta_at d i) = Regular)
    then Val (Ok (len buf), if file_size (inode_at d i) <? off + len buf
                            then set_cache d' (<[i := set_size (inode_at d i) (off + len buf)]> (inode_cache d'))
                            else d')
    else Val (Err PermissionDenied, d').
Proof.
  intros Hd Hi Hoff Hbuf. unfold write. rewrite when_mounted_inv by done.
  destruct (read_inode_spec d i) as (d' & -> & Hs); [done..|]. exists d'. split; [done|].
  unfold try at 1. cbn [mbind outcome_bind]. rewrite meta_type. pose proof (len_nonneg buf).
  case_decide as Ht; [rewrite bool_decide_true by done|by rewrite bool_decide_false by done].
  simpl. by rewrite uadd_val by lia.
Qed.
Lemma write_simulates d d' p m off buf :
  same d d' → files (abs d) !! p = Some m → 0 ≤ off → off + len buf < 2 ^ 64 →
  simulates d (write d' (meta_inode m) off buf)
    (if decide (file_type m = Regular)
     then (Ok (len buf), set_file (abs d) p (extended m (off + len buf))) else (Err PermissionDenied, abs d)).
Proof.
  intros Hs Hm Hoff Hbuf. pose proof (same_inv _ _ Hs) as Hd'.
  pose proof Hm as Hm'. rewrite <-(same_abs _ _ Hs) in Hm'. pose proof (files_inode_range _ _ _ Hd' Hm') as Hr.
  apply files_lookup in Hm' as [_ Hmeta].
  destruct (write_spec d' (meta_inode m) off buf) as (d2 & Hs2 & ->); [done..|]. rewrite <-Hmeta.
  assert (same d d2) as Hs' by (destruct Hs, Hs2; split; congruence).
  case_decide as Ht; [|by apply simulates_same]. pose proof (len_nonneg buf).
  pose proof (extended_metadata (meta_inode m) (inode_at d' (meta_inode m)) (off + len buf)
    (inode_at_ok d' _ Hd') ltac:(lia)) as He.
  fold (meta_at d' (meta_inode m)) in He. rewrite <-Hmeta in He. destruct (_ <? _).
  - apply (simulates_cache d d2 p m); try done.
    + apply map_Forall_insert_2; [apply set_size_ok|apply (inv_inodes _ (same_inv _ _ Hs'))].
    + intros j Hj. by rewrite lookup_insert_ne.
    + by rewrite lookup_insert_eq.
  - replace d2 with (set_cache d2 (inode_cache d2)) by by destruct d2.
    apply (simulates_cache d d2 p m); try done.
    + apply (inv_inodes _ (same_inv _ _ Hs')).
    + fold (inode_at d2 (meta_inode m)). by rewrite (same_inode _ _ Hs2).
Qed.
End methods.

Section refinement.
Context {P : Profile}.
Implicit Types d : Ext4FileSystem.

(** What [read] returns for an inode that can be read. *)
Lemma read_spec d i off buf : ext4_inv d → 1 ≤ i < 2 ^ 64 → 0 ≤ off →
  let n := Z.max 0 (Z.min (len buf) (size (meta_at d i) - off)) in
  ∃ d', read d i off buf = Val (Ok n, replicate (Z.to_nat n) 0x42 ++ drop (Z.to_nat n) buf, d') ∧
        same d d'.
Proof.
  intros Hd Hi Hoff n. unfold read. rewrite (inv_mounted _ Hd). simpl.
  destruct (read_inode_spec d i) as (d' & -> & Hs); [done..|]. cbn [mbind outcome_bind].
  exists d'. split; [|done]. pose proof (file_size_range _ (inode_at_ok d i Hd)).
  pose proof (len_nonneg buf). assert (size (meta_at d i) = file_size (inode_at d i)) as Hsz by done.
  destruct (Z.leb_spec (file_size (inode_at d i)) off).
  - replace n with 0 by lia. done.
  - rewrite usub_val by lia. cbn [mbind outcome_bind]. replace n with (Z.min (len buf) (file_size (inode_at d i) - off)) by lia. done.
Qed.

Lemma open_spec d p fl : ext4_inv d →
  match files (abs d) !! p with
  | None => open d p fl = Val (Err NotFound, d)
  | Some m => ∃ d', open d p fl = Val (Ok (meta_inode m, m), d') ∧ same d d'
  end.
Proof.
  intros Hd. unfold open. rewrite when_mounted_inv by done.
  pose proof (lookup_path_spec d p (λ i x d, Val (Ok (i, inode_to_metadata i x), d)) Hd) as Hl.
  destruct (files (abs d) !! p) as [m|]; [|done]. destruct Hl as (d' & -> & Hs & Hm).
  exists d'. split; [|done]. fold (meta_at d (meta_inode m)). by rewrite <-Hm.
Qed.

Lemma stat_spec d p : ext4_inv d →
  match files (abs d) !! p with
  | None => stat d p = Val (Err NotFound, d)
  | Some m => ∃ d', stat d p = Val (Ok m, d') ∧ same d d'
  end.
Proof.
  intros Hd. unfold stat. rewrite when_mounted_inv by done.
  pose proof (lookup_path_spec d p (λ i x d, Val (Ok (inode_to_metadata i x), d)) Hd) as Hl.
  destruct (files (abs d) !! p) as [m|]; [|done]. destruct Hl as (d' & -> & Hs & Hm).
  exists d'. split; [|done]. fold (meta_at d (meta_inode m)). by rewrite <-Hm.
Qed.

(** A request by path: [NotFound], or its continuation on the resolved inode. *)
Lemma by_path_simulates {A} d p (k : Z → Ext4Inode → Ext4FileSystem → outcome (result A VfsError * _))
    (ks : FileMetadata → result A VfsError * PathMap) :
  ext4_inv d →
  (∀ m d', files (abs d) !! p = Some m → same d d' → m = meta_at d (meta_inode m) →
     simulates d (k (meta_inode m) (inode_at d (meta_inode m)) d') (ks m)) →
  simulates d (when_mounted d (lookup_path d p k)) (spec_at (abs d) p ks).
Proof.
  intros Hd Hk. rewrite when_mounted_inv by done. pose proof (lookup_path_spec d p k Hd) as Hl.
  unfold spec_at. destruct (files (abs d) !! p) as [m|].
  - destruct Hl as (d' & -> & ? & ?). by apply Hk.
  - rewrite Hl. by apply simulates_same, same_refl.
Qed.
Lemma reply_spec_at {A R} a p (f : A → R) (ks : FileMetadata → result A VfsError * PathMap) :
  (map_ok f (spec_at a p ks).1, (spec_at a p ks).2) =
  spec_at a p (λ m, (map_ok f (ks m).1, (ks m).2)).
Proof. unfold spec_at. by destruct (files a !! p). Qed.
Lemma simulates_eq {R} d o (ra ra' : result R VfsError * PathMap) :
  simulates d o ra → ra = ra' → simulates d o ra'.
Proof. by intros ? <-. Qed.
Lemma spec_at_ext {R} a p (k k' : FileMetadata → result R VfsError * PathMap) :
  (∀ m, k m = k' m) → spec_at a p k = spec_at a p k'.
Proof. intros Hk. unfold spec_at. destruct (files a !! p); naive_solver. Qed.

(** A reply by path whose two sides agree for every metadata. *)
Lemma reply_by_path {A} d p (f : A → reply) k ks ks' :
  ext4_inv d →
  (∀ m d', files (abs d) !! p = Some m → same d d' → m = meta_at d (meta_inode m) →
     simulates d (k (meta_inode m) (inode_at d (meta_inode m)) d') (ks m)) →
  (∀ m, (map_ok f (ks m).1, (ks m).2) = ks' m) →
  simulates d (reply_of f (when_mounted d (lookup_path d p k))) (spec_at (abs d) p ks').
Proof.
  intros Hd Hk Hks. eapply simulates_eq; [apply simulates_reply, by_path_simulates; eassumption|].
  rewrite reply_spec_at. by apply spec_at_ext.
Qed.

Lemma write_request_simulates d p off buf :
  ext4_inv d → 0 ≤ off → off + len buf < 2 ^ 64 →
  simulates d (serve d (RWrite p off buf)) (spec_serve (abs d) (RWrite p off buf)).
Proof.
  intros Hd Hoff Hbuf. simpl. pose proof (open_spec d p READ_WRITE Hd) as Ho. unfold spec_at.
  destruct (files (abs d) !! p) as [m|] eqn:E;
    [|rewrite Ho; unfold try; by apply simulates_same, same_refl].
  destruct Ho as (d' & -> & Hs). unfold try. cbn [mbind outcome_bind].
  eapply simulates_eq; [by eapply simulates_reply, write_simulates|]. by case_decide.
Qed.
Lemma read_request_simulates d p off buf :
  ext4_inv d → 0 ≤ off → simulates d (serve d (RRead p off buf)) (spec_serve (abs d) (RRead p off buf)).
Proof.
  intros Hd Hoff. simpl. pose proof (open_spec d p READ_ONLY Hd) as Ho. unfold spec_at.
  destruct (files (abs d) !! p) as [m|] eqn:E;
    [|rewrite Ho; unfold try; by apply simulates_same, same_refl].
  destruct Ho as (d' & -> & Hs). unfold try. cbn [mbind outcome_bind].
  pose proof (same_inv _ _ Hs) as Hd'. pose proof (files_inode_range _ _ _ Hd E) as Hr.
  destruct (read_spec d' (meta_inode m) off buf) as (d2 & -> & Hs2); [done..|].
  cbn [mbind outcome_bind]. apply files_lookup in E as [_ Hm].
  rewrite (same_meta _ _ _ Hs), <-Hm. apply simulates_same. destruct Hs, Hs2. split; congruence.
Qed.
Lemma serve_simulates d q : ext4_inv d → request_ok q → next_inode d + 1 < 2 ^ 64 →
  simulates d (serve d q) (spec_serve (abs d) q).
Proof.
  intros Hd Hq Hroom. destruct q as [p|p t pm|p off buf|p off buf|p|p|p pm|p]; cbn [serve spec_serve].
  - apply (reply_by_path d p Meta _ (λ m, (Ok m, abs d))); [done| |done].
    intros m d' _ Hs Hm. fold (meta_at d (meta_inode m)). rewrite <-Hm. by apply simulates_same.
  - eapply simulates_eq; [by apply simulates_reply, create_simulates|].
    by destruct (spec_create _ _ _ _).
  - destruct Hq. by apply write_request_simulates.
  - by apply read_request_simulates.
  - apply (reply_by_path d p (λ _, Done) _ (λ m, if decide (file_type m = Directory)
      then (Err IsDirectory, abs d) else (Ok (), set_file (abs d) p (default_metadata (meta_inode m)))));
      [done| |intros m; by case_decide].
    intros m d' Em Hs Hm. rewrite meta_type, <-Hm.
    case_decide; [rewrite bool_decide_true by done; by apply simulates_same|].
    rewrite bool_decide_false by done. by apply simulates_delete.
  - apply (reply_by_path d p Entries _ (λ m, if decide (file_type m = Directory)
      then (Ok (dot_entries (meta_inode m)), abs d) else (Err NotDirectory, abs d)));
      [done| |intros m; by case_decide].
    intros m d' _ Hs Hm. rewrite meta_type, <-Hm.
    case_decide; [rewrite bool_decide_true by done|rewrite bool_decide_false by done]; by apply simulates_same.
  - unfold mkdir. rewrite when_mounted_inv by done.
    destruct (create_simulates d p Directory pm Hd Hq Hroom) as (d' & -> & Ha).
    unfold try. cbn [mbind outcome_bind]. destruct (spec_create _ _ _ _) as [[i|e] a]; by exists d'.
  - apply (reply_by_path d p (λ _, Done) _ (λ m, if decide (file_type m = Directory)
      then (Ok (), set_file (abs d) p (default_metadata (meta_inode m))) else (Err NotDirectory, abs d)));
      [done| |intros m; by case_decide].
    intros m d' Em Hs Hm. rewrite meta_type, <-Hm.
    case_decide; [|rewrite bool_decide_false by done; by apply simulates_same].
    rewrite bool_decide_true by done. by apply simulates_delete.
Qed.

Lemma serve_all_simulates qs d : ext4_inv d → Forall request_ok qs → next_inode d + len qs < 2 ^ 64 →
  ∃ d', serve_all d qs = Val ((spec_serve_all (abs d) qs).1, d') ∧
        abs d' = (spec_serve_all (abs d) qs).2 ∧ ext4_inv d'.
Proof.
  revert d. induction qs as [|q qs IH]; intros d Hd Hqs Hroom; [by exists d|].
  apply Forall_cons in Hqs as [Hq Hqs]. change (q :: qs) with ([q] ++ qs) in Hroom.
  rewrite len_app, len_singleton in Hroom. pose proof (len_nonneg qs).
  destruct (serve_simulates d q) as (d1 & Hs & Ha & Hd1 & Hn); [done..|lia|]. simpl. rewrite Hs.
  destruct (spec_serve (abs d) q) as [r a1]. simpl in Ha |- *. subst a1.
  destruct (IH d1) as (d2 & -> & Ha2 & Hd2); [done..|lia|]. cbn [mbind outcome_bind].
  exists d2. by destruct (spec_serve_all (abs d1) qs).
Qed.

(** What mounting leaves: an empty path map with a root. *)
Definition mounted_fs (dev : option Z) : Ext4FileSystem := {|
  superblock := Some test_superblock; block_size := 1024; inode_size := 256; device_id := dev;
  mounted := true; inode_cache := ∅; path_to_inode := ∅; next_inode := 100;
|}.
Definition empty_map : PathMap :=
  {| files := {["/"%string := default_metadata 2]}; names := ∅; next := 100 |}.
Lemma mount_new d dev : init d ≫= (λ '(_, d), mount d dev) = Val (Ok (), mounted_fs dev).
Proof. destruct d, P; vm_compute; reflexivity. Qed.
Lemma mounted_fs_inv dev : ext4_inv (mounted_fs dev).
Proof.
  split; try done. by exists test_superblock.
Qed.
Lemma mounted_fs_abs dev : abs (mounted_fs dev) = empty_map.
Proof. vm_compute. reflexivity. Qed.

(** C11: The ext4 file system is a map from paths to metadata.  After
    initialisation and mounting, any sequence of requests (status, creation,
    reading, writing, unlinking, directory listing, creation and removal) is
    answered exactly as the abstract map answers it, without a panic: creation
    adds one path with the requested type and permissions and size 0, a write
    extends the size of that one path, and unlinking or removing resets the
    path to an empty regular file instead of removing it. *)
Theorem ext4_refines_path_map d dev qs :
  Forall request_ok qs → len qs < 2 ^ 64 - 100 →
  ∃ d0 d', init d ≫= (λ '(_, d), mount d dev) = Val (Ok (), d0) ∧
    serve_all d0 qs = Val ((spec_serve_all empty_map qs).1, d') ∧
    abs d' = (spec_serve_all empty_map qs).2.
Proof.
  intros Hqs Hlen. rewrite mount_new. exists (mounted_fs dev).
  destruct (serve_all_simulates qs (mounted_fs dev)) as (d' & Hr & Ha & _);
    [apply mounted_fs_inv|done|simpl; lia|].
  rewrite mounted_fs_abs in Hr, Ha. eauto.
Qed.
End refinement.

Definition unlink_session : list request :=
  [RMkdir "/d" 448; RWrite "/d" 0 [1; 2]; RRmdir "/d"; RStat "/d"; RCreate "/d" Directory 448;
   RWrite "/d" 0 [1; 2]; RRead "/d" 1 [0; 0; 0]].
Lemma ext4_refines_path_map_witness :
  ∃ d0 d', @init new ≫= (λ '(_, d), @mount dev d None) = Val (Ok (), d0) ∧
    @serve_all dev d0 unlink_session = Val ((spec_serve_all empty_map unlink_session).1, d') ∧
    abs d' = (spec_serve_all empty_map unlink_session).2.
Proof.
  apply (@ext4_refines_path_map dev new None unlink_session); [|vm_compute; reflexivity].
  repeat constructor; vm_compute; congruence.
Defined.

(** ** The contract of the virtual file system *)
Section contract.
Context {P : Profile}.
Implicit Types d : Ext4FileSystem.

Definition ext4_ready (n : Z) d : Prop := ext4_inv d ∧ 0 ≤ n ∧ next_inode d + n < 2 ^ 64.
Lemma ext4_ready_same n d d' : 0 ≤ n → ext4_ready (n + 1) d → same d d' → ext4_ready n d'.
Proof. intros ? (? & ? & ?) Hs. split; [apply Hs|]. rewrite (same_next _ _ Hs). lia. Qed.
Lemma ext4_ready_by_path {A} n d p (k : Z → Ext4Inode → Ext4FileSystem → outcome (result A VfsError * _)) :
  0 ≤ n → ext4_ready (n + 1) d →
  (∀ i x d', same d d' → ∃ r c, k i x d' = Val (r, set_cache d' c) ∧ c ⊆ inode_cache d') →
  returns (when_mounted d (lookup_path d p k)) (λ '(_, d'), ext4_ready n d').
Proof.
  intros Hn Hd Hk. pose proof Hd as (Hinv & _). rewrite when_mounted_inv by done.
  pose proof (lookup_path_spec d p k Hinv) as Hl. destruct (files (abs d) !! p) as [m|].
  - destruct Hl as (d' & -> & Hs & _). destruct (Hk (meta_inode m) (inode_at d (meta_inode m)) d' Hs)
      as (r & c & -> & Hc). apply returns_val.
    destruct (ext4_ready_same n d d' Hn Hd Hs) as (Hi & ? & ?). split; [|done].
    apply set_cache_inv; [done|]. intros j y Hy. apply (inv_inodes _ Hi j). by eapply lookup_weaken.
  - rewrite Hl. by apply returns_val, (ext4_ready_same n d), same_refl.
Qed.
(** A continuation that only keeps the cache or drops an entry of it. *)
Lemma keeps_cache {R} d' (r : R) : ∃ r' c, Val (r, d') = Val (r', set_cache d' c) ∧ c ⊆ inode_cache d'.
Proof. exists r, (inode_cache d'). by destruct d'. Qed.
Lemma drops_cache {R} d' i (r : R) : ∃ r' c,
  Val (r, set_cache d' (delete i (inode_cache d'))) = Val (r', set_cache d' c) ∧ c ⊆ inode_cache d'.
Proof. eexists _, _. split; [done|]. apply delete_subseteq. Qed.

Lemma create_ready n d p t pm : 0 ≤ n → ext4_ready (n + 1) d →
  returns (create d p t pm) (λ '(_, d'), ext4_ready n d').
Proof.
  intros Hn (Hd & _ & Hr). rewrite create_eq by (done || lia). case_decide as Hp; apply returns_val.
  - split; [done|lia].
  - split; [|simpl; lia]. apply created_inv; [done|lia|]. by apply not_elem_of_dom.
Qed.

Lemma write_ready n d i off buf : 0 ≤ n → ext4_ready (n + 1) d → 1 ≤ i < 2 ^ 64 → 0 ≤ off →
  off + len buf < 2 ^ 64 →
  returns (write d i off buf) (λ '(r, d'), ext4_ready n d' ∧ ∀ k, r = Ok k → 0 ≤ k ≤ len buf).
Proof.
  intros Hn Hd Hi Hoff Hbuf. destruct (write_spec d i off buf (proj1 Hd)) as (d' & Hs & ->); [done..|].
  pose proof (ext4_ready_same n d d' Hn Hd Hs) as Hr. pose proof (len_nonneg buf).
  case_decide; [|by apply returns_val]. apply returns_val. split; [|intros k [= <-]; lia].
  destruct (_ <? _); [|done]. destruct Hr as (Hinv & ? & ?). split; [|done].
  apply set_cache_inv; [done|]. apply map_Forall_insert_2; [apply set_size_ok|apply (inv_inodes _ Hinv)].
Qed.

(** ext4 keeps what the virtual file system relies on. *)
#[export, program] Instance ext4_laws : FileSystemLaws Ext4FileSystem new := {|
  fs_ready := ext4_ready; fs_inode i := 1 ≤ i < 2 ^ 64;
|}.
Next Obligation. intros n n' d ? (? & ? & ?). split; [done|lia]. Qed.
Next Obligation.
  eexists. split; [done|]. intros dv. exists (mounted_fs dv). split; [|split; [apply mounted_fs_inv|simpl; lia]].
  apply (mount_new new dv).
Qed.
Next Obligation.
  intros n d (Hd & _). eexists. simpl. unfold unmount, sync. by rewrite !when_mounted_inv.
Qed.
Next Obligation.
  intros n d p fl Hn Hd. pose proof (open_spec d p fl (proj1 Hd)) as Ho. simpl.
  destruct (files (abs d) !! p) as [m|] eqn:E.
  - destruct Ho as (d' & -> & Hs). apply returns_val. split; [by eapply ext4_ready_same|].
    intros i m' [= <- <-]. eapply files_inode_range; [apply Hd|done].
  - rewrite Ho. apply returns_val. split; [by eapply ext4_ready_same, same_refl, Hd|done].
Qed.
Next Obligation.
  intros n d i Hn Hd. simpl. unfold close. rewrite when_mounted_inv by apply Hd.
  by eapply returns_val, ext4_ready_same, same_refl, Hd.
Qed.
Next Obligation.
  intros n d i off buf Hn Hd Hi Hoff. destruct (read_spec d i off buf (proj1 Hd) Hi Hoff) as (d' & E & Hs).
  pose proof (len_nonneg buf). simpl in *. rewrite E. apply returns_val. split_and!.
  - by eapply ext4_ready_same.
  - rewrite length_app, length_replicate, length_drop. unfold len in *. lia.
  - intros k [= <-]. lia.
Qed.
Next Obligation. exact write_ready. Qed.
Next Obligation. exact create_ready. Qed.
Next Obligation.
  intros n d p Hn Hd. apply ext4_ready_by_path; [done..|]. intros i x d' _.
  case_bool_decide; [apply keeps_cache|apply drops_cache].
Qed.
Next Obligation. intros n d p Hn Hd. apply ext4_ready_by_path; [done..|]. intros. apply keeps_cache. Qed.
Next Obligation.
  intros n d p Hn Hd. apply ext4_ready_by_path; [done..|]. intros i x d' _. case_bool_decide; apply keeps_cache.
Qed.
Next Obligation.
  intros n d p pm Hn Hd. simpl. unfold mkdir. rewrite when_mounted_inv by apply Hd.
  eapply returns_try; [by apply create_ready|simpl; intros; by apply returns_val|done].
Qed.
Next Obligation.
  intros n d p Hn Hd. apply ext4_ready_by_path; [done..|]. intros i x d' _.
  case_bool_decide; [apply drops_cache|apply keeps_cache].
Qed.
End contract.

(** Removing a file does not remove its name.  After [unlink] of a file or
    [rmdir] of a directory succeeds, [stat] of the path still succeeds and
    reports an empty regular file, and unless the path is the root it cannot be
    created again: the source drops the cached inode and keeps the path. *)
Theorem removal_keeps_name {P : Profile} d p d' t pm :
  ext4_inv d → p ≠ "/"%string → 0 ≤ pm ≤ permission_bits → next_inode d + 1 < 2 ^ 64 →
  unlink d p = Val (Ok (), d') ∨ rmdir d p = Val (Ok (), d') →
  ∃ i d1 d2, stat d' p = Val (Ok (default_metadata i), d1) ∧ create d' p t pm = Val (Err AlreadyExists, d2).
Proof.
  intros Hd Hp Hpm Hroom Hr.
  assert (∃ q, serve d q = Val (Ok Done, d') ∧ (q = RUnlink p ∨ q = RRmdir p)) as (q & Hs & Hq).
  { destruct Hr as [Hr|Hr]; [exists (RUnlink p)|exists (RRmdir p)]; simpl; rewrite Hr; auto. }
  destruct (serve_simulates d q) as (d0 & Hs' & Ha & Hd' & Hn); [done|by destruct Hq as [-> | ->]|done|].
  rewrite Hs in Hs'. injection Hs' as Hok <-.
  assert (∃ m, files (abs d) !! p = Some m ∧ abs d' = set_file (abs d) p (default_metadata (meta_inode m)))
    as (m & Hm & Habs).
  { destruct Hq as [-> | ->]; simpl in Hok, Ha; unfold spec_at in *;
      destruct (files (abs d) !! p) as [m|]; try done; case_decide; try done; eauto. }
  exists (meta_inode m). pose proof (stat_spec d' p Hd') as Hst. rewrite Habs in Hst. simpl in Hst.
  rewrite lookup_insert_eq in Hst. destruct Hst as (d1 & -> & _). exists d1, d'. split; [done|].
    unfold create. rewrite when_mounted_inv by done. rewrite bool_decide_true; [done|].
    apply elem_of_dom. change (p ∈ names (abs d')). rewrite Habs. simpl.
    simpl in Hm. rewrite lookup_insert_ne, lookup_fmap in Hm by done.
    apply elem_of_dom. by destruct (path_to_inode d !! p).
Qed.
Lemma removal_keeps_name_witness :
  ∃ d d' i d1 d2, @rmdir dev d "/d" = Val (Ok (), d') ∧
    @stat dev d' "/d" = Val (Ok (default_metadata i), d1) ∧
    @create dev d' "/d" Regular 420 = Val (Err AlreadyExists, d2).
Proof.
  set (d := created (mounted_fs None) "/d" Directory 448).
  assert (ext4_inv d) as Hd by (apply created_inv; [apply mounted_fs_inv|vm_compute; reflexivity|reflexivity]).
  destruct (@rmdir dev d "/d") as [[r d']| |] eqn:E; [|discriminate E..].
  destruct r as [[]|e]; [|discriminate E].
  destruct (@removal_keeps_name dev d "/d" d' Regular 420 Hd) as (i & d1 & d2 & H1 & H2);
    [discriminate|vm_compute; split; congruence|vm_compute; reflexivity|by right|].
  by exists d, d', i, d1, d2.
Defined.
