(* ===== verification/Vfs.v ===== *)
(** * The virtual file system and the file-system service

    Models [userspace/fs-service/src/vfs.rs] (mount table, path resolution,
    descriptor table), [lib.rs] (typed requests) and the service handler of
    [main.rs].  [Vfs] is written against the class [FileSystem]; its theorems
    use [FileSystemLaws], which [Ext4] discharges. *)
From Stdlib Require Import Ascii.
From S2P Require Import Prelude FileSystem Ext4 Service.

(** ** Strings *)

(** [s.starts_with(p)]. *)
Fixpoint starts_with (s p : string) {struct p} : bool :=
  match p, s with
  | EmptyString, _ => true
  | String a p, String b s => bool_decide (a = b) && starts_with s p
  | String _ _, EmptyString => false
  end.
(** [&s[n..]] at a character boundary. *)
Fixpoint str_from (n : nat) (s : string) : string :=
  match n, s with
  | S n, String _ s => str_from n s
  | _, _ => s
  end.
Definition str_le {V} (x y : string * V) : Prop := String.leb x.1 y.1 = true.
#[export] Instance str_le_dec {V} : RelDecision (@str_le V).
Proof. intros x y. unfold str_le. apply _. Defined.
(** The entries of a [BTreeMap<String, V>] in the order of its keys. *)
Definition string_entries {V} (m : gmap string V) : list (string * V) := merge_sort str_le (map_to_list m).

(** ** Data *)
Inductive FileSystemType := FsExt4 | TmpFs | ProcFs | DevFs.
#[export] Instance FileSystemType_eq_dec : EqDecision FileSystemType.
Proof. solve_decision. Defined.
Record MountPoint := {
  mount_path : string;
  filesystem : FileSystemType;
  read_only : bool;
  mount_device : option Z;
}.
Record OpenFile := {
  of_inode : Z;
  of_mount : string;
  of_flags : Z;
  of_offset : Z;
  of_metadata : FileMetadata;
}.
Record Vfs (D : Type) := {
  mount_points : gmap string MountPoint;
  file_systems : gmap string D;
  open_files : gmap Z OpenFile;
  next_fd : Z;
}.
Arguments mount_points {D} _.
Arguments file_systems {D} _.
Arguments open_files {D} _.
Arguments next_fd {D} _.
Arguments Build_Vfs {D} _ _ _ _.

Section vfs.
Context {P : Profile} {D : Type} {FS : FileSystem D} (ext4_new : D).
Implicit Types v : Vfs D.

Definition vfs_new : Vfs D := Build_Vfs ∅ ∅ ∅ 1.
Definition set_mounts v m : Vfs D := Build_Vfs m (file_systems v) (open_files v) (next_fd v).
Definition set_fs v m : Vfs D := Build_Vfs (mount_points v) m (open_files v) (next_fd v).
Definition set_open v m : Vfs D := Build_Vfs (mount_points v) (file_systems v) m (next_fd v).
Definition set_next_fd v n : Vfs D := Build_Vfs (mount_points v) (file_systems v) (open_files v) n.
Definition set_offset (f : OpenFile) n : OpenFile := {|
  of_inode := of_inode f; of_mount := of_mount f; of_flags := of_flags f; of_offset := n;
  of_metadata := of_metadata f |}.

Definition vfs_mount v (path : string) (fs_type : FileSystemType) (device_id : option Z) (ro : bool) :
    outcome (result unit VfsError * Vfs D) :=
  if bool_decide (path = ""%string) || negb (starts_with path "/") then Val (Err InvalidPath, v)
  else if bool_decide (is_Some (mount_points v !! path)) then Val (Err MountPointBusy, v)
  else
    match fs_type with
    | FsExt4 =>
        '(r, d) ← fs_init ext4_new;
        match r with
        | Err e => Val (Err e, v)
        | Ok _ =>
            '(r, d) ← fs_mount d device_id;
            match r with
            | Err e => Val (Err e, v)
            | Ok _ =>
                let m := {| mount_path := path; filesystem := fs_type; read_only := ro;
                            mount_device := device_id |} in
                let v := set_mounts v (<[path := m]> (mount_points v)) in
                Val (Ok (), set_fs v (<[path := d]> (file_systems v)))
            end
        end
    | _ => Val (Err IoError, v)
    end.

Definition vfs_unmount v (path : string) : outcome (result unit VfsError * Vfs D) :=
  if existsb (λ f, bool_decide (of_mount f = path)) (map_to_list (open_files v)).*2
  then Val (Err MountPointBusy, v)
  else
    r ← match file_systems v !! path with
        | None => Val (Ok ())
        | Some d => '(r, _) ← fs_unmount d; Val r
        end;
    let v := set_fs v (delete path (file_systems v)) in
    match r with
    | Err e => Val (Err e, v)
    | Ok _ =>
        match mount_points v !! path with
        | None => Val (Err NotMounted, v)
        | Some _ => Val (Ok (), set_mounts v (delete path (mount_points v)))
        end
    end.

(** One round of the search: the longest match so far. *)
Definition better_match (path : string) (best : string * option MountPoint) (e : string * MountPoint) :
    string * option MountPoint :=
  if starts_with path e.1 && bool_decide (String.length best.1 < String.length e.1)%nat
  then (e.1, Some e.2) else best.
Definition find_mount_point v (path : string) : result MountPoint VfsError :=
  ok_or (foldl (better_match path) (""%string, None) (string_entries (mount_points v))).2 NotMounted.

Definition relative_path (path mount_path : string) : string :=
  if bool_decide (path = mount_path) then "/"
  else if starts_with path mount_path then str_from (String.length mount_path) path
  else path.

(** A method on the file system mounted at [mp]; what it does to the file system
    stays also when it fails. *)
Definition with_fs {A} v (mp : string) (k : D → outcome (result A VfsError * D)) :
    outcome (result A VfsError * Vfs D) :=
  match file_systems v !! mp with
  | None => Val (Err NotMounted, v)
  | Some d => '(r, d) ← k d; Val (r, set_fs v (<[mp := d]> (file_systems v)))
  end.
(** The path operations: find the mount point, refuse when [refuse] holds of it,
    and call the file system with the relative path. *)
Definition on_path {A} v (path : string) (refuse : MountPoint → bool)
    (k : D → string → outcome (result A VfsError * D)) : outcome (result A VfsError * Vfs D) :=
  match find_mount_point v path with
  | Err e => Val (Err e, v)
  | Ok m =>
      if refuse m then Val (Err ReadOnlyFileSystem, v)
      else with_fs v (mount_path m) (λ d, k d (relative_path path (mount_path m)))
  end.

Definition vfs_open v (path : string) (flags : Z) : outcome (result Z VfsError * Vfs D) :=
  match find_mount_point v path with
  | Err e => Val (Err e, v)
  | Ok m =>
      if read_only m && ((flags =? WRITE_ONLY) || (flags =? READ_WRITE))
      then Val (Err ReadOnlyFileSystem, v)
      else try (with_fs v (mount_path m) (λ d, fs_open d (relative_path path (mount_path m)) flags))
             (λ '(inode, metadata) v,
        let fd := next_fd v in
        n ← uadd 32 (next_fd v) 1;
        let v := set_next_fd v n in
        let f := {| of_inode := inode; of_mount := mount_path m; of_flags := flags; of_offset := 0;
                    of_metadata := metadata |} in
        Val (Ok fd, set_open v (<[fd := f]> (open_files v))))
  end.

Definition vfs_close v (fd : Z) : outcome (result unit VfsError * Vfs D) :=
  match open_files v !! fd with
  | None => Val (Err InvalidFileDescriptor, v)
  | Some f =>
      let v := set_open v (delete fd (open_files v)) in
      with_fs v (of_mount f) (λ d, fs_close d (of_inode f))
  end.

(** The buffer is the caller's; it comes back with the result. *)
Definition vfs_read v (fd : Z) (buffer : list Z) : outcome (result Z VfsError * list Z * Vfs D) :=
  match open_files v !! fd with
  | None => Val (Err InvalidFileDescriptor, buffer, v)
  | Some f =>
      if of_flags f =? WRITE_ONLY then Val (Err PermissionDenied, buffer, v)
      else
        match file_systems v !! of_mount f with
        | None => Val (Err NotMounted, buffer, v)
        | Some d =>
            '(r, buffer, d) ← fs_read d (of_inode f) (of_offset f) buffer;
            let v := set_fs v (<[of_mount f := d]> (file_systems v)) in
            match r with
            | Err e => Val (Err e, buffer, v)
            | Ok bytes_read =>
                off ← uadd 64 (of_offset f) bytes_read;
                Val (Ok bytes_read, buffer, set_open v (<[fd := set_offset f off]> (open_files v)))
            end
        end
  end.

Definition vfs_write v (fd : Z) (buffer : list Z) : outcome (result Z VfsError * Vfs D) :=
  match open_files v !! fd with
  | None => Val (Err InvalidFileDescriptor, v)
  | Some f =>
      if of_flags f =? READ_ONLY then Val (Err PermissionDenied, v)
      else
        try (with_fs v (of_mount f) (λ d, fs_write d (of_inode f) (of_offset f) buffer))
          (λ bytes_written v,
             off ← uadd 64 (of_offset f) bytes_written;
             Val (Ok bytes_written, set_open v (<[fd := set_offset f off]> (open_files v))))
  end.

Definition vfs_stat v (path : string) : outcome (result FileMetadata VfsError * Vfs D) :=
  on_path v path (λ _, false) fs_stat.
Definition vfs_create v (path : string) (t : FileType) (pm : Z) : outcome (result unit VfsError * Vfs D) :=
  try (on_path v path read_only (λ d rel, fs_create d rel t pm)) (λ _ v, Val (Ok (), v)).
Definition vfs_unlink v (path : string) : outcome (result unit VfsError * Vfs D) :=
  on_path v path read_only fs_unlink.
Definition vfs_readdir v (path : string) : outcome (result (list DirectoryEntry) VfsError * Vfs D) :=
  on_path v path (λ _, false) fs_readdir.
Definition vfs_mkdir v (path : string) (pm : Z) : outcome (result unit VfsError * Vfs D) :=
  on_path v path read_only (λ d rel, fs_mkdir d rel pm).
Definition vfs_rmdir v (path : string) : outcome (result unit VfsError * Vfs D) :=
  on_path v path read_only fs_rmdir.

Definition get_mount_points v : list MountPoint := (string_entries (mount_points v)).*2.
Definition get_fd_info v (fd : Z) : result OpenFile VfsError :=
  ok_or (open_files v !! fd) InvalidFileDescriptor.
End vfs.

(** ** Requests *)
Inductive FsRequest :=
  | FrOpen (path : string) (flags : Z)
  | FrClose (fd : Z)
  | FrRead (fd size : Z)
  | FrWrite (fd : Z) (data : list Z)
  | FrStat (path : string)
  | FrCreate (path : string) (t : FileType) (pm : Z)
  | FrUnlink (path : string)
  | FrReadDir (path : string)
  | FrMkDir (path : string) (pm : Z)
  | FrRmDir (path : string).
Inductive FsResponse :=
  | FsSuccess
  | FsDescriptor (fd : Z)
  | FsData (data : list Z)
  | FsBytesWritten (n : Z)
  | FsMetadata (m : FileMetadata)
  | FsEntries (l : list DirectoryEntry).

Section requests.
Context {P : Profile} {D : Type} {FS : FileSystem D}.
Implicit Types v : Vfs D.

Definition respond {A} (f : A → FsResponse) (o : outcome (result A VfsError * Vfs D)) :
    outcome (result FsResponse VfsError * Vfs D) :=
  try o (λ a v, Val (Ok (f a), v)).
Definition handle_fs_request v (request : FsRequest) : outcome (result FsResponse VfsError * Vfs D) :=
  match request with
  | FrOpen path flags => respond FsDescriptor (vfs_open v path flags)
  | FrClose fd => respond (λ _, FsSuccess) (vfs_close v fd)
  | FrRead fd size =>
      buffer ← vec_zeroed size;
      '(r, buffer, v) ← vfs_read v fd buffer;
      match r with
      | Err e => Val (Err e, v)
      | Ok n => Val (Ok (FsData (take (Z.to_nat n) buffer)), v)
      end
  | FrWrite fd data => respond FsBytesWritten (vfs_write v fd data)
  | FrStat path => respond FsMetadata (vfs_stat v path)
  | FrCreate path t pm => respond (λ _, FsSuccess) (vfs_create v path t pm)
  | FrUnlink path => respond (λ _, FsSuccess) (vfs_unlink v path)
  | FrReadDir path => respond FsEntries (vfs_readdir v path)
  | FrMkDir path pm => respond (λ _, FsSuccess) (vfs_mkdir v path pm)
  | FrRmDir path => respond (λ _, FsSuccess) (vfs_rmdir v path)
  end.
End requests.

(** ** The service *)
Section service.
Context {P : Profile}.

Record FileSystemService := { vfs : Vfs Ext4FileSystem }.
Definition fs_service_new : FileSystemService := {| vfs := vfs_new |}.

(** [Ok(a) => f(a), Err(_) => ServiceData::Empty]. *)
Definition data_or_empty {A} (f : A → ServiceData) (o : outcome (result A VfsError * Vfs Ext4FileSystem)) :
    outcome (ServiceData * Vfs Ext4FileSystem) :=
  '(r, v) ← o; Val (match r with Ok a => f a | Err _ => Empty end, v).
Definition handle_file_request (v : Vfs Ext4FileSystem) (r : FileSystemRequest) :
    outcome (ServiceData * Vfs Ext4FileSystem) :=
  match r with
  | Open path flags =>
      data_or_empty (λ fd, Binary (le 4 fd)) (vfs_open v path (flags_from_bits_truncate flags))
  | Close fd => data_or_empty (λ _, Empty) (vfs_close v fd)
  | FsRead fd size =>
      buffer ← vec_zeroed size;
      '(r, buffer, v) ← vfs_read v fd buffer;
      Val (match r with Ok n => Binary (take (Z.to_nat n) buffer) | Err _ => Empty end, v)
  | FsWrite fd data => data_or_empty (λ n, Binary (le 8 n)) (vfs_write v fd data)
  | List path =>
      Val (Text ("Contents of " +:+ path +:+ ":" +:+ String (ascii_of_nat 10) "  file1.txt" +:+
                 String (ascii_of_nat 10) "  file2.txt" +:+ String (ascii_of_nat 10) "  subdir/"), v)
  | Create path is_directory =>
      data_or_empty (λ _, Empty)
        (vfs_create v path (if is_directory then Directory else Regular) (Z.lor OWNER_READ OWNER_WRITE))
  | Delete path => Val (Empty, v)
  end.
Definition fs_handle_request (s : FileSystemService) (q : ServiceMessage) :
    outcome (ServiceResponse * FileSystemService) :=
  '(answer, v) ← match data q with
                 | FileSystemReq r => handle_file_request (vfs s) r
                 | _ => Val (Empty, vfs s)
                 end;
  Val ({| response_id := request_id q; response_status := StSuccess; response_data := answer |},
       {| vfs := v |}).
Definition fs_initialize (s : FileSystemService) : outcome (result unit ServiceError * FileSystemService) :=
  '(r, v) ← vfs_mount new (vfs s) "/" FsExt4 None false;
  Val (match r with Ok _ => Ok () | Err _ => Err SeInvalidRequest end, {| vfs := v |}).
Definition fs_shutdown (s : FileSystemService) : outcome (result unit ServiceError * FileSystemService) :=
  Val (Ok (), s).
#[export] Instance fs_service_handler : ServiceHandler FileSystemService := {|
  sh_handle_request := fs_handle_request; sh_service_type _ := SvcFileSystem;
  sh_initialize := fs_initialize; sh_shutdown := fs_shutdown;
|}.
End service.

(** ** Prefixes and the mount table *)
Lemma starts_with_iff s p : starts_with s p = true ↔ ∃ r, s = p +:+ r.
Proof.
  revert s. induction p as [|a p IH]; intros s; simpl; [split; [by exists s|done]|].
  destruct s as [|b s]; [split; [done|by intros [? ?]]|].
  rewrite andb_true_iff, bool_decide_eq_true, IH. split.
  - intros [-> [r ->]]. by exists r.
  - intros [r [= -> ->]]. eauto.
Qed.
(** Prefixes of one string are determined by their lengths. *)
Lemma prefix_length_inj s p q : starts_with s p = true → starts_with s q = true →
  String.length p = String.length q → p = q.
Proof.
  revert s q. induction p as [|a p IH]; intros s [|b q]; try done.
  destruct s as [|c s]; [done|]. simpl. rewrite !andb_true_iff, !bool_decide_eq_true.
  intros [-> Hp] [-> Hq] [= Hl]. f_equal. by eapply IH.
Qed.
Lemma string_entries_elem {V} (m : gmap string V) p x : (p, x) ∈ string_entries m ↔ m !! p = Some x.
Proof. unfold string_entries. by rewrite merge_sort_Permutation, elem_of_map_to_list. Qed.

(** What the search has found after the entries [es]: the longest of their keys
    that is a prefix of the path, if any. *)
Definition best_of (path : string) (es : list (string * MountPoint)) (b : string * option MountPoint) : Prop :=
  (∀ p m, (p, m) ∈ es → starts_with path p = true → (String.length p ≤ String.length b.1)%nat) ∧
  match b.2 with
  | None => b.1 = ""%string
  | Some m => (b.1, m) ∈ es ∧ starts_with path b.1 = true
  end.
Lemma best_of_foldl path es0 es b : best_of path es0 b →
  best_of path (es0 ++ es) (foldl (better_match path) b es).
Proof.
  revert es0 b. induction es as [|[p m] es IH]; intros es0 b Hb; simpl; [by rewrite app_nil_r|].
  replace (es0 ++ (p, m) :: es) with ((es0 ++ [(p, m)]) ++ es) by by rewrite <-app_assoc.
  apply IH. destruct Hb as [Hle Hb]. unfold better_match. simpl.
  destruct (starts_with path p) eqn:Hp; simpl; [case_bool_decide as Hlen|]; split; simpl.
  - intros q mq Hq Hs. apply elem_of_app in Hq as [Hq|[= -> ->]%list_elem_of_singleton]; [|done].
    specialize (Hle _ _ Hq Hs). lia.
  - split; [set_solver|done].
  - intros q mq Hq Hs. apply elem_of_app in Hq as [Hq|[= -> ->]%list_elem_of_singleton]; [eauto|lia].
  - destruct (b.2); [|done]. set_solver.
  - intros q mq Hq Hs. apply elem_of_app in Hq as [Hq|[= -> ->]%list_elem_of_singleton]; [eauto|congruence].
  - destruct (b.2); [|done]. set_solver.
Qed.

Section mounts.
Context {D : Type}.
Implicit Types v : Vfs D.

(** Every mount point is stored under its own path, which is absolute. *)
Definition mounts_wf v : Prop :=
  map_Forall (λ p m, mount_path m = p ∧ starts_with p "/" = true) (mount_points v).

(** What the search returns. *)
Lemma find_mount_point_spec v path : mounts_wf v →
  match find_mount_point v path with
  | Ok m => mount_points v !! mount_path m = Some m ∧ starts_with path (mount_path m) = true ∧
      ∀ q, is_Some (mount_points v !! q) → starts_with path q = true →
        (String.length q ≤ String.length (mount_path m))%nat
  | Err e => e = NotMounted ∧ ∀ q, is_Some (mount_points v !! q) → starts_with path q = false
  end.
Proof.
  intros Hwf. unfold find_mount_point.
  destruct (best_of_foldl path [] (string_entries (mount_points v)) (""%string, None)) as [Hle Hb].
  { split; [|done]. intros p m []%not_elem_of_nil. }
  destruct (foldl _ _ _) as [best [m|]]; simpl in *.
  - destruct Hb as [Hin%string_entries_elem Hs]. destruct (Hwf _ _ Hin) as [-> _]. split_and!; [done..|].
    intros q [mq Hq] Hsq. eapply Hle; [by apply string_entries_elem|done].
  - subst best. split; [done|]. intros q [mq Hq]. destruct (starts_with path q) eqn:Hsq; [|done].
    apply string_entries_elem in Hq as Hin. specialize (Hle _ _ Hin Hsq). destruct (Hwf _ _ Hq) as [_ Habs].
    destruct q; simpl in *; [done|lia].
Qed.

(** Path resolution picks the longest mounted prefix.  The search returns a
    mount point exactly when that mount point is in the table, its path is a
    string prefix of the requested path, and no mounted prefix of the path is
    longer; it reports [NotMounted] exactly when no mounted path is a prefix.
    (Prefixes are of strings, not of path components: a mount at /mnt also takes
    /mntfoo.) *)
Theorem find_mount_point_longest v path :
  mounts_wf v →
  (∀ m, find_mount_point v path = Ok m ↔
    mount_points v !! mount_path m = Some m ∧ starts_with path (mount_path m) = true ∧
    ∀ q, is_Some (mount_points v !! q) → starts_with path q = true →
      (String.length q ≤ String.length (mount_path m))%nat) ∧
  (find_mount_point v path = Err NotMounted ↔
    ∀ q, is_Some (mount_points v !! q) → starts_with path q = false).
Proof.
  intros Hwf. pose proof (find_mount_point_spec v path Hwf) as Hf.
  destruct (find_mount_point v path) as [m0|e].
  - destruct Hf as (Hm0 & Hs0 & Hmax0). split; [|split; [done|intros Hn; by rewrite Hn in Hs0 by eauto]].
    intros m. split; [by intros [= <-]|]. intros (Hm & Hs & Hmax). f_equal.
    cut (mount_path m0 = mount_path m); [congruence|].
    apply (prefix_length_inj path); [done..|]. apply Nat.le_antisymm; eauto.
  - destruct Hf as [-> Hn]. split; [|done]. intros m. split; [done|]. intros (Hm & Hs & _).
    by rewrite (Hn (mount_path m)) in Hs by eauto.
Qed.
End mounts.

Definition two_mounts : Vfs Ext4FileSystem :=
  let mp p := {| mount_path := p; filesystem := FsExt4; read_only := false; mount_device := None |} in
  Build_Vfs (<["/"%string := mp "/"%string]> {["/mnt"%string := mp "/mnt"%string]}) ∅ ∅ 1.
Lemma find_mount_point_longest_witness : mounts_wf two_mounts ∧
  ∃ m, find_mount_point two_mounts "/mntfoo" = Ok m ∧ mount_path m = "/mnt"%string.
Proof.
  assert (mounts_wf two_mounts) as Hwf.
  { apply map_Forall_insert_2; [done|]. by apply map_Forall_singleton. }
  split; [done|]. eexists {| mount_path := "/mnt"; filesystem := FsExt4; read_only := false; mount_device := None |}.
  split; [|done]. apply (find_mount_point_longest two_mounts "/mntfoo" Hwf). split_and!; [done..|].
  intros q [m Hq]. unfold two_mounts in Hq. simpl in Hq.
  apply lookup_insert_Some in Hq as [[<- _]|[_ [<- _]%lookup_singleton_Some]]; simpl; lia.
Defined.

(** ** Histories *)
Inductive vfs_op :=
  | OpMount (path : string) (t : FileSystemType) (device : option Z) (ro : bool)
  | OpUnmount (path : string)
  | OpRequest (q : FsRequest).

(** The bytes a step may move, and what its arguments satisfy as words. *)
Definition op_bytes (o : vfs_op) : Z :=
  match o with
  | OpRequest (FrRead _ size) => size
  | OpRequest (FrWrite _ data) => len data
  | _ => 0
  end.
Definition op_ok (o : vfs_op) : Prop := 0 ≤ op_bytes o.

Section steps.
Context {P : Profile} {D : Type} {FS : FileSystem D} (ext4_new : D).

Definition vfs_step (v : Vfs D) (o : vfs_op) : outcome (result FsResponse VfsError * Vfs D) :=
  match o with
  | OpMount path t device ro => respond (λ _, FsSuccess) (vfs_mount ext4_new v path t device ro)
  | OpUnmount path => respond (λ _, FsSuccess) (vfs_unmount v path)
  | OpRequest q => handle_fs_request v q
  end.
Fixpoint vfs_run (v : Vfs D) (os : list vfs_op) : outcome (list (result FsResponse VfsError) * Vfs D) :=
  match os with
  | [] => Val ([], v)
  | o :: os =>
      '(r, v) ← vfs_step v o;
      '(rs, v) ← vfs_run v os;
      Val (r :: rs, v)
  end.
End steps.

(** The descriptor a response carries. *)
Definition new_fd (r : result FsResponse VfsError) : option Z :=
  match r with Ok (FsDescriptor fd) => Some fd | _ => None end.

Section invariant.
Context {P : Profile} {D : Type} {FS : FileSystem D} (ext4_new : D).
Context {L : FileSystemLaws D ext4_new}.
Implicit Types v : Vfs D.

(** An open file belongs to a mounted file system, its descriptor was handed
    out, and [b] more bytes fit behind its offset. *)
Record file_ok v (b fd : Z) (f : OpenFile) : Prop := {
  file_fd : 1 ≤ fd < next_fd v;
  file_mounted : is_Some (mount_points v !! of_mount f);
  file_inode : fs_inode (of_inode f);
  file_offset : 0 ≤ of_offset f ∧ of_offset f + b < 2 ^ 64;
}.
(** The mount table and the file systems have the same keys, file systems have
    room for [n] more calls, and so has the descriptor counter. *)
Record vfs_inv (n b : Z) v : Prop := {
  inv_wf : mounts_wf v;
  inv_dom : dom (mount_points v) = dom (file_systems v);
  inv_ready : map_Forall (λ _ d, fs_ready n d) (file_systems v);
  inv_files : map_Forall (file_ok v b) (open_files v);
  inv_room : 0 ≤ n ∧ 1 ≤ next_fd v ∧ next_fd v + n < 2 ^ 32;
  inv_bytes : 0 ≤ b ≤ isize_max;
}.

Lemma vfs_inv_weaken n b n' b' v : 0 ≤ n' ≤ n → 0 ≤ b' ≤ b → vfs_inv n b v → vfs_inv n' b' v.
Proof.
  intros Hn Hb []. split; try done; [| |lia..].
  - intros p d Hd. eapply law_fs_mono; [done|]. by apply (inv_ready0 p).
  - intros fd f Hf. destruct (inv_files0 fd f Hf) as []. split; try done. lia.
Qed.

Lemma vfs_inv_pred n b v : 0 ≤ n → vfs_inv (n + 1) b v → vfs_inv n b v.
Proof. intros Hn Hv. pose proof (inv_bytes _ _ _ Hv). eapply vfs_inv_weaken; [..|done]; lia. Qed.
Lemma vfs_inv_spend n b k v : 0 ≤ b → 0 ≤ k → vfs_inv n (b + k) v → vfs_inv n b v.
Proof. intros ? ? Hv. pose proof (inv_room _ _ _ Hv). eapply vfs_inv_weaken; [..|done]; lia. Qed.
#[local] Hint Resolve vfs_inv_pred vfs_inv_spend : core.

(** What a step gives: the invariant with one call and the step's bytes less;
    a descriptor it returns is the counter before it. *)
Definition step_post (n b : Z) v (fd_of : option Z) (v' : Vfs D) : Prop :=
  vfs_inv n b v' ∧ next_fd v' = (if fd_of is Some _ then next_fd v + 1 else next_fd v) ∧
  (∀ fd, fd_of = Some fd → fd = next_fd v).

Lemma step_post_refl n b k v : 0 ≤ n → 0 ≤ b → 0 ≤ k → vfs_inv (n + 1) (b + k) v → step_post n b v None v.
Proof. intros. split; [|done]. eauto. Qed.

(** Files stay valid when descriptors are added and no mount goes. *)
Lemma file_ok_mono v v' b fd f : next_fd v ≤ next_fd v' →
  (is_Some (mount_points v !! of_mount f) → is_Some (mount_points v' !! of_mount f)) →
  file_ok v b fd f → file_ok v' b fd f.
Proof. intros Hn Hm []. split; [lia|auto|done..]. Qed.

(** Replacing a file system by a ready one. *)
Lemma vfs_inv_set_fs n b mp d v :
  vfs_inv (n + 1) b v → 0 ≤ n → is_Some (file_systems v !! mp) → fs_ready n d →
  vfs_inv n b (set_fs v (<[mp := d]> (file_systems v))).
Proof.
  intros Hv Hn Hmp Hd. assert (vfs_inv n b v) as [] by eauto.
  split; simpl; try done.
  - rewrite dom_insert_L, inv_dom0. apply elem_of_dom in Hmp. set_solver.
  - by apply map_Forall_insert_2.
  - intros fd f Hf. eapply file_ok_mono; [..|by apply inv_files0]; done.
Qed.
Lemma with_fs_post {A} n b v mp (k : D → outcome (result A VfsError * D)) (Q : result A VfsError → Prop) :
  vfs_inv (n + 1) b v → 0 ≤ n →
  (∀ d, fs_ready (n + 1) d → returns (k d) (λ '(r, d'), fs_ready n d' ∧ Q r)) → Q (Err NotMounted) →
  returns (with_fs v mp k) (λ '(r, v'),
    vfs_inv n b v' ∧ Q r ∧ next_fd v' = next_fd v ∧ open_files v' = open_files v ∧
    mount_points v' = mount_points v).
Proof.
  intros Hv Hn Hk He. unfold with_fs. destruct (file_systems v !! mp) as [d|] eqn:E.
  - eapply returns_bind; [apply Hk, (inv_ready _ _ _ Hv mp d E)|]. intros [r d'] [Hd' Hr].
    apply returns_val. split_and!; try done. by apply vfs_inv_set_fs; eauto.
  - apply returns_val. split_and!; eauto.
Qed.
Lemma on_path_post {A} n b v path refuse (k : D → string → outcome (result A VfsError * D)) :
  vfs_inv (n + 1) b v → 0 ≤ n →
  (∀ d p, fs_ready (n + 1) d → returns (k d p) (λ '(_, d'), fs_ready n d')) →
  returns (on_path v path refuse k) (λ '(_, v'), vfs_inv n b v' ∧ next_fd v' = next_fd v).
Proof.
  intros Hv Hn Hk. assert (vfs_inv n b v) as Hv' by eauto.
  unfold on_path. destruct (find_mount_point v path); [|by apply returns_val].
  destruct (refuse _); [by apply returns_val|].
  eapply returns_mono; [apply (with_fs_post n b _ _ _ (λ _, True)); try done|].
  - intros d Hd. eapply returns_mono; [by apply Hk|]. by intros [].
  - intros [r v'] (? & _ & ? & _). done.
Qed.
Lemma respond_post {A} n b v (f : A → FsResponse) (o : outcome (result A VfsError * Vfs D)) :
  returns o (λ '(_, v'), vfs_inv n b v' ∧ next_fd v' = next_fd v) →
  (∀ a, new_fd (Ok (f a)) = None) →
  returns (respond f o) (λ '(r, v'), step_post n b v (new_fd r) v').
Proof.
  intros Ho Hf. eapply returns_try; [exact Ho| |].
  - intros a v' [? ?]. apply returns_val. by rewrite Hf.
  - intros e v' [? ?]. done.
Qed.

(** The descriptor of a successful [open]. *)
Definition opened (r : result Z VfsError) : option Z := match r with Ok fd => Some fd | Err _ => None end.
Lemma open_post n b v path flags : vfs_inv (n + 1) b v → 0 ≤ n →
  returns (vfs_open v path flags) (λ '(r, v'), step_post n b v (opened r) v').
Proof.
  intros Hv Hn. pose proof (inv_room _ _ _ Hv) as Hroom. pose proof (inv_bytes _ _ _ Hv) as Hb.
  assert (step_post n b v None v) as Hrefl by (apply (step_post_refl n b 0); [lia..|by rewrite Z.add_0_r]).
  unfold vfs_open. destruct (find_mount_point v path) as [m|e] eqn:Hm; [|by apply returns_val].
  destruct (read_only m && _); [by apply returns_val|].
  eapply returns_try; [apply (with_fs_post n b v _ _ (λ r, ∀ i m', r = Ok (i, m') → fs_inode i)); try done| |].
  - intros d Hd. by apply law_fs_open.
  - intros [i meta] v' (Hv' & Hi & Hfd & Hof & Hmp). specialize (Hi i meta eq_refl).
    rewrite uadd_val by lia. cbn [mbind outcome_bind]. apply returns_val. rewrite Hfd.
    split; [|split; [done|by intros fd [= <-]]]. destruct Hv'. split; simpl; try done; [|lia].
    apply map_Forall_insert_2.
    + split; simpl; [lia| |done|unfold isize_max in *; lia]. rewrite Hmp.
      pose proof (find_mount_point_spec v path (inv_wf _ _ _ Hv)) as Hf. rewrite Hm in Hf. naive_solver.
    + intros fd f Hf. eapply file_ok_mono; [..|by apply inv_files0]; [simpl; lia|done].
  - intros e v' (Hv' & _ & Hfd & _). done.
Qed.

(** Changing the offset of an open file within the bytes still available. *)
Lemma set_offset_inv n b k v fd f off : 0 ≤ k → vfs_inv n (b + k) v → open_files v !! fd = Some f →
  0 ≤ b → of_offset f ≤ off ≤ of_offset f + k → vfs_inv n b (set_open v (<[fd := set_offset f off]> (open_files v))).
Proof.
  intros Hk Hv Hf Hb Hoff. pose proof (inv_files _ _ _ Hv fd f Hf) as [].
  assert (vfs_inv n b v) as [] by eauto.
  split; simpl; try done. apply map_Forall_insert_2; [split; simpl; [done..|lia]|].
  intros fd' f' Hf'. eapply file_ok_mono; [..|by apply inv_files0]; done.
Qed.
Lemma open_file_room n b v fd f k : vfs_inv n (b + k) v → open_files v !! fd = Some f → 0 ≤ b → 0 ≤ k →
  fs_inode (of_inode f) ∧ 0 ≤ of_offset f ∧ of_offset f + k < 2 ^ 64.
Proof. intros Hv Hf ? ?. destruct (inv_files _ _ _ Hv fd f Hf). split; [done|]. lia. Qed.

Lemma read_post n b v fd buffer : vfs_inv (n + 1) (b + len buffer) v → 0 ≤ n → 0 ≤ b →
  returns (vfs_read v fd buffer) (λ '(r, buffer', v'), vfs_inv n b v' ∧ next_fd v' = next_fd v).
Proof.
  intros Hv Hn Hb. pose proof (len_nonneg buffer) as Hl.
  assert (vfs_inv n b v) as Hv0 by eauto.
  unfold vfs_read. destruct (open_files v !! fd) as [f|] eqn:Hf; [|by apply returns_val].
  destruct (_ =? _); [by apply returns_val|].
  destruct (file_systems v !! of_mount f) as [d|] eqn:Hd; [|by apply returns_val].
  destruct (open_file_room _ _ _ _ _ _ Hv Hf Hb Hl) as (Hi & Hoff & Hend).
  eapply returns_bind; [apply (law_fs_read n d); [done|by apply (inv_ready _ _ _ Hv (of_mount f))|done..]|].
  intros [[r buffer'] d'] (Hd' & _ & Hr). assert (vfs_inv n (b + len buffer)
    (set_fs v (<[of_mount f := d']> (file_systems v)))) as Hv1 by (apply vfs_inv_set_fs; eauto).
  destruct r as [k|e].
  - specialize (Hr k eq_refl). rewrite uadd_val by lia. cbn [mbind outcome_bind]. apply returns_val.
    split; [|done]. apply (set_offset_inv n b (len buffer) (set_fs v _)); [done|done|done|lia|lia].
  - apply returns_val. split; eauto.
Qed.

Lemma write_post n b v fd buffer : vfs_inv (n + 1) (b + len buffer) v → 0 ≤ n → 0 ≤ b →
  returns (vfs_write v fd buffer) (λ '(r, v'), vfs_inv n b v' ∧ next_fd v' = next_fd v).
Proof.
  intros Hv Hn Hb. pose proof (len_nonneg buffer) as Hl.
  assert (vfs_inv n b v) as Hv0 by eauto.
  unfold vfs_write. destruct (open_files v !! fd) as [f|] eqn:Hf; [|by apply returns_val].
  destruct (_ =? _); [by apply returns_val|].
  destruct (open_file_room _ _ _ _ _ _ Hv Hf Hb Hl) as (Hi & Hoff & Hend).
  eapply returns_try.
  - apply (with_fs_post n (b + len buffer) v _ _ (λ r, ∀ k, r = Ok k → 0 ≤ k ≤ len buffer)); try done.
    intros d Hd. by apply law_fs_write.
  - intros k v' (Hv' & Hr & Hfd & Hof & _). specialize (Hr k eq_refl).
    rewrite uadd_val by lia. cbn [mbind outcome_bind]. apply returns_val. split; [|done].
    apply (set_offset_inv n b (len buffer)); [done|done|by rewrite Hof|lia|lia].
  - intros e v' (Hv' & _ & Hfd & _). split; eauto.
Qed.

Lemma close_post n b v fd : vfs_inv (n + 1) b v → 0 ≤ n →
  returns (vfs_close v fd) (λ '(r, v'), vfs_inv n b v' ∧ next_fd v' = next_fd v).
Proof.
  intros Hv Hn. unfold vfs_close. destruct (open_files v !! fd) as [f|] eqn:Hf.
  - eapply returns_mono; [apply (with_fs_post n b (set_open v (delete fd (open_files v))) _ _ (λ _, True))|].
    + destruct Hv. split; simpl; try done. apply map_Forall_delete. intros fd' f' Hf'.
      eapply file_ok_mono; [..|by apply inv_files0]; done.
    + done.
    + intros d Hd. eapply returns_mono; [by apply law_fs_close|]. by intros [].
    + done.
    + intros [r v'] (? & _ & ? & _). done.
  - apply returns_val. split; eauto.
Qed.

Lemma mount_post n b v path t device ro : vfs_inv (n + 1) b v → 0 ≤ n →
  returns (vfs_mount ext4_new v path t device ro) (λ '(r, v'), vfs_inv n b v' ∧ next_fd v' = next_fd v).
Proof.
  intros Hv Hn. assert (vfs_inv n b v) as Hv0 by eauto. unfold vfs_mount.
  destruct (bool_decide (path = _) || _) eqn:Hpath; [by apply returns_val|].
  apply orb_false_iff in Hpath as [_ Hpath%negb_false_iff].
  case_bool_decide as Hm; [by apply returns_val|]. destruct t; try by apply returns_val.
  destruct law_fs_init as (d & -> & Hmnt). cbn [mbind outcome_bind].
  destruct (Hmnt device) as (d' & -> & Hd'). cbn [mbind outcome_bind]. apply returns_val. split; [|done].
  destruct Hv0. split; simpl; try done.
  - by apply map_Forall_insert_2.
  - by rewrite !dom_insert_L, inv_dom0.
  - apply map_Forall_insert_2; [|done]. eapply law_fs_mono; [|done]. lia.
  - intros fd f Hf. eapply file_ok_mono; [..|by apply inv_files0]; [done|]. intros Hs. simpl.
    rewrite lookup_insert_is_Some'. by right.
Qed.

Lemma unmount_post n b v path : vfs_inv (n + 1) b v → 0 ≤ n →
  returns (vfs_unmount v path) (λ '(r, v'), vfs_inv n b v' ∧ next_fd v' = next_fd v).
Proof.
  intros Hv Hn. assert (vfs_inv n b v) as Hv0 by eauto. unfold vfs_unmount.
  destruct (existsb _ _) eqn:Hopen; [by apply returns_val|].
  destruct (file_systems v !! path) as [d|] eqn:Hd.
  - destruct (law_fs_unmount n d) as [d' ->]; [by apply (inv_ready _ _ _ Hv0 path)|].
    cbn [mbind outcome_bind]. simpl.
    assert (path ∈ dom (mount_points v)) as [m Hm]%elem_of_dom
      by (rewrite (inv_dom _ _ _ Hv); apply elem_of_dom; eauto).
    rewrite Hm. apply returns_val. split; [|done]. destruct Hv0. split; simpl; try done.
    + by apply map_Forall_delete.
    + by rewrite !dom_delete_L, inv_dom0.
    + by apply map_Forall_delete.
    + intros fd f Hf. eapply file_ok_mono; [..|by apply inv_files0]; [done|]. intros Hs. simpl.
      rewrite lookup_delete_ne; [done|]. intros ->.
      apply not_true_iff_false in Hopen. apply Hopen, existsb_exists. exists f. split.
      * apply list_elem_of_In, list_elem_of_fmap. exists (fd, f). split; [done|]. by apply elem_of_map_to_list.
      * by apply bool_decide_eq_true.
  - cbn [mbind outcome_bind]. simpl.
    assert (mount_points v !! path = None) as ->
      by (apply not_elem_of_dom; rewrite (inv_dom _ _ _ Hv); by apply not_elem_of_dom).
    apply returns_val. split; [|done]. rewrite delete_id by done. by destruct v.
Qed.

Lemma len_zeros k : 0 ≤ k → len (replicate (Z.to_nat k) 0) = k.
Proof. intros. unfold len. rewrite length_replicate. lia. Qed.

Lemma step_post_spec n b v o : vfs_inv (n + 1) (b + op_bytes o) v → 0 ≤ n → 0 ≤ b → op_ok o →
  returns (vfs_step ext4_new v o) (λ '(r, v'), step_post n b v (new_fd r) v').
Proof.
  intros Hv Hn Hb Ho. assert (vfs_inv (n + 1) b v) as Hv1 by eauto.
  destruct o as [path t dv ro|path|q]; simpl.
  - apply respond_post; [by apply mount_post|done].
  - apply respond_post; [by apply unmount_post|done].
  - destruct q as [path fl|fd|fd sz|fd dat|path|path t pm|path|path|path pm|path]; simpl in *.
    + eapply returns_try; [by apply open_post|intros fd v' ?; by apply returns_val|done].
    + apply respond_post; [by apply close_post|done].
    + pose proof (inv_bytes _ _ _ Hv) as Hsz. unfold op_ok in Ho. simpl in Ho. unfold vec_zeroed.
      destruct (Z.ltb_spec isize_max sz); [lia|]. cbn [mbind outcome_bind].
      eapply returns_bind; [apply (read_post n b); [by rewrite len_zeros|done..]|].
      intros [[[k|e] buf] v'] [? ?]; by apply returns_val.
    + apply respond_post; [by apply write_post|done].
    + apply respond_post; [|done]. apply on_path_post; [done..|]. intros. by apply law_fs_stat.
    + apply respond_post; [|done]. eapply returns_try; [apply (on_path_post n b); [done..|]| |by intros e v'].
      * intros. by apply law_fs_create.
      * intros i v' ?. by apply returns_val.
    + apply respond_post; [|done]. apply on_path_post; [done..|]. intros. by apply law_fs_unlink.
    + apply respond_post; [|done]. apply on_path_post; [done..|]. intros. by apply law_fs_readdir.
    + apply respond_post; [|done]. apply on_path_post; [done..|]. intros. by apply law_fs_mkdir.
    + apply respond_post; [|done]. apply on_path_post; [done..|]. intros. by apply law_fs_rmdir.
Qed.

Lemma run_post os v n b : vfs_inv (n + len os) (b + sumZ op_bytes os) v → 0 ≤ n → 0 ≤ b → Forall op_ok os →
  ∃ rs v', vfs_run ext4_new v os = Val (rs, v') ∧ vfs_inv n b v' ∧
    omap new_fd rs = seqZ (next_fd v) (next_fd v' - next_fd v) ∧ next_fd v ≤ next_fd v'.
Proof.
  revert v. induction os as [|o os IH]; intros v Hv Hn Hb Hos.
  { exists [], v. rewrite Z.sub_diag. simpl in Hv. rewrite !Z.add_0_r in Hv. done. }
  apply Forall_cons in Hos as [Ho Hos]. pose proof (len_nonneg os).
  assert (0 ≤ sumZ op_bytes os) by (apply sumZ_nonneg; rewrite Forall_forall in Hos; auto).
  destruct (step_post_spec (n + len os) (b + sumZ op_bytes os) v o) as ([r v1] & Hs & Hv1 & Hfd & Hr);
    [|lia..|done|].
  { replace (n + len os + 1) with (n + len (o :: os)) by (unfold len; simpl; lia).
    by replace (b + sumZ op_bytes os + op_bytes o) with (b + sumZ op_bytes (o :: os)) by (simpl; lia). }
  simpl. rewrite Hs. cbn [mbind outcome_bind].
  destruct (IH v1) as (rs & v2 & -> & Hv2 & Hfds & Hle); [done..|]. cbn [mbind outcome_bind].
  exists (r :: rs), v2. split; [done|]. split; [done|].
  change (omap new_fd (r :: rs)) with (match new_fd r with Some fd => fd :: omap new_fd rs | None => omap new_fd rs end).
  destruct (new_fd r) as [fd|]; rewrite Hfd in *; [|done].
  rewrite (Hr fd eq_refl), Hfds. split; [|lia]. symmetry. rewrite seqZ_cons by lia. f_equal. f_equal; lia.
Qed.

(** C12: Any history of mounts, unmounts and file requests on a new virtual file
    system (fewer than 2^32 - 1 of them, moving at most [isize::MAX] bytes)
    runs without a panic over any file system that keeps the contract, and
    leaves a consistent state: the mount table and the file systems have the
    same keys, every open file belongs to a mounted file system and its
    descriptor was handed out, and no descriptor is handed out twice (they count
    up from 1). *)
Theorem vfs_history os :
  Forall op_ok os → len os < 2 ^ 32 - 1 → sumZ op_bytes os ≤ isize_max →
  ∃ rs v, vfs_run ext4_new vfs_new os = Val (rs, v) ∧ vfs_inv 0 0 v ∧
    omap new_fd rs = seqZ 1 (next_fd v - 1).
Proof.
  intros Hos Hlen Hbytes. destruct (run_post os vfs_new 0 0) as (rs & v & Hr & Hv & Hfds & _);
    [|done..|by eauto].
  pose proof (len_nonneg os). assert (0 ≤ sumZ op_bytes os)
    by (apply sumZ_nonneg; rewrite Forall_forall in Hos; auto).
  split; simpl; [apply map_Forall_empty|done|apply map_Forall_empty|apply map_Forall_empty|lia|lia].
Qed.
End invariant.

Definition session : list vfs_op := [
  OpMount "/" FsExt4 (Some 1) false; OpRequest (FrCreate "/test.txt" Regular 384);
  OpRequest (FrOpen "/test.txt" READ_WRITE); OpRequest (FrWrite 1 [72; 105]);
  OpUnmount "/"; OpRequest (FrStat "/test.txt"); OpRequest (FrClose 1);
  OpRequest (FrOpen "/test.txt" READ_ONLY); OpRequest (FrRead 2 4); OpRequest (FrClose 2); OpUnmount "/" ].
Lemma vfs_history_witness : ∃ rs v, vfs_run (P:=dev) (FS:=@ext4_filesystem dev) new vfs_new session = Val (rs, v) ∧
  vfs_inv (L:=@ext4_laws dev) new 0 0 v ∧ omap new_fd rs = seqZ 1 (next_fd v - 1).
Proof.
  apply (vfs_history (P:=dev) (L:=@ext4_laws dev) new session); [|vm_compute; reflexivity|vm_compute; congruence].
  repeat constructor; vm_compute; congruence.
Defined.
(** The answers of that session: reading returns the placeholder bytes. *)
Example session_answers : fst <$> vfs_run (P:=dev) (FS:=@ext4_filesystem dev) new vfs_new session = Val
  [Ok FsSuccess; Ok FsSuccess; Ok (FsDescriptor 1); Ok (FsBytesWritten 2); Err MountPointBusy;
   Ok (FsMetadata {| meta_inode := 100; file_type := Regular; permissions := 384; size := 2; meta_uid := 0;
     meta_gid := 0; created_time := 1234567890; modified_time := 1234567890; accessed_time := 1234567890 |});
   Ok FsSuccess; Ok (FsDescriptor 2); Ok (FsData [66; 66]); Ok FsSuccess; Ok FsSuccess].
Proof. vm_compute. reflexivity. Qed.

(** ** Through the virtual file system to ext4 *)
Section through_ext4.
Context {P : Profile}.
Implicit Types v : Vfs Ext4FileSystem.

Lemma with_fs_eq {A} v mp d (k : Ext4FileSystem → outcome (result A VfsError * Ext4FileSystem)) r d' :
  file_systems v !! mp = Some d → k d = Val (r, d') →
  with_fs v mp k = Val (r, set_fs v (<[mp := d']> (file_systems v))).
Proof. intros Hd Hk. unfold with_fs. by rewrite Hd, Hk. Qed.
Lemma on_path_eq {A} v path m refuse (k : _ → string → outcome (result A VfsError * Ext4FileSystem)) d r d' :
  find_mount_point v path = Ok m → refuse m = false → file_systems v !! mount_path m = Some d →
  k d (relative_path path (mount_path m)) = Val (r, d') →
  on_path v path refuse k = Val (r, set_fs v (<[mount_path m := d']> (file_systems v))).
Proof. intros Hf Hr Hd Hk. unfold on_path. rewrite Hf, Hr. by apply (with_fs_eq v _ d). Qed.
(** The search depends only on the mount table. *)
Lemma find_mount_point_ext v v' path : mount_points v' = mount_points v →
  find_mount_point v' path = find_mount_point v path.
Proof. intros Hm. unfold find_mount_point. by rewrite Hm. Qed.

(** Creation, opening, writing and status of one path of a ready ext4 file
    system. *)
Lemma ext4_session d p pm buf :
  ext4_inv d → next_inode d + 1 < 2 ^ 64 → 0 ≤ pm ≤ permission_bits → p ≠ "/"%string →
  p ∉ names (abs d) → len buf < 2 ^ 64 →
  let i := next_inode d in
  ∃ d1 d2 d3 d4, create d p Regular pm = Val (Ok i, d1) ∧
    open d1 p READ_WRITE = Val (Ok (i, fresh_metadata i Regular pm), d2) ∧
    write d2 i 0 buf = Val (Ok (len buf), d3) ∧
    stat d3 p = Val (Ok (extended (fresh_metadata i Regular pm) (len buf)), d4).
Proof.
  intros Hd Hroom Hpm Hp Hn Hlen i. pose proof (len_nonneg buf).
  assert (files (abs (created d p Regular pm)) !! p = Some (fresh_metadata i Regular pm)) as Hfile.
  { rewrite created_abs by done. unfold spec_create. rewrite decide_False by done. simpl.
    rewrite decide_False by done. by rewrite lookup_insert_eq. }
  assert (ext4_inv (created d p Regular pm)) as Hd1
    by (apply created_inv; [done..|]; by apply not_elem_of_dom).
  exists (created d p Regular pm). pose proof (open_spec _ p READ_WRITE Hd1) as Ho. rewrite Hfile in Ho.
  destruct Ho as (d2 & Ho & Hs).
  destruct (write_simulates _ d2 p _ 0 buf Hs Hfile) as (d3 & Hw & Ha & Hd3 & _); [lia..|].
  pose proof (stat_spec d3 p Hd3) as Hst. rewrite Ha in Hst. simpl in Hst. rewrite lookup_insert_eq in Hst.
  destruct Hst as (d4 & Hst & _). exists d2, d3, d4. rewrite create_eq, decide_False by done. done.
Qed.

(** C27: What is created and written through the virtual file system is what
    status reports.  On a writable mount, for a path not yet created there,
    creating a regular file, opening it, writing [buf] and asking for its
    status all succeed; the status is that of a regular file with the requested
    permissions and exactly the size written. *)
Theorem create_write_stat v path m d pm buf n b :
  vfs_inv (L:=ext4_laws) new (n + 1) (b + len buf) v → 0 ≤ n → 0 ≤ b →
  find_mount_point v path = Ok m → read_only m = false →
  file_systems v !! mount_path m = Some d → 0 ≤ pm ≤ permission_bits →
  relative_path path (mount_path m) ≠ "/"%string → relative_path path (mount_path m) ∉ names (abs d) →
  ∃ v1 v2 v3 v4 meta, vfs_create v path Regular pm = Val (Ok (), v1) ∧
    vfs_open v1 path READ_WRITE = Val (Ok (next_fd v), v2) ∧
    vfs_write v2 (next_fd v) buf = Val (Ok (len buf), v3) ∧
    vfs_stat v3 path = Val (Ok meta, v4) ∧
    file_type meta = Regular ∧ permissions meta = pm ∧ size meta = len buf.
Proof.
  intros Hv Hn Hb Hm Hro Hd Hpm Hrel Hnew. destruct (inv_ready _ _ _ _ Hv _ _ Hd) as (Hinv & _ & Hroom).
  pose proof (inv_room _ _ _ _ Hv) as Hfd. pose proof (inv_bytes _ _ _ _ Hv) as Hbytes.
  pose proof (len_nonneg buf). unfold isize_max in Hbytes.
  destruct (ext4_session d (relative_path path (mount_path m)) pm buf)
    as (d1 & d2 & d3 & d4 & Hc & Ho & Hw & Hs); [done|lia|done..|lia|].
  set (v1 := set_fs v (<[mount_path m := d1]> (file_systems v))).
  set (v2 := set_fs v1 (<[mount_path m := d2]> (file_systems v1))).
  set (f := {| of_inode := next_inode d; of_mount := mount_path m; of_flags := READ_WRITE; of_offset := 0;
               of_metadata := fresh_metadata (next_inode d) Regular pm |}).
  set (v2' := set_open (set_next_fd v2 (next_fd v + 1)) (<[next_fd v := f]> (open_files v))).
  set (v3 := set_fs v2' (<[mount_path m := d3]> (file_systems v2'))).
  eexists v1, v2', (set_open v3 (<[next_fd v := set_offset f (len buf)]> (open_files v3))), _, _.
  split_and!.
  - unfold vfs_create. rewrite (on_path_eq v path m _ _ d (Ok (next_inode d)) d1); done.
  - unfold vfs_open. rewrite (find_mount_point_ext v) by done. rewrite Hm, Hro. simpl.
    rewrite (with_fs_eq v1 (mount_path m) d1 _ (Ok (next_inode d, fresh_metadata (next_inode d) Regular pm)) d2);
      [|apply lookup_insert_eq|done]. unfold try. cbn [mbind outcome_bind]. by rewrite uadd_val by (simpl; lia).
  - unfold vfs_write. simpl. rewrite lookup_insert_eq. simpl.
    rewrite (with_fs_eq v2' (mount_path m) d2 _ (Ok (len buf)) d3); [|apply lookup_insert_eq|done].
    unfold try. cbn [mbind outcome_bind]. by rewrite uadd_val by (simpl; lia).
  - unfold vfs_stat. apply (on_path_eq _ path m _ _ d3);
      [by rewrite (find_mount_point_ext v)|done|apply lookup_insert_eq|exact Hs].
  - unfold extended. by destruct (_ <? _).
  - unfold extended. by destruct (_ <? _).
  - unfold extended. destruct (Z.ltb_spec (size (fresh_metadata (next_inode d) Regular pm)) (len buf));
      simpl in *; lia.
Qed.
End through_ext4.

(** ** The service *)
Definition root_mount (ro : bool) : MountPoint :=
  {| mount_path := "/"; filesystem := FsExt4; read_only := ro; mount_device := None |}.
(** What [initialize] leaves. *)
Definition root_vfs : Vfs Ext4FileSystem :=
  Build_Vfs {["/"%string := root_mount false]} {["/"%string := mounted_fs None]} ∅ 1.

Definition message_bytes (q : ServiceMessage) : Z :=
  match data q with
  | FileSystemReq (FsRead _ size) => size
  | FileSystemReq (FsWrite _ data) => len data
  | _ => 0
  end.

Section service_theorems.
Context {P : Profile}.
Implicit Types v : Vfs Ext4FileSystem.

Fixpoint handle_all (s : FileSystemService) (qs : list ServiceMessage) :
    outcome (list ServiceResponse * FileSystemService) :=
  match qs with
  | [] => Val ([], s)
  | q :: qs =>
      '(r, s) ← fs_handle_request s q;
      '(rs, s) ← handle_all s qs;
      Val (r :: rs, s)
  end.

Lemma initialize_root : fs_initialize fs_service_new = Val (Ok (), {| vfs := root_vfs |}).
Proof. destruct P; vm_compute; reflexivity. Qed.
Lemma root_vfs_inv n b : 0 ≤ n < 2 ^ 32 - 1 → 0 ≤ b ≤ isize_max → vfs_inv (L:=ext4_laws) new n b root_vfs.
Proof.
  intros Hn Hb. split; simpl; try lia; try done.
  - by apply map_Forall_singleton.
  - apply map_Forall_singleton. split; [apply mounted_fs_inv|simpl; lia].
Qed.

Lemma data_or_empty_post {A} n b v (f : A → ServiceData) o :
  returns o (λ '(_, v'), vfs_inv (L:=ext4_laws) new n b v' ∧ next_fd v' = next_fd v) →
  returns (data_or_empty f o) (λ '(_, v'), vfs_inv (L:=ext4_laws) new n b v').
Proof. intros Ho. eapply returns_bind; [done|]. intros [r v'] [? _]. by apply returns_val. Qed.
Lemma handle_post n b v q :
  vfs_inv (L:=ext4_laws) new (n + 1) (b + message_bytes q) v → 0 ≤ n → 0 ≤ b → 0 ≤ message_bytes q →
  returns (fs_handle_request {| vfs := v |} q) (λ '(r, s'),
    response_status r = StSuccess ∧ response_id r = request_id q ∧ vfs_inv (L:=ext4_laws) new n b (vfs s')).
Proof.
  intros Hv Hn Hb Hq. assert (vfs_inv (L:=ext4_laws) new (n + 1) b v) as Hv1 by by eapply vfs_inv_spend.
  assert (vfs_inv (L:=ext4_laws) new n b v) as Hv0 by by apply vfs_inv_pred.
  eapply (returns_bind _ _ (λ '(_, v'), vfs_inv (L:=ext4_laws) new n b v'));
    [|intros [a v'] ?; by apply returns_val].
  unfold message_bytes in *. destruct (data q) as [| | |r| |]; try by apply returns_val.
  destruct r as [path fl|fd|fd sz|fd dat|path|path dir|path]; simpl; try by apply returns_val.
  - eapply returns_bind; [by apply open_post|]. intros [r v'] [? _]. by apply returns_val.
  - by apply (data_or_empty_post n b v), close_post.
  - pose proof (inv_bytes _ _ _ _ Hv) as Hsz. unfold vec_zeroed.
    destruct (Z.ltb_spec isize_max sz); [lia|]. cbn [mbind outcome_bind].
    eapply returns_bind; [apply (read_post new n b); [by rewrite len_zeros|done..]|].
    intros [[r buf] v'] [? _]. by apply returns_val.
  - by apply (data_or_empty_post n b v), write_post.
  - apply (data_or_empty_post n b v). eapply returns_try; [apply (on_path_post new n b); [done..|]| |by intros e v'].
    + intros. by apply law_fs_create.
    + intros i v' ?. by apply returns_val.
Qed.

(** The file-system service answers every message.  After initialisation,
    any sequence of messages (fewer than 2^32 - 1, moving at most [isize::MAX]
    bytes) is handled without a panic; the responses carry the request numbers
    in order, and all of them carry the status [Success], also when the
    operation failed. *)
Theorem fs_service_answers qs :
  Forall (λ q, 0 ≤ message_bytes q) qs → len qs < 2 ^ 32 - 1 → sumZ message_bytes qs ≤ isize_max →
  ∃ s0 rs s, fs_initialize fs_service_new = Val (Ok (), s0) ∧ handle_all s0 qs = Val (rs, s) ∧
    response_id <$> rs = request_id <$> qs ∧ Forall (λ r, response_status r = StSuccess) rs.
Proof.
  intros Hqs Hlen Hbytes. rewrite initialize_root. eexists.
  cut (∀ v, vfs_inv (L:=ext4_laws) new (len qs) (sumZ message_bytes qs) v → ∃ rs s,
    handle_all {| vfs := v |} qs = Val (rs, s) ∧
    response_id <$> rs = request_id <$> qs ∧ Forall (λ r, response_status r = StSuccess) rs).
  { intros Hall. destruct (Hall root_vfs) as (rs & s & ?); [|by eauto]. pose proof (len_nonneg qs).
    assert (0 ≤ sumZ message_bytes qs) by (apply sumZ_nonneg; by rewrite <-Forall_forall).
    apply root_vfs_inv; lia. }
  clear Hlen Hbytes. induction Hqs as [|q qs Hq Hqs IH]; intros v Hv; [by exists [], {| vfs := v |}|].
  pose proof (len_nonneg qs).
  assert (0 ≤ sumZ message_bytes qs) by (apply sumZ_nonneg; by rewrite <-Forall_forall).
  destruct (handle_post (len qs) (sumZ message_bytes qs) v q) as ([r [v1]] & Hr & Hst & Hid & Hv1); [|done..|].
  { replace (len qs + 1) with (len (q :: qs)) by (unfold len; simpl; lia). simpl in Hv. by rewrite Z.add_comm. }
  destruct (IH v1 Hv1) as (rs & s & Hrs & Hids & Hsts). cbn [handle_all]. rewrite Hr. cbn [mbind outcome_bind].
  rewrite Hrs. cbn [mbind outcome_bind]. exists (r :: rs), s. split; [done|].
  rewrite !fmap_cons, Hid, Hids. split; [done|]. by constructor.
Qed.
End service_theorems.

Definition bad_close : ServiceMessage :=
  {| service_type := SvcFileSystem; request_id := 7; data := FileSystemReq (Close 9) |}.
Lemma fs_service_answers_witness : ∃ s0 rs s, @fs_initialize dev fs_service_new = Val (Ok (), s0) ∧
  @handle_all dev s0 [bad_close] = Val (rs, s) ∧
  response_id <$> rs = [7] ∧ Forall (λ r, response_status r = StSuccess) rs.
Proof.
  apply (@fs_service_answers dev [bad_close]); [|vm_compute; reflexivity|vm_compute; congruence].
  repeat constructor. vm_compute. congruence.
Defined.

Lemma create_write_stat_witness :
  ∃ v1 v2 v3 v4 meta, @vfs_create _ (@ext4_filesystem dev) root_vfs "/test.txt" Regular 384 = Val (Ok (), v1) ∧
    @vfs_open dev _ (@ext4_filesystem dev) v1 "/test.txt" READ_WRITE = Val (Ok (next_fd root_vfs), v2) ∧
    @vfs_write dev _ (@ext4_filesystem dev) v2 (next_fd root_vfs) [72; 105] = Val (Ok (len [72; 105]), v3) ∧
    @vfs_stat _ (@ext4_filesystem dev) v3 "/test.txt" = Val (Ok meta, v4) ∧
    file_type meta = Regular ∧ permissions meta = 384 ∧ size meta = len [72; 105].
Proof.
  apply (@create_write_stat dev root_vfs "/test.txt" (root_mount false) (mounted_fs None) 384 [72; 105] 0 0);
    [|done|done|reflexivity|reflexivity|reflexivity|vm_compute; split; congruence|vm_compute; congruence|].
  - apply root_vfs_inv; vm_compute; split; congruence.
  - simpl. by rewrite dom_empty_L.
Defined.

(** ** Examples *)

(** A read-only mount refuses the two exact flag values, not a writable open
    with a further flag: the root of a read-only mount is then written. *)
Example read_only_mount_is_written :
  (fst <$> vfs_run (P:=dev) (FS:=@ext4_filesystem dev) new vfs_new
    [OpMount "/" FsExt4 None true; OpRequest (FrOpen "/" READ_WRITE);
     OpRequest (FrOpen "/" (Z.lor READ_WRITE CREATE)); OpRequest (FrWrite 1 [1; 2; 3])]) =
  Val [Ok FsSuccess; Err ReadOnlyFileSystem; Ok (FsDescriptor 1); Ok (FsBytesWritten 3)].
Proof. vm_compute. reflexivity. Qed.
(** The root of a mounted file system is a regular file, so it cannot be listed. *)
Example root_is_not_a_directory :
  (fst <$> vfs_run (P:=dev) (FS:=@ext4_filesystem dev) new vfs_new
    [OpMount "/" FsExt4 None false; OpRequest (FrReadDir "/")]) = Val [Ok FsSuccess; Err NotDirectory].
Proof. vm_compute. reflexivity. Qed.
(** A mount takes paths of which it is only a string prefix. *)
Example mount_takes_sibling :
  (fst <$> vfs_run (P:=dev) (FS:=@ext4_filesystem dev) new vfs_new
    [OpMount "/" FsExt4 None false; OpMount "/mnt" FsExt4 None false;
     OpRequest (FrCreate "/mntfoo" Regular 384); OpUnmount "/mnt"; OpRequest (FrStat "/mntfoo")]) =
  Val [Ok FsSuccess; Ok FsSuccess; Ok FsSuccess; Ok FsSuccess; Err NotFound].
Proof. vm_compute. reflexivity. Qed.
