(* ===== verification/DriverManager.v ===== *)
(** * The driver manager

    Models [userspace/driver-manager/src/]: the dependency resolver, the driver
    registry, the isolation of driver processes, the loader, and the manager and
    its service that compose them.

    [BTreeMap]s are finite maps; driver and process identifiers are [u32]. *)
From stdpp Require Import pretty.
From S2P Require Import Prelude DriverKit Service.

(** ** The loader ([driver_loader.rs]) *)
Record DriverMetadata := {
  meta_name : string;
  meta_version : string;
  required_capabilities : list string;
  hardware_requirements : list string;
}.
Record DriverBinary := {
  binary_data : list Z;
  entry_point : Z;
  dependencies : list string;
  metadata : DriverMetadata;
}.
(** The source returns the same mock binary for every path. *)
Definition load_driver_binary (driver_path : string) : result DriverBinary DriverError :=
  Ok {| binary_data := []; entry_point := 0x1000; dependencies := [];
        metadata := {| meta_name := "mock_driver"; meta_version := "1.0.0";
                       required_capabilities := []; hardware_requirements := [] |} |}.
Definition validate_driver_binary (b : DriverBinary) : result unit DriverError :=
  if is_empty (binary_data b) then Err InitializationFailed
  else if entry_point b =? 0 then Err InitializationFailed
  else Ok ().
Definition extract_dependencies (b : DriverBinary) : list string := dependencies b.

(** ** The dependency resolver ([dependency_resolver.rs]) *)
Record DependencyResolver := {
  name_to_id : gmap string Z;
  dependents : gmap Z (list Z);
}.
Definition resolver_new : DependencyResolver := {| name_to_id := ∅; dependents := ∅ |}.
Implicit Types r : DependencyResolver.

(** [BTreeMap<DriverId, bool>] used as a set: only the keys are looked at. *)
Fixpoint check_circular (visited : gset Z) (l : list Z) : result unit DriverError :=
  match l with
  | [] => Ok ()
  | dep_id :: l =>
      if decide (dep_id ∈ visited) then Err InitializationFailed
      else check_circular ({[dep_id]} ∪ visited) l
  end.
Definition check_circular_dependencies (l : list Z) : result unit DriverError := check_circular ∅ l.
Fixpoint lookup_names (names : gmap string Z) (l : list string) : result (list Z) DriverError :=
  match l with
  | [] => Ok []
  | dep_name :: l =>
      match names !! dep_name with
      | None => Err InitializationFailed
      | Some dep_id =>
          match lookup_names names l with Ok ids => Ok (dep_id :: ids) | Err e => Err e end
      end
  end.
Definition resolve_dependencies r (binary : DriverBinary) : result (list Z) DriverError :=
  match lookup_names (name_to_id r) (dependencies binary) with
  | Err e => Err e
  | Ok resolved_deps =>
      match check_circular_dependencies resolved_deps with
      | Ok _ => Ok resolved_deps
      | Err e => Err e
      end
  end.
Definition register_driver_name r (driver_name : string) (driver_id : Z) : DependencyResolver :=
  {| name_to_id := <[driver_name := driver_id]> (name_to_id r); dependents := dependents r |}.
Definition unregister_driver_name r (driver_name : string) : DependencyResolver :=
  {| name_to_id := delete driver_name (name_to_id r); dependents := dependents r |}.
Definition set_dependents r m : DependencyResolver :=
  {| name_to_id := name_to_id r; dependents := m |}.
Definition get_dependents r (driver_id : Z) : list Z := default [] (dependents r !! driver_id).
Definition add_dependency r (dependent_id dependency_id : Z) : DependencyResolver :=
  set_dependents r (<[dependency_id := get_dependents r dependency_id ++ [dependent_id]]> (dependents r)).
Definition remove_dependency r (dependent_id dependency_id : Z) : DependencyResolver :=
  match dependents r !! dependency_id with
  | None => r
  | Some deps =>
      let deps := filter (.≠ dependent_id) deps in
      if is_empty deps then set_dependents r (delete dependency_id (dependents r))
      else set_dependents r (<[dependency_id := deps]> (dependents r))
  end.
Definition has_dependents r (driver_id : Z) : bool :=
  match dependents r !! driver_id with Some deps => negb (is_empty deps) | None => false end.
Definition can_unload_driver r (driver_id : Z) : bool := negb (has_dependents r driver_id).

(** The state is the visited set, the temporary set and the result. *)
Definition topological_sort (driver_id : Z) (s : gset Z * gset Z * list Z) :
    result (gset Z * gset Z * list Z) DriverError :=
  let '(visited, temp_visited, res) := s in
  if decide (driver_id ∈ temp_visited) then Err InitializationFailed
  else if decide (driver_id ∈ visited) then Ok s
  else
    let temp_visited := {[driver_id]} ∪ temp_visited in
    let temp_visited := temp_visited ∖ {[driver_id]} in
    Ok ({[driver_id]} ∪ visited, temp_visited, res ++ [driver_id]).
Fixpoint load_order_loop (l : list Z) (s : gset Z * gset Z * list Z) : result (list Z) DriverError :=
  match l with
  | [] => Ok s.2
  | driver_id :: l =>
      if decide (driver_id ∈ s.1.1) then load_order_loop l s
      else match topological_sort driver_id s with
           | Ok s => load_order_loop l s
           | Err e => Err e
           end
  end.
Definition get_load_order r (driver_ids : list Z) : result (list Z) DriverError :=
  load_order_loop driver_ids (∅, ∅, []).

(** One round of [while let Some(current_id) = to_unload.pop()]; the stack's top
    is the head of the list, so pushing the dependents in order reverses them. *)
Definition unload_step r (s : list Z * list Z) : outcome (flow (list Z * list Z) (list Z)) :=
  let '(to_unload, unload_order) := s in
  match to_unload with
  | [] => Val (Return unload_order)
  | current_id :: to_unload =>
      let pushed := rev (filter (.∉ unload_order) (get_dependents r current_id)) in
      let unload_order' := if decide (current_id ∈ unload_order) then unload_order
                           else unload_order ++ [current_id] in
      Val (Next (pushed ++ to_unload, unload_order'))
  end.
(** The number of dependencies: a round either visits a new driver, or pushes
    drivers of which the next round visits one, or only pops; so twice the
    drivers times the dependencies, and two, are rounds enough. *)
Definition edge_count r : nat := length (concat (map_to_list (dependents r)).*2).
Definition unload_fuel r : nat := 2 + 2 * (edge_count r * (1 + edge_count r)).
Definition get_unload_order r (driver_id : Z) : outcome (list Z) :=
  unload_order ← loop_fuel (unload_fuel r) (unload_step r) ([driver_id], []);
  Val (rev unload_order).

(** ** The registry ([driver_registry.rs]) *)
Inductive ManagedStatus := Loading | Running | Stopped | MError.
#[export] Instance ManagedStatus_eq_dec : EqDecision ManagedStatus.
Proof. solve_decision. Defined.
Record RegisteredDriver := {
  reg_driver_id : Z;
  driver_path : string;
  reg_process_id : Z;
  reg_dependencies : list Z;
  reg_status : ManagedStatus;
}.
Record DriverRegistry := {
  drivers : gmap Z RegisteredDriver;
  path_to_id : gmap string Z;
}.
Definition driver_registry_new : DriverRegistry := {| drivers := ∅; path_to_id := ∅ |}.
Implicit Types g : DriverRegistry.
Definition register_driver g (driver_id : Z) (path : string) (process_id : Z) (deps : list Z) :
    result unit DriverError * DriverRegistry :=
  if decide (is_Some (drivers g !! driver_id)) then (Err ResourceBusy, g)
  else if decide (is_Some (path_to_id g !! path)) then (Err ResourceBusy, g)
  else
    let info := {| reg_driver_id := driver_id; driver_path := path; reg_process_id := process_id;
                   reg_dependencies := deps; reg_status := Loading |} in
    (Ok (), {| drivers := <[driver_id := info]> (drivers g);
               path_to_id := <[path := driver_id]> (path_to_id g) |}).
Definition unregister_driver g (driver_id : Z) : result unit DriverError * DriverRegistry :=
  match drivers g !! driver_id with
  | None => (Err InvalidRequest, g)
  | Some info => (Ok (), {| drivers := delete driver_id (drivers g);
                            path_to_id := delete (driver_path info) (path_to_id g) |})
  end.
Definition get_driver_info g (driver_id : Z) : option RegisteredDriver := drivers g !! driver_id.
Definition get_driver_by_path g (path : string) : option RegisteredDriver :=
  driver_id ← path_to_id g !! path; drivers g !! driver_id.
Definition update_driver_status g (driver_id : Z) (st : ManagedStatus) :
    result unit DriverError * DriverRegistry :=
  match drivers g !! driver_id with
  | None => (Err InvalidRequest, g)
  | Some i =>
      let i := {| reg_driver_id := reg_driver_id i; driver_path := driver_path i;
                  reg_process_id := reg_process_id i; reg_dependencies := reg_dependencies i;
                  reg_status := st |} in
      (Ok (), {| drivers := <[driver_id := i]> (drivers g); path_to_id := path_to_id g |})
  end.
Definition get_driver_status g (driver_id : Z) : option ManagedStatus :=
  reg_status <$> drivers g !! driver_id.
Definition list_drivers g : list Z := (btree_entries (drivers g)).*1.
Definition get_drivers_by_status g (st : ManagedStatus) : list Z :=
  (filter (λ e, reg_status e.2 = st) (btree_entries (drivers g))).*1.

(** ** Isolation ([isolation.rs]) *)
Record DriverProcess := {
  proc_driver_id : Z;
  proc_process_id : Z;
  capabilities : list Capability;
  memory_limit : Z;
  cpu_quota : Z;
}.
Record DriverIsolation := {
  driver_processes : gmap Z DriverProcess;
  next_process_id : Z;
}.
Definition isolation_new : DriverIsolation := {| driver_processes := ∅; next_process_id := 1000 |}.
Implicit Types i : DriverIsolation.
Inductive DriverHealthStatus := Healthy | HWarning | HCritical | Unresponsive.
Definition set_processes i m : DriverIsolation :=
  {| driver_processes := m; next_process_id := next_process_id i |}.

Section isolation.
Context {P : Profile}.

Definition create_driver_process i (driver_id : Z) (caps : list Capability) :
    outcome (result Z DriverError * DriverIsolation) :=
  let process_id := next_process_id i in
  next ← uadd 32 (next_process_id i) 1;
  let p := {| proc_driver_id := driver_id; proc_process_id := process_id; capabilities := caps;
              memory_limit := 16 * 1024 * 1024; cpu_quota := 10 |} in
  Val (Ok process_id, {| driver_processes := <[process_id := p]> (driver_processes i);
                         next_process_id := next |}).
Definition start_driver_process i (process_id : Z) (binary : DriverBinary) : result unit DriverError :=
  match driver_processes i !! process_id with
  | None => Err InvalidRequest
  | Some _ => if is_empty (binary_data binary) then Err InitializationFailed else Ok ()
  end.
Definition stop_driver_process i (process_id : Z) : result unit DriverError * DriverIsolation :=
  match driver_processes i !! process_id with
  | None => (Err InvalidRequest, i)
  | Some _ => (Ok (), set_processes i (delete process_id (driver_processes i)))
  end.
Definition send_request_to_driver i (process_id : Z) : result (list Z) DriverError :=
  match driver_processes i !! process_id with None => Err InvalidRequest | Some _ => Ok [] end.
Definition update_process i (process_id : Z) (f : DriverProcess → DriverProcess) :
    result unit DriverError * DriverIsolation :=
  match driver_processes i !! process_id with
  | None => (Err InvalidRequest, i)
  | Some p => (Ok (), set_processes i (<[process_id := f p]> (driver_processes i)))
  end.
Definition set_memory_limit i (process_id limit : Z) : result unit DriverError * DriverIsolation :=
  update_process i process_id (λ p, {| proc_driver_id := proc_driver_id p;
    proc_process_id := proc_process_id p; capabilities := capabilities p; memory_limit := limit;
    cpu_quota := cpu_quota p |}).
Definition set_cpu_quota i (process_id quota : Z) : result unit DriverError * DriverIsolation :=
  update_process i process_id (λ p, {| proc_driver_id := proc_driver_id p;
    proc_process_id := proc_process_id p; capabilities := capabilities p;
    memory_limit := memory_limit p; cpu_quota := quota |}).
Definition monitor_driver_health i (process_id : Z) : result DriverHealthStatus DriverError :=
  match driver_processes i !! process_id with None => Err InvalidRequest | Some _ => Ok Healthy end.
Definition restart_driver i (process_id : Z) : outcome (result unit DriverError * DriverIsolation) :=
  match driver_processes i !! process_id with
  | None => Val (Err InvalidRequest, i)
  | Some p =>
      match stop_driver_process i process_id with
      | (Err e, i) => Val (Err e, i)
      | (Ok _, i) =>
          '(o, i) ← create_driver_process i (proc_driver_id p) (capabilities p);
          match o with Ok _ => Val (Ok (), i) | Err e => Val (Err e, i) end
      end
  end.
End isolation.

(** ** The manager ([main.rs]) *)
Record DriverManager := {
  registry : DriverRegistry;
  dependency_resolver : DependencyResolver;
  isolation : DriverIsolation;
  next_driver_id : Z;
}.
Definition manager_new : DriverManager :=
  {| registry := driver_registry_new; dependency_resolver := resolver_new;
     isolation := isolation_new; next_driver_id := 1 |}.
Implicit Types m : DriverManager.

Section manager.
Context {P : Profile}.

Definition load_driver m (path : string) (caps : list Capability) :
    outcome (result Z DriverError * DriverManager) :=
  match load_driver_binary path with
  | Err e => Val (Err e, m)
  | Ok driver_binary =>
  match resolve_dependencies (dependency_resolver m) driver_binary with
  | Err e => Val (Err e, m)
  | Ok deps =>
      let driver_id := next_driver_id m in
      next ← uadd 32 (next_driver_id m) 1;
      '(o, iso) ← create_driver_process (isolation m) driver_id caps;
      let m := {| registry := registry m; dependency_resolver := dependency_resolver m;
                  isolation := iso; next_driver_id := next |} in
      match o with
      | Err e => Val (Err e, m)
      | Ok process_id =>
          let '(o, reg) := register_driver (registry m) driver_id path process_id deps in
          let m := {| registry := reg; dependency_resolver := dependency_resolver m;
                      isolation := isolation m; next_driver_id := next_driver_id m |} in
          match o with
          | Err e => Val (Err e, m)
          | Ok _ =>
              match start_driver_process (isolation m) process_id driver_binary with
              | Err e => Val (Err e, m)
              | Ok _ => Val (Ok driver_id, m)
              end
          end
      end
  end
  end.
Definition unload_driver m (driver_id : Z) : result unit DriverError * DriverManager :=
  if has_dependents (dependency_resolver m) driver_id then (Err ResourceBusy, m)
  else match get_driver_info (registry m) driver_id with
  | None => (Err InvalidRequest, m)
  | Some info =>
      let '(o, iso) := stop_driver_process (isolation m) (reg_process_id info) in
      let m := {| registry := registry m; dependency_resolver := dependency_resolver m;
                  isolation := iso; next_driver_id := next_driver_id m |} in
      match o with
      | Err e => (Err e, m)
      | Ok _ =>
          let '(o, reg) := unregister_driver (registry m) driver_id in
          (o, {| registry := reg; dependency_resolver := dependency_resolver m;
                 isolation := isolation m; next_driver_id := next_driver_id m |})
      end
  end.
Definition handle_driver_request m (driver_id : Z) : result (list Z) DriverError :=
  match get_driver_info (registry m) driver_id with
  | None => Err InvalidRequest
  | Some info => send_request_to_driver (isolation m) (reg_process_id info)
  end.

(** [driver_id.to_le_bytes()]. *)
Definition to_le_bytes (n : Z) : list Z :=
  [n mod 2 ^ 8; n / 2 ^ 8 mod 2 ^ 8; n / 2 ^ 16 mod 2 ^ 8; n / 2 ^ 24 mod 2 ^ 8].
(** The line feed of the format strings. *)
Definition newline : string := String (Ascii.ascii_of_nat 10) EmptyString.
Definition drivers_text (l : list Z) : string :=
  foldl (λ s driver_id, s +:+ ("Driver ID: " +:+ pretty driver_id +:+ newline)) "" l.
Definition service_handle_request m (request : ServiceMessage) : outcome (ServiceResponse * DriverManager) :=
  '(d, m) ← match data request with
    | DriverReq (LoadDriver path) =>
        '(o, m) ← load_driver m path [];
        Val (match o with Ok driver_id => Binary (to_le_bytes driver_id) | Err _ => Empty end, m)
    | DriverReq (UnloadDriver driver_id) =>
        let '(_, m) := unload_driver m driver_id in Val (Empty, m)
    | DriverReq ListDrivers => Val (Text (drivers_text (list_drivers (registry m))), m)
    | DriverReq (SendToDriver driver_id _) =>
        Val (Text ("Response from driver " +:+ pretty driver_id), m)
    | _ => Val (Empty, m)
    end;
  Val ({| response_id := request_id request; response_status := StSuccess; response_data := d |}, m).
(** [debug_print] is a system call for output and is left out. *)
Definition essential_drivers : list string :=
  ["/drivers/graphics.ko"; "/drivers/keyboard.ko"; "/drivers/storage.ko"].
Definition service_initialize m : outcome (result unit ServiceError * DriverManager) :=
  m ← for_each (λ path m, '(_, m) ← load_driver m path []; Val m) essential_drivers m;
  Val (Ok (), m).
Definition service_shutdown m : outcome (result unit ServiceError * DriverManager) :=
  Val (Ok (), foldl (λ m driver_id, (unload_driver m driver_id).2) m (list_drivers (registry m))).
End manager.

#[export] Instance driver_manager_service `{Profile} : ServiceHandler DriverManager := {|
  sh_handle_request := service_handle_request;
  sh_service_type _ := SvcDriverManager;
  sh_initialize := service_initialize;
  sh_shutdown := service_shutdown;
|}.

(** ** The unload order

    [depends r v w]: driver [w] depends directly on driver [v]. *)
Lemma elem_of_rev {A} (l : list A) y : y ∈ rev l ↔ y ∈ l.
Proof. by rewrite !list_elem_of_In, <-in_rev. Qed.

Lemma list_filter_ext {A} (P1 P2 : A → Prop) `{!∀ y, Decision (P1 y), !∀ y, Decision (P2 y)} (l : list A) :
  (∀ y, y ∈ l → P1 y ↔ P2 y) → filter P1 l = filter P2 l.
Proof.
  induction l as [|y l IH]; intros Hiff; [done|]. rewrite !filter_cons.
  rewrite IH by (intros; apply Hiff; by right). pose proof (Hiff y (list_elem_of_here _ _)).
  destruct (decide (P1 y)), (decide (P2 y)); naive_solver.
Qed.

Section unload.
Variable r : DependencyResolver.
Variable x : Z.

Definition depends (v w : Z) : Prop := w ∈ get_dependents r v.
Definition all_dependents : list Z := concat (map_to_list (dependents r)).*2.
Definition universe : list Z := remove_dups (x :: all_dependents).
Definition unvisited (ord : list Z) : nat := length (filter (.∉ ord) universe).

Lemma dependents_in_all v w : depends v w → w ∈ all_dependents.
Proof.
  unfold depends, get_dependents, all_dependents. destruct (dependents r !! v) as [l|] eqn:Hv; simpl.
  - rewrite !list_elem_of_In, in_concat. intros Hw. exists l. split; [|done].
    apply list_elem_of_In, (list_elem_of_fmap_2' snd _ (v, l)); [|done]. by apply elem_of_map_to_list.
  - intros Hw. by apply not_elem_of_nil in Hw.
Qed.

Lemma dependents_length v : (length (get_dependents r v) ≤ edge_count r)%nat.
Proof.
  unfold get_dependents, edge_count. destruct (dependents r !! v) as [l|] eqn:Hv; simpl; [|lia].
  apply elem_of_map_to_list in Hv. apply (list_elem_of_fmap_2 snd) in Hv. simpl in Hv.
  apply list_elem_of_split in Hv as (l1 & l2 & ->). rewrite concat_app. simpl.
  rewrite !length_app. lia.
Qed.

Lemma reach_in_universe v : rtc depends x v → v ∈ universe.
Proof.
  intros Hr. unfold universe. rewrite elem_of_remove_dups.
  apply rtc_inv_r in Hr as [<-|(u & _ & Hd)]; [by left|]. right. by eapply dependents_in_all.
Qed.

Lemma unvisited_bound ord : (unvisited ord ≤ 1 + edge_count r)%nat.
Proof.
  unfold unvisited, universe. etrans; [apply length_filter|].
  change (1 + edge_count r)%nat with (length (x :: all_dependents)).
  apply submseteq_length, NoDup_submseteq; [apply NoDup_remove_dups|].
  intros y. by rewrite elem_of_remove_dups.
Qed.

Lemma unvisited_visit ord v : v ∈ universe → v ∉ ord → unvisited ord = S (unvisited (ord ++ [v])).
Proof.
  unfold unvisited. assert (NoDup universe) as Hnd by apply NoDup_remove_dups. revert Hnd.
  induction universe as [|y l IH]; intros Hnd Hv Hn; [by apply not_elem_of_nil in Hv|].
  apply NoDup_cons in Hnd as [Hy Hnd]. rewrite !filter_cons.
  apply elem_of_cons in Hv as [<-|Hv].
  - rewrite decide_True, decide_False by set_solver. simpl. f_equal.
    f_equal. apply list_filter_ext. set_solver.
  - assert (y ≠ v) by set_solver. specialize (IH Hnd Hv Hn).
    destruct (decide (y ∉ ord)); [rewrite decide_True by set_solver|rewrite decide_False by set_solver];
      simpl; lia.
Qed.

(** What a round decreases. *)
Definition unload_measure (st ord : list Z) : nat :=
  length st + 2 * (edge_count r * unvisited ord) +
  match st with y :: _ => if decide (y ∈ ord) then edge_count r else 0 | [] => edge_count r end.

Lemma unload_step_decreases c st ord st' ord' : rtc depends x c →
  unload_step r (c :: st, ord) = Val (Next (st', ord')) →
  (unload_measure st' ord' < unload_measure (c :: st) ord)%nat.
Proof.
  intros Hc. cbn [unload_step]. intros [= <- <-]. unfold unload_measure.
  set (pushed := filter _ _). assert (length pushed ≤ edge_count r)%nat as Hlen.
  { etrans; [apply length_filter|apply dependents_length]. }
  rewrite length_app, length_rev. cbn [length].
  assert (∀ (l : list Z) o, (match l with y :: _ => if decide (y ∈ (o : list Z)) then edge_count r else 0
    | [] => edge_count r end ≤ edge_count r)%nat) as Hb.
  { intros [|y l] o; [done|]. by destruct (decide (y ∈ o)); [|lia]. }
  destruct (decide (c ∈ ord)) as [Hin|Hnin].
  - destruct pushed as [|p ps] eqn:Hp; [specialize (Hb (rev [] ++ st) ord); simpl in *; lia|].
    destruct (rev (p :: ps) ++ st) as [|y l] eqn:Hr.
    { apply (f_equal length) in Hr. rewrite length_app, length_rev in Hr. simpl in Hr. lia. }
    assert (y ∈ p :: ps) as Hy.
    { rewrite <-(rev_involutive (p :: ps)), elem_of_rev.
      destruct (rev (p :: ps)) as [|z zs] eqn:Hq; simplify_eq/=; [|by left].
      apply (f_equal length) in Hq. rewrite length_app in Hq. simpl in Hq. lia. }
    assert (y ∉ ord) by (rewrite <-Hp in Hy; by apply list_elem_of_filter in Hy as [? _]).
    rewrite decide_False by done. simpl in *. lia.
  - pose proof (unvisited_visit ord c (reach_in_universe c Hc) Hnin) as Hv.
    specialize (Hb (rev pushed ++ st) (ord ++ [c])). rewrite Hv. nia.
Qed.

(** What the loop keeps. *)
Record unload_inv (st ord : list Z) : Prop := {
  ui_stack v : v ∈ st → rtc depends x v;
  ui_order v : v ∈ ord → rtc depends x v;
  ui_nodup : NoDup ord;
  ui_closed v w : v ∈ ord → depends v w → w ∈ ord ∨ w ∈ st;
  ui_head : (ord = [] ∧ st = [x]) ∨ head ord = Some x;
}.

Lemma unload_inv_step c st ord st' ord' : unload_inv (c :: st) ord →
  unload_step r (c :: st, ord) = Val (Next (st', ord')) → unload_inv st' ord'.
Proof.
  intros [Hst Hord Hnd Hcl Hhd]. cbn [unload_step]. intros [= <- <-].
  assert (rtc depends x c) as Hc by (apply Hst; by left).
  assert (∀ v, v ∈ (if decide (c ∈ ord) then ord else ord ++ [c]) ↔ v ∈ ord ∨ v = c) as Hin
    by (intros v; destruct (decide (c ∈ ord)); set_solver).
  split.
  - intros v [Hv|Hv]%elem_of_app; [|apply Hst; by right].
    apply elem_of_rev, list_elem_of_filter in Hv as [_ Hv]. by eapply rtc_r.
  - intros v [Hv| ->]%Hin; auto.
  - destruct (decide (c ∈ ord)); [done|]. apply NoDup_app. split_and!; [done| |apply NoDup_singleton].
    set_solver.
  - intros v w Hv Hd. rewrite Hin, elem_of_app, elem_of_rev, list_elem_of_filter.
    apply Hin in Hv as [Hv| ->].
    + destruct (Hcl v w Hv Hd) as [|[-> |]%elem_of_cons]; auto.
    + destruct (decide (w ∈ ord)); auto.
  - right. destruct Hhd as [[-> Heq]|Hh].
    + injection Heq as -> ->. by rewrite decide_False by apply not_elem_of_nil.
    + destruct (decide (c ∈ ord)); [done|]. by destruct ord.
Qed.

Lemma unload_loop fuel st ord : (unload_measure st ord < fuel)%nat → unload_inv st ord →
  ∃ ord', loop_fuel fuel (unload_step r) (st, ord) = Val ord' ∧ unload_inv [] ord'.
Proof.
  revert st ord. induction fuel as [|fuel IH]; intros st ord Hm Hinv; [lia|].
  rewrite loop_fuel_S. destruct st as [|c st]; [by exists ord|].
  destruct (unload_step r (c :: st, ord)) as [[[st' ord']|]| |] eqn:Hs; try done.
  cbn [mbind outcome_bind]. apply IH; [|by eapply unload_inv_step].
  eapply unload_step_decreases in Hs; [lia|]. apply (ui_stack _ _ Hinv). by left.
Qed.

Lemma unload_start : (unload_measure [x] [] < unload_fuel r)%nat ∧ unload_inv [x] [].
Proof.
  split.
  - unfold unload_measure, unload_fuel. rewrite decide_False by apply not_elem_of_nil.
    pose proof (unvisited_bound []). simpl length. nia.
  - split; [|by intros v ?%not_elem_of_nil|apply NoDup_nil_2|by intros v w ?%not_elem_of_nil|auto].
    intros v ->%list_elem_of_singleton. done.
Qed.

(** Reachability is closure under [depends]. *)
Lemma unload_inv_final ord : unload_inv [] ord →
  NoDup ord ∧ head ord = Some x ∧ ∀ v, v ∈ ord ↔ rtc depends x v.
Proof.
  intros [_ Hord Hnd Hcl [[_ ?]|Hh]]; [done|]. split_and!; [done..|]. intros v. split; [auto|].
  revert v. apply rtc_ind_r.
  - destruct ord; [done|]. injection Hh as ->. by left.
  - intros v w _ Hd IH. destruct (Hcl _ _ IH Hd) as [|Hn]; [done|]. by apply not_elem_of_nil in Hn.
Qed.
End unload.

(** ** Theorems on the resolver *)

(** C26: computing the unload order terminates on every dependency graph, cyclic
    ones included, and lists every driver that depends on the given one,
    directly or not, exactly once, with the driver itself last. *)
Theorem unload_order_complete r x :
  ∃ l, get_unload_order r x = Val l ∧ NoDup l ∧ last l = Some x ∧
    ∀ v, v ∈ l ↔ rtc (depends r) x v.
Proof.
  unfold get_unload_order. destruct (unload_start r x) as [Hm Hinv].
  destruct (unload_loop r x _ _ _ Hm Hinv) as (ord & -> & Hfin).
  apply unload_inv_final in Hfin as (Hnd & Hh & Hiff). cbn [mbind outcome_bind].
  exists (rev ord). split; [done|]. split.
  { rewrite NoDup_ListNoDup in Hnd |- *. by apply NoDup_rev. }
  split; [|intros v; by rewrite elem_of_rev].
  destruct ord as [|y ord]; [done|]. injection Hh as ->. simpl. apply last_snoc.
Qed.

(** Driver 3 depends on drivers 1 and 2, driver 2 on driver 1: the order to unload
    driver 1 puts driver 2 before driver 3, which still depends on it. *)
Example unload_order_breaks_dependency :
  let r := add_dependency (add_dependency (add_dependency resolver_new 2 1) 3 1) 3 2 in
  depends r 2 3 ∧ get_unload_order r 1 = Val [2; 3; 1].
Proof. split; [vm_compute; by left|]. by vm_compute. Qed.

(** The load order is the given list without repetitions: dependencies play no
    part in it, and no cycle is ever reported. *)
Theorem load_order_ignores_dependencies r l :
  ∃ l', get_load_order r l = Ok l' ∧ NoDup l' ∧ l' `sublist_of` l ∧ ∀ v, v ∈ l' ↔ v ∈ l.
Proof.
  unfold get_load_order.
  assert (∀ l vis res, list_to_set res = vis → NoDup res →
    ∃ res', load_order_loop l (vis, ∅, res) = Ok (res ++ res') ∧ NoDup (res ++ res') ∧
      res' `sublist_of` l ∧ ∀ v, v ∈ res ++ res' ↔ v ∈ res ∨ v ∈ l) as Hgen.
  { clear l. induction l as [|y l IH]; intros vis res Hvis Hnd; simpl.
    - exists []. rewrite app_nil_r. split_and!; [done..|]. intros v. set_solver.
    - destruct (decide (y ∈ vis)) as [Hy|Hy].
      + destruct (IH vis res Hvis Hnd) as (res' & -> & ? & ? & Hiff). exists res'.
        split_and!; [done..|by apply sublist_cons|]. intros v. rewrite Hiff, elem_of_cons. set_solver.
      + rewrite decide_False by set_solver.
        replace (({[y]} ∪ ∅) ∖ {[y]} : gset Z) with (∅ : gset Z) by set_solver.
        destruct (IH ({[y]} ∪ vis) (res ++ [y])) as (res' & -> & ? & ? & Hiff).
        * rewrite list_to_set_app_L. set_solver.
        * apply NoDup_app. split_and!; [done|set_solver|apply NoDup_singleton].
        * exists (y :: res'). rewrite <-app_assoc in *. split_and!; [done..|by apply sublist_skip|].
          intros v. specialize (Hiff v). cbn [app] in Hiff. rewrite Hiff. set_solver. }
  destruct (Hgen l ∅ [] eq_refl (NoDup_nil_2)) as (l' & Hl & ? & ? & Hiff).
  exists l'. split_and!; [exact Hl|done..|]. intros v. rewrite (Hiff v). set_solver.
Qed.

(** Dependencies resolve exactly when every name is registered and no two name
    the same driver. *)
Theorem resolve_dependencies_iff r b ids :
  resolve_dependencies r b = Ok ids ↔
    Forall2 (λ n id, name_to_id r !! n = Some id) (dependencies b) ids ∧ NoDup ids.
Proof.
  assert (∀ l ids, lookup_names (name_to_id r) l = Ok ids ↔
    Forall2 (λ n id, name_to_id r !! n = Some id) l ids) as Hnames.
  { induction l as [|n l IH]; intros ids'; simpl.
    - split; [intros [= <-]; constructor|]. by intros ->%Forall2_nil_inv_l.
    - destruct (name_to_id r !! n) as [id|] eqn:Hn.
      + destruct (lookup_names (name_to_id r) l) as [ids1|e] eqn:Hl.
        * split; [intros [= <-]; constructor; [done|by apply IH]|].
          intros (id' & l' & Hid & Hl' & ->)%Forall2_cons_inv_l. apply IH in Hl'. congruence.
        * split; [done|]. intros (id' & l' & Hid & Hl' & ->)%Forall2_cons_inv_l. by apply IH in Hl'.
      + split; [done|]. intros (id' & l' & Hid & _)%Forall2_cons_inv_l. congruence. }
  assert (∀ l vis, check_circular vis l = Ok () ↔ NoDup l ∧ ∀ v, v ∈ l → v ∉ vis) as Hcirc.
  { induction l as [|v l IH]; intros vis; simpl.
    - split; [|done]. intros _. split; [apply NoDup_nil_2|]. by intros v ?%not_elem_of_nil.
    - rewrite NoDup_cons. destruct (decide (v ∈ vis)); [set_solver|]. rewrite IH. set_solver. }
  unfold resolve_dependencies. rewrite <-Hnames.
  destruct (lookup_names (name_to_id r) (dependencies b)) as [ids1|e]; [|naive_solver].
  unfold check_circular_dependencies. pose proof (Hcirc ids1 ∅) as Hc.
  destruct (check_circular ∅ ids1) as [[]|e].
  - split; [intros [= <-]; split; [done|apply Hc; done]|]. by intros [[= <-] _].
  - split; [done|]. intros [[= <-] Hnd]. assert (Err e = Ok ()) by (apply Hc; set_solver). done.
Qed.

(** ** The manager *)

(** Registry and processes agree. *)
Record mgr_inv m : Prop := {
  mi_paths p id : path_to_id (registry m) !! p = Some id ↔
    ∃ info, drivers (registry m) !! id = Some info ∧ driver_path info = p;
  mi_drivers id info : drivers (registry m) !! id = Some info →
    reg_driver_id info = id ∧ id < next_driver_id m ∧
    ∃ p, driver_processes (isolation m) !! reg_process_id info = Some p ∧ proc_driver_id p = id;
  mi_processes pid p : driver_processes (isolation m) !! pid = Some p →
    proc_process_id p = pid ∧ pid < next_process_id (isolation m);
  mi_dependents : dependents (dependency_resolver m) = ∅;
}.
(** Room for [n] more drivers and processes. *)
Definition mgr_room (n : Z) m : Prop :=
  0 ≤ next_driver_id m ∧ next_driver_id m + n < 2 ^ 32 ∧
  0 ≤ next_process_id (isolation m) ∧ next_process_id (isolation m) + n < 2 ^ 32.

Lemma manager_new_inv : mgr_inv manager_new.
Proof.
  split; simpl; [|by intros ??; rewrite lookup_empty..|done].
  intros p id. rewrite lookup_empty. split; [done|]. intros (info & Hi & _). by rewrite lookup_empty in Hi.
Qed.

Section manager_lemmas.
Context {P : Profile}.

(** The exact effect of loading. *)
Lemma load_driver_val m path caps : mgr_inv m → mgr_room 1 m →
  let pid := next_process_id (isolation m) in
  let id := next_driver_id m in
  ∃ m', load_driver m path caps =
      Val (Err (if decide (is_Some (path_to_id (registry m) !! path)) then ResourceBusy
                else InitializationFailed), m') ∧
    next_driver_id m' = id + 1 ∧ next_process_id (isolation m') = pid + 1 ∧
    dependency_resolver m' = dependency_resolver m ∧
    driver_processes (isolation m') = <[pid := {| proc_driver_id := id; proc_process_id := pid;
        capabilities := caps; memory_limit := 16 * 1024 * 1024; cpu_quota := 10 |}]>
      (driver_processes (isolation m)) ∧
    registry m' = if decide (is_Some (path_to_id (registry m) !! path)) then registry m
      else {| drivers := <[id := {| reg_driver_id := id; driver_path := path; reg_process_id := pid;
                reg_dependencies := []; reg_status := Loading |}]> (drivers (registry m));
              path_to_id := <[path := id]> (path_to_id (registry m)) |}.
Proof.
  intros Hinv (? & ? & ? & ?) pid id. unfold load_driver. cbn [load_driver_binary resolve_dependencies
    dependencies lookup_names check_circular_dependencies check_circular].
  rewrite uadd_val by lia. cbn [mbind outcome_bind]. unfold create_driver_process.
  rewrite uadd_val by lia. cbn [mbind outcome_bind]. unfold register_driver. cbn [registry].
  assert (drivers (registry m) !! next_driver_id m = None) as Hnone.
  { destruct (drivers (registry m) !! next_driver_id m) as [info|] eqn:Hd; [|done].
    apply (mi_drivers _ Hinv) in Hd. lia. }
  rewrite Hnone. rewrite (decide_False (P := is_Some None)) by (by intros []).
  destruct (decide (is_Some (path_to_id (registry m) !! path))).
  - eexists. split; [done|]. by split_and!.
  - unfold start_driver_process. cbn [isolation driver_processes]. rewrite lookup_insert_eq.
    eexists. split; [done|]. by split_and!.
Qed.

Lemma load_driver_inv m path caps : mgr_inv m → mgr_room 1 m →
  ∃ o m', load_driver m path caps = Val (o, m') ∧ mgr_inv m' ∧
    next_driver_id m' = next_driver_id m + 1 ∧
    next_process_id (isolation m') = next_process_id (isolation m) + 1.
Proof.
  intros Hinv Hroom.
  destruct (load_driver_val m path caps Hinv Hroom) as (m' & Hl & Hid & Hpid & Hdep & Hproc & Hreg).
  eexists _, m'. split; [exact Hl|]. split; [|done].
  assert (driver_processes (isolation m) !! next_process_id (isolation m) = None) as Hfresh.
  { destruct (driver_processes (isolation m) !! next_process_id (isolation m)) as [p|] eqn:Hp; [|done].
    apply (mi_processes _ Hinv) in Hp. lia. }
  assert (∀ id info, drivers (registry m) !! id = Some info → ∃ p,
    driver_processes (isolation m') !! reg_process_id info = Some p ∧ proc_driver_id p = id) as Hold.
  { intros id info Hd. apply (mi_drivers _ Hinv) in Hd as (_ & _ & p & Hp & Hpd). exists p.
    rewrite Hproc, lookup_insert_ne; [done|]. intros Heq. by rewrite Heq, Hp in Hfresh. }
  assert (∀ pid p, driver_processes (isolation m') !! pid = Some p →
    proc_process_id p = pid ∧ pid < next_process_id (isolation m')) as Hprocs.
  { intros pid p. rewrite Hproc, lookup_insert_Some, Hpid.
    intros [[<- <-]|[_ Hp]]; [simpl; lia|]. apply (mi_processes _ Hinv) in Hp. lia. }
  destruct (decide (is_Some (path_to_id (registry m) !! path))) as [|Hno]; split; rewrite ?Hreg, ?Hdep;
    try done; try apply (mi_dependents _ Hinv).
  - apply (mi_paths _ Hinv).
  - intros id info Hd. pose proof (mi_drivers _ Hinv id info Hd) as (? & ? & _).
    split_and!; [done|lia|by apply Hold].
  - simpl. intros p id. rewrite lookup_insert_Some, (mi_paths _ Hinv). setoid_rewrite lookup_insert_Some.
    split.
    + intros [[<- <-]|[Hne (info & Hd & Hp)]]; [eexists; split; [by left|done]|].
      exists info. split; [|done]. right. split; [|done].
      apply (mi_drivers _ Hinv) in Hd as (_ & ? & _). lia.
    + intros (info & [[<- <-]|[Hne Hd]] & Hp); [by left|]. right. split; [|eauto].
      intros ->. apply Hno. exists id. apply (mi_paths _ Hinv). eauto.
  - simpl. intros id info. rewrite lookup_insert_Some. intros [[<- <-]|[Hne Hd]].
    + simpl. split_and!; [done|lia|]. rewrite Hproc, lookup_insert_eq. eauto.
    + pose proof (mi_drivers _ Hinv id info Hd) as (? & ? & _). split_and!; [done|lia|by apply Hold].
Qed.

(** The exact effect of unloading. *)
Lemma unload_driver_val m id : mgr_inv m →
  match drivers (registry m) !! id with
  | None => unload_driver m id = (Err InvalidRequest, m)
  | Some info => ∃ m', unload_driver m id = (Ok (), m') ∧ mgr_inv m' ∧
      next_driver_id m' = next_driver_id m ∧
      next_process_id (isolation m') = next_process_id (isolation m) ∧
      drivers (registry m') = delete id (drivers (registry m)) ∧
      driver_processes (isolation m') = delete (reg_process_id info) (driver_processes (isolation m))
  end.
Proof.
  intros Hinv. unfold unload_driver, has_dependents, get_driver_info.
  rewrite (mi_dependents _ Hinv), lookup_empty.
  destruct (drivers (registry m) !! id) as [info|] eqn:Hd; [|done].
  destruct (mi_drivers _ Hinv id info Hd) as (Hid & Hlt & p & Hp & Hpd).
  unfold stop_driver_process. rewrite Hp. unfold unregister_driver. cbn [registry]. rewrite Hd.
  eexists. split; [done|]. split; [|done]. split; simpl.
  - intros p' id'. rewrite lookup_delete_Some, (mi_paths _ Hinv). setoid_rewrite lookup_delete_Some. split.
    + intros [Hne (info' & Hd' & Hp')]. exists info'. split; [|done]. split; [|done].
      intros <-. rewrite Hd in Hd'. injection Hd' as <-. done.
    + intros (info' & [Hne Hd'] & Hp'). split; [|eauto]. intros Heq. apply Hne.
      assert (path_to_id (registry m) !! p' = Some id) as H1 by (apply (mi_paths _ Hinv); eauto).
      assert (path_to_id (registry m) !! p' = Some id') as H2 by (apply (mi_paths _ Hinv); eauto).
      congruence.
  - intros id' info'. rewrite lookup_delete_Some. intros [Hne Hd'].
    destruct (mi_drivers _ Hinv id' info' Hd') as (? & ? & p' & Hp' & Hpd').
    split_and!; [done|done|]. exists p'. split; [|done]. rewrite lookup_delete_ne; [done|].
    intros Heq. rewrite <-Heq, Hp in Hp'. congruence.
  - intros pid p'. rewrite lookup_delete_Some. intros [_ Hp']. by apply (mi_processes _ Hinv) in Hp'.
  - apply (mi_dependents _ Hinv).
Qed.
End manager_lemmas.

Section manager_theorems.
Context {P : Profile}.

(** Loading a driver never succeeds: the loader returns an empty binary, which
    the start of the process refuses, after the process was created and the
    driver registered.  The first attempt on a path leaves a driver listed as
    loading with its process; every further one leaves a process that belongs to
    no driver. *)
Theorem load_driver_never_succeeds m path caps : mgr_inv m → mgr_room 1 m →
  ∃ e m', load_driver m path caps = Val (Err e, m') ∧ mgr_inv m' ∧
    is_Some (get_driver_by_path (registry m') path) ∧
    (∃ p, driver_processes (isolation m') !! next_process_id (isolation m) = Some p) ∧
    (is_Some (path_to_id (registry m) !! path) → registry m' = registry m).
Proof.
  intros Hinv Hroom.
  destruct (load_driver_val m path caps Hinv Hroom) as (m' & Hl & Hid & Hpid & Hdep & Hproc & Hreg).
  destruct (load_driver_inv m path caps Hinv Hroom) as (o & m'' & Hl' & Hinv' & _).
  rewrite Hl in Hl'. injection Hl' as <- <-. eexists _, m'. split; [exact Hl|]. split; [done|].
  split_and!.
  - unfold get_driver_by_path.
    destruct (decide (is_Some (path_to_id (registry m) !! path))) as [[id Hs]|Hn]; rewrite Hreg.
    + rewrite Hs. simpl. apply (mi_paths _ Hinv) in Hs as (info & -> & _). eauto.
    + simpl. rewrite lookup_insert_eq. simpl. rewrite lookup_insert_eq. eauto.
  - rewrite Hproc, lookup_insert_eq. eauto.
  - intros Hs. by rewrite Hreg, decide_True.
Qed.

(** Unloading a registered driver stops exactly its process and removes it
    from both maps of the registry; unloading any other identifier is refused
    and changes nothing. *)
Theorem unload_driver_exact m id : mgr_inv m →
  match drivers (registry m) !! id with
  | None => unload_driver m id = (Err InvalidRequest, m)
  | Some info => ∃ m', unload_driver m id = (Ok (), m') ∧ mgr_inv m' ∧
      next_driver_id m' = next_driver_id m ∧
      next_process_id (isolation m') = next_process_id (isolation m) ∧
      drivers (registry m') = delete id (drivers (registry m)) ∧
      driver_processes (isolation m') = delete (reg_process_id info) (driver_processes (isolation m))
  end.
Proof. apply unload_driver_val. Qed.

Lemma service_request_inv m q n : mgr_inv m → mgr_room (n + 1) m → 0 ≤ n →
  ∃ a m', service_handle_request m q = Val (a, m') ∧ mgr_inv m' ∧ mgr_room n m' ∧
    response_id a = request_id q ∧ response_status a = StSuccess.
Proof.
  intros Hinv Hroom Hn. unfold service_handle_request.
  assert (mgr_room n m) as Hroom' by (unfold mgr_room in *; lia).
  destruct (data q) as [| | | |[path|id| |id d]|]; try (eexists _, m; by split_and!).
  - destruct (load_driver_inv m path [] Hinv) as (o & m' & -> & Hinv' & ? & ?);
      [unfold mgr_room in *; lia|]. cbn [mbind outcome_bind]. eexists _, m'.
    split; [done|]. split_and!; try done. unfold mgr_room in *. lia.
  - pose proof (unload_driver_val m id Hinv) as Hu.
    destruct (drivers (registry m) !! id) as [info|].
    + destruct Hu as (m' & -> & ? & ? & ? & _). cbn [mbind outcome_bind]. eexists _, m'.
      split; [done|]. split_and!; try done. unfold mgr_room in *. lia.
    + rewrite Hu. cbn [mbind outcome_bind]. eexists _, m. by split_and!.
Qed.

(** The service answers one request after the other. *)
Fixpoint serve (qs : list ServiceMessage) m : outcome (list ServiceResponse * DriverManager) :=
  match qs with
  | [] => Val ([], m)
  | q :: qs =>
      '(a, m) ← service_handle_request m q; '(answers, m) ← serve qs m; Val (a :: answers, m)
  end.

(** The driver manager service answers any sequence of requests without a
    panic (up to the range of its identifiers), each under its request number,
    keeps registry and processes consistent, and reports success for every
    request, failed loads and unloads included. *)
Theorem driver_service_history qs m : mgr_inv m → mgr_room (len qs) m →
  ∃ answers m', serve qs m = Val (answers, m') ∧ mgr_inv m' ∧
    response_id <$> answers = request_id <$> qs ∧
    Forall (λ a, response_status a = StSuccess) answers.
Proof.
  revert m. induction qs as [|q qs IH]; intros m Hinv Hroom; cbn [serve].
  - exists [], m. by split_and!.
  - unfold len in Hroom. cbn [length] in Hroom.
    destruct (service_request_inv m q (len qs) Hinv) as (a & m1 & -> & Hinv1 & Hroom1 & Hid & Hst);
      [unfold mgr_room, len in *; lia|unfold len; lia|].
    cbn [mbind outcome_bind]. destruct (IH m1 Hinv1 Hroom1) as (answers & m' & -> & ? & Hids & Hall).
    cbn [mbind outcome_bind]. exists (a :: answers), m'. split_and!; [done|done| |by constructor].
    cbn. by rewrite Hid, Hids.
Qed.

(** A driver whose process is restarted gets a new process identifier that the
    registry does not learn: it can neither be reached nor unloaded any more. *)
Theorem restart_strands_driver m id info iso : mgr_inv m → mgr_room 1 m →
  drivers (registry m) !! id = Some info →
  restart_driver (isolation m) (reg_process_id info) = Val (Ok (), iso) →
  let m' := {| registry := registry m; dependency_resolver := dependency_resolver m;
               isolation := iso; next_driver_id := next_driver_id m |} in
  handle_driver_request m' id = Err InvalidRequest ∧ (unload_driver m' id).1 = Err InvalidRequest.
Proof.
  intros Hinv (_ & _ & ? & ?) Hd Hr. destruct (mi_drivers _ Hinv id info Hd) as (_ & _ & p & Hp & _).
  assert (driver_processes iso !! reg_process_id info = None) as Hgone.
  { unfold restart_driver, stop_driver_process in Hr. rewrite Hp in Hr. unfold create_driver_process in Hr.
    cbn [set_processes next_process_id] in Hr. rewrite uadd_val in Hr by lia.
    cbn [mbind outcome_bind] in Hr. injection Hr as <-. simpl.
    apply (mi_processes _ Hinv) in Hp as [_ Hlt].
    rewrite lookup_insert_ne by lia. apply lookup_delete_eq. }
  split.
  - unfold handle_driver_request, get_driver_info. cbn [registry]. rewrite Hd.
    unfold send_request_to_driver. cbn [isolation]. by rewrite Hgone.
  - unfold unload_driver, has_dependents, get_driver_info. cbn [registry dependency_resolver].
    rewrite (mi_dependents _ Hinv), lookup_empty, Hd. unfold stop_driver_process. cbn [isolation].
    by rewrite Hgone.
Qed.
End manager_theorems.

(** ** Witnesses *)
Lemma load_driver_never_succeeds_witness :
  ∃ e m', load_driver (P := dev) manager_new "/drivers/keyboard.ko" [] = Val (Err e, m') ∧
    is_Some (get_driver_by_path (registry m') "/drivers/keyboard.ko").
Proof.
  destruct (load_driver_never_succeeds (P := dev) manager_new "/drivers/keyboard.ko" []
    manager_new_inv ltac:(unfold mgr_room; simpl; lia)) as (e & m' & E & _ & Hs & _).
  exists e, m'. split; [exact E|exact Hs].
Defined.

(** The manager after one attempt to load. *)
Definition demo_manager : DriverManager :=
  match load_driver (P := dev) manager_new "/drivers/a.ko" [] with Val (_, m) => m | _ => manager_new end.
Lemma demo_manager_inv : mgr_inv demo_manager.
Proof.
  destruct (load_driver_inv (P := dev) manager_new "/drivers/a.ko" [] manager_new_inv)
    as (o & m' & E & Hinv & _); [unfold mgr_room; simpl; lia|].
  unfold demo_manager. by rewrite E.
Qed.
Lemma unload_driver_exact_witness : ∃ m', unload_driver demo_manager 1 = (Ok (), m') ∧ mgr_inv m'.
Proof.
  pose proof (unload_driver_exact demo_manager 1 demo_manager_inv) as H.
  assert (∃ info, drivers (registry demo_manager) !! 1 = Some info) as [info Hi] by (by eexists).
  rewrite Hi in H. destruct H as (m' & E & Hinv & _). exists m'. split; [exact E|exact Hinv].
Defined.

Definition demo_requests : list ServiceMessage :=
  [ {| service_type := SvcDriverManager; request_id := 1; data := DriverReq (LoadDriver "/drivers/a.ko") |};
    {| service_type := SvcDriverManager; request_id := 2; data := DriverReq ListDrivers |};
    {| service_type := SvcDriverManager; request_id := 3; data := DriverReq (UnloadDriver 1) |} ].
Lemma driver_service_history_witness :
  ∃ answers m', serve (P := dev) demo_requests manager_new = Val (answers, m') ∧
    response_id <$> answers = [1; 2; 3].
Proof.
  destruct (driver_service_history (P := dev) demo_requests manager_new manager_new_inv
    ltac:(unfold mgr_room, len; simpl; lia)) as (answers & m' & E & _ & Hids & _).
  exists answers, m'. split; [exact E|exact Hids].
Defined.
