(* ===== verification/Init.v ===== *)
(** * The init process

    Models [userspace/init/src/]: the system-call wrappers ([syscalls.rs]), the
    service manager ([service_manager.rs]), the process spawner
    ([process_spawner.rs]) and the process itself ([main.rs]).

    Init talks to the kernel only through the [syscall] instruction.  The
    instruction, with whatever entry code the kernel puts behind it, is the class
    [SyscallInstruction]; init's theorems are proved against its laws
    ([InitKernel]), and the last part runs init on the kernel of [Syscall]: the
    entry code that moves the registers into [syscall_entry]'s arguments does not
    exist in the sources, so it is a parameter there.  Debug printing is left
    out. *)
From stdpp Require Import strings pretty.
From S2P Require Import Prelude Capability Process Ipc Syscall.
Local Open Scope kosh_scope.

(** ** Programs that make system calls

    A program threads the state behind the [syscall] instruction; it ends with a
    value, or the process exits. *)
Inductive life (A : Type) : Type :=
  | Alive (a : A)
  | Exited (status : Z).
Arguments Alive {A} _.
Arguments Exited {A} _.

Definition prog (S A : Type) : Type := S → outcome (life A * S).
#[export] Instance prog_ret {S} : MRet (prog S) := λ A a s, Val (Alive a, s).
#[export] Instance prog_bind {S} : MBind (prog S) := λ A B k m s,
  '(l, s) ← m s;
  match l with
  | Alive a => k a s
  | Exited status => Val (Exited status, s)
  end.
Definition lift {S A} (o : outcome A) : prog S A := λ s, a ← o; Val (Alive a, s).

(** [syscall]: the number in [rax], the further operands of the [asm!] block in
    their order; the values of [rax] and [rdx] afterwards.  [str_addr] and
    [args_addr] are the addresses of a string and of a slice of strings. *)
Class SyscallInstruction (S : Type) := {
  syscall : S → Z → list Z → outcome (Z * Z * S);
  str_addr : string → Z;
  args_addr : list string → Z;
}.

(** The casts of the wrappers. *)
Definition as_i64 (z : Z) : Z := to_signed 64 z.
Definition as_i32 (z : Z) : Z := to_signed 32 z.
Definition as_ProcessId (z : Z) : Z := z mod 2 ^ 32.

(** ** [syscalls.rs] *)
Section wrappers.
Context {S : Type} `{SyscallInstruction S}.

(** [options(noreturn)]: the process is gone. *)
Definition sys_exit (status : Z) {A} : prog S A := λ s,
  '(_, _, s) ← syscall s 1 [status]; Val (Exited status, s).

Definition sys_getpid : prog S Z := λ s,
  '(pid, _, s) ← syscall s 5 []; Val (Alive (as_ProcessId pid), s).

Definition sys_fork : prog S (result Z Z) := λ s,
  '(rax, _, s) ← syscall s 2 [];
  let r := as_i64 rax in
  Val (Alive (if r <? 0 then Err (as_i32 r) else Ok (as_ProcessId r)), s).

Definition sys_exec (path : string) (args : list string) : prog S (result unit Z) := λ s,
  '(rax, _, s) ← syscall s 3 [str_addr path; Z.of_nat (String.length path); args_addr args; len args];
  let r := as_i64 rax in
  Val (Alive (if r <? 0 then Err (as_i32 r) else Ok ()), s).

Definition sys_wait : prog S (result (Z * Z) Z) := λ s,
  '(rax, rdx, s) ← syscall s 4 [];
  let pid := as_i64 rax in
  Val (Alive (if pid <? 0 then Err (as_i32 pid) else Ok (as_ProcessId pid, as_i32 (as_i64 rdx))), s).

Definition sys_kill (pid signal : Z) : prog S (result unit Z) := λ s,
  '(rax, _, s) ← syscall s 7 [pid; signal];
  let r := as_i64 rax in
  Val (Alive (if r <? 0 then Err (as_i32 r) else Ok ()), s).

(** [data_addr] is where the slice is; the length is in [length]. *)
Definition sys_send_message (receiver data_addr length : Z) : prog S (result unit Z) := λ s,
  '(rax, _, s) ← syscall s 30 [receiver; data_addr; length];
  let r := as_i64 rax in
  Val (Alive (if r <? 0 then Err (as_i32 r) else Ok ()), s).

Definition sys_receive_message (buffer_addr length : Z) : prog S (result (Z * Z) Z) := λ s,
  '(rax, rdx, s) ← syscall s 31 [buffer_addr; length];
  let sender := as_i64 rax in
  Val (Alive (if sender <? 0 then Err (as_i32 sender) else Ok (as_ProcessId sender, as_i64 rdx mod 2 ^ 64)), s).
End wrappers.

(** ** [service_manager.rs] *)
Module Svc.
Inductive ServiceState := Starting | Running | Stopping | Stopped | Failed.
End Svc.
#[export] Instance ServiceState_eq_dec : EqDecision Svc.ServiceState.
Proof. solve_decision. Defined.

Record Service := {
  name : string;
  service_pid : Z;
  service_state : Svc.ServiceState;
  restart_count : Z;
  max_restarts : Z;
}.
Definition set_service_state (x : Service) (st : Svc.ServiceState) : Service :=
  {| name := name x; service_pid := service_pid x; service_state := st;
     restart_count := restart_count x; max_restarts := max_restarts x |}.

Record ServiceManager := { services : list Service }.
Definition service_manager_new : ServiceManager := {| services := [] |}.

Definition new_service (nm : string) (pid : Z) : Service :=
  {| name := nm; service_pid := pid; service_state := Svc.Starting; restart_count := 0; max_restarts := 3 |}.
Definition register_service (m : ServiceManager) (nm : string) (pid : Z) : ServiceManager :=
  {| services := services m ++ [new_service nm pid] |}.

(** The arm of [handle_process_exit] on the first service with that pid. *)
Definition service_exited (x : Service) : Service :=
  match service_state x with
  | Svc.Stopping => set_service_state x Svc.Stopped
  | Svc.Running | Svc.Starting => set_service_state x Svc.Failed
  | _ => x
  end.
Fixpoint first_exit (pid : Z) (l : list Service) : list Service :=
  match l with
  | [] => []
  | x :: l => if service_pid x =? pid then service_exited x :: l else x :: first_exit pid l
  end.
Definition handle_process_exit (m : ServiceManager) (pid : Z) : ServiceManager :=
  {| services := first_exit pid (services m) |}.

Definition check_service `{Profile} (x : Service) : outcome Service :=
  match service_state x with
  | Svc.Starting => Val (set_service_state x Svc.Running)
  | Svc.Failed =>
      if restart_count x <? max_restarts x then
        c ← uadd 32 (restart_count x) 1;
        Val {| name := name x; service_pid := service_pid x; service_state := Svc.Starting;
               restart_count := c; max_restarts := max_restarts x |}
      else Val x
  | _ => Val x
  end.
Definition check_services `{Profile} (m : ServiceManager) : outcome ServiceManager :=
  l ← mapM check_service (services m); Val {| services := l |}.

Definition all_services_stopped (m : ServiceManager) : bool :=
  forallb (λ x, bool_decide (service_state x = Svc.Stopped)) (services m).
Definition get_service_pid (m : ServiceManager) (nm : string) : option Z :=
  service_pid <$> List.find (λ x, bool_decide (name x = nm) && bool_decide (service_state x = Svc.Running)) (services m).
Definition get_service_state (m : ServiceManager) (nm : string) : option Svc.ServiceState :=
  service_state <$> List.find (λ x, bool_decide (name x = nm)) (services m).
Definition list_services (m : ServiceManager) : list Service := services m.

Inductive SpawnError := ForkFailed | ExecFailed | InvalidPath | PermissionDenied.

Section calls.
Context {P : Profile} {S : Type} `{SyscallInstruction S}.

Definition shutdown_service (x : Service) : prog S Service :=
  if bool_decide (service_state x = Svc.Running) then
    r ← sys_kill (service_pid x) 15;
    match r with
    | Ok _ => mret (set_service_state x Svc.Stopping)
    | Err _ => mret (set_service_state x Svc.Stopped)
    end
  else mret x.
Definition shutdown_all_services (m : ServiceManager) : prog S ServiceManager :=
  l ← mapM shutdown_service (services m); mret {| services := l |}.

Definition force_kill_service (x : Service) : prog S Service :=
  if bool_decide (service_state x ≠ Svc.Stopped) then
    _ ← sys_kill (service_pid x) 9; mret (set_service_state x Svc.Stopped)
  else mret x.
Definition force_kill_all (m : ServiceManager) : prog S ServiceManager :=
  l ← mapM force_kill_service (services m); mret {| services := l |}.

(** ** [process_spawner.rs]

    Where [fork] returns 0 the rest of the program runs in the child, which
    executes the binary or exits. *)
Definition get_service_path (service_name : string) : string := "/system/services/" +:+ service_name.

Definition spawn_process (program_path : string) (args : list string) : prog S (result Z SpawnError) :=
  r ← sys_fork;
  match r with
  | Ok pid =>
      if pid =? 0 then
        e ← sys_exec program_path args;
        match e with
        | Ok _ => lift Panic
        | Err _ => sys_exit 1
        end
      else mret (Ok pid)
  | Err _ => mret (Err ForkFailed)
  end.
Definition spawn_service (service_name : string) (args : list string) : prog S (result Z SpawnError) :=
  let service_path := get_service_path service_name in
  r ← sys_fork;
  match r with
  | Ok pid =>
      if pid =? 0 then
        e ← sys_exec service_path args;
        match e with
        | Ok _ => lift Panic
        | Err _ => sys_exit 1
        end
      else mret (Ok pid)
  | Err _ => mret (Err ForkFailed)
  end.
Definition spawn_shell : prog S (result Z SpawnError) := spawn_process "/system/bin/shell" [].

(** ** [main.rs] *)
Record InitProcess := {
  service_manager : ServiceManager;
  shutdown_requested : bool;
  essential_services : list string;
}.
Definition set_manager (i : InitProcess) (m : ServiceManager) : InitProcess :=
  {| service_manager := m; shutdown_requested := shutdown_requested i; essential_services := essential_services i |}.

Definition init_new : InitProcess :=
  {| service_manager := service_manager_new; shutdown_requested := false;
     essential_services := ["fs-service"; "driver-manager"] |}.

(** The loop over the essential services; the names are those of the process
    when the loop starts. *)
Fixpoint start_services (nms : list string) (i : InitProcess) : prog S InitProcess :=
  match nms with
  | [] => mret i
  | nm :: nms =>
      r ← spawn_service nm [];
      match r with
      | Ok pid => start_services nms (set_manager i (register_service (service_manager i) nm pid))
      | Err _ => start_services nms i
      end
  end.

(** The delay loops of [wait_for_services_to_start] and [yield_cpu] only spin. *)
Definition wait_for_services_to_start (i : InitProcess) : outcome InitProcess :=
  m ← check_services (service_manager i); Val (set_manager i m).

Definition initialize_system (i : InitProcess) : prog S InitProcess :=
  i ← start_services (essential_services i) i;
  i ← lift (wait_for_services_to_start i);
  r ← spawn_shell;
  match r with
  | Ok pid => mret (set_manager i (register_service (service_manager i) "shell" pid))
  | Err _ => mret i
  end.

Definition is_essential_service_pid (i : InitProcess) (pid : Z) : bool :=
  existsb (λ nm, match get_service_pid (service_manager i) nm with
                 | Some p => p =? pid
                 | None => false
                 end) (essential_services i).

(** What [is_essential_service_pid] decides here is only a debug message. *)
Fixpoint handle_child_processes (fuel : nat) (i : InitProcess) : prog S InitProcess :=
  match fuel with
  | O => λ _, Fuel
  | Datatypes.S fuel =>
      r ← sys_wait;
      match r with
      | Ok (pid, _) => handle_child_processes fuel (set_manager i (handle_process_exit (service_manager i) pid))
      | Err _ => mret i
      end
  end.

(** [more] is [MAX_WAIT_CYCLES - wait_cycles]; [wait_cycles] is not used
    otherwise. *)
Definition MAX_WAIT_CYCLES : Z := 100.
Fixpoint wait_until_stopped (fuel : nat) (more : nat) (i : InitProcess) : prog S InitProcess :=
  if all_services_stopped (service_manager i) then mret i
  else match more with
       | O => mret i
       | Datatypes.S more => i ← handle_child_processes fuel i; wait_until_stopped fuel more i
       end.

Definition handle_shutdown (fuel : nat) (i : InitProcess) : prog S InitProcess :=
  m ← shutdown_all_services (service_manager i);
  i ← wait_until_stopped fuel (Z.to_nat MAX_WAIT_CYCLES) (set_manager i m);
  if negb (all_services_stopped (service_manager i)) then
    m ← force_kill_all (service_manager i); mret (set_manager i m)
  else mret i.

(** [rounds] bounds the rounds of the main loop, [fuel] the children collected
    in one of them. *)
Fixpoint run_main_loop (rounds fuel : nat) (i : InitProcess) : prog S InitProcess :=
  match rounds with
  | O => λ _, Fuel
  | Datatypes.S rounds =>
      i ← handle_child_processes fuel i;
      m ← lift (check_services (service_manager i));
      let i := set_manager i m in
      if shutdown_requested i then handle_shutdown fuel i
      else run_main_loop rounds fuel i
  end.

Definition request_shutdown (i : InitProcess) : InitProcess :=
  {| service_manager := service_manager i; shutdown_requested := true; essential_services := essential_services i |}.

(** [_start], after the heap is set up; the pid is only reported. *)
Definition _start (rounds fuel : nat) : prog S unit :=
  _ ← sys_getpid;
  i ← initialize_system init_new;
  _ ← run_main_loop rounds fuel i;
  sys_exit 0.
End calls.

(** ** The service manager

    A history is a sequence of process exits and health checks.  Services with
    different pids do not influence each other: each follows [service_event]. *)
Inductive sm_event := EvExit (pid : Z) | EvCheck.

Definition apply_event `{Profile} (e : sm_event) (m : ServiceManager) : outcome ServiceManager :=
  match e with
  | EvExit pid => Val (handle_process_exit m pid)
  | EvCheck => check_services m
  end.

Definition service_event (e : sm_event) (x : Service) : Service :=
  match e with
  | EvExit pid => if service_pid x =? pid then service_exited x else x
  | EvCheck =>
      match service_state x with
      | Svc.Starting => set_service_state x Svc.Running
      | Svc.Failed =>
          if restart_count x <? max_restarts x then
            {| name := name x; service_pid := service_pid x; service_state := Svc.Starting;
               restart_count := restart_count x + 1; max_restarts := max_restarts x |}
          else x
      | _ => x
      end
  end.
Definition service_after (evs : list sm_event) (x : Service) : Service := foldl (λ x e, service_event e x) x evs.

Definition failed (x : Service) : Z := if bool_decide (service_state x = Svc.Failed) then 1 else 0.
(** How often the service goes from working to [Failed]. *)
Fixpoint crashes (evs : list sm_event) (x : Service) : Z :=
  match evs with
  | [] => 0
  | e :: evs => Z.max 0 (failed (service_event e x) - failed x) + crashes evs (service_event e x)
  end.

(** A service that nobody has asked to stop, with its restart budget. *)
Record in_budget (x : Service) : Prop := {
  ib_count : 0 ≤ restart_count x ≤ max_restarts x;
  ib_max : max_restarts x = 3;
  ib_state : service_state x = Svc.Starting ∨ service_state x = Svc.Running ∨ service_state x = Svc.Failed;
}.
Definition identity (x : Service) : string * Z := (name x, service_pid x).

Lemma new_service_in_budget nm pid : in_budget (new_service nm pid).
Proof. split; simpl; [lia|done|auto]. Qed.

Lemma service_event_identity e x : identity (service_event e x) = identity x.
Proof. destruct e; simpl; unfold service_exited; repeat case_match; done. Qed.

Lemma service_event_pid e x : service_pid (service_event e x) = service_pid x.
Proof. apply (f_equal snd (service_event_identity e x)). Qed.

Lemma service_event_budget e x : in_budget x → in_budget (service_event e x) ∧
  restart_count (service_event e x) + failed (service_event e x)
    = restart_count x + failed x + Z.max 0 (failed (service_event e x) - failed x).
Proof.
  intros [Hc Hm Hs]. unfold failed. destruct e as [pid|]; simpl.
  - unfold service_exited. zcase; [|split; [by split|lia]].
    destruct Hs as [E|[E|E]]; rewrite !E; simpl; rewrite ?E; (split; [split; simpl; auto|simpl; lia]).
  - destruct Hs as [E|[E|E]]; rewrite !E; simpl; rewrite ?E; try (split; [split; simpl; auto|simpl; lia]).
    zcase; simpl; rewrite ?E; (split; [split; simpl; auto; lia|simpl; lia]).
Qed.

Lemma service_after_budget evs : ∀ x, in_budget x →
  in_budget (service_after evs x) ∧ identity (service_after evs x) = identity x ∧
  restart_count (service_after evs x) + failed (service_after evs x) = restart_count x + failed x + crashes evs x.
Proof.
  induction evs as [|e evs IH]; intros x Hx; simpl; [split_and!; [done|done|lia]|].
  destruct (service_event_budget e x Hx) as [Hx' Hc]. destruct (IH _ Hx') as (Hb & Hi & Hr).
  unfold service_after in *. split_and!; [done| |lia]. rewrite Hi. apply service_event_identity.
Qed.

(** A service whose restarts are used up stays failed. *)
Lemma exhausted_stays x evs : in_budget x → service_state x = Svc.Failed → restart_count x = 3 →
  service_after evs x = x.
Proof.
  intros Hb Hs Hc. assert (∀ e, service_event e x = x) as He.
  { intros [pid|]; simpl; unfold service_exited; rewrite Hs; [by case_match|].
    rewrite (proj2 (Z.ltb_ge _ _)); [done|]. destruct Hb. lia. }
  unfold service_after. induction evs as [|e evs IH]; simpl; [done|]. by rewrite He.
Qed.

Lemma first_exit_budget pid l : Forall in_budget l → Forall in_budget (first_exit pid l).
Proof.
  induction 1 as [|x l Hx Hl IH]; simpl; [done|]. zcase; constructor; try done.
  destruct (service_event_budget (EvExit pid) x Hx) as [Hb _]. simpl in Hb.
  by rewrite (proj2 (Z.eqb_eq _ _)) in Hb by done.
Qed.

Lemma first_exit_map pid l : NoDup (service_pid <$> l) → first_exit pid l = service_event (EvExit pid) <$> l.
Proof.
  induction l as [|x l IH]; simpl; [done|]. intros [Hx Hl]%NoDup_cons. rewrite (IH Hl). zcase; [|done].
  f_equal. symmetry. rewrite <-(list_fmap_id l) at 2. apply list_fmap_ext. intros j y Hy. simpl.
  rewrite (proj2 (Z.eqb_neq _ _)); [done|]. intros Hy'. apply Hx.
  apply list_elem_of_fmap. exists y. split; [congruence|]. by eapply list_elem_of_lookup_2.
Qed.

Section manager.
Context {P : Profile}.

Lemma check_service_event x : in_budget x → check_service x = Val (service_event EvCheck x).
Proof.
  intros [Hc Hm _]. unfold check_service. simpl. destruct (service_state x); try done. zcase; [|done].
  rewrite uadd_val by lia. done.
Qed.

Lemma check_services_map l : Forall in_budget l → mapM check_service l = Val (service_event EvCheck <$> l).
Proof.
  induction 1 as [|x l Hx _ IH]; [done|]. cbn [mapM]. rewrite check_service_event by done.
  cbn [mbind outcome_bind]. by rewrite IH.
Qed.

Lemma apply_event_map e m : Forall in_budget (services m) → NoDup (service_pid <$> services m) →
  apply_event e m = Val {| services := service_event e <$> services m |}.
Proof.
  intros Hb Hn. destruct e as [pid|]; simpl.
  - unfold handle_process_exit. by rewrite first_exit_map.
  - unfold check_services. by rewrite check_services_map.
Qed.
End manager.

(** ** Histories *)
Fixpoint run_events `{Profile} (evs : list sm_event) (m : ServiceManager) : outcome ServiceManager :=
  match evs with
  | [] => Val m
  | e :: evs => m ← apply_event e m; run_events evs m
  end.

Section histories.
Context {P : Profile}.

Lemma run_events_map evs : ∀ m, Forall in_budget (services m) → NoDup (service_pid <$> services m) →
  run_events evs m = Val {| services := service_after evs <$> services m |}.
Proof.
  induction evs as [|e evs IH]; intros m Hb Hn; cbn [run_events].
  { destruct m as [l]. simpl. unfold service_after. simpl. by rewrite list_fmap_id. }
  rewrite apply_event_map by done. cbn [mbind outcome_bind]. rewrite IH; cbn [services].
  - by rewrite <-list_fmap_compose.
  - apply Forall_fmap. eapply Forall_impl; [done|]. intros x Hx. by apply service_event_budget.
  - rewrite <-list_fmap_compose. erewrite list_fmap_ext; [done|]. intros j x _. apply service_event_pid.
Qed.
End histories.

(** Collecting the exit of a process leaves no running service with its pid. *)
Lemma exited_not_running pid l : NoDup (service_pid <$> l) →
  Forall (λ x, service_pid x = pid → service_state x ≠ Svc.Running) (first_exit pid l).
Proof.
  intros Hn. rewrite first_exit_map by done. apply Forall_fmap, Forall_true. intros x Hx.
  change (service_pid (service_event (EvExit pid) x) = pid) in Hx. rewrite service_event_pid in Hx.
  change (service_state (service_event (EvExit pid) x) ≠ Svc.Running). cbn [service_event]. rewrite (proj2 (Z.eqb_eq _ _) Hx). unfold service_exited.
  destruct (service_state x) eqn:E; simpl; by rewrite ?E.
Qed.

(** ** Programs over a lawful kernel *)
Section lawful.
Context {P : Profile} {S : Type} `{SyscallInstruction S}.

(** What init needs of the kernel to get through its loops: waiting and
    signalling return, and a child is collected only once, so that between two
    refusals only finitely many are ([waiting] of them). *)
Class InitKernel := {
  waiting : S → nat;
  wait_law (s : S) : ∃ r s', sys_wait s = Val (Alive r, s') ∧ (is_ok r = true → (waiting s' < waiting s)%nat);
  kill_law (s : S) pid signal : ∃ r s', sys_kill pid signal s = Val (Alive r, s');
}.
Context `{InitKernel}.

Definition same_services (m m' : ServiceManager) : Prop := identity <$> services m' = identity <$> services m.
Lemma first_exit_identity pid l : identity <$> first_exit pid l = identity <$> l.
Proof.
  induction l as [|x l IH]; [done|]. cbn [first_exit]. zcase; rewrite !fmap_cons; [|by rewrite IH]. f_equal.
  unfold service_exited. by case_match.
Qed.

Lemma bind_alive {A B} (k : A → prog S B) (m : prog S A) s a s' :
  m s = Val (Alive a, s') → (m ≫= k) s = k a s'.
Proof. intros Hm. unfold mbind, prog_bind. by rewrite Hm. Qed.

(** Collecting children ends, with the same services. *)
Lemma handle_child_processes_spec i s : ∃ i' s',
  (∀ fuel, (waiting s < fuel)%nat → handle_child_processes fuel i s = Val (Alive i', s')) ∧
  same_services (service_manager i) (service_manager i') ∧
  shutdown_requested i' = shutdown_requested i ∧
  (Forall in_budget (services (service_manager i)) → Forall in_budget (services (service_manager i'))).
Proof.
  remember (waiting s) as k eqn:Hk. revert i s Hk. induction (lt_wf k) as [k _ IH]. intros i s ->.
  destruct (wait_law s) as (r & s' & Hw & Hr). destruct r as [[pid status]|e].
  - specialize (Hr eq_refl).
    destruct (IH _ Hr (set_manager i (handle_process_exit (service_manager i) pid)) s' eq_refl)
      as (i' & s'' & Hrun & Hsame & Hreq & Hbud).
    exists i', s''. split_and!; [|unfold same_services in *; by rewrite Hsame; apply first_exit_identity|done|].
    2: { intros Hb. by apply Hbud, first_exit_budget. }
    intros [|fuel] Hf; [lia|]. cbn [handle_child_processes]. rewrite (bind_alive _ _ _ _ _ Hw). apply Hrun. lia.
  - exists i, s'. split_and!; [|done..]. intros [|fuel] Hf; [lia|]. cbn [handle_child_processes].
    by rewrite (bind_alive _ _ _ _ _ Hw).
Qed.

(** Signalling every service, where one signal relates the states before and
    after by [R]. *)
Section signals.
Context (R : S → S → Prop) `{!PreOrder R}.
Context (Hkill : ∀ s pid signal, ∃ r s', sys_kill pid signal s = Val (Alive r, s') ∧ R s s').

Lemma mapM_prog (f : Service → prog S Service) (Q : Service → Prop) l :
  (∀ x s, ∃ y s', f x s = Val (Alive y, s') ∧ R s s' ∧ identity y = identity x ∧ Q y) →
  ∀ s, ∃ l' s', mapM f l s = Val (Alive l', s') ∧ R s s' ∧ identity <$> l' = identity <$> l ∧ Forall Q l'.
Proof.
  intros Hf. induction l as [|x l IH]; intros s; [by exists [], s|].
  destruct (Hf x s) as (y & s1 & Hy & HR1 & Hi & HQ). destruct (IH s1) as (l' & s2 & Hl & HR2 & Hid & HF).
  exists (y :: l'), s2. cbn [mapM]. rewrite (bind_alive _ _ _ _ _ Hy), (bind_alive _ _ _ _ _ Hl).
  split_and!; [done|by trans s1| |by constructor]. by rewrite !fmap_cons, Hi, Hid.
Qed.

Lemma shutdown_all_spec m s : ∃ m' s', shutdown_all_services m s = Val (Alive m', s') ∧ R s s' ∧ same_services m m'.
Proof.
  destruct (mapM_prog shutdown_service (λ _, True) (services m)) with (s := s) as (l & s' & Hl & HR & Hi & _).
  { intros x s0. unfold shutdown_service. case_bool_decide; [|by exists x, s0].
    destruct (Hkill s0 (service_pid x) 15) as (r & s1 & Hk & HR). rewrite (bind_alive _ _ _ _ _ Hk).
    destruct r; eexists _, s1; by split_and!. }
  exists {| services := l |}, s'. unfold shutdown_all_services. by rewrite (bind_alive _ _ _ _ _ Hl).
Qed.

Lemma force_kill_spec m s : ∃ m' s', force_kill_all m s = Val (Alive m', s') ∧ R s s' ∧ same_services m m' ∧
  all_services_stopped m' = true.
Proof.
  destruct (mapM_prog force_kill_service (λ x, service_state x = Svc.Stopped) (services m)) with (s := s)
    as (l & s' & Hl & HR & Hi & HF).
  { intros x s0. unfold force_kill_service. case_bool_decide as E; [|exists x, s0; split_and!; [done..|]].
    - destruct (Hkill s0 (service_pid x) 9) as (r & s1 & Hk & HR). rewrite (bind_alive _ _ _ _ _ Hk).
      eexists _, s1. by split_and!.
    - destruct (decide (service_state x = Svc.Stopped)); [done|by destruct E]. }
  exists {| services := l |}, s'. unfold force_kill_all. rewrite (bind_alive _ _ _ _ _ Hl). split_and!; [done..|].
  unfold all_services_stopped. apply Is_true_true, forallb_True. eapply Forall_impl; [done|]. intros x E.
  by apply bool_decide_pack.
Qed.

Lemma handle_shutdown_from fuel i s i2 s2 : 
  (∀ m1 s1, shutdown_all_services (service_manager i) s = Val (Alive m1, s1) → R s s1 →
     wait_until_stopped fuel (Z.to_nat MAX_WAIT_CYCLES) (set_manager i m1) s1 = Val (Alive i2, s2) ∧ R s1 s2 ∧
     same_services m1 (service_manager i2)) →
  ∃ i' s', handle_shutdown fuel i s = Val (Alive i', s') ∧ R s s' ∧
    all_services_stopped (service_manager i') = true ∧ same_services (service_manager i) (service_manager i').
Proof.
  intros Hw. destruct (shutdown_all_spec (service_manager i) s) as (m1 & s1 & H1 & R1 & S1).
  destruct (Hw m1 s1 H1 R1) as (H2 & R2 & S2). unfold handle_shutdown.
  rewrite (bind_alive _ _ _ _ _ H1), (bind_alive _ _ _ _ _ H2). unfold same_services in *.
  destruct (all_services_stopped (service_manager i2)) eqn:E; simpl.
  - exists i2, s2. split_and!; [done|by trans s1|done|]. congruence.
  - destruct (force_kill_spec (service_manager i2) s2) as (m3 & s3 & H3 & R3 & S3 & E3).
    rewrite (bind_alive _ _ _ _ _ H3). eexists _, s3. unfold same_services in S3.
    split_and!; [done|trans s1; [done|by trans s2]|done|]. simpl. congruence.
Qed.
End signals.

Lemma wait_until_stopped_spec more : ∀ i s, ∃ fuel0 i' s',
  (∀ fuel, (fuel0 ≤ fuel)%nat → wait_until_stopped fuel more i s = Val (Alive i', s')) ∧
  same_services (service_manager i) (service_manager i').
Proof.
  induction more as [|more IH]; intros i s.
  { exists 0%nat, i, s. split; [|done]. intros. simpl. by case_match. }
  destruct (all_services_stopped (service_manager i)) eqn:E.
  { exists 0%nat, i, s. split; [|done]. intros. simpl. by rewrite E. }
  destruct (handle_child_processes_spec i s) as (i1 & s1 & Hc & Hs1 & _ & _).
  destruct (IH i1 s1) as (f & i2 & s2 & Hw & Hs2).
  exists (Nat.max f (Datatypes.S (waiting s))), i2, s2. split; [|unfold same_services in *; congruence].
  intros fuel Hf. simpl. rewrite E, (bind_alive _ _ _ _ _ (Hc fuel ltac:(lia))). apply Hw. lia.
Qed.
End lawful.

(** ** Init on the kernel

    [marshal] is the entry code that turns the registers into the arguments of
    [syscall_entry], [rdx_after] what the second result register holds
    afterwards. *)
Section on_kernel.
Context {P : Profile} {L : Layout} (Hhead : 0 ≤ header_size < 2 ^ 62) (Hcap : 0 ≤ capability_size).
Context (marshal : list Z → Args) (rdx_after : IpcState → Z) (addr_str : string → Z) (addr_args : list string → Z).

Definition kernel_calls : SyscallInstruction IpcState := {|
  syscall st n regs := '(v, st) ← syscall_entry st n (marshal regs); Val (v, rdx_after st, st);
  str_addr := addr_str;
  args_addr := addr_args;
|}.
#[local] Existing Instance kernel_calls.

(** A failing call shows its errno, which every wrapper reads as an error. *)
Lemma failing_entry st num a e : dispatch_syscall st 1 num a = Val (Err e, st) →
  syscall_entry st num a = Val (i32_as_u64 (to_errno e), st) ∧ (as_i64 (i32_as_u64 (to_errno e)) <? 0) = true.
Proof. intros Hd. unfold syscall_entry. rewrite Hd. split; [done|by destruct e]. Qed.

Lemma kernel_wait st : ∃ e, sys_wait st = Val (Alive (Err e), st).
Proof.
  destruct (failing_entry st 4 (marshal []) Sys.NotSupported) as [He Hneg].
  { unfold dispatch_syscall, validate_syscall_args, is_valid_syscall_number, MAX_SYSCALL_NUMBER.
    by destruct debug_assertions. }
  unfold sys_wait. cbn [syscall kernel_calls]. rewrite He. cbn [mbind outcome_bind]. rewrite Hneg. eauto.
Qed.

Lemma kernel_kill st pid signal : ∃ e, sys_kill pid signal st = Val (Alive (Err e), st).
Proof.
  assert (∃ e, dispatch_syscall st 1 7 (marshal [pid; signal]) = Val (Err e, st)) as [e Hd].
  { unfold dispatch_syscall. destruct (validate_syscall_args 1 7 _); [|eauto].
    unfold dispatch_arms, cfg_debug. simpl. eexists. reflexivity. }
  destruct (failing_entry _ _ _ _ Hd) as [He Hneg].
  unfold sys_kill. cbn [syscall kernel_calls]. rewrite He. cbn [mbind outcome_bind]. rewrite Hneg. eauto.
Qed.

Definition kernel_laws : InitKernel (S:=IpcState).
Proof.
  refine {| waiting := λ _, 0%nat |}.
  - intros s. destruct (kernel_wait s) as [e He]. exists (Err e), s. done.
  - intros s pid signal. destruct (kernel_kill s pid signal) as [e He]. by exists (Err e), s.
Defined.

(** [free_slots]: how many more processes the table takes. *)
Definition free_slots (st : IpcState) : Z :=
  match table st with Some t => max_processes t - len (processes t) | None => 0 end.

Definition child (q : Z) : Process := set_state (process_new q (Some 1) ("child_of_" +:+ pretty 1) Normal) Ready.

Lemma fork_slots n σ st a r st' : kernel_wf n σ st → Syscall.sys_fork st 1 a = Val (r, st') →
  free_slots st' = free_slots st - (if is_ok r then 1 else 0).
Proof.
  intros Hwf. destruct (kw_table n σ st Hwf) as (t & Ht & Htw).
  unfold Syscall.sys_fork, create_process_global, free_slots. rewrite Ht.
  destruct (decide (len (processes t) < max_processes t)) as [Hlt|Hge].
  - destruct (create_process_spec t (Some 1) ("child_of_" +:+ pretty 1) Normal Htw Hlt)
      as (t' & -> & _ & _ & _ & Hmax & Hlen & _). cbn [mbind outcome_bind]. intros [= <- <-]. simpl. lia.
  - unfold create_process. rewrite (proj2 (Z.leb_le _ _)) by lia. cbn [mbind outcome_bind].
    intros [= <- <-]. simpl. lia.
Qed.

Lemma dispatch_fork st a : dispatch_syscall st 1 2 a = Syscall.sys_fork st 1 a.
Proof.
  unfold dispatch_syscall, validate_syscall_args, is_valid_syscall_number, MAX_SYSCALL_NUMBER.
  by destruct debug_assertions.
Qed.

Lemma as_i64_small z : 0 ≤ z < 2 ^ 32 → as_i64 z = z ∧ as_ProcessId z = z.
Proof. intros Hz. unfold as_i64, as_ProcessId, to_signed. rewrite !Z.mod_small by lia.
  split; [|done]. case_match; lia. Qed.

Lemma kernel_fork n σ st : kernel_wf n σ st → 0 < free_slots st →
  ∃ pid st', sys_fork st = Val (Alive (Ok pid), st') ∧ kernel_wf n σ st' ∧ 0 < pid ∧ ¬ alive st pid ∧
    free_slots st' = free_slots st - 1 ∧
    ∀ q, lookup_process st' q = if decide (q = pid) then Some (child q)
                                else after_create (Some 1) pid q <$> lookup_process st q.
Proof.
  intros Hwf Hfree. destruct (sys_fork_spec n σ st 1 (marshal []) Hwf) as (r & st' & Hf & Hwf' & _ & _ & _ & Hr).
  pose proof (fork_slots n σ st _ r st' Hwf Hf) as Hslots. destruct r as [pid|e].
  - destruct Hr as (Hpid & Hnew & Hg). destruct (as_i64_small pid ltac:(lia)) as [Hi Hu].
    exists pid, st'. split_and!; [|done|lia|done|done|done].
    unfold sys_fork. cbn [syscall kernel_calls]. unfold syscall_entry. rewrite dispatch_fork, Hf.
    cbn [mbind outcome_bind]. rewrite Hi, Hu. by rewrite (proj2 (Z.ltb_ge _ _)) by lia.
  - destruct Hr as (_ & _ & t & Ht & Hfull). unfold free_slots in Hfree. rewrite Ht in Hfree. lia.
Qed.

(** Spawning is a fork: the child never runs the binary. *)
Lemma kernel_spawn_service n σ st nm args : kernel_wf n σ st → 0 < free_slots st →
  ∃ pid st', spawn_service nm args st = Val (Alive (Ok pid), st') ∧ spawn_process nm args st = Val (Alive (Ok pid), st') ∧
    kernel_wf n σ st' ∧ ¬ alive st pid ∧ free_slots st' = free_slots st - 1 ∧
    ∀ q, lookup_process st' q = if decide (q = pid) then Some (child q)
                                else after_create (Some 1) pid q <$> lookup_process st q.
Proof.
  intros Hwf Hfree. destruct (kernel_fork n σ st Hwf Hfree) as (pid & st' & Hf & Hwf' & Hpid & Hnew & Hs & Hg).
  exists pid, st'. unfold spawn_service, spawn_process. rewrite !(bind_alive _ _ _ _ _ Hf).
  rewrite (proj2 (Z.eqb_neq _ _)) by lia. by split_and!.
Qed.

(** The services init has on the kernel after start-up. *)
Definition started (p1 p2 p3 : Z) : list Service :=
  [set_service_state (new_service "fs-service" p1) Svc.Running;
   set_service_state (new_service "driver-manager" p2) Svc.Running;
   new_service "shell" p3].

Lemma init_new_budget p1 p2 p3 : let i := set_manager init_new {| services := started p1 p2 p3 |} in
  shutdown_requested i = false ∧ Forall in_budget (services (service_manager i)).
Proof. split; [done|]. repeat constructor; simpl; auto; lia. Qed.

(** One more child: the caller and the earlier children are still there. *)
Definition forked (st : IpcState) (kids : list Z) (st' : IpcState) : Prop :=
  alive st' 1 ∧ NoDup kids ∧ (∀ q, alive st q → alive st' q) ∧
  Forall (λ p, p ≠ 1 ∧ ¬ alive st p ∧ lookup_process st' p = Some (child p)) kids.

Lemma forked_nil st : alive st 1 → forked st [] st.
Proof. intros. split_and!; [done|constructor|done|constructor]. Qed.

Lemma forked_snoc st kids s1 pid s2 : forked st kids s1 → ¬ alive s1 pid →
  (∀ q, lookup_process s2 q = if decide (q = pid) then Some (child q)
                              else after_create (Some 1) pid q <$> lookup_process s1 q) →
  forked st (kids ++ [pid]) s2.
Proof.
  intros (H1 & Hnd & Hal & Hk) Hnew Hg.
  assert (∀ q, alive s1 q → alive s2 q) as Hal2.
  { intros q [x Hx]. unfold alive. rewrite Hg, Hx. case_decide; simpl; eauto. }
  split_and!; [by auto| |by auto|].
  - apply NoDup_app. split_and!; [done| |apply NoDup_singleton]. intros q Hq ->%list_elem_of_singleton.
    rewrite Forall_forall in Hk. destruct (Hk _ Hq) as (_ & _ & Hl). apply Hnew. unfold alive. rewrite Hl. eauto.
  - apply Forall_app. split.
    + eapply Forall_impl; [done|]. intros q (Hq & Hn & Hl). split_and!; [done|done|].
      rewrite Hg, decide_False by (intros ->; apply Hnew; unfold alive; rewrite Hl; eauto).
      rewrite Hl. unfold after_create. simpl. by rewrite decide_False by congruence.
    + apply Forall_singleton. split_and!; [congruence|by auto|]. by rewrite Hg, decide_True.
Qed.

Lemma kernel_initialize n σ st : kernel_wf n σ st → alive st 1 → 3 ≤ free_slots st →
  ∃ p1 p2 p3 st', initialize_system init_new st
      = Val (Alive (set_manager init_new {| services := started p1 p2 p3 |}), st') ∧
    kernel_wf n σ st' ∧ forked st [p1; p2; p3] st'.
Proof.
  intros Hwf Hal Hfree. apply forked_nil in Hal as F0.
  destruct (kernel_spawn_service n σ st "fs-service" []) as (p1 & s1 & H1 & _ & Hw1 & Hn1 & Hf1 & Hg1); [done|lia|].
  destruct (kernel_spawn_service n σ s1 "driver-manager" []) as (p2 & s2 & H2 & _ & Hw2 & Hn2 & Hf2 & Hg2); [done|lia|].
  destruct (kernel_spawn_service n σ s2 "/system/bin/shell" []) as (p3 & s3 & _ & H3 & Hw3 & Hn3 & Hf3 & Hg3); [done|lia|].
  pose proof (forked_snoc _ _ _ _ _ F0 Hn1 Hg1) as F1. pose proof (forked_snoc _ _ _ _ _ F1 Hn2 Hg2) as F2.
  pose proof (forked_snoc _ _ _ _ _ F2 Hn3 Hg3) as F3.
  exists p1, p2, p3, s3. split_and!; [|done|exact F3].
  assert (start_services ["fs-service"; "driver-manager"] init_new st = Val (Alive (set_manager init_new
    {| services := [new_service "fs-service" p1; new_service "driver-manager" p2] |}), s2)) as Hs.
  { cbn [start_services]. rewrite (bind_alive _ _ _ _ _ H1). cbn [start_services].
    by rewrite (bind_alive _ _ _ _ _ H2). }
  unfold initialize_system. cbn [essential_services init_new]. rewrite (bind_alive _ _ _ _ _ Hs).
  erewrite bind_alive by reflexivity. unfold spawn_shell. by rewrite (bind_alive _ _ _ _ _ H3).
Qed.

(** Without children to collect, waiting changes nothing. *)
Lemma kernel_children fuel i st : handle_child_processes (S fuel) i st = Val (Alive i, st).
Proof. cbn [handle_child_processes]. destruct (kernel_wait st) as [e He]. by rewrite (bind_alive _ _ _ _ _ He). Qed.

Lemma kernel_wait_stopped fuel more : ∀ i st, wait_until_stopped (S fuel) more i st = Val (Alive i, st).
Proof.
  induction more as [|more IH]; intros i st; cbn [wait_until_stopped]; case_match; try done.
  rewrite (bind_alive _ _ _ _ _ (kernel_children fuel i st)). apply IH.
Qed.

(** C24: Init on the kernel.  Started on a well-formed kernel with room for three
    processes, init forks three children of process 1 and registers them as its
    services: the file-system service and the driver manager running, the shell
    starting.  The children are ready but none of them ever executes its binary
    (they are still the plain forks).  From then on the main loop does not return.
    A shutdown would mark every service as stopped, but leaves the kernel as it
    is: the processes stay alive. *)
Theorem init_on_kernel n σ st : kernel_wf n σ st → alive st 1 → 3 ≤ free_slots st →
  ∃ p1 p2 p3 i st', initialize_system init_new st = Val (Alive i, st') ∧
    services (service_manager i) = started p1 p2 p3 ∧ kernel_wf n σ st' ∧ forked st [p1; p2; p3] st' ∧
    (∀ rounds fuel, run_main_loop rounds (S fuel) i st' = Fuel) ∧
    (∀ fuel, ∃ i', handle_shutdown (S fuel) i st' = Val (Alive i', st') ∧
       all_services_stopped (service_manager i') = true).
Proof.
  intros Hwf Hal Hfree. destruct (kernel_initialize n σ st Hwf Hal Hfree) as (p1 & p2 & p3 & st' & Hi & Hwf' & Hk).
  eexists p1, p2, p3, _, st'. split; [exact Hi|]. split_and!; [done|done|done| |].
  - intros rounds fuel. generalize (init_new_budget p1 p2 p3).
    generalize (set_manager init_new {| services := started p1 p2 p3 |}). induction rounds as [|rounds IH]; [done|].
    intros i [Hreq Hb]. cbn [run_main_loop]. rewrite (bind_alive _ _ _ _ _ (kernel_children fuel i st')).
    erewrite bind_alive by (unfold lift, check_services; rewrite check_services_map by done; reflexivity).
    simpl. rewrite Hreq. apply IH. split; [done|]. apply Forall_fmap. eapply Forall_impl; [done|].
    intros x Hx. by apply service_event_budget.
  - intros fuel. set (i := set_manager _ _).
    assert (∀ s pid signal, ∃ r s', sys_kill pid signal s = Val (Alive r, s') ∧ s = s') as Hkill.
    { intros s pid signal. destruct (kernel_kill s pid signal) as [e He]. by exists (Err e), s. }
    destruct (shutdown_all_spec eq Hkill (service_manager i) st') as (m1 & s1 & H1 & <- & _).
    destruct (handle_shutdown_from eq Hkill (S fuel) i st' (set_manager i m1) st') as (i' & s' & He & <- & Hst & _); [|by eauto].
    intros m s Hm <-. rewrite H1 in Hm. injection Hm as ->. by rewrite kernel_wait_stopped.
Qed.
End on_kernel.

(** ** Properties *)
Section properties.
Context {P : Profile} {S : Type} `{SyscallInstruction S}.

(** The restart budget.  From freshly registered services with different
    pids, any sequence of process exits and health checks runs without a panic;
    every service keeps its name and pid, whatever happens to the others; it is
    restarted once per crash until the budget of three is used up, so it crashes
    at most four times, and the fourth crash is final. *)
Theorem restart_budget (l : list (string * Z)) evs : NoDup l.*2 →
  let m := {| services := uncurry new_service <$> l |} in
  ∃ m', run_events evs m = Val m' ∧ services m' = service_after evs <$> services m ∧
    Forall (λ nm, let x := uncurry new_service nm in let x' := service_after evs x in
      identity x' = nm ∧ restart_count x' + failed x' = crashes evs x ∧ 0 ≤ restart_count x' ≤ 3 ∧
      crashes evs x ≤ 4 ∧
      (crashes evs x = 4 → ∀ more, service_after more x' = x')) l.
Proof.
  intros Hn m. exists {| services := service_after evs <$> services m |}. split_and!; [|done|].
  - apply run_events_map.
    + apply Forall_fmap, Forall_true. intros [nm pid]. apply new_service_in_budget.
    + simpl. rewrite <-list_fmap_compose. erewrite list_fmap_ext; [done|]. by intros j [nm pid].
  - apply Forall_true. intros [nm pid]. simpl.
    destruct (service_after_budget evs (new_service nm pid) (new_service_in_budget nm pid)) as (Hb & Hi & Hc).
    assert (restart_count (new_service nm pid) + failed (new_service nm pid) = 0) as E0 by done.
    pose proof Hb as [Hr Hm _].
    assert (failed (service_after evs (new_service nm pid)) ≤ 1) as Hf by (unfold failed; case_bool_decide; lia).
    split_and!; [done|lia|lia|lia|lia|]. intros H4 more.
    assert (service_state (service_after evs (new_service nm pid)) = Svc.Failed ∧
      restart_count (service_after evs (new_service nm pid)) = 3) as [Hst H3].
    { unfold failed in *. case_bool_decide; [split; [done|lia]|lia]. }
    by apply exhausted_stays.
Qed.

(** C25: Shutdown completes.  On any kernel whose [wait] and [kill] return, with
    enough fuel for the children collected, [handle_shutdown] returns; then every
    service is [Stopped], and the services are still the same. *)
Theorem shutdown_stops_all `{!InitKernel (S:=S)} i (s : S) : ∃ fuel0, ∀ fuel, (fuel0 ≤ fuel)%nat →
  ∃ i' s', handle_shutdown fuel i s = Val (Alive i', s') ∧ all_services_stopped (service_manager i') = true ∧
    same_services (service_manager i) (service_manager i').
Proof.
  set (R := λ _ _ : S, True). assert (PreOrder R) by (split; done).
  assert (∀ s pid signal, ∃ r s', sys_kill pid signal s = Val (Alive r, s') ∧ R s s') as Hk.
  { intros s0 pid sg. destruct (kill_law s0 pid sg) as (r & s1 & ?). by exists r, s1. }
  destruct (shutdown_all_spec R Hk (service_manager i) s) as (m1 & s1 & H1 & _ & S1).
  destruct (wait_until_stopped_spec (Z.to_nat MAX_WAIT_CYCLES) (set_manager i m1) s1) as (f & i2 & s2 & H2 & S2).
  exists f. intros fuel Hf.
  destruct (handle_shutdown_from R Hk fuel i s i2 s2) as (i' & s' & ? & _ & ? & ?); [|by eauto].
  intros m1' s1' Hm _. rewrite Hm in H1. injection H1 as -> ->. by split_and!; [apply H2| |].
Qed.

(** Init keeps running.  On any kernel whose [wait] and [kill] return, as
    long as no shutdown is requested the main loop does not return: it goes
    through any number of rounds, without a panic and without exiting, whatever
    children exit in between.  ([Fuel] with enough [fuel] for the children means
    that all [rounds] were used.) *)
Theorem init_keeps_running `{!InitKernel (S:=S)} rounds : ∀ i (s : S),
  shutdown_requested i = false → Forall in_budget (services (service_manager i)) →
  ∃ fuel0, ∀ fuel, (fuel0 ≤ fuel)%nat → run_main_loop rounds fuel i s = Fuel.
Proof.
  induction rounds as [|rounds IH]; intros i s Hreq Hb; [by exists 0%nat|].
  destruct (handle_child_processes_spec i s) as (i1 & s1 & Hc & _ & Hr & Hb1). specialize (Hb1 Hb).
  destruct (IH (set_manager i1 {| services := service_event EvCheck <$> services (service_manager i1) |}) s1)
    as [f Hf]; [simpl; congruence| |].
  { apply Forall_fmap. eapply Forall_impl; [done|]. intros x Hx. by apply service_event_budget. }
  exists (Nat.max f (Datatypes.S (waiting s))). intros fuel Hle. cbn [run_main_loop].
  rewrite (bind_alive _ _ _ _ _ (Hc fuel ltac:(lia))). erewrite bind_alive.
  2: { unfold lift, check_services. rewrite check_services_map by done. reflexivity. }
  simpl. rewrite Hr, Hreq. apply Hf. lia.
Qed.
End properties.

(** Init reports the death of an essential service only when that service is
    still listed as running, which it never is: its exit has just been recorded. *)
Lemma essential_check_dead i pid : NoDup (service_pid <$> services (service_manager i)) →
  is_essential_service_pid (set_manager i (handle_process_exit (service_manager i) pid)) pid = false.
Proof.
  intros Hn. unfold is_essential_service_pid. apply not_true_is_false. intros (nm & _ & Hp)%existsb_exists.
  unfold get_service_pid in Hp. simpl in Hp. destruct (List.find _ _) as [x|] eqn:E; [|done]. simpl in Hp.
  apply List.find_some in E as [Hin Hx]. apply andb_prop in Hx as [_ Hx%bool_decide_eq_true].
  pose proof (exited_not_running pid _ Hn) as HF. rewrite Forall_forall in HF.
  apply (HF x); [by apply list_elem_of_In|lia|done].
Qed.

(** ** Concrete instances *)
Definition demo_calls : SyscallInstruction IpcState :=
  kernel_calls (P:=dev) (L:=demo_layout) (λ l, demo_args (default 0 (l !! 0%nat)) (default 0 (l !! 1%nat)) 0)
    (λ _, 0) (λ _, 0) (λ _, 0).

Lemma restart_budget_witness :
  ∃ m', run_events (H:=dev) [EvCheck; EvExit 5; EvCheck; EvExit 5; EvCheck; EvExit 5; EvCheck; EvExit 5; EvCheck]
      {| services := [new_service "fs-service" 5; new_service "shell" 6] |} = Val m' ∧
    get_service_state m' "fs-service" = Some Svc.Failed ∧ get_service_state m' "shell" = Some Svc.Running.
Proof.
  destruct (restart_budget (P:=dev) [("fs-service", 5); ("shell", 6)]
    [EvCheck; EvExit 5; EvCheck; EvExit 5; EvCheck; EvExit 5; EvCheck; EvExit 5; EvCheck]) as (m' & Hrun & Hs & _).
  { apply (bool_decide_unpack _). vm_compute. exact I. }
  exists m'. split_and!; [exact Hrun|unfold get_service_state; rewrite Hs; reflexivity..].
Defined.

Lemma init_on_kernel_witness :
  ∃ p1 p2 p3 i st', initialize_system (P:=dev) (H:=demo_calls) init_new demo_kernel = Val (Alive i, st') ∧
    services (service_manager i) = started p1 p2 p3 ∧ alive st' p3.
Proof.
  destruct (init_on_kernel (P:=dev) (L:=demo_layout)
    (λ l, demo_args (default 0 (l !! 0%nat)) (default 0 (l !! 1%nat)) 0) (λ _, 0) (λ _, 0) (λ _, 0)
    10 demo_grants demo_kernel demo_kernel_wf) as (p1 & p2 & p3 & i & st' & Hi & Hs & _ & Hk & _).
  - eexists. vm_compute. reflexivity.
  - vm_compute. congruence.
  - exists p1, p2, p3, i, st'. split_and!; [exact Hi|exact Hs|].
    destruct Hk as (_ & _ & _ & Hk). rewrite Forall_forall in Hk.
    destruct (Hk p3) as (_ & _ & Hl); [right; right; by left|]. exists (child p3). exact Hl.
Defined.

Lemma init_keeps_running_witness :
  ∃ fuel0, ∀ fuel, (fuel0 ≤ fuel)%nat →
    run_main_loop (P:=dev) (H:=demo_calls) 3 fuel
      (set_manager init_new {| services := [new_service "fs-service" 5] |}) demo_kernel = Fuel.
Proof.
  apply (init_keeps_running (P:=dev) (H:=demo_calls) (InitKernel0:=kernel_laws (P:=dev) (L:=demo_layout) _ _ _ _) 3
    (set_manager init_new {| services := [new_service "fs-service" 5] |}) demo_kernel); [reflexivity|].
  repeat constructor; vm_compute; auto; congruence.
Defined.

Lemma shutdown_stops_all_witness :
  ∃ fuel0, ∀ fuel, (fuel0 ≤ fuel)%nat → ∃ i' s',
    handle_shutdown (H:=demo_calls) fuel
      (set_manager init_new {| services := [new_service "fs-service" 5] |}) demo_kernel = Val (Alive i', s') ∧
    all_services_stopped (service_manager i') = true ∧
    same_services {| services := [new_service "fs-service" 5] |} (service_manager i').
Proof.
  exact (shutdown_stops_all (H:=demo_calls) (InitKernel0:=kernel_laws (P:=dev) (L:=demo_layout) _ _ _ _)
    (set_manager init_new {| services := [new_service "fs-service" 5] |}) demo_kernel).
Defined.
