(* ===== verification/Shell.v ===== *)
(** * The shell

    Models [userspace/shell/src/]: the errors ([error.rs]), the environment and
    job types ([types.rs]), the execution context and the command parser
    ([infrastructure.rs]), the command processor ([commands.rs]), the input and
    output handlers ([input.rs], [output.rs]) and the main loop ([main.rs]).

    Strings are those of [Text].  The display is the list of strings printed so
    far; only builds with debug assertions print. *)
From stdpp Require Import strings pretty.
From S2P Require Import Prelude Text Service.
Local Open Scope kosh_scope.

(** ** [error.rs] *)
Inductive ShellError :=
  | ParseError (m : text) | InvalidCommand (m : text) | InvalidArguments (m : text)
  | FileNotFound (m : text) | ShPermissionDenied (m : text) | DirectoryNotFound (m : text)
  | FileAlreadyExists (m : text) | NotADirectory (m : text) | IsADirectory (m : text)
  | ShProcessNotFound (pid : Z) | ProcessAccessDenied (pid : Z) | InvalidSignal (m : text)
  | ServiceUnavailable (m : text) | ServiceTimeout (m : text) | ShServiceError (e : ServiceError)
  | InputError (m : text) | OutputError (m : text)
  | SystemCallFailed (call code : Z) | InsufficientMemory | ResourceExhausted (m : text)
  | InternalError (m : text).
Definition ShellResult (A : Type) : Type := result A ShellError.

(** [{:?}] of the derived [Debug]. *)
Definition service_error_debug (e : ServiceError) : string :=
  match e with
  | SeNotFound => "NotFound" | SePermissionDenied => "PermissionDenied" | SeInvalidRequest => "InvalidRequest"
  | SeCommunicationError => "CommunicationError" | SeTimeout => "Timeout" | SeNotImplemented => "NotImplemented"
  end.

Definition user_message (e : ShellError) : text :=
  match e with
  | ParseError m => txt "Parse error: " ++ m
  | InvalidCommand m => txt "Command not found: " ++ m
  | InvalidArguments m => txt "Invalid arguments: " ++ m
  | FileNotFound m => txt "File not found: " ++ m
  | ShPermissionDenied m => txt "Permission denied: " ++ m
  | DirectoryNotFound m => txt "Directory not found: " ++ m
  | FileAlreadyExists m => txt "File already exists: " ++ m
  | NotADirectory m => txt "Not a directory: " ++ m
  | IsADirectory m => txt "Is a directory: " ++ m
  | ShProcessNotFound pid => txt "Process not found: " ++ number pid
  | ProcessAccessDenied pid => txt "Access denied to process: " ++ number pid
  | InvalidSignal m => txt "Invalid signal: " ++ m
  | ServiceUnavailable m => txt "Service unavailable: " ++ m
  | ServiceTimeout m => txt "Service timeout: " ++ m
  | ShServiceError e => txt "Service error: " ++ txt (service_error_debug e)
  | InputError m => txt "Input error: " ++ m
  | OutputError m => txt "Output error: " ++ m
  | SystemCallFailed call code => txt "System call " ++ number call ++ txt " failed with code " ++ number code
  | InsufficientMemory => txt "Insufficient memory"
  | ResourceExhausted m => txt "Resource exhausted: " ++ m
  | InternalError m => txt "Internal error: " ++ m
  end.

Definition suggest_fix (e : ShellError) : option text :=
  match e with
  | InvalidCommand cmd =>
      Some (txt "Try 'help' to see available commands. Did you mean a similar command to '" ++ cmd ++ txt "'?")
  | FileNotFound path => Some (txt "Check if the file '" ++ path ++ txt "' exists using 'ls' command")
  | ShPermissionDenied _ => Some (txt "Check file permissions or run with appropriate privileges")
  | ShProcessNotFound _ => Some (txt "Use 'ps' command to list running processes")
  | ServiceUnavailable _ => Some (txt "Wait for the service to become available or restart the system")
  | _ => None
  end.

Inductive ErrorCategory := CatParse | CatFileSystem | CatProcess | CatService | CatIO | CatSystem | CatInternal.
Definition category (e : ShellError) : ErrorCategory :=
  match e with
  | ParseError _ | InvalidCommand _ | InvalidArguments _ => CatParse
  | FileNotFound _ | ShPermissionDenied _ | DirectoryNotFound _
  | FileAlreadyExists _ | NotADirectory _ | IsADirectory _ => CatFileSystem
  | ShProcessNotFound _ | ProcessAccessDenied _ | InvalidSignal _ => CatProcess
  | ServiceUnavailable _ | ServiceTimeout _ | ShServiceError _ => CatService
  | InputError _ | OutputError _ => CatIO
  | SystemCallFailed _ _ | InsufficientMemory | ResourceExhausted _ => CatSystem
  | InternalError _ => CatInternal
  end.

Inductive RecoveryStrategy := Retry | Fallback | AbortCommand | Continue.
Definition recovery_strategy (e : ShellError) : RecoveryStrategy :=
  match e with
  | ServiceTimeout _ | ServiceUnavailable _ => Retry
  | FileNotFound _ | ShProcessNotFound _ => AbortCommand
  | ShPermissionDenied _ => AbortCommand
  | InvalidCommand _ => Continue
  | InsufficientMemory | ResourceExhausted _ => Fallback
  | _ => Continue
  end.

(** ** [types.rs] *)
Record Environment := {
  variables : list (text * text);
  working_directory : text;
  path : list text;
}.
Definition environment_new : Environment :=
  {| variables := []; working_directory := txt "/"; path := [] |}.
Definition set_variables (e : Environment) (l : list (text * text)) : Environment :=
  {| variables := l; working_directory := working_directory e; path := path e |}.

Definition get_var (e : Environment) (nm : text) : option text :=
  snd <$> List.find (λ kv, bool_decide (kv.1 = nm)) (variables e).
Definition set_var (e : Environment) (nm value : text) : outcome Environment :=
  match position (λ kv, bool_decide (kv.1 = nm)) (variables e) with
  | Some pos =>
      kv ← index (variables e) (Z.of_nat pos);
      l ← index_set (variables e) (Z.of_nat pos) (kv.1, value);
      Val (set_variables e l)
  | None => Val (set_variables e (variables e ++ [(nm, value)]))
  end.
Definition unset_var (e : Environment) (nm : text) : Environment :=
  set_variables e (filter (λ kv, kv.1 ≠ nm) (variables e)).

Inductive JobStatus := JobRunning | JobStopped | JobCompleted (code : Z).
Record BackgroundJob := {
  job_id : Z;
  job_pid : Z;
  job_command : text;
  job_status : JobStatus;
}.

Inductive RedirectType := Overwrite (f : text) | Append (f : text) | RedirectError (f : text).
Inductive ConditionalType := CondAnd | CondOr.
#[warnings="-register-all"]
Inductive ParsedCommand := {
  command : text;
  args : list text;
  input_redirect : option text;
  output_redirect : option RedirectType;
  pipe_to : option ParsedCommand;
  background : bool;
  conditional : option ConditionalType;
}.

(** ** [infrastructure.rs] *)
Record ShellServiceClient := {
  service_client : ServiceClient;
  fs_service_pid : option Z;
  process_service_pid : option Z;
  driver_service_pid : option Z;
}.
Definition shell_client_new : ShellServiceClient :=
  {| service_client := client_new; fs_service_pid := None; process_service_pid := None; driver_service_pid := None |}.
Definition discover_services (c : ShellServiceClient) : ShellResult unit * ShellServiceClient :=
  (Ok (), {| service_client := service_client c; fs_service_pid := Some 100; process_service_pid := Some 101;
             driver_service_pid := Some 102 |}).

Inductive FileSystemRequest :=
  | FsList (p : text) | FsRead (p : text) | FsWrite (p : text) (data : list Z)
  | FsCreate (p : text) (is_directory : bool) | FsDelete (p : text).
Inductive ProcessRequest := PrList | PrKill (pid : Z) | PrGetInfo (pid : Z).
Inductive DriverRequest := DrList | DrLoad (p : text) | DrUnload (driver_id : Z).
Definition send_fs_request (c : ShellServiceClient) (r : FileSystemRequest) : ShellResult text :=
  Err (ServiceUnavailable (txt "File system service not implemented")).
Record ProcessInfo := {
  info_pid : Z; info_ppid : Z; process_name : text; process_state : text; process_cpu_time : Z; memory_usage : Z;
}.
Definition send_process_request (c : ShellServiceClient) (r : ProcessRequest) : ShellResult (list ProcessInfo) :=
  Err (ServiceUnavailable (txt "Process service not implemented")).
Definition send_driver_request (c : ShellServiceClient) (r : DriverRequest) : ShellResult text :=
  Err (ServiceUnavailable (txt "Driver service not implemented")).

Record ExecutionContext := {
  environment : Environment;
  context_client : ShellServiceClient;
  background_jobs : list BackgroundJob;
  next_job_id : Z;
}.
Definition context_new : ExecutionContext :=
  {| environment := environment_new; context_client := shell_client_new; background_jobs := []; next_job_id := 1 |}.
Definition set_environment (c : ExecutionContext) (e : Environment) : ExecutionContext :=
  {| environment := e; context_client := context_client c; background_jobs := background_jobs c;
     next_job_id := next_job_id c |}.
Definition set_jobs (c : ExecutionContext) (l : list BackgroundJob) : ExecutionContext :=
  {| environment := environment c; context_client := context_client c; background_jobs := l;
     next_job_id := next_job_id c |}.

Definition context_initialize (c : ExecutionContext) : outcome (ShellResult unit * ExecutionContext) :=
  e ← set_var (environment c) (txt "PWD") (txt "/");
  e ← set_var e (txt "HOME") (txt "/home/user");
  e ← set_var e (txt "PATH") (txt "/bin:/usr/bin");
  e ← set_var e (txt "SHELL") (txt "/bin/kosh-shell");
  let '(r, cl) := discover_services (context_client c) in
  Val (r, {| environment := e; context_client := cl; background_jobs := background_jobs c;
             next_job_id := next_job_id c |}).
Definition current_directory (c : ExecutionContext) : text := working_directory (environment c).
Definition change_directory (c : ExecutionContext) (p : text) : outcome (ShellResult unit * ExecutionContext) :=
  let e := {| variables := variables (environment c); working_directory := p; path := path (environment c) |} in
  e ← set_var e (txt "PWD") p;
  Val (Ok (), set_environment c e).

Definition add_background_job `{Profile} (c : ExecutionContext) (pid : Z) (cmd : text) :
    outcome (Z * ExecutionContext) :=
  let id := next_job_id c in
  next ← uadd 32 id 1;
  let job := {| job_id := id; job_pid := pid; job_command := cmd; job_status := JobRunning |} in
  Val (id, {| environment := environment c; context_client := context_client c;
              background_jobs := background_jobs c ++ [job]; next_job_id := next |}).

Fixpoint update_first (id : Z) (st : JobStatus) (l : list BackgroundJob) : list BackgroundJob :=
  match l with
  | [] => []
  | j :: l =>
      if job_id j =? id
      then {| job_id := job_id j; job_pid := job_pid j; job_command := job_command j; job_status := st |} :: l
      else j :: update_first id st l
  end.
Definition update_job_status (c : ExecutionContext) (id : Z) (st : JobStatus) : ExecutionContext :=
  set_jobs c (update_first id st (background_jobs c)).
Definition get_background_jobs (c : ExecutionContext) : list BackgroundJob := background_jobs c.
Definition is_completed (s : JobStatus) : bool := match s with JobCompleted _ => true | _ => false end.
Definition cleanup_completed_jobs (c : ExecutionContext) : ExecutionContext :=
  set_jobs c (filter (λ j, is_completed (job_status j) = false) (background_jobs c)).

(** [parts[0]] and [&parts[1..]] panic on an empty vector. *)
Definition split_command (s : text) : outcome (text * list text) :=
  let parts := split_whitespace s in
  c ← index parts 0;
  a ← slice parts 1 (len parts);
  Val (c, a).

Definition parse (command_line : text) : outcome (ShellResult ParsedCommand) :=
  let command_line := trim command_line in
  if is_empty command_line then Val (Err (ParseError (txt "Empty command")))
  else
    '(c, a) ← split_command command_line;
    Val (Ok {| command := c; args := a; input_redirect := None; output_redirect := None; pipe_to := None;
               background := false; conditional := None |}).

(** ** [commands.rs] *)
Definition help_text : text := join [newline] (txt <$> [
  "Available commands:";
  "help     - Show this help message";
  "echo     - Echo arguments to output";
  "ps       - List running processes";
  "ls       - List directory contents";
  "cat      - Display file contents";
  "mkdir    - Create directory";
  "rmdir    - Remove directory";
  "touch    - Create empty file";
  "rm       - Remove file";
  "pwd      - Print working directory";
  "cd       - Change directory";
  "clear    - Clear screen";
  "exit     - Exit shell";
  "shutdown - Shutdown system"]).
Definition cmd_help : ShellResult text := Ok help_text.
Definition cmd_echo (a : list text) : ShellResult text := Ok (join [blank] a).
Definition cmd_ps : ShellResult text :=
  Ok (join [newline] (txt <$> ["PID  NAME"; "1    init"; "2    fs-service"; "3    driver-manager"; "4    shell"])).
Definition cmd_ls (a : list text) : outcome (ShellResult text) :=
  p ← (if is_empty a then Val (txt ".") else index a 0);
  Val (Ok (if bool_decide (p = txt ".") || bool_decide (p = txt "/") then
             join [newline] (txt <$> ["bin/"; "dev/"; "etc/"; "home/"; "lib/"; "tmp/"; "usr/"; "var/"])
           else if bool_decide (p = txt "/bin") then join [newline] (txt <$> ["shell"; "ls"; "cat"; "echo"])
           else if bool_decide (p = txt "/dev") then
             join [newline] (txt <$> ["console"; "keyboard"; "mouse"; "storage"])
           else txt "Directory listing not available")).

(** The five commands on a file: the message around the first argument, or the
    usage. *)
Definition with_argument (a : list text) (usage before : string) : outcome (ShellResult text) :=
  if is_empty a then Val (Err (InvalidArguments (txt usage)))
  else x ← index a 0; Val (Ok (txt before ++ x ++ txt " (not implemented)")).
Definition cmd_cat (a : list text) : outcome (ShellResult text) :=
  with_argument a "Usage: cat <filename>" "Contents of ".
Definition cmd_mkdir (a : list text) : outcome (ShellResult text) :=
  with_argument a "Usage: mkdir <directory>" "Created directory: ".
Definition cmd_rmdir (a : list text) : outcome (ShellResult text) :=
  with_argument a "Usage: rmdir <directory>" "Removed directory: ".
Definition cmd_touch (a : list text) : outcome (ShellResult text) :=
  with_argument a "Usage: touch <filename>" "Created file: ".
Definition cmd_rm (a : list text) : outcome (ShellResult text) :=
  with_argument a "Usage: rm <filename>" "Removed file: ".
Definition cmd_pwd : ShellResult text := Ok (txt "/").
Definition cmd_cd (a : list text) : outcome (ShellResult text) :=
  p ← (if is_empty a then Val (txt "/") else index a 0);
  Val (Ok (txt "Changed directory to: " ++ p ++ txt " (not implemented)")).
Definition cmd_clear : ShellResult text := Ok (replicate 10 newline ++ txt "--- Screen cleared ---").
Definition cmd_exit : ShellResult text := Ok (txt "Goodbye!").
Definition cmd_shutdown : ShellResult text := Ok (txt "System shutdown requested (not implemented)").

(** The arms of [process_command], in order. *)
Definition command_arms (a : list text) : list (string * outcome (ShellResult text)) :=
  [("help", Val cmd_help); ("echo", Val (cmd_echo a)); ("ps", Val cmd_ps); ("ls", cmd_ls a);
   ("cat", cmd_cat a); ("mkdir", cmd_mkdir a); ("rmdir", cmd_rmdir a); ("touch", cmd_touch a);
   ("rm", cmd_rm a); ("pwd", Val cmd_pwd); ("cd", cmd_cd a); ("clear", Val cmd_clear);
   ("exit", Val cmd_exit); ("shutdown", Val cmd_shutdown)].
Fixpoint match_command (arms : list (string * outcome (ShellResult text))) (c : text) : outcome (ShellResult text) :=
  match arms with
  | [] => Val (Err (InvalidCommand c))
  | (nm, r) :: arms => if bool_decide (c = txt nm) then r else match_command arms c
  end.
Definition process_command (command_line : text) : outcome (ShellResult text) :=
  let command_line := trim command_line in
  if is_empty command_line then Val (Ok [])
  else
    '(c, a) ← split_command command_line;
    match_command (command_arms a) c.

(** ** [input.rs]

    The typed line is one of six canned commands; [COMMAND_INDEX] is a static. *)
Definition test_commands : list string := ["help"; "echo Hello, Kosh!"; "ps"; "ls"; "pwd"; "exit"].
Inductive SpecialKey :=
  | Backspace | Enter | Tab | ArrowUp | ArrowDown | ArrowLeft | ArrowRight | Delete | Home | End_ | CtrlC | CtrlD | CtrlZ.
(** [handle_special_key] on the input buffer. *)
Definition handle_special_key (input_buffer : list Z) (key : SpecialKey) : list Z :=
  match key with
  | Backspace => if negb (is_empty input_buffer) then removelast input_buffer else input_buffer
  | _ => input_buffer
  end.

(** ** [main.rs] and [output.rs] *)
Record KoshShell := {
  running : bool;
  input_buffer : list Z;
  COMMAND_INDEX : Z;
  display : list text;
}.
Definition shell_new (index : Z) : KoshShell :=
  {| running := true; input_buffer := []; COMMAND_INDEX := index; display := [] |}.

Section shell.
Context {P : Profile}.

Definition write_to_display (s : KoshShell) (data : text) : KoshShell :=
  if debug_assertions then
    {| running := running s; input_buffer := input_buffer s; COMMAND_INDEX := COMMAND_INDEX s;
       display := display s ++ [data] |}
  else s.
Definition print (s : KoshShell) (t : text) : KoshShell := write_to_display s t.
Definition print_line (s : KoshShell) (t : text) : KoshShell := print (print s t) [newline].
Definition clear_screen (s : KoshShell) : KoshShell := print s (replicate 20 newline).

Definition read_line (s : KoshShell) : outcome (text * KoshShell) :=
  i ← urem (COMMAND_INDEX s) (len test_commands);
  c ← index test_commands i;
  next ← uadd 64 (COMMAND_INDEX s) 1;
  Val (txt c, {| running := running s; input_buffer := []; COMMAND_INDEX := next; display := display s |}).

Definition process_shell_command (command_line : text) : outcome (ShellResult text) :=
  process_command command_line.

(** What one round prints about the result. *)
Definition report (s : KoshShell) (r : ShellResult text) : KoshShell :=
  match r with
  | Ok output => if negb (is_empty output) then print_line s output else s
  | Err error =>
      let s := print_line s (user_message error) in
      match suggest_fix error with
      | Some suggestion => print_line s (txt "Suggestion: " ++ suggestion)
      | None => s
      end
  end.
Definition stop_running (s : KoshShell) : KoshShell :=
  {| running := false; input_buffer := input_buffer s; COMMAND_INDEX := COMMAND_INDEX s; display := display s |}.

Definition shell_round (s : KoshShell) : outcome KoshShell :=
  let s := print s (txt "kosh> ") in
  '(command_line, s) ← read_line s;
  r ← process_shell_command command_line;
  let s := report s r in
  Val (if bool_decide (trim command_line = txt "exit") then stop_running s else s).

(** [run], up to the final [sys_exit(0)]. *)
Fixpoint shell_loop (fuel : nat) (s : KoshShell) : outcome KoshShell :=
  match fuel with
  | O => Fuel
  | S fuel => if running s then s ← shell_round s; shell_loop fuel s else Val s
  end.
Definition run (fuel : nat) (s : KoshShell) : outcome KoshShell :=
  let s := print_line s (txt "Kosh Shell v0.1.0") in
  let s := print_line s (txt "Type 'help' for available commands") in
  let s := print_line s (txt "Available commands: help, ls, cat, echo, ps, drivers, exit") in
  s ← shell_loop fuel s;
  Val (print_line s (txt "Shell exiting...")).
End shell.

Lemma split_command_spec s c a : split_whitespace s = c :: a → split_command s = Val (c, a).
Proof.
  intros E. unfold split_command. rewrite E. cbn [index]. unfold index. cbn.
  rewrite slice_val by (unfold len; simpl length; lia). cbn [mbind outcome_bind].
  do 2 f_equal. change (Z.to_nat 1) with 1%nat. cbn [drop]. rewrite drop_0, take_ge; [done|]. unfold len. cbn [length drop]. lia.
Qed.

(** ** The environment

    The variables are an association list; as a map, setting is insertion and
    unsetting is deletion. *)
Inductive env_op := EnvSet (k v : text) | EnvUnset (k : text).
Definition env_run_op (o : env_op) (e : Environment) : outcome Environment :=
  match o with
  | EnvSet k v => set_var e k v
  | EnvUnset k => Val (unset_var e k)
  end.
Fixpoint env_run (ops : list env_op) (e : Environment) : outcome Environment :=
  match ops with
  | [] => Val e
  | o :: ops => e ← env_run_op o e; env_run ops e
  end.
Definition env_spec (o : env_op) (m : gmap text text) : gmap text text :=
  match o with
  | EnvSet k v => <[k := v]> m
  | EnvUnset k => delete k m
  end.

Record env_rel (e : Environment) (m : gmap text text) : Prop := {
  er_keys : NoDup (variables e).*1;
  er_map : list_to_map (variables e) = m;
}.

Lemma find_assoc (l : list (text * text)) k :
  snd <$> List.find (λ kv, bool_decide (kv.1 = k)) l = (list_to_map l : gmap text text) !! k.
Proof.
  induction l as [|[k' v] l IH]; simpl; [by rewrite lookup_empty|]. case_bool_decide as E; simpl.
  - subst. by rewrite lookup_insert_eq.
  - rewrite lookup_insert_ne by done. apply IH.
Qed.

Lemma env_rel_get e m k : env_rel e m → get_var e k = m !! k.
Proof. intros [_ <-]. apply find_assoc. Qed.

Lemma position_key (l : list (text * text)) k pos : position (λ kv, bool_decide (kv.1 = k)) l = Some pos →
  ∃ v, l !! pos = Some (k, v).
Proof.
  intros (x & Hx & Hb & _)%position_Some. apply bool_decide_eq_true in Hb. destruct x as [k' v].
  simpl in Hb. subst. eauto.
Qed.

Lemma env_rel_set e m k v : env_rel e m → ∃ e', set_var e k v = Val e' ∧ env_rel e' (<[k := v]> m).
Proof.
  intros [Hnd Hm]. unfold set_var.
  destruct (position _ _) as [pos|] eqn:E.
  - destruct (position_key _ _ _ E) as [v0 Hv].
    rewrite (index_val _ _ (k, v0)) by (by rewrite Nat2Z.id). cbn [mbind outcome_bind].
    assert (pos < length (variables e))%nat as Hlt by (by eapply lookup_lt_Some).
    rewrite index_set_val by (unfold len; lia). cbn [mbind outcome_bind fst]. rewrite Nat2Z.id.
    eexists. split; [done|]. apply list_elem_of_split_length in Hv as (l1 & l2 & Hl & ->). cbn. rewrite Hl in *.
    rewrite insert_app_r_alt, Nat.sub_diag by lia. cbn. split; simpl.
    + by rewrite fmap_app, fmap_cons in *.
    + rewrite <-Hm. rewrite fmap_app, fmap_cons in Hnd. apply NoDup_app in Hnd as (_ & Hd & _).
      assert (k ∉ l1.*1) as Hk by (intros Hin; apply (Hd _ Hin); by left).
      apply map_eq. intros j. rewrite !list_to_map_app, !list_to_map_cons. destruct (decide (j = k)) as [->|Hne].
      * rewrite lookup_insert_eq, lookup_union_r by (by apply not_elem_of_list_to_map_1). by rewrite lookup_insert_eq.
      * rewrite lookup_insert_ne by done. rewrite !lookup_union, !lookup_insert_ne by done. done.
  - eexists. split; [done|]. pose proof (proj1 (position_None _ _) E) as Hnone.
    assert (k ∉ (variables e).*1) as Hk.
    { intros ([k' v'] & -> & Hin)%list_elem_of_fmap. specialize (Hnone _ Hin). by apply bool_decide_eq_false in Hnone. }
    split; simpl.
    + rewrite fmap_app. apply NoDup_app. split_and!; [done| |apply NoDup_singleton].
      intros x Hx ->%list_elem_of_singleton. done.
    + rewrite list_to_map_snoc by done. by rewrite Hm.
Qed.

(** Filtering keeps keys distinct. *)
Lemma NoDup_keys_filter {A K} (f : A → K) (Q : A → Prop) `{∀ x, Decision (Q x)} (l : list A) :
  NoDup (f <$> l) → NoDup (f <$> filter Q l).
Proof.
  induction l as [|x l IH]; [done|]. rewrite fmap_cons. intros [Hx Hl]%NoDup_cons.
  destruct (decide (Q x)); [|rewrite filter_cons_False by done; auto].
  rewrite filter_cons_True, fmap_cons by done. constructor; [|auto].
  intros (y & Hy & Hin)%list_elem_of_fmap. apply Hx. rewrite Hy. apply list_elem_of_fmap.
  exists y. split; [done|]. by apply list_elem_of_filter in Hin as [_ ?].
Qed.

Lemma env_rel_unset e m k : env_rel e m → env_rel (unset_var e k) (delete k m).
Proof.
  intros [Hnd <-]. split; simpl; [by apply NoDup_keys_filter|]. clear Hnd.
  induction (variables e) as [|[k' v] l IH]; [symmetry; apply delete_empty|]. simpl.
  destruct (decide (k' = k)) as [->|Hne].
  - rewrite filter_cons_False by (simpl; auto). by rewrite delete_insert_eq, IH.
  - rewrite filter_cons_True by done. simpl. by rewrite delete_insert_ne, IH by done.
Qed.

(** ** Background jobs

    Jobs form a map from their identifiers; identifiers are never reused. *)
Inductive job_op := JobAdd (pid : Z) (cmd : text) | JobUpdate (id : Z) (st : JobStatus) | JobCleanup.
Definition job_run_op `{Profile} (o : job_op) (c : ExecutionContext) : outcome ExecutionContext :=
  match o with
  | JobAdd pid cmd => '(_, c) ← add_background_job c pid cmd; Val c
  | JobUpdate id st => Val (update_job_status c id st)
  | JobCleanup => Val (cleanup_completed_jobs c)
  end.
Fixpoint job_run `{Profile} (ops : list job_op) (c : ExecutionContext) : outcome ExecutionContext :=
  match ops with
  | [] => Val c
  | o :: ops => c ← job_run_op o c; job_run ops c
  end.

(** The specification: the map of jobs and the next identifier. *)
Definition job_spec (o : job_op) (s : gmap Z (Z * text * JobStatus) * Z) : gmap Z (Z * text * JobStatus) * Z :=
  match o with
  | JobAdd pid cmd => (<[s.2 := (pid, cmd, JobRunning)]> s.1, s.2 + 1)
  | JobUpdate id st => (alter (λ x, (x.1, st)) id s.1, s.2)
  | JobCleanup => (filter (λ kx, is_completed kx.2.2 = false) s.1, s.2)
  end.
Definition job_entry (j : BackgroundJob) : Z * (Z * text * JobStatus) :=
  (job_id j, (job_pid j, job_command j, job_status j)).
Record job_rel (c : ExecutionContext) (s : gmap Z (Z * text * JobStatus) * Z) : Prop := {
  jr_ids : NoDup (job_id <$> background_jobs c);
  jr_map : list_to_map (job_entry <$> background_jobs c) = s.1;
  jr_next : next_job_id c = s.2;
  jr_below : Forall (λ j, 1 ≤ job_id j < s.2) (background_jobs c);
}.

Lemma update_first_ids id st l : job_id <$> update_first id st l = job_id <$> l.
Proof.
  induction l as [|j l IH]; [done|]. cbn [update_first]. zcase; [done|]. by rewrite !fmap_cons, IH.
Qed.

Lemma update_first_map id st l :
  list_to_map (job_entry <$> update_first id st l)
    = (alter (λ x, (x.1, st)) id (list_to_map (job_entry <$> l)) : gmap Z (Z * text * JobStatus)).
Proof.
  induction l as [|j l IH]; [symmetry; apply alter_empty|]. cbn [update_first]. rewrite (fmap_cons job_entry j).
  zcase; rewrite fmap_cons; unfold job_entry at 1; simpl.
  - subst. by rewrite alter_insert_eq.
  - rewrite IH. by rewrite alter_insert_ne by done.
Qed.

Lemma cleanup_map l : NoDup (job_id <$> l) →
  list_to_map (job_entry <$> filter (λ j, is_completed (job_status j) = false) l)
    = (filter (λ kx, is_completed kx.2.2 = false) (list_to_map (job_entry <$> l)) : gmap Z (Z * text * JobStatus)).
Proof.
  induction l as [|j l IH]; [symmetry; apply map_filter_empty|]. rewrite !fmap_cons. intros [Hj Hl]%NoDup_cons.
  assert ((list_to_map (job_entry <$> l) : gmap Z (Z * text * JobStatus)) !! job_id j = None) as Hn.
  { apply not_elem_of_list_to_map_1. by rewrite <-list_fmap_compose. }
  destruct (decide (is_completed (job_status j) = false)) as [E|E].
  - rewrite filter_cons_True by done. rewrite fmap_cons. unfold job_entry at 1 3. simpl.
    rewrite map_filter_insert_True by done. by rewrite IH.
  - rewrite filter_cons_False by done. unfold job_entry at 2. simpl.
    rewrite map_filter_insert_False by done. rewrite delete_id by done. by apply IH.
Qed.

Lemma job_rel_step `{Profile} o c s : job_rel c s → 1 ≤ s.2 < 2 ^ 32 - 1 →
  ∃ c', job_run_op o c = Val c' ∧ job_rel c' (job_spec o s) ∧ (job_spec o s).2 ≤ s.2 + 1 ∧ s.2 ≤ (job_spec o s).2.
Proof.
  intros [Hnd Hm Hn Hb] Hs. destruct o as [pid cmd|id st|]; cbn [job_run_op job_spec fst snd].
  - unfold add_background_job. rewrite Hn, uadd_val by lia. cbn [mbind outcome_bind]. eexists. split; [done|].
    assert (s.2 ∉ job_id <$> background_jobs c) as Hnew.
    { intros (j & Hj & Hin)%list_elem_of_fmap. rewrite Forall_forall in Hb. specialize (Hb j Hin). lia. }
    split; [|lia]. split; simpl.
    + rewrite fmap_app. apply NoDup_app. split_and!; [done| |apply NoDup_singleton].
      intros x Hx ->%list_elem_of_singleton. done.
    + rewrite fmap_app. simpl. unfold job_entry at 2. simpl. rewrite list_to_map_snoc; [by rewrite Hm|].
      by rewrite <-list_fmap_compose.
    + done.
    + apply Forall_app. split; [eapply Forall_impl; [done|]; intros j Hj; simpl in Hj; lia|].
      apply Forall_singleton. simpl. lia.
  - eexists. split; [done|]. split; [|lia]. split; simpl; try done.
    + by rewrite update_first_ids.
    + by rewrite update_first_map, Hm.
    + apply (Forall_fmap job_id (λ i, 1 ≤ i < s.2)). rewrite update_first_ids. by apply Forall_fmap.
  - eexists. split; [done|]. split; [|lia]. split; simpl; try done.
    + by apply NoDup_keys_filter.
    + rewrite cleanup_map by done. by rewrite Hm.
    + apply Forall_forall. intros j [_ Hin]%list_elem_of_filter. rewrite Forall_forall in Hb. auto.
Qed.

(** ** Properties *)
Definition plain_command (c : text) (a : list text) : ParsedCommand :=
  {| command := c; args := a; input_redirect := None; output_redirect := None; pipe_to := None;
     background := false; conditional := None |}.

(** C33: The parser splits a line into its words.  Every line is, in exactly one
    way, words separated and surrounded by white space; [parse] never panics, it
    rejects exactly the lines without a word and otherwise returns the first word
    as the command and the others as its arguments.  No word is special: [|], [>], [<]
    and [&] are arguments like any other, and there never is a pipe, a redirection or
    a background command. *)
Theorem parse_splits_words s : ∃ ws, spaced ws s ∧ (∀ ws', spaced ws' s → ws' = ws) ∧
  parse s = Val match ws with
                | [] => Err (ParseError (txt "Empty command"))
                | c :: a => Ok (plain_command c a)
                end.
Proof.
  exists (split_whitespace s). split_and!; [apply split_spaced|intros ws' H; symmetry; by apply spaced_split|].
  destruct (trim_spec s) as [Ht He]. unfold parse.
  destruct (split_whitespace s) as [|c a] eqn:E.
  - by rewrite (proj2 He eq_refl).
  - destruct (trim s) as [|x t] eqn:Etrim; [by destruct (proj1 He eq_refl)|]. cbn [is_empty].
    by rewrite (split_command_spec _ c a).
Qed.

(** The line of the design document, which means it to be a pipe. *)
Example pipe_is_an_argument : parse (txt "ls -la /home | grep user") =
  Val (Ok (plain_command (txt "ls") (txt <$> ["-la"; "/home"; "|"; "grep"; "user"]%string))).
Proof. vm_compute. reflexivity. Qed.

Definition commands : list string := (command_arms []).*1.
Definition usages : list (string * string) :=
  [("cat", "Usage: cat <filename>"); ("mkdir", "Usage: mkdir <directory>"); ("rmdir", "Usage: rmdir <directory>");
   ("touch", "Usage: touch <filename>"); ("rm", "Usage: rm <filename>")].

Lemma process_command_words s ws : spaced ws s →
  process_command s = match ws with [] => Val (Ok []) | c :: a => match_command (command_arms a) c end.
Proof.
  intros Hs%spaced_split. destruct (trim_spec s) as [Ht He]. unfold process_command. rewrite Hs in *.
  destruct ws as [|c a].
  - by rewrite (proj2 He eq_refl).
  - destruct (trim s) as [|x t] eqn:Etrim; [by destruct (proj1 He eq_refl)|]. cbn [is_empty].
    by rewrite (split_command_spec _ c a).
Qed.

Lemma txt_inj s1 s2 : txt s1 = txt s2 → s1 = s2.
Proof.
  revert s2. induction s1 as [|a s1 IH]; intros [|b s2]; simpl; try done. intros [= Ha%(inj Z.of_nat) Hs].
  apply (f_equal Ascii.ascii_of_nat) in Ha. rewrite !Ascii.ascii_nat_embedding in Ha. subst. f_equal. auto.
Qed.

(** What an arm does: a value, which is an error only for a file command without
    argument. *)
Definition arm_ok (a : list text) (nm : string) (o : outcome (ShellResult text)) : Prop :=
  ∃ r, o = Val r ∧ ∀ e, r = Err e ↔ a = [] ∧ ∃ u, (nm, u) ∈ usages ∧ e = InvalidArguments (txt u).

Lemma arm_ok_output a nm t : Forall (λ nu, nu.1 ≠ nm) usages → arm_ok a nm (Val (Ok t)).
Proof.
  intros Hu. eexists. split; [done|]. intros e. split; [done|]. intros (_ & u & Hin & _).
  rewrite Forall_forall in Hu. by destruct (Hu _ Hin).
Qed.

Lemma arm_ok_file a nm u before : (nm, u) ∈ usages → (∀ u', (nm, u') ∈ usages → u' = u) →
  arm_ok a nm (with_argument a u before).
Proof.
  intros Hin Huniq. unfold with_argument. destruct a as [|x a]; cbn [is_empty].
  - eexists. split; [done|]. intros e. split; [intros [= <-]; eauto|].
    intros (_ & u' & Hu' & ->). by rewrite (Huniq u' Hu').
  - eexists. split; [done|]. intros e. split; [done|]. by intros [? _].
Qed.

Lemma command_arms_ok a : Forall (λ no, arm_ok a no.1 no.2) (command_arms a).
Proof.
  unfold command_arms, cmd_ls, cmd_cd.
  repeat (apply Forall_cons; split); try (by apply Forall_nil); cbn [fst snd];
    try (apply arm_ok_output; by repeat constructor);
    try (apply arm_ok_file; [by apply (bool_decide_unpack _)|];
         intros u' Hu'; unfold usages in Hu'; set_solver).
  all: destruct a; apply arm_ok_output; by repeat constructor.
Qed.

Lemma match_command_spec arms c :
  ((c ∉ (txt <$> arms.*1)) ∧ match_command arms c = Val (Err (InvalidCommand c))) ∨
  ∃ nm o, (nm, o) ∈ arms ∧ c = txt nm ∧ match_command arms c = o.
Proof.
  induction arms as [|[nm o] arms [[Hc IH]|(nm' & o' & Hin & Hc & IH)]]; cbn [match_command].
  - left. split; [set_solver|done].
  - case_bool_decide; [right; exists nm, o; split_and!; [by left|done|done]|]. left. split; [|done].
    rewrite !fmap_cons. by apply not_elem_of_cons.
  - right. case_bool_decide; [exists nm, o; split_and!; [by left|done|done]|]. exists nm', o'. split_and!; [by right|done|done].
Qed.

(** The outcome of every command line.  Processing never panics; an empty
    line gives empty output; the errors are exactly [InvalidCommand] for a first
    word that is none of the fourteen commands, and [InvalidArguments] with the
    usage for one of the five file commands without argument. *)
Theorem process_command_errors s ws : spaced ws s → ∃ r, process_command s = Val r ∧
  (ws = [] → r = Ok []) ∧
  ∀ e, r = Err e ↔ ∃ c a, ws = c :: a ∧
    (((c ∉ (txt <$> commands)) ∧ e = InvalidCommand c) ∨
     (a = [] ∧ ∃ nm u, (nm, u) ∈ usages ∧ c = txt nm ∧ e = InvalidArguments (txt u))).
Proof.
  intros Hs. rewrite (process_command_words s ws Hs). destruct ws as [|c a].
  { eexists. split_and!; [done|done|]. intros e. split; [done|]. by intros (? & ? & ? & _). }
  assert ((command_arms a).*1 = commands) as Hk by done.
  destruct (match_command_spec (command_arms a) c) as [[Hc ->]|(nm & o & Hin & -> & ->)].
  - rewrite Hk in Hc. eexists. split_and!; [done|done|]. intros e. split; [intros [= <-]; eauto 10|].
    intros (c' & a' & [= <- <-] & [[_ ->]|(-> & nm & u & Hin & -> & ->)]); [done|]. exfalso.
    apply Hc. apply list_elem_of_fmap_2. revert Hin. unfold usages, commands. simpl. set_solver.
  - pose proof (command_arms_ok a) as Hok. rewrite Forall_forall in Hok. destruct (Hok _ Hin) as (r & Hr & He).
    simpl in Hr. subst. eexists. split_and!; [done|done|]. intros e. rewrite He. split.
    + intros (-> & u & Hu & ->). eexists _, _. split; [done|]. right. eauto 10.
    + intros (c' & a' & [= <- <-] & [[Hc _]|(-> & nm' & u & Hu & ->%txt_inj & ->)]); [|eauto].
      destruct Hc. apply list_elem_of_fmap_2. rewrite <-Hk. by apply (list_elem_of_fmap_2 fst _ (nm, Val r)).
Qed.

(** [echo] prints its arguments with single blanks between them. *)
Lemma echo_normalises s ws : spaced (txt "echo" :: ws) s → process_command s = Val (Ok (join [blank] ws)).
Proof. intros Hs. rewrite (process_command_words _ _ Hs). done. Qed.

(** The environment is a map.  After any history of settings and removals,
    which never panics, the names are distinct, reading a variable gives its latest
    value or nothing if it was removed or never set, and the working directory and
    the path are untouched. *)
Theorem environment_refines_map ops e m : env_rel e m →
  ∃ e', env_run ops e = Val e' ∧ env_rel e' (foldl (λ m o, env_spec o m) m ops) ∧
    working_directory e' = working_directory e ∧ path e' = path e ∧
    ∀ k, get_var e' k = foldl (λ m o, env_spec o m) m ops !! k.
Proof.
  revert e m. induction ops as [|o ops IH]; intros e m Hr.
  { exists e. split_and!; [done..|]. intros k. by apply env_rel_get. }
  assert (∃ e', env_run_op o e = Val e' ∧ env_rel e' (env_spec o m) ∧ working_directory e' = working_directory e ∧
    path e' = path e) as (e1 & H1 & Hr1 & Hw & Hp).
  { destruct o as [k v|k]; [|eexists; split_and!; [done|by apply env_rel_unset|done|done]].
    destruct (env_rel_set e m k v Hr) as (e1 & H1 & Hr1). exists e1. split_and!; [done|done|..];
      unfold env_run_op, set_var in H1; case_match; inv_val; done. }
  destruct (IH e1 _ Hr1) as (e2 & H2 & Hr2 & Hw2 & Hp2 & Hg). exists e2. cbn [env_run]. rewrite H1.
  cbn [mbind outcome_bind foldl]. split_and!; [done|done|congruence|congruence|done].
Qed.

(** Background jobs.  Any history of adding, updating and cleaning up jobs
    keeps the list a map from distinct identifiers: adding gives the job the next
    identifier, which no other job has or had, an update changes the status of that
    job only, and a cleanup removes exactly the completed ones.  (Fewer than 2^32
    jobs are ever added.) *)
Theorem jobs_refine_map `{Profile} ops c s : job_rel c s → 1 ≤ s.2 → s.2 + len ops < 2 ^ 32 - 1 →
  ∃ c', job_run ops c = Val c' ∧ job_rel c' (foldl (λ s o, job_spec o s) s ops).
Proof.
  revert c s. induction ops as [|o ops IH]; intros c s Hr H1 Hn; [by exists c|].
  unfold len in *. cbn [length] in Hn.
  destruct (job_rel_step o c s Hr) as (c1 & Hc1 & Hr1 & Hle & Hge); [lia|].
  destruct (IH c1 _ Hr1) as (c2 & Hc2 & Hr2); [lia|lia|]. exists c2. cbn [job_run]. rewrite Hc1.
  by cbn [mbind outcome_bind].
Qed.

Section session.
Context {P : Profile}.

Lemma display_fields s t :
  running (print s t) = running s ∧ COMMAND_INDEX (print s t) = COMMAND_INDEX s.
Proof. unfold print, write_to_display. by destruct debug_assertions. Qed.
Lemma display_line_fields s t :
  running (print_line s t) = running s ∧ COMMAND_INDEX (print_line s t) = COMMAND_INDEX s.
Proof.
  unfold print_line. destruct (display_fields (print s t) [newline]) as [-> ->]. apply display_fields.
Qed.
Lemma report_fields s r : running (report s r) = running s ∧ COMMAND_INDEX (report s r) = COMMAND_INDEX s.
Proof.
  unfold report. destruct r as [o|e].
  - destruct (negb _); [apply display_line_fields|done].
  - destruct (suggest_fix e) as [t|]; [|apply display_line_fields].
    destruct (display_line_fields (print_line s (user_message e)) (txt "Suggestion: " ++ t)) as [-> ->].
    apply display_line_fields.
Qed.

(** Each canned command is processed, and only the last one ends the loop. *)
Lemma canned_commands i : 0 ≤ i < 6 → ∃ c r, index test_commands i = Val c ∧ process_command (txt c) = Val r ∧
  bool_decide (trim (txt c) = txt "exit") = (i =? 5).
Proof.
  intros Hi. assert (i = 0 ∨ i = 1 ∨ i = 2 ∨ i = 3 ∨ i = 4 ∨ i = 5) as H by lia.
  destruct_or! H; subst; (eexists _, _; split; [reflexivity|]; split; [vm_compute; reflexivity|vm_compute; reflexivity]).
Qed.

Lemma shell_round_spec s : 0 ≤ COMMAND_INDEX s < 2 ^ 64 - 1 → ∃ s', shell_round s = Val s' ∧
  COMMAND_INDEX s' = COMMAND_INDEX s + 1 ∧
  running s' = (if COMMAND_INDEX s mod 6 =? 5 then false else running s).
Proof.
  intros Hi. unfold shell_round, read_line. destruct (display_fields s (txt "kosh> ")) as [Hr Hc]. rewrite Hr, Hc.
  change (len test_commands) with 6. rewrite urem_val by done. cbn [mbind outcome_bind].
  destruct (canned_commands (COMMAND_INDEX s mod 6)) as (c & r & -> & Hp & Hx); [apply Z.mod_pos_bound; lia|].
  cbn [mbind outcome_bind]. rewrite uadd_val by lia. cbn [mbind outcome_bind].
  unfold process_shell_command. rewrite Hp. cbn [mbind outcome_bind]. rewrite Hx.
  match goal with |- context [report ?x r] => destruct (report_fields x r) as [Hr2 Hc2] end.
  destruct (_ =? 5); eexists; (split; [done|]); simpl; rewrite ?Hr2, ?Hc2; done.
Qed.

Lemma shell_loop_ends k : ∀ s fuel, (k < fuel)%nat → running s = true →
  0 ≤ COMMAND_INDEX s → COMMAND_INDEX s + Z.of_nat k < 2 ^ 64 → Z.of_nat k = 6 - COMMAND_INDEX s mod 6 →
  ∃ s', shell_loop fuel s = Val s' ∧ running s' = false ∧ COMMAND_INDEX s' = COMMAND_INDEX s + Z.of_nat k.
Proof.
  induction k as [|k IH]; intros s fuel Hf Hr Hi Hlt Hk.
  { pose proof (Z.mod_pos_bound (COMMAND_INDEX s) 6). lia. }
  destruct fuel as [|fuel]; [lia|]. cbn [shell_loop]. rewrite Hr.
  destruct (shell_round_spec s) as (s1 & -> & Hi1 & Hr1); [lia|]. cbn [mbind outcome_bind].
  destruct (Z.eqb_spec (COMMAND_INDEX s mod 6) 5) as [E|E].
  - exists s1. destruct fuel; [lia|]. cbn [shell_loop]. rewrite Hr1. split_and!; [done|done|]. lia.
  - destruct (IH s1 fuel) as (s2 & H2 & Hr2 & Hi2); [lia|congruence|lia|lia| |].
    + rewrite Hi1. divlia.
    + exists s2. split_and!; [done|done|lia].
Qed.

(** A session ends.  Whatever the static command index is (below overflow),
    the shell reads canned commands up to the next [exit], at most six, stops, and
    leaves the index at a multiple of six, so that the next session starts with
    [help]. *)
Theorem session_ends k fuel : 0 ≤ k < 2 ^ 64 - 6 → (7 ≤ fuel)%nat →
  ∃ s, run fuel (shell_new k) = Val s ∧ running s = false ∧ COMMAND_INDEX s = 6 * (k / 6 + 1).
Proof.
  intros Hk Hf. unfold run. set (s0 := print_line _ _).
  assert (running s0 = true ∧ COMMAND_INDEX s0 = k) as [Hr Hi].
  { unfold s0. rewrite !(proj1 (display_line_fields _ _)), !(proj2 (display_line_fields _ _)). done. }
  destruct (shell_loop_ends (Z.to_nat (6 - k mod 6)) s0 fuel) as (s & Hs & Hrs & His);
    [pose proof (Z.mod_pos_bound k 6); lia|done|lia|rewrite Hi; divlia|rewrite Hi; divlia|].
  rewrite Hs. cbn [mbind outcome_bind]. eexists. split; [done|].
  destruct (display_line_fields s (txt "Shell exiting...")) as [-> ->]. split; [done|]. rewrite His, Hi. divlia.
Qed.
End session.

(** ** Concrete instances *)

(** [exit] with an argument says goodbye and goes on. *)
Example exit_with_argument :
  process_command (txt "exit now") = Val (Ok (txt "Goodbye!")) ∧ bool_decide (trim (txt "exit now") = txt "exit") = false.
Proof. vm_compute. done. Qed.

(** The welcome text offers [drivers], which is no command. *)
Example drivers_is_no_command :
  process_command (txt "drivers") = Val (Err (InvalidCommand (txt "drivers"))).
Proof. vm_compute. reflexivity. Qed.

(** What the display shows of a whole session. *)
Example session_display :
  (λ s, flat_map id (display s)) <$> run (P:=dev) 7 (shell_new 0)
  = Val (join [newline]
      [txt "Kosh Shell v0.1.0"; txt "Type 'help' for available commands";
       txt "Available commands: help, ls, cat, echo, ps, drivers, exit";
       txt "kosh> " ++ help_text; txt "kosh> Hello, Kosh!";
       txt "kosh> PID  NAME"; txt "1    init"; txt "2    fs-service"; txt "3    driver-manager"; txt "4    shell";
       txt "kosh> bin/"; txt "dev/"; txt "etc/"; txt "home/"; txt "lib/"; txt "tmp/"; txt "usr/"; txt "var/";
       txt "kosh> /"; txt "kosh> Goodbye!"; txt "Shell exiting..."; []]).
Proof. vm_compute. reflexivity. Qed.

Lemma process_command_errors_witness : ∃ r, process_command (txt "  cat ") = Val r ∧
  r = Err (InvalidArguments (txt "Usage: cat <filename>")).
Proof.
  destruct (process_command_errors (txt "  cat ") [txt "cat"]) as (r & Hr & _ & He).
  - apply (spaced_cons (txt "  ") (txt "cat") [] (txt " ")); [by repeat constructor|split; [done|by repeat constructor]|done|].
    by repeat constructor.
  - exists r. split; [exact Hr|]. apply He. exists (txt "cat"), []. split; [done|]. right. split; [done|].
    exists "cat", "Usage: cat <filename>". split_and!; [by left|done|done].
Defined.

Lemma environment_refines_map_witness :
  ∃ e, env_run [EnvSet (txt "A") (txt "1"); EnvSet (txt "B") (txt "2"); EnvSet (txt "A") (txt "3"); EnvUnset (txt "B")]
      environment_new = Val e ∧ get_var e (txt "A") = Some (txt "3") ∧ get_var e (txt "B") = None.
Proof.
  destruct (environment_refines_map
    [EnvSet (txt "A") (txt "1"); EnvSet (txt "B") (txt "2"); EnvSet (txt "A") (txt "3"); EnvUnset (txt "B")]
    environment_new ∅) as (e & He & _ & _ & _ & Hg); [split; [constructor|done]|].
  exists e. split_and!; [exact He|rewrite Hg; vm_compute; reflexivity..].
Defined.

Lemma jobs_refine_map_witness :
  ∃ c, job_run (H:=dev) [JobAdd 7 (txt "sleep"); JobAdd 8 (txt "ls"); JobUpdate 2 (JobCompleted 0); JobCleanup]
      context_new = Val c ∧ next_job_id c = 3.
Proof.
  destruct (jobs_refine_map (H:=dev)
    [JobAdd 7 (txt "sleep"); JobAdd 8 (txt "ls"); JobUpdate 2 (JobCompleted 0); JobCleanup] context_new (∅, 1))
    as (c & Hc & Hr); [split; [constructor|done|done|constructor]|simpl; lia|unfold len; simpl; lia|].
  exists c. split; [exact Hc|]. rewrite (jr_next _ _ Hr). reflexivity.
Defined.

Lemma session_ends_witness :
  ∃ s, run (P:=dev) 7 (shell_new 3) = Val s ∧ running s = false ∧ COMMAND_INDEX s = 6.
Proof. apply (session_ends (P:=dev) 3 7); lia. Defined.
