(* ===== verification/Processes.v ===== *)
(** * User processes

    The entry points of the service and shell processes:
    [userspace/fs-service/src/main.rs], [userspace/driver-manager/src/main.rs] and
    [userspace/shell/src/main.rs], as programs over the [syscall] instruction of
    [Init], and the process of the keyboard driver
    ([drivers/keyboard/src/main.rs]).  The heaps the processes set up
    first belong to the [linked_list_allocator] crate and are left out, as are the
    panic handlers. *)
From S2P Require Import Prelude Capability Process Ipc Syscall DriverKit Keyboard Text Service FileSystem Ext4 Vfs.
From S2P Require Import DriverManager Shell Init.
Local Open Scope kosh_scope.

(** ** Processes *)
Section processes.
Context {P : Profile} {S : Type} `{SyscallInstruction S}.

(** The call is compiled into debug builds only. *)
Definition debug_print (message : string) : prog S unit := λ s,
  if debug_assertions
  then '(_, _, s) ← syscall s 100 [str_addr message; Z.of_nat (String.length message)]; Val (Alive (), s)
  else Val (Alive (), s).

(** [_start] of a service with handler [fresh], through the first [rounds] rounds of
    its endless loop; [yield_cpu] only spins. *)
Section service.
Context {T : Type} `{ServiceHandler T}.

Definition serve_round (failing : string) (r : ServiceRunner (T:=T)) : prog S unit :=
  match run_once r with
  | Err _ => debug_print failing
  | Ok _ => mret ()
  end.
Fixpoint serve_rounds (rounds : nat) (failing : string) (r : ServiceRunner (T:=T)) : prog S (ServiceRunner (T:=T)) :=
  match rounds with
  | O => mret r
  | Datatypes.S rounds => _ ← serve_round failing r; serve_rounds rounds failing r
  end.
Definition service_process (starting failed started failing : string) (fresh : T) (rounds : nat) :
    prog S (ServiceRunner (T:=T)) :=
  _ ← debug_print starting;
  '(o, r) ← lift (Service.start (runner_new fresh));
  match o with
  | Err _ => _ ← debug_print failed; sys_exit 1
  | Ok _ => _ ← debug_print started; serve_rounds rounds failing r
  end.
End service.

Definition line (s : string) : string := s +:+ String (Ascii.ascii_of_nat 10) EmptyString.
Definition fs_process : nat → prog S (ServiceRunner (T:=FileSystemService)) :=
  service_process (line "FS Service: Starting file system service")
    (line "FS Service: Failed to start service") (line "FS Service: Service started, entering main loop")
    (line "FS Service: Error processing request") fs_service_new.
Definition driver_manager_process : nat → prog S (ServiceRunner (T:=DriverManager)) :=
  service_process (line "Driver Manager: Starting driver manager service")
    (line "Driver Manager: Failed to start service") (line "Driver Manager: Service started, entering main loop")
    (line "Driver Manager: Error processing request") manager_new.

(** The shell; [index] is the static index of the canned commands. *)
Definition shell_process (fuel : nat) (index : Z) : prog S unit :=
  _ ← debug_print (line "Shell: Starting Kosh shell");
  _ ← lift (Shell.run fuel (shell_new index));
  sys_exit 0.
End processes.

(** The driver process registers the driver, or panics, and halts until the next
    interrupt, which runs [keyboard_irq_handler]. *)
Definition keyboard_irq_handler := keyboard_interrupt_handler.
Definition keyboard_process `{Profile} (interrupts : nat) (g : option PS2KeyboardDriver) :
    outcome (option PS2KeyboardDriver) :=
  '(r, g) ← register_keyboard_driver g;
  match r with
  | Ok _ => for_each (λ _ g, keyboard_irq_handler g) (replicate interrupts ()) g
  | Err _ => Panic
  end.

(** ** The processes on the kernel *)
Lemma fs_starts `{Profile} : ∃ v, sh_initialize fs_service_new = Val (Ok (), {| vfs := v |}) ∧
  get_mount_points v = [root_mount false].
Proof. destruct H; eexists; split; vm_compute; reflexivity. Qed.
Lemma driver_manager_starts `{Profile} : ∃ m, sh_initialize manager_new = Val (Ok (), m) ∧
  (λ i, (i, get_driver_status (registry m) i)) <$> list_drivers (registry m) =
    [(1, Some Loading); (2, Some Loading); (3, Some Loading)].
Proof. destruct H; eexists; split; vm_compute; reflexivity. Qed.
Lemma shell_run_ends `{Profile} k fuel : 0 ≤ k < 2 ^ 64 - 6 → (7 ≤ fuel)%nat → ∃ s, Shell.run fuel (shell_new k) = Val s.
Proof. intros Hk Hf. destruct (session_ends k fuel Hk Hf) as (s & Hs & _). eauto. Qed.

Section on_kernel.
Context {P : Profile} {L : Layout}.
Context (marshal : list Z → Args) (rdx_after : IpcState → Z) (addr_str : string → Z) (addr_args : list string → Z).
#[local] Instance kernel : SyscallInstruction IpcState := kernel_calls marshal rdx_after addr_str addr_args.

(** Neither call has an effect on the kernel. *)
Lemma print_dispatch st a : debug_assertions = true → ∃ r, dispatch_syscall st 1 100 a = Val (r, st).
Proof.
  intros HD. unfold dispatch_syscall, validate_syscall_args, is_valid_syscall_number, MAX_SYSCALL_NUMBER, validate_arms,
    dispatch_arms, cfg_debug. rewrite HD. eexists. reflexivity.
Qed.
Lemma exit_dispatch st a : ∃ r, dispatch_syscall st 1 1 a = Val (r, st).
Proof.
  unfold dispatch_syscall, validate_syscall_args, is_valid_syscall_number, MAX_SYSCALL_NUMBER.
  destruct debug_assertions; eexists; reflexivity.
Qed.
Lemma kernel_print m st : debug_print m st = Val (Alive (), st).
Proof.
  unfold debug_print. destruct debug_assertions eqn:HD; [|done]. cbn [syscall kernel kernel_calls]. unfold syscall_entry.
  edestruct (print_dispatch st) as [r ->]; [done|]. by destruct r.
Qed.
Lemma kernel_exit {A} code st : sys_exit code (A := A) st = Val (Exited code, st).
Proof.
  unfold sys_exit. cbn [syscall kernel kernel_calls]. unfold syscall_entry.
  edestruct (exit_dispatch st) as [r ->]. by destruct r.
Qed.

Section service.
Context {T : Type} `{ServiceHandler T}.
Implicit Types (fresh h : T) (r : ServiceRunner (T:=T)).

Lemma serve_rounds_idle n failing r st : Service.running r = true → serve_rounds n failing r st = Val (Alive r, st).
Proof.
  intros Hr. induction n as [|n IH]; [done|]. cbn [serve_rounds]. erewrite bind_alive; [exact IH|].
  unfold serve_round, run_once. by rewrite Hr.
Qed.

(** A service process follows its handler's start-up: it ends with status 1 if the
    handler does not initialise, and otherwise stays alive through any number of rounds,
    with its handler as initialisation left it and the kernel untouched. *)
Lemma service_process_spec t1 t2 t3 t4 fresh n st o h : sh_initialize fresh = Val (o, h) →
  service_process t1 t2 t3 t4 fresh n st =
    match o with
    | Ok _ => Val (Alive {| handler := h; Service.running := true |}, st)
    | Err _ => Val (Exited 1, st)
    end.
Proof.
  intros Hi. unfold service_process. rewrite (bind_alive _ _ _ _ _ (kernel_print t1 st)).
  assert (lift (Service.start (runner_new fresh)) st =
    Val (Alive (match o with
                | Ok _ => (Ok (), {| handler := h; Service.running := true |})
                | Err e => (Err e, {| handler := h; Service.running := false |})
                end), st)) as Hs.
  { unfold lift, Service.start. cbn [handler runner_new]. rewrite Hi. by destruct o. }
  rewrite (bind_alive _ _ _ _ _ Hs). destruct o as [[]|e].
  - rewrite (bind_alive _ _ _ _ _ (kernel_print t3 st)). by apply serve_rounds_idle.
  - rewrite (bind_alive _ _ _ _ _ (kernel_print t2 st)). apply kernel_exit.
Qed.
End service.

(** C40: User processes on the kernel.  The file service starts with the root file system
    mounted and the driver manager with its three drivers still loading, and from then
    on they do nothing: through any number of rounds they stay alive, their state and
    the kernel's stay as they were, and so every message sent to them is still pending.
    The shell runs its canned session and exits with status 0. *)
Theorem user_processes_on_kernel st pid rounds k fuel : 0 ≤ k < 2 ^ 64 - 6 → (7 ≤ fuel)%nat →
  ∃ v m st1 st2 st3,
    fs_process rounds st = Val (Alive {| handler := {| vfs := v |}; Service.running := true |}, st1) ∧
    get_mount_points v = [root_mount false] ∧
    driver_manager_process rounds st = Val (Alive {| handler := m; Service.running := true |}, st2) ∧
    (λ i, (i, get_driver_status (registry m) i)) <$> list_drivers (registry m) =
      [(1, Some Loading); (2, Some Loading); (3, Some Loading)] ∧
    shell_process fuel k st = Val (Exited 0, st3) ∧
    Forall (λ st', st' = st ∧ pending st' pid = pending st pid) [st1; st2; st3].
Proof.
  intros Hk Hf.
  destruct fs_starts as (v & Hv & Hmv), driver_manager_starts as (m & Hm & Hl).
  exists v, m, st, st, st. split_and!; [|done| |done| |by repeat constructor].
  - unfold fs_process. rewrite (service_process_spec _ _ _ _ _ _ _ _ _ Hv). done.
  - unfold driver_manager_process. rewrite (service_process_spec _ _ _ _ _ _ _ _ _ Hm). done.
  - unfold shell_process. rewrite (bind_alive _ _ _ _ _ (kernel_print _ st)).
    destruct (shell_run_ends k fuel Hk Hf) as [s Hs]. erewrite bind_alive; [apply kernel_exit|].
    unfold lift. rewrite Hs. reflexivity.
Qed.
End on_kernel.

Lemma user_processes_on_kernel_witness :
  ∃ st3, shell_process (P := dev) (H := demo_calls) 7 3 demo_kernel = Val (Exited 0, st3) ∧ st3 = demo_kernel.
Proof.
  destruct (user_processes_on_kernel (P := dev) (L := demo_layout)
    (λ l, demo_args (default 0 (l !! 0%nat)) (default 0 (l !! 1%nat)) 0) (λ _, 0) (λ _, 0) (λ _, 0)
    demo_kernel 2 5 3 7 ltac:(lia) ltac:(lia)) as (v & m & st1 & st2 & st3 & _ & _ & _ & _ & Hs & HF).
  exists st3. split; [exact Hs|]. inversion_clear HF as [|? ? _ HF1]. inversion_clear HF1 as [|? ? _ HF2].
  inversion_clear HF2 as [|? ? [Heq _] _]. exact Heq.
Defined.

(** The keyboard's process always gets its driver; its interrupts are the driver's. *)
Lemma keyboard_process_registers `{Profile} g : keyboard_process 0 g = Val (Some (Keyboard.set_status Keyboard.new Ready)).
Proof. destruct H; reflexivity. Qed.
