(* ===== verification/Display.v ===== *)
(** * Texts of the kernel's values

    The [Display] implementations of [kernel/src/ipc/capability.rs],
    [kernel/src/ipc/message.rs], [kernel/src/platform/mod.rs] and
    [kernel/src/power/mod.rs], which the log and the error reports use. *)
From stdpp Require Import strings pretty.
From S2P Require Import Prelude Platform Power Capability Process Ipc.
Local Open Scope string_scope.

Definition capability_type_text (t : CapabilityType) : string :=
  match t with
  | Read => "Read" | Write => "Write" | Execute => "Execute" | Create => "Create" | Delete => "Delete"
  | SendMessage => "SendMessage" | ReceiveMessage => "ReceiveMessage" | SystemCall => "SystemCall"
  | DeviceAccess => "DeviceAccess" | MemoryManagement => "MemoryManagement"
  | ProcessManagement => "ProcessManagement" | FileSystem => "FileSystem" | Network => "Network"
  | Admin => "Admin"
  end.
Definition resource_text (r : ResourceId) : string :=
  match r with
  | AnyResource => "*"
  | ProcessResource pid => "process:" +:+ pretty pid
  | DeviceResource name => "device:" +:+ name
  | FileResource path => "file:" +:+ path
  | NetworkResource endpoint => "network:" +:+ endpoint
  | SystemResource name => "system:" +:+ name
  end.
Definition capability_text (c : Capability) : string :=
  "Cap[" +:+ pretty (cap_id c) +:+ "] " +:+ capability_type_text (capability_type c) +:+ " on " +:+
  resource_text (cap_resource c) +:+ " (owner: " +:+ pretty (cap_owner c) +:+ ")".
Definition capability_error_text (e : CapabilityError) : string :=
  match e with
  | CapabilityNotFound => "Capability not found"
  | PermissionDenied => "Permission denied"
  | CapabilityExpired => "Capability has expired"
  | NotDelegatable => "Capability cannot be delegated"
  | InvalidCapability => "Invalid capability"
  | ResourceExhausted => "System resource exhausted"
  end.

(** [{:?}] of a message type is its name. *)
Definition message_type_text (t : MessageType) : string :=
  match t with
  | SystemCallMsg => "SystemCall" | DriverRequest => "DriverRequest" | ServiceRequest => "ServiceRequest"
  | Signal => "Signal" | Response => "Response" | ErrorMsg => "Error"
  end.
Definition message_text (m : Message) : string :=
  "Message[" +:+ pretty (message_id (header m)) +:+ "] " +:+ pretty (sender (header m)) +:+ " -> " +:+
  pretty (receiver (header m)) +:+ " (" +:+ message_type_text (message_type (header m)) +:+ ")".
Definition message_error_text (e : MessageError) : string :=
  match e with
  | InvalidMessage => "Invalid message"
  | SenderNotFound => "Sender process not found"
  | ReceiverNotFound => "Receiver process not found"
  | QueueFull => "Message queue is full"
  | NoMessage => "No message available"
  | MsgPermissionDenied => "Permission denied"
  | MessageTooLarge => "Message too large"
  | Timeout => "Timeout waiting for message"
  | MsgResourceExhausted => "System resource exhausted"
  end.
Definition platform_error_text (e : PlatformError) : string :=
  match e with
  | InvalidAddress => "Invalid address"
  | InvalidPageFlags => "Invalid page flags"
  | MmuNotSupported => "MMU not supported"
  | InterruptSetupFailed => "Interrupt setup failed"
  | CacheOperationFailed => "Cache operation failed"
  | UnsupportedOperation => "Unsupported operation"
  | Platform.HardwareError => "Hardware error"
  end.
Definition power_error_text (e : PowerError) : string :=
  match e with
  | NotSupported => "Power management feature not supported"
  | InvalidTransition => "Invalid power state transition"
  | BatteryUnavailable => "Battery information unavailable"
  | FrequencyScalingUnavailable => "CPU frequency scaling unavailable"
  | PowerPermissionDenied => "Permission denied for power management operation"
  | Power.HardwareError => "Hardware error in power management"
  end.

(** ** The texts tell the values apart *)
#[export] Instance capability_type_text_inj : Inj (=) (=) capability_type_text.
Proof. intros [] [] E; first [done|discriminate E]. Qed.
#[export] Instance message_error_text_inj : Inj (=) (=) message_error_text.
Proof. intros [] [] E; first [done|discriminate E]. Qed.
#[export] Instance platform_error_text_inj : Inj (=) (=) platform_error_text.
Proof. intros [] [] E; first [done|discriminate E]. Qed.
#[export] Instance power_error_text_inj : Inj (=) (=) power_error_text.
Proof. intros [] [] E; first [done|discriminate E]. Qed.
#[export] Instance capability_error_text_inj : Inj (=) (=) capability_error_text.
Proof. intros [] [] E; first [done|discriminate E]. Qed.
#[export] Instance resource_text_inj : Inj (=) (=) resource_text.
Proof.
  intros [|p|d|f|n|s] [|p'|d'|f'|n'|s'] E; cbn [resource_text String.append] in E; try discriminate E; try done;
    injection E as E; f_equal; first [exact E|exact (inj pretty _ _ E)].
Qed.
