(* ===== verification/Harness.v ===== *)
(** * The test harness

    Models [kernel/src/test_harness.rs]: the runner that groups the registered kernel
    tests by category and counts their results.  A test works on the kernel's globals,
    here a state of type [S], and may panic. *)
From S2P Require Import Prelude Float.
Local Open Scope kosh_scope.

Inductive TestResult := Pass | Fail_ | Skip.
#[export] Instance TestResult_eq_dec : EqDecision TestResult.
Proof. solve_decision. Defined.
Inductive TestCategory := TMemory | TScheduler | TIpc | TDriverFramework | TSystemCall | TProcess | TCore.
#[export] Instance TestCategory_eq_dec : EqDecision TestCategory.
Proof. solve_decision. Defined.
Definition result_name (r : TestResult) : string :=
  match r with Pass => "PASS" | Fail_ => "FAIL" | Skip => "SKIP" end.
Definition category_name (c : TestCategory) : string :=
  match c with
  | TMemory => "Memory" | TScheduler => "Scheduler" | TIpc => "IPC" | TDriverFramework => "Driver"
  | TSystemCall => "SysCall" | TProcess => "Process" | TCore => "Core"
  end.

Record TestStats := { total : Z; passed : Z; failed : Z; skipped : Z }.
Definition stats_default : TestStats := {| total := 0; passed := 0; failed := 0; skipped := 0 |}.
Definition success_rate (s : TestStats) : f32 :=
  if total s =? 0 then f32_of_int 0
  else f32_mul (f32_div (f32_of_int (passed s)) (f32_of_int (total s))) (f32_of_int 100).

Section harness.
Context {P : Profile} {S : Type}.

Record TestCase := {
  test_name : string;
  test_fn : S → outcome (TestResult * S);
  category : TestCategory;
}.
Record KernelTestRunner := { tests : list TestCase; stats : TestStats }.
Definition runner_new : KernelTestRunner := {| tests := []; stats := stats_default |}.
Definition register_test (r : KernelTestRunner) (t : TestCase) : KernelTestRunner :=
  {| tests := tests r ++ [t]; stats := stats r |}.

(** The arm of the result: one counter goes up. *)
Definition count_result (r : TestResult) (st : TestStats) : outcome TestStats :=
  match r with
  | Pass => n ← uadd 64 (passed st) 1;
            Val {| total := total st; passed := n; failed := failed st; skipped := skipped st |}
  | Fail_ => n ← uadd 64 (failed st) 1;
             Val {| total := total st; passed := passed st; failed := n; skipped := skipped st |}
  | Skip => n ← uadd 64 (skipped st) 1;
            Val {| total := total st; passed := passed st; failed := failed st; skipped := n |}
  end.
Definition run_test (t : TestCase) (w : TestStats * S) : outcome (TestStats * S) :=
  let '(st, s) := w in
  '(r, s) ← test_fn t s;
  st ← count_result r st;
  Val (st, s).
Definition in_category (ts : list TestCase) (c : TestCategory) : list TestCase :=
  List.filter (λ t, bool_decide (category t = c)) ts.
Definition run_category_tests (ts : list TestCase) (c : TestCategory) (w : TestStats * S) :
    outcome (TestStats * S) :=
  for_each run_test (in_category ts c) w.

(** The categories in the order they first appear. *)
Definition add_category (cs : list TestCategory) (t : TestCase) : list TestCategory :=
  if bool_decide (category t ∈ cs) then cs else cs ++ [category t].
Definition categories (ts : list TestCase) : list TestCategory := foldl add_category [] ts.

Definition run_all_tests (r : KernelTestRunner) (s : S) : outcome (KernelTestRunner * S) :=
  let st := {| total := len (tests r); passed := 0; failed := 0; skipped := 0 |} in
  '(st, s) ← for_each (run_category_tests (tests r)) (categories (tests r)) (st, s);
  Val ({| tests := tests r; stats := st |}, s).

(** ** Reference: the tests one after the other *)
Fixpoint run_list (ts : list TestCase) (s : S) : outcome (list TestResult * S) :=
  match ts with
  | [] => Val ([], s)
  | t :: ts => '(r, s) ← test_fn t s; '(rs, s) ← run_list ts s; Val (r :: rs, s)
  end.
Definition run_order (ts : list TestCase) : list TestCase := concat (in_category ts <$> categories ts).
Definition count_of (x : TestResult) (rs : list TestResult) : Z :=
  len (List.filter (λ r, bool_decide (r = x)) rs).
Definition tally (n : Z) (rs : list TestResult) : TestStats :=
  {| total := n; passed := count_of Pass rs; failed := count_of Fail_ rs; skipped := count_of Skip rs |}.

(** ** Theorems *)
Lemma for_each_nested {X Y W} (body : Y → W → outcome W) (f : X → list Y) l w :
  for_each (λ x, for_each body (f x)) l w = for_each body (concat (f <$> l)) w.
Proof.
  revert w. induction l as [|x l IH]; intros w; [done|]. cbn [for_each fmap list_fmap concat]. rewrite for_each_app.
  destruct (for_each body (f x) w); cbn [mbind outcome_bind]; [|done..]. apply IH.
Qed.

Lemma categories_from ts cs : NoDup cs →
  NoDup (foldl add_category cs ts) ∧ ∀ c, c ∈ foldl add_category cs ts ↔ c ∈ cs ∨ ∃ t, t ∈ ts ∧ category t = c.
Proof.
  revert cs. induction ts as [|t ts IH]; intros cs Hn; cbn [foldl].
  { split; [done|]. intros c. split; [by left|]. intros [?|(t & Ht & _)]; [done|by apply not_elem_of_nil in Ht]. }
  unfold add_category at 2 4. case_bool_decide as Hin.
  - destruct (IH cs Hn) as [Hn' He]. split; [done|]. intros c. rewrite He. set_solver.
  - destruct (IH (cs ++ [category t])) as [Hn' He].
    { apply NoDup_app. split_and!; [done|set_solver|apply NoDup_singleton]. }
    split; [done|]. intros c. rewrite He. set_solver.
Qed.

Lemma filter_or_Permutation {A} (p q : A → bool) l : (∀ x, p x = true → q x = false) →
  List.filter p l ++ List.filter q l ≡ₚ List.filter (λ x, p x || q x) l.
Proof.
  intros Hd. induction l as [|x l IH]; [done|]. cbn [List.filter].
  destruct (p x) eqn:Hp; [rewrite (Hd x Hp); cbn; by constructor|].
  destruct (q x); cbn [orb app]; [|exact IH]. rewrite <-Permutation_middle. by constructor.
Qed.
Lemma grouped_Permutation ts cs : NoDup cs →
  concat (in_category ts <$> cs) ≡ₚ List.filter (λ t, bool_decide (category t ∈ cs)) ts.
Proof.
  induction 1 as [|c cs Hc Hn IH]; cbn [fmap list_fmap concat].
  - induction ts as [|t ts IHt]; [done|]. cbn [List.filter]. by rewrite bool_decide_false by apply not_elem_of_nil.
  - rewrite IH. unfold in_category. rewrite filter_or_Permutation.
    + erewrite List.filter_ext; [done|]. intros t. cbn. apply eq_bool_prop_intro.
      rewrite orb_True, !bool_decide_spec, elem_of_cons. done.
    + intros t Ht%bool_decide_eq_true. apply bool_decide_eq_false. by rewrite Ht.
Qed.
Lemma run_order_Permutation ts : run_order ts ≡ₚ ts.
Proof.
  unfold run_order, categories. destruct (categories_from ts [] (NoDup_nil_2)) as [Hn He].
  rewrite grouped_Permutation by done. rewrite List.forallb_filter_id; [done|].
  apply List.forallb_forall. intros t Ht%list_elem_of_In. apply bool_decide_eq_true, He. right. eauto.
Qed.
(** Tests of one category keep their order. *)
Lemma filter_filter_cat ts (c c' : TestCategory) :
  in_category (in_category ts c') c = if bool_decide (c = c') then in_category ts c else [].
Proof.
  induction ts as [|t ts IH]; [by case_bool_decide|]. unfold in_category in *. cbn [List.filter].
  repeat (case_bool_decide; cbn [List.filter]; simplify_eq); rewrite ?bool_decide_true, ?bool_decide_false by congruence;
    rewrite ?IH; try done.
Qed.
Lemma grouped_stable ts cs c : NoDup cs →
  in_category (concat (in_category ts <$> cs)) c = if bool_decide (c ∈ cs) then in_category ts c else [].
Proof.
  induction 1 as [|c' cs Hc Hn IH]; cbn [fmap list_fmap concat]; [by rewrite bool_decide_false by apply not_elem_of_nil|].
  unfold in_category at 1. rewrite List.filter_app. fold (in_category (in_category ts c') c).
  fold (in_category (concat (in_category ts <$> cs)) c). rewrite IH, filter_filter_cat.
  destruct (decide (c = c')) as [->|Hne].
  - rewrite (bool_decide_true (c' = c')), (bool_decide_false (c' ∈ cs)), (bool_decide_true (c' ∈ c' :: cs))
      by set_solver. apply app_nil_r.
  - rewrite (bool_decide_false (c = c')) by done. cbn [app].
    by rewrite (bool_decide_ext (c ∈ c' :: cs) (c ∈ cs)) by set_solver.
Qed.
Lemma in_category_none ts c : (∀ t, t ∈ ts → category t ≠ c) → in_category ts c = [].
Proof.
  induction ts as [|t ts IH]; intros Hne; [done|]. unfold in_category. cbn [List.filter].
  rewrite bool_decide_false by (apply Hne; left). apply IH. intros x Hx. apply Hne. by right.
Qed.
Lemma run_order_stable ts c : in_category (run_order ts) c = in_category ts c.
Proof.
  unfold run_order, categories. destruct (categories_from ts [] (NoDup_nil_2)) as [Hn He].
  rewrite grouped_stable by done. case_bool_decide as Hc; [done|]. symmetry.
  apply in_category_none. intros t Ht <-. apply Hc, He. eauto.
Qed.

Definition add_tally (st : TestStats) (rs : list TestResult) : TestStats :=
  {| total := total st; passed := passed st + count_of Pass rs; failed := failed st + count_of Fail_ rs;
     skipped := skipped st + count_of Skip rs |}.
Lemma count_of_cons x r rs : count_of x (r :: rs) = (if bool_decide (r = x) then 1 else 0) + count_of x rs.
Proof. unfold count_of, len. cbn [List.filter]. case_bool_decide; cbn [length]; lia. Qed.
Lemma count_result_val r st : 0 ≤ passed st < 2 ^ 64 - 1 → 0 ≤ failed st < 2 ^ 64 - 1 → 0 ≤ skipped st < 2 ^ 64 - 1 →
  count_result r st = Val (add_tally st [r]).
Proof.
  intros Hp Hf Hs. unfold count_result, add_tally, count_of.
  destruct r; rewrite uadd_val by lia; cbn [mbind outcome_bind]; f_equal.
  all: f_equal; symmetry; apply Z.add_0_r.
Qed.
Lemma run_tests_tally ts st s : 0 ≤ passed st → 0 ≤ failed st → 0 ≤ skipped st →
  passed st + failed st + skipped st + len ts < 2 ^ 64 →
  for_each run_test ts (st, s) = ('(rs, s) ← run_list ts s; Val (add_tally st rs, s)).
Proof.
  revert st s. induction ts as [|t ts IH]; intros st s Hp Hf Hs Hl.
  { cbn. unfold add_tally, count_of. cbn. rewrite !Z.add_0_r. by destruct st. }
  cbn [for_each run_list run_test]. destruct (test_fn t s) as [[r s1]| |]; cbn [mbind outcome_bind]; [|done..].
  unfold len in Hl. cbn [length] in Hl. rewrite count_result_val by lia. cbn [mbind outcome_bind].
  assert (∀ x, 0 ≤ count_of x [r] ∧ count_of Pass [r] + count_of Fail_ [r] + count_of Skip [r] = 1) as Hr
    by (intros []; destruct r; split; done).
  pose proof (Hr Pass). pose proof (Hr Fail_). pose proof (Hr Skip).
  rewrite IH; cbn [passed failed skipped add_tally]; [|unfold len; lia..].
  destruct (run_list ts s1) as [[rs s2]| |]; cbn [mbind outcome_bind]; [|done..].
  do 2 f_equal. unfold add_tally. cbn [total passed failed skipped]. rewrite !(count_of_cons _ r rs).
  rewrite <-!Z.add_assoc. by destruct r.
Qed.

Lemma run_list_length ts : ∀ s rs s', run_list ts s = Val (rs, s') → len rs = len ts.
Proof.
  induction ts as [|t ts IH]; intros s rs s' Hr; cbn [run_list] in Hr; [by simplify_eq|].
  destruct (test_fn t s) as [[r s1]| |]; cbn [mbind outcome_bind] in Hr; [|done..].
  destruct (run_list ts s1) as [[rs1 s2]| |] eqn:E; cbn [mbind outcome_bind] in Hr; [|done..]. simplify_eq.
  apply IH in E. unfold len in *. cbn [length]. lia.
Qed.
Lemma count_of_total rs : count_of Pass rs + count_of Fail_ rs + count_of Skip rs = len rs.
Proof.
  induction rs as [|r rs IH]; [done|]. rewrite !count_of_cons. unfold len in *. cbn [length].
  repeat case_bool_decide; simplify_eq; first [lia|by destruct r].
Qed.

(** The harness runs every registered test exactly once: it is the reference run of a
    permutation of the tests, grouped by category, and its statistics are the tally of
    that run, whose parts add up to the number of tests; a panic of a test is a panic of
    the run. *)
Theorem run_all_tests_exact r s : len (tests r) < 2 ^ 64 →
  run_order (tests r) ≡ₚ tests r ∧
  (∀ c, in_category (run_order (tests r)) c = in_category (tests r) c) ∧
  run_all_tests r s = ('(rs, s) ← run_list (run_order (tests r)) s;
                       Val ({| tests := tests r; stats := tally (len (tests r)) rs |}, s)) ∧
  ∀ rs s', run_list (run_order (tests r)) s = Val (rs, s') →
    count_of Pass rs + count_of Fail_ rs + count_of Skip rs = len (tests r).
Proof.
  intros Hl. pose proof (run_order_Permutation (tests r)) as Hp.
  assert (len (run_order (tests r)) = len (tests r)) as Hlen by (unfold len; by rewrite Hp).
  split_and!; [done|apply run_order_stable| |].
  - unfold run_all_tests. unfold run_category_tests. rewrite for_each_nested. fold (run_order (tests r)).
    rewrite run_tests_tally by (cbn; lia). by destruct (run_list (run_order (tests r)) s) as [[rs s']| |].
  - intros rs s' Hr. rewrite count_of_total, (run_list_length _ _ _ _ Hr). done.
Qed.
End harness.

(** ** A run *)
Definition demo_test (nm : string) (c : TestCategory) (r : TestResult) : TestCase (S := nat) :=
  {| test_name := nm; test_fn n := Val (r, Datatypes.S n); category := c |}.
Definition demo_runner : KernelTestRunner (S := nat) :=
  foldl register_test runner_new
    [demo_test "a" TMemory Pass; demo_test "b" TIpc Fail_; demo_test "c" TMemory Skip; demo_test "d" TIpc Pass].
Lemma run_all_tests_exact_witness :
  test_name <$> run_order (tests demo_runner) = ["a"; "c"; "b"; "d"] ∧
  run_all_tests (P := dev) demo_runner 0%nat =
    Val ({| tests := tests demo_runner;
            stats := {| total := 4; passed := 2; failed := 1; skipped := 1 |} |}, 4%nat).
Proof.
  split; [reflexivity|].
  destruct (run_all_tests_exact (P := dev) demo_runner 0%nat) as (_ & _ & E & _); [reflexivity|].
  rewrite E. reflexivity.
Defined.
