(* ===== verification/Testing.v ===== *)
(** * Unit tests

    The repository's modules carry unit tests.  Each is translated into a
    definition of type [outcome unit] over the model: a failed [assert!] or
    [unwrap] panics, so a test passes if it is [Val ()].  A test that is run in
    both build profiles takes the profile as an argument. *)
From S2P Require Import Prelude.

#[export] Instance result_eq_dec `{EqDecision A, EqDecision E} : EqDecision (result A E).
Proof. solve_decision. Defined.

Definition assert (b : bool) : outcome unit := if b then Val () else Panic.
Definition assert_not (b : bool) : outcome unit := assert (negb b).
Definition assert_eq `{EqDecision A} (x y : A) : outcome unit := assert (bool_decide (x = y)).
Definition unwrap {A} (o : option A) : outcome A := match o with Some a => Val a | None => Panic end.
Definition unwrap_ok {A E} (r : result A E) : outcome A := match r with Ok a => Val a | Err _ => Panic end.
Definition unwrap_err {A E} (r : result A E) : outcome E := match r with Ok _ => Panic | Err e => Val e end.
Definition is_some {A} (o : option A) : bool := match o with Some _ => true | None => false end.
Definition is_err {A E} (r : result A E) : bool := match r with Ok _ => false | Err _ => true end.

(** Runs tests in order; the first that fails ends the run. *)
Definition run_tests (ts : list (outcome unit)) : outcome unit := for_each (λ t _, t) ts ().

Lemma run_tests_pass ts : run_tests ts = Val () ↔ Forall (λ t, t = Val ()) ts.
Proof.
  unfold run_tests. induction ts as [|t ts IH]; [done|]. cbn [for_each]. rewrite Forall_cons, <-IH.
  destruct t as [[]| |]; cbn; naive_solver.
Qed.

(** Evaluates tests in the profile at hand. *)
Ltac run_all := match goal with P : Profile |- _ => destruct P | _ => idtac end; vm_compute; reflexivity.

(** Steps over the assertions a symbolic run meets, and over results at hand. *)
Lemma assert_step {B} b (f : unit → outcome B) : b = true → (assert b ≫= f) = f ().
Proof. by intros ->. Qed.
Lemma assert_not_step {B} b (f : unit → outcome B) : b = false → (assert_not b ≫= f) = f ().
Proof. by intros ->. Qed.
Lemma assert_eq_step `{EqDecision A} {B} (x y : A) (f : unit → outcome B) : x = y → (assert_eq x y ≫= f) = f ().
Proof. intros ->. unfold assert_eq. by rewrite bool_decide_true. Qed.
Ltac step_asserts :=
  repeat (cbn [mbind outcome_bind is_ok unwrap_ok unwrap_err fst snd];
    first [rewrite assert_eq_step by reflexivity | rewrite assert_step by reflexivity
          |rewrite assert_not_step by reflexivity]);
  cbn [mbind outcome_bind is_ok unwrap_ok unwrap_err fst snd].
