(* ===== verification/TestsMemory.v ===== *)
(** * Unit tests of memory management

    The tests of [swap.rs], [swap_file.rs], [swap_config.rs], [swap_algorithm.rs]
    and [vmm.rs] (all under [kernel/src/memory/]), one module per source file. *)
From S2P Require Import Prelude Float Physical Vmm Swap SwapFile Replacement Swapper SwapConfig Testing.

(** ** [swap.rs] *)
Module SwapTests.

(** The mock device: a vector of pages. *)
Record MockSwapDevice := {
  mock_name : string;
  mock_size : Z;
  mock_available : bool;
  mock_storage : list Page;
}.
Definition mock_new `{Profile} (name : string) (size_mb : Z) : outcome MockSwapDevice :=
  kb ← umul 64 size_mb 1024;
  size ← umul 64 kb 1024;
  slots ← udiv size PAGE_SIZE;
  Val {| mock_name := name; mock_size := size; mock_available := true;
         mock_storage := replicate (Z.to_nat slots) (replicate 4096 0) |}.
Definition mock_read_page (d : MockSwapDevice) (slot : Z) : outcome (result Page SwapError * MockSwapDevice) :=
  if negb (mock_available d) then Val (Err DeviceUnavailable, d)
  else if len (mock_storage d) <=? slot then Val (Err InvalidSlot, d)
  else p ← index (mock_storage d) slot; Val (Ok p, d).
Definition mock_write_page (d : MockSwapDevice) (slot : Z) (buffer : Page) :
    outcome (result unit SwapError * MockSwapDevice) :=
  if negb (mock_available d) then Val (Err DeviceUnavailable, d)
  else if len (mock_storage d) <=? slot then Val (Err InvalidSlot, d)
  else
    s ← index_set (mock_storage d) slot buffer;
    Val (Ok (), {| mock_name := mock_name d; mock_size := mock_size d; mock_available := mock_available d;
                   mock_storage := s |}).
#[export] Instance MockSwapDevice_device : SwapDevice MockSwapDevice := {
  device_type _ := File;
  dev_size := mock_size;
  read_page _ := mock_read_page;
  write_page _ := mock_write_page;
  is_available := mock_available;
}.

(** The mock is a lawful device: what is proved of the manager holds on it too. *)
Definition mock_wf (d : MockSwapDevice) : Prop :=
  0 ≤ mock_size d < 2 ^ 64 ∧ mock_size d / PAGE_SIZE = len (mock_storage d).
Definition mock_contents (d : MockSwapDevice) (s : Z) : option Page :=
  if mock_available d && (0 <=? s) then mock_storage d !! Z.to_nat s else None.
#[export] Instance MockSwapDevice_laws : SwapDeviceLaws MockSwapDevice.
Proof.
  refine {| dev_wf := mock_wf; contents := mock_contents |}.
  - by intros d [? _].
  - intros P d s p [Hs Hn] Hs0. unfold mock_contents. cbn [read_page MockSwapDevice_device]. unfold mock_read_page.
    destruct (mock_available d) eqn:Ha; cbn [andb negb]; [|done]. rewrite (proj2 (Z.leb_le 0 s)) by done. intros Hp.
    pose proof (lookup_lt_Some _ _ _ Hp). rewrite (proj2 (Z.leb_gt _ _)) by (unfold len; lia).
    rewrite (index_val _ _ _ Hp). exists d. rewrite Ha. by split_and!.
  - intros P d s p [Hs Hn] Hsc Hp. cbn [write_page MockSwapDevice_device]. unfold mock_write_page, mock_contents.
    destruct (mock_available d) eqn:Ha; cbn [andb negb]; [|rewrite Ha; by split_and!]. unfold slot_count in Hsc. cbn in Hsc.
    rewrite (proj2 (Z.leb_gt _ _)) by lia. unfold len in *. rewrite index_set_val by lia. cbn [mbind outcome_bind].
    unfold mock_wf, slot_count. cbn [mock_size mock_storage mock_available dev_size MockSwapDevice_device].
    rewrite ?Ha. cbn [andb]. unfold len. rewrite length_insert. split_and!; try done; try apply Hs.
    + rewrite (proj2 (Z.leb_le 0 s)) by lia. apply list_lookup_insert_eq. lia.
    + intros t Ht Hne. rewrite (proj2 (Z.leb_le 0 t)) by done. by rewrite list_lookup_insert_ne by lia.
Defined.

Section tests.
Context {P : Profile}.

Definition test_swap_slot : outcome unit :=
  o ← slot_offset 42; assert_eq o (42 * PAGE_SIZE).
Definition test_swap_allocator : outcome unit :=
  let a := new_allocator 10 in
  s ← allocator_stats a;
  assert_eq (total_slots s) 10;; assert_eq (free_slots s) 10;; assert_eq (used_slots s) 0;;
  '(r, a) ← allocate_slot a; slot1 ← unwrap r; assert_eq slot1 0;;
  b ← is_slot_allocated a slot1; assert b;;
  '(r, a) ← allocate_slot a; slot2 ← unwrap r; assert_eq slot2 1;;
  '(r, a) ← deallocate_slot a slot1; _ ← unwrap_ok r;
  b ← is_slot_allocated a slot1; assert_not b;;
  '(r, a) ← allocate_slot a; slot3 ← unwrap r; assert_eq slot3 0.
Definition test_swap_manager : outcome unit :=
  d ← mock_new "test_swap" 1;
  '(r, m) ← add_device (D:=MockSwapDevice) new_manager d; i ← unwrap_ok r; assert_eq i 0;;
  let data := replicate 4096 0x42 in
  '(r, m) ← swap_out_page m 100 data; _ ← unwrap_ok r;
  assert (is_page_swapped m 100);;
  '(r, m) ← swap_in_page m 100; read_data ← unwrap_ok r;
  assert_eq read_data data;; assert_not (is_page_swapped m 100).
Definition test_swap_stats : outcome unit :=
  let s := {| total_slots := 1024; used_slots := 256; free_slots := 768 |} in
  t ← slots_bytes (total_slots s); assert_eq t (1024 * PAGE_SIZE);;
  u ← slots_bytes (used_slots s); assert_eq u (256 * PAGE_SIZE);;
  f ← slots_bytes (free_slots s); assert_eq f (768 * PAGE_SIZE);;
  assert (SpecFloat.SFeqb (usage_percent s) (f32_of_int 25)).
Example swap_tests_pass : run_tests [test_swap_slot; test_swap_allocator; test_swap_manager; test_swap_stats] = Val ().
Proof. run_all. Qed.
End tests.
End SwapTests.

(** ** [swap_algorithm.rs] *)
Module SwapAlgorithmTests.
Section tests.
Context {P : Profile}.

Definition test_lru_replacer : outcome unit :=
  let lru := lru_new 3 in
  lru ← lru_access_page lru 1; lru ← lru_access_page lru 2; lru ← lru_access_page lru 3;
  assert_eq (length (lru_pages lru)) 3%nat;;
  lru ← lru_access_page lru 1;
  assert_eq (lru_victim_page lru) (Some 2);;
  lru ← lru_access_page lru 4;
  assert_eq (length (lru_pages lru)) 3%nat;;
  assert_eq (lru_victim_page lru) (Some 3).
Definition test_fifo_replacer : outcome unit :=
  let fifo := fifo_new 3 in
  fifo ← fifo_add_page fifo 1; fifo ← fifo_add_page fifo 2; fifo ← fifo_add_page fifo 3;
  assert_eq (length (fifo_pages fifo)) 3%nat;;
  assert_eq (fifo_victim_page fifo) (Some 1);;
  fifo ← fifo_add_page fifo 4;
  assert_eq (length (fifo_pages fifo)) 3%nat;;
  assert_eq (fifo_victim_page fifo) (Some 2).
Definition test_clock_replacer : outcome unit :=
  let clock := clock_new 3 in
  clock ← clock_access_page clock 1; clock ← clock_access_page clock 2; clock ← clock_access_page clock 3;
  assert_eq (length (clock_pages clock)) 3%nat;;
  '(victim, clock) ← clock_victim_page clock;
  assert (is_some victim).
Definition test_page_access_info : outcome unit :=
  let info := info_new 0x1000 1 in
  assert_eq (access_count info) 0;; assert_not (referenced info);; assert_not (dirty info);;
  info ← update_access info 100 true;
  assert_eq (access_count info) 1;; assert_eq (last_access info) 100;;
  assert (referenced info);; assert (dirty info).
Definition test_swapper_stats : outcome unit :=
  let s := swapper_stats_new in
  assert_eq (pages_swapped_out s) 0;; assert_eq (pages_swapped_in s) 0;; assert_eq (page_faults s) 0;;
  out ← uadd 64 (pages_swapped_out s) 1;
  faults ← uadd 64 (page_faults s) 1;
  let s := {| pages_swapped_out := out; pages_swapped_in := pages_swapped_in s; page_faults := faults;
              algorithm_switches := algorithm_switches s |} in
  assert_eq (pages_swapped_out s) 1;; assert_eq (page_faults s) 1.
Example swap_algorithm_tests_pass :
  run_tests [test_lru_replacer; test_fifo_replacer; test_clock_replacer; test_page_access_info;
             test_swapper_stats] = Val ().
Proof. run_all. Qed.
End tests.
End SwapAlgorithmTests.

(** ** [vmm.rs] *)
Module VmmTests.
Section tests.
Context {P : Profile}.

Definition test_virtual_address_alignment : outcome unit :=
  let addr := 0x1234 in
  aligned_up ← align_up addr;
  let aligned_down := align_down addr in
  assert_eq aligned_up 0x2000;; assert_eq aligned_down 0x1000;;
  assert (is_aligned 0x2000);; assert_not (is_aligned addr).
Definition test_memory_protection_flags : outcome unit :=
  assert (readable read_only);; assert_not (writable read_only);;
  assert_not (executable read_only);; assert_not (user_accessible read_only);;
  assert (readable read_write);; assert (writable read_write);;
  assert_not (executable read_write);; assert_not (user_accessible read_write);;
  assert (readable read_execute);; assert_not (writable read_execute);;
  assert (executable read_execute);; assert_not (user_accessible read_execute).
Definition test_virtual_memory_region : outcome unit :=
  let region := {| region_start := 0x1000; region_size := 0x2000; region_protection := read_write;
                   region_name := "Test Region" |} in
  assert_eq (region_start region) 0x1000;; assert_eq (region_size region) 0x2000;;
  e ← region_end region; assert_eq e 0x3000;;
  assert_eq (region_name region) "Test Region"%string;;
  b ← region_contains region 0x1500; assert b;;
  b ← region_contains region 0x1000; assert b;;
  b ← region_contains region 0x3000; assert_not b;;
  b ← region_contains region 0x500; assert_not b;;
  n ← region_page_count region; assert_eq n 2.
Definition test_kernel_layout_constants : outcome unit :=
  assert_eq KERNEL_CODE_START 0xFFFFFFFF80000000;; assert_eq KERNEL_CODE_SIZE (16 * 1024 * 1024);;
  assert_eq KERNEL_DATA_START 0xFFFFFFFF81000000;; assert_eq KERNEL_DATA_SIZE (16 * 1024 * 1024);;
  assert_eq KERNEL_HEAP_START 0xFFFFFFFF82000000;; assert_eq KERNEL_HEAP_SIZE (64 * 1024 * 1024);;
  assert_eq PHYSICAL_MEMORY_OFFSET 0xFFFF800000000000.
Example vmm_tests_pass :
  run_tests [test_virtual_address_alignment; test_memory_protection_flags; test_virtual_memory_region;
             test_kernel_layout_constants] = Val ().
Proof. run_all. Qed.
End tests.
End VmmTests.

(** ** [swap_file.rs] *)
Module SwapFileTests.
Section tests.
Context {P : Profile}.
Definition zeros : Page := replicate 4096 0.

Definition test_file_swap_device_creation : outcome unit :=
  r ← file_new "test_swap" 1; d ← unwrap_ok r;
  assert_eq (fd_name d) "test_swap"%string;;
  let d := FileBox d in
  assert_eq (dev_size d) (1024 * 1024);; assert_eq (slot_count d) 256;;
  assert_eq (device_type d) File;; assert (is_available d).
Definition test_file_swap_device_io : outcome unit :=
  r ← file_new "test_swap" 1; d ← unwrap_ok r;
  let write_data := replicate 4096 0x42 in
  '(r, d) ← file_write_page d 0 write_data; _ ← unwrap_ok r;
  '(r, d) ← file_read_page d 0; read_data ← unwrap_ok r;
  assert_eq write_data read_data.
Definition test_file_swap_device_invalid_slot : outcome unit :=
  r ← file_new "test_swap" 1; d ← unwrap_ok r;
  let invalid_slot := slot_count (FileBox d) in
  '(r, d) ← file_write_page d invalid_slot zeros; assert_eq r (Err InvalidSlot);;
  '(r, d) ← file_read_page d invalid_slot; assert_eq r (Err InvalidSlot).
Definition test_file_swap_device_unavailable : outcome unit :=
  r ← file_new "test_swap" 1; d ← unwrap_ok r;
  let d := file_set_available d false in
  '(r, d) ← file_write_page d 0 zeros; assert_eq r (Err DeviceUnavailable);;
  '(r, d) ← file_read_page d 0; assert_eq r (Err DeviceUnavailable);;
  assert_not (is_available (FileBox d)).
Definition test_partition_swap_device_creation : outcome unit :=
  r ← partition_new "sda1" 1 2; d ← unwrap_ok r;
  assert_eq (pd_name d) "sda1"%string;; assert_eq (pd_partition_id d) 1;;
  let d := PartitionBox d in
  assert_eq (dev_size d) (2 * 1024 * 1024);; assert_eq (slot_count d) 512;;
  assert_eq (device_type d) Partition;; assert (is_available d).
Definition test_from_storage : outcome unit :=
  d ← unwrap_ok (from_storage "test" (replicate (Z.to_nat (PAGE_SIZE * 2)) 0));
  let d := FileBox d in
  assert_eq (dev_size d) (PAGE_SIZE * 2);; assert_eq (slot_count d) 2.
Definition test_from_storage_invalid_size : outcome unit :=
  match from_storage "test" (replicate (Z.to_nat (PAGE_SIZE + 1)) 0) with Err e => assert_eq e InvalidSlot | Ok _ => Panic end.
Example swap_file_tests_pass :
  run_tests [test_file_swap_device_creation; test_file_swap_device_io; test_file_swap_device_invalid_slot;
             test_file_swap_device_unavailable; test_partition_swap_device_creation; test_from_storage;
             test_from_storage_invalid_size] = Val ().
Proof. run_all. Qed.
End tests.
End SwapFileTests.

(** ** [swap_config.rs] *)
Module SwapConfigTests.
Section tests.
Context {P : Profile}.

Definition test_swap_config_creation : outcome unit :=
  let config := {| cfg_device := FileConfig "/test/swap" 32; cfg_priority := 5; cfg_enabled := true |} in
  assert (cfg_enabled config);; assert_eq (cfg_priority config) 5;;
  match cfg_device config with
  | FileConfig path size_mb => assert_eq path "/test/swap"%string;; assert_eq size_mb 32
  | _ => Panic
  end.
(** Up to the call that enables the second configuration. *)
Definition config_manager_prefix : outcome (Z * SwapConfigManager) :=
  let '(idx1, m) := add_config manager_new {| cfg_device := FileConfig "/swap1" 16; cfg_priority := 5; cfg_enabled := true |} in
  let '(idx2, m) := add_config m
    {| cfg_device := PartitionConfig "/dev/sda1" 1 32; cfg_priority := 10; cfg_enabled := false |} in
  assert_eq idx1 0;; assert_eq idx2 1;; assert_eq (config_count m) 2;;
  c ← unwrap (get_config m idx1); assert (cfg_enabled c);;
  c ← unwrap (get_config m idx2); assert_not (cfg_enabled c);;
  let '(r, m) := disable_config m idx1 in _ ← unwrap_ok r;
  c ← unwrap (get_config m idx1); assert_not (cfg_enabled c);;
  Val (idx2, m).
(** [g]: the global swap manager. *)
Definition test_swap_config_manager (g : option (SwapManager SwapBox)) : outcome unit :=
  '(idx2, m) ← config_manager_prefix;
  '(r, m, g) ← enable_config m g idx2; _ ← unwrap_ok r;
  c ← unwrap (get_config m idx2); assert (cfg_enabled c).
Definition test_default_config : outcome unit :=
  let m := create_default_config in
  assert_eq (config_count m) 1;;
  config ← unwrap (get_config m 0);
  assert (cfg_enabled config);; assert_eq (cfg_priority config) 10;;
  match cfg_device config with
  | FileConfig path size_mb => assert_eq path "/swap/swapfile"%string;; assert_eq size_mb 16
  | _ => Panic
  end.
Definition test_detect_swap_devices : outcome unit :=
  let m := detect_swap_devices in
  assert_eq (config_count m) 2;;
  c ← unwrap (get_config m 0); assert_not (cfg_enabled c);;
  c ← unwrap (get_config m 1); assert_not (cfg_enabled c).
Example swap_config_tests_pass :
  run_tests [test_swap_config_creation; test_default_config; test_detect_swap_devices] = Val ().
Proof. run_all. Qed.
(** The test of the manager passes with an initialised swap manager and fails
    without one: enabling a configuration adds its device there. *)
Example swap_config_manager_test :
  test_swap_config_manager (Some new_manager) = Val () ∧ test_swap_config_manager None = Panic.
Proof. split; run_all. Qed.
End tests.
End SwapConfigTests.
