(* ===== verification/TestsKernel.v ===== *)
(** * Unit tests of processes and messages

    The tests of [process.rs], [scheduler.rs] and [context.rs] (under
    [kernel/src/process/]) and of [capability.rs], [security.rs], [message.rs] and
    [queue.rs] (under [kernel/src/ipc/]), one module per source file, and the two
    scenarios of [kernel/src/ipc/capability_test.rs].  The message and
    capability counters are the global state the tests share: each test takes the
    counter's value. *)
From S2P Require Import Prelude Capability Context Process Scheduler Ipc Syscall Kernel Testing.

(** ** [process.rs] *)
Module ProcessTests.
Section tests.
Context {P : Profile}.

Definition test_process_creation : outcome unit :=
  let p := process_new 1 (Some 0) "test_process" Normal in
  assert_eq (pid p) 1;; assert_eq (parent_pid p) (Some 0);; assert_eq (Process.name p) "test_process";;
  assert_eq (priority p) Normal;; assert_eq (state p) Creating;; assert_eq (cpu_time_ms p) 0;;
  assert_eq (children p) [].

Definition test_process_state_transitions : outcome unit :=
  let p := process_new 1 None "test" Normal in
  assert_eq (state p) Creating;; assert_not (is_runnable p);; assert_not (is_terminated p);;
  let p := set_state p Ready in
  assert_eq (state p) Ready;; assert (is_runnable p);; assert_not (is_terminated p);;
  let p := set_state p Running in
  assert_eq (state p) Running;; assert (is_runnable p);; assert_not (is_terminated p);;
  let p := set_state p (Blocked WaitingForIo) in
  assert_eq (state p) (Blocked WaitingForIo);; assert_not (is_runnable p);; assert_not (is_terminated p);;
  let p := terminate p 0 in
  assert_eq (state p) Zombie;; assert_eq (exit_code p) (Some 0);; assert_not (is_runnable p);;
  assert (is_terminated p).

Definition test_process_table_creation : outcome unit :=
  let t := table_new 10 in
  assert_eq (process_count t) 0;; assert_eq (current_pid t) None;;
  '(r, t) ← create_process t None "init" System; id ← unwrap_ok r;
  assert_eq (process_count t) 1;; assert_eq id 1;;
  p ← unwrap (get_process t id);
  assert_eq (Process.name p) "init";; assert_eq (priority p) System;; assert_eq (state p) Ready.

Definition test_process_table_parent_child_relationship : outcome unit :=
  '(r, t) ← create_process (table_new 10) None "parent" Normal; parent_id ← unwrap_ok r;
  '(r, t) ← create_process t (Some parent_id) "child" Normal; child_id ← unwrap_ok r;
  parent ← unwrap (get_process t parent_id);
  assert (bool_decide (child_id ∈ children parent));;
  child ← unwrap (get_process t child_id);
  assert_eq (parent_pid child) (Some parent_id).

Definition test_process_table_statistics : outcome unit :=
  '(r, t) ← create_process (table_new 10) None "proc1" System; _ ← unwrap_ok r;
  '(r, t) ← create_process t None "proc2" Normal; _ ← unwrap_ok r;
  '(r, t) ← create_process t None "proc3" Background; pid3 ← unwrap_ok r;
  let t := update_process t pid3 (λ p, terminate p 0) in
  let s := get_table_statistics t in
  assert_eq (total_processes s) 3;; assert_eq (ready_processes s) 2;; assert_eq (zombie_processes s) 1;;
  assert_eq (system_priority_processes s) 1;; assert_eq (normal_priority_processes s) 1;;
  assert_eq (background_priority_processes s) 1.

Lemma process_tests_pass :
  run_tests [test_process_creation; test_process_state_transitions; test_process_table_creation;
             test_process_table_parent_child_relationship; test_process_table_statistics] = Val ().
Proof. run_all. Qed.
End tests.
End ProcessTests.

(** ** [scheduler.rs] *)
Module SchedulerTests.

Definition test_scheduler_creation : outcome unit :=
  let s := scheduler_new RoundRobin 10 in
  assert_eq (sched_algorithm s) RoundRobin;; assert_eq (time_slice_ms s) 10;;
  assert_eq (context_switches (sched_stats s)) 0;; assert_eq (scheduling_decisions (sched_stats s)) 0.

Definition test_scheduler_algorithm_change : outcome unit :=
  let s := scheduler_new RoundRobin 10 in
  assert_eq (sched_algorithm s) RoundRobin;;
  let s := set_algorithm s Priority in
  assert_eq (sched_algorithm s) Priority;; assert_eq (stats_algorithm (sched_stats s)) Priority.

Definition test_scheduler_time_slice_change : outcome unit :=
  let s := scheduler_new RoundRobin 10 in
  assert_eq (time_slice_ms s) 10;;
  let s := set_time_slice s 20 in
  assert_eq (time_slice_ms s) 20;; assert_eq (stats_time_slice_ms (sched_stats s)) 20.

Definition test_scheduler_statistics : outcome unit :=
  let st := sched_stats (scheduler_new RoundRobin 10) in
  assert_eq (stats_algorithm st) RoundRobin;; assert_eq (stats_time_slice_ms st) 10;;
  assert_eq (context_switches st) 0;; assert_eq (scheduling_decisions st) 0;;
  assert_eq (scheduler_time_us st) 0.

Lemma scheduler_tests_pass :
  run_tests [test_scheduler_creation; test_scheduler_algorithm_change; test_scheduler_time_slice_change;
             test_scheduler_statistics] = Val ().
Proof. run_all. Qed.
End SchedulerTests.

(** ** [context.rs] *)
Module ContextTests.

Definition test_cpu_context_creation : outcome unit :=
  let c := context_new in
  assert_eq (c_rax c) 0;; assert_eq (c_rflags c) 0x202;; assert_eq (c_cs c) 0x08;; assert_eq (c_ds c) 0x10.

Definition test_kernel_thread_context : outcome unit :=
  let entry_point := 0x1000 in
  let sp := 0x2000 in
  let c := new_kernel_thread entry_point sp in
  assert_eq (c_rip c) entry_point;; assert_eq (c_rsp c) sp;; assert_eq (c_rbp c) sp;; assert_eq (c_cs c) 0x08.

Definition test_user_process_context : outcome unit :=
  let entry_point := 0x1000 in
  let sp := 0x2000 in
  let c := new_user_process entry_point sp in
  assert_eq (c_rip c) entry_point;; assert_eq (c_rsp c) sp;; assert_eq (c_rbp c) sp;;
  assert_eq (c_cs c) 0x1B;; assert_eq (c_ds c) 0x23.

Definition test_context_setters : outcome unit :=
  let c := set_stack_pointer (set_instruction_pointer context_new 0x5000) 0x6000 in
  assert_eq (instruction_pointer c) 0x5000;; assert_eq (stack_pointer c) 0x6000;;
  assert_eq (c_rbp c) 0x6000.

Lemma context_tests_pass :
  run_tests [test_cpu_context_creation; test_kernel_thread_context; test_user_process_context;
             test_context_setters] = Val ().
Proof. run_all. Qed.
End ContextTests.

(** ** [capability.rs] *)
Module CapabilityTests.
Section tests.
Context {P : Profile}.

Definition test_capability_creation (next : Z) : outcome unit :=
  '(c, _) ← capability_new next Read (FileResource "test.txt") 1 None;
  assert_eq (capability_type c) Read;; assert_eq (cap_owner c) 1;; assert_not (delegatable c);;
  assert_not (is_expired c).

Definition test_capability_matching (next : Z) : outcome unit :=
  let file_resource := FileResource "test.txt" in
  '(c, _) ← capability_new next Read file_resource 1 None;
  assert (matches c Read file_resource);; assert_not (matches c Write file_resource);;
  assert_not (matches c Read (FileResource "other.txt")).

Definition test_capability_set (next : Z) : outcome unit :=
  let s : CapabilitySet := [] in
  assert (is_empty s);; assert_eq (len s) 0;;
  '(c, _) ← capability_new next Read (FileResource "test.txt") 1 None;
  let id := cap_id c in
  let s := s ++ [c] in
  assert_not (is_empty s);; assert_eq (len s) 1;;
  let file_resource := FileResource "test.txt" in
  assert (has_capability s Read file_resource);; assert_not (has_capability s Write file_resource);;
  let '(removed, s) := set_remove s id in
  assert (is_some removed);; assert (is_empty s).

Definition test_wildcard_capability (next : Z) : outcome unit :=
  '(c, _) ← capability_new next Read AnyResource 1 None;
  assert (matches c Read (FileResource "any.txt"));; assert (matches c Read (DeviceResource "any_device"));;
  assert (matches c Read (ProcessResource 42));; assert_not (matches c Write (FileResource "any.txt")).

Definition capability_tests (next : Z) : outcome unit :=
  run_tests [test_capability_creation next; test_capability_matching next; test_capability_set next;
             test_wildcard_capability next].

(** The tests pass whatever capabilities the tests before them have created. *)
Lemma capability_tests_pass next : 0 ≤ next < 2 ^ 64 - 1 → capability_tests next = Val ().
Proof.
  intros Hn. apply run_tests_pass.
  repeat apply Forall_cons_2; try apply Forall_nil_2;
    unfold test_capability_creation, test_capability_matching, test_capability_set, test_wildcard_capability;
    unfold capability_new, generate_capability_id; rewrite uadd_val by lia; try reflexivity.
  cbn [mbind outcome_bind cap_id]. unfold set_remove. cbn [app position list_find cap_id]. rewrite Z.eqb_refl. reflexivity.
Qed.
End tests.
End CapabilityTests.

(** ** [security.rs] *)
Module SecurityTests.
Section tests.
Context {P : Profile}.

Definition test_security_policy_creation : outcome unit :=
  let policy := new_policy in
  assert_not (is_empty (system_capabilities policy));; assert_not (is_empty (user_capabilities policy));;
  assert_not (is_empty (restricted_operations policy)).

Definition test_restricted_operations : outcome unit :=
  let policy := new_policy in
  assert (is_restricted_operation policy Admin);; assert (is_restricted_operation policy DeviceAccess);;
  assert_not (is_restricted_operation policy Read).

(** Reads the global capability manager. *)
Definition test_capability_validation (st : CapState) : outcome unit :=
  let policy := new_policy in
  '(b, st) ← validate_capability_request policy st 1 Admin AnyResource; assert_not b;;
  '(b, _) ← validate_capability_request policy st 1 ReceiveMessage (ProcessResource 2); assert b.

Definition security_tests (st : CapState) : outcome unit :=
  run_tests [test_security_policy_creation; test_restricted_operations; test_capability_validation st].

(** The tests pass in a kernel that is booting and in one whose capability system is
    not initialised; once process 1 administers the system, the last one fails. *)
Lemma security_tests_pass next :
  security_tests {| next_capability_id := next; cap_manager := None |} = Val () ∧
  security_tests {| next_capability_id := next; cap_manager := Some new_cap_manager |} = Val ().
Proof. destruct P; split; vm_compute; reflexivity. Qed.
Lemma security_tests_admin :
  ('(_, st) ← create_capability boot_caps 1 Admin AnyResource None; security_tests st) = Panic.
Proof. run_all. Qed.
End tests.
End SecurityTests.

(** ** [message.rs] *)
Module MessageTests.
Section tests.
Context {P : Profile}.

Definition test_message_data_size : outcome unit :=
  assert_eq (data_size EmptyData) 0;; assert_eq (data_size (Bytes [1; 2; 3])) 3;;
  assert_eq (data_size (Text "hello")) 5;;
  let syscall_data := SystemCallData 1 (replicate 6 0) in
  assert_eq (data_size syscall_data) (4 + 6 * 8).

Definition test_message_creation (next : Z) : outcome unit :=
  '(m, _) ← message_new next 1 2 ServiceRequest (Text "test message");
  assert_eq (sender (header m)) 1;; assert_eq (receiver (header m)) 2;;
  assert_eq (message_type (header m)) ServiceRequest;; assert_eq (msg_priority (header m)) 128;;
  assert_not (is_reply m);; assert_not (is_synchronous m).

Definition test_reply_message_creation (next : Z) : outcome unit :=
  '(original, next) ← message_new next 1 2 ServiceRequest (Text "request");
  '(reply, _) ← create_reply next original 2 (Text "response");
  assert_eq (sender (header reply)) 2;; assert_eq (receiver (header reply)) 1;;
  assert_eq (message_type (header reply)) Response;;
  assert_eq (reply_to (header reply)) (Some (message_id (header original)));; assert (is_reply reply).

Definition test_message_flags (next : Z) : outcome unit :=
  '(m, _) ← message_new next 1 2 SystemCallMsg EmptyData;
  assert_not (is_synchronous m);;
  let m := set_synchronous m true in
  assert (is_synchronous m);;
  let m := set_priority m 0 in
  assert_eq (msg_priority (header m)) 0.

Definition message_tests (next : Z) : outcome unit :=
  run_tests [test_message_data_size; test_message_creation next; test_reply_message_creation next;
             test_message_flags next].

Lemma message_tests_pass next : 0 ≤ next < 2 ^ 64 - 2 → message_tests next = Val ().
Proof.
  intros Hn. apply run_tests_pass.
  repeat apply Forall_cons_2; try apply Forall_nil_2; [reflexivity|..];
    unfold test_message_creation, test_reply_message_creation, test_message_flags, message_new, create_reply,
      generate_message_id; rewrite uadd_val by lia; try reflexivity.
  cbn [mbind outcome_bind]. rewrite uadd_val by lia. cbn [mbind outcome_bind header sender receiver message_type
    reply_to message_id assert_eq assert]. unfold assert_eq. rewrite !bool_decide_true by done. reflexivity.
Qed.
End tests.
End MessageTests.

(** ** [queue.rs] *)
Module QueueTests.
Section tests.
Context {P : Profile} {L : Layout}.

(** [queue.max_messages = ..; queue.max_size = ..]. *)
Definition set_limits (q : MessageQueue) (messages_max size_max : Z) : MessageQueue :=
  {| process_id := process_id q; messages := messages q; q_total_size := q_total_size q;
     max_messages := messages_max; max_size := size_max; messages_received := messages_received q;
     messages_sent := messages_sent q; queue_full_count := queue_full_count q |}.

Definition test_message_queue_creation : outcome unit :=
  let q := queue_new 1 in
  assert_eq (process_id q) 1;; assert_eq (len (messages q)) 0;; assert (is_empty (messages q));;
  assert_not (is_full q).

Definition test_message_queue_enqueue_dequeue (next : Z) : outcome unit :=
  let q := queue_new 1 in
  '(m, _) ← message_new next 2 1 ServiceRequest (Text "test");
  '(r, q) ← enqueue q m; assert (is_ok r);;
  assert_eq (len (messages q)) 1;; assert_not (is_empty (messages q));;
  '(r, q) ← dequeue q; dequeued ← unwrap_ok r;
  assert_eq (message_id (header dequeued)) (message_id (header m));;
  assert_eq (len (messages q)) 0;; assert (is_empty (messages q));;
  '(r, _) ← dequeue q; e ← unwrap_err r; assert_eq e NoMessage.

Definition test_message_priority_ordering (next : Z) : outcome unit :=
  let q := queue_new 1 in
  '(low_priority, next) ← message_new next 2 1 ServiceRequest (Text "low");
  let low_priority := set_priority low_priority 200 in
  '(high_priority, next) ← message_new next 2 1 ServiceRequest (Text "high");
  let high_priority := set_priority high_priority 50 in
  '(r, q) ← enqueue q low_priority; _ ← unwrap_ok r;
  '(r, q) ← enqueue q high_priority; _ ← unwrap_ok r;
  '(r, q) ← dequeue q; first ← unwrap_ok r; assert_eq (msg_priority (header first)) 50;;
  '(r, q) ← dequeue q; second ← unwrap_ok r; assert_eq (msg_priority (header second)) 200.

Definition test_queue_size_limits (next : Z) : outcome unit :=
  let q := set_limits (queue_new 1) 2 100 in
  '(m, _) ← message_new next 2 1 ServiceRequest (Text "test");
  '(r, q) ← enqueue q m; assert (is_ok r);;
  '(r, q) ← enqueue q m; assert (is_ok r);;
  '(r, q) ← enqueue q m; e ← unwrap_err r; assert_eq e QueueFull;;
  assert_eq (queue_full_count q) 1.

Context (Hhead : 0 ≤ header_size < 2 ^ 62).

Section one_queue.
Context (q : MessageQueue) (m : Message).
Context (Hcaps : capabilities m = []) (Hdata : data_size (data m) ≤ 2 ^ 32).
Context (Hq : 0 ≤ q_total_size q < 2 ^ 62).

Lemma plain_size : total_size m = Val (header_size + data_size (data m)).
Proof.
  unfold total_size. rewrite Hcaps. change (len []) with 0. rewrite umul_val by (rewrite Z.mul_0_l; lia).
  cbn [mbind outcome_bind]. pose proof (data_size_nonneg (data m)). rewrite uadd_val by lia.
  cbn [mbind outcome_bind]. rewrite Z.mul_0_l, uadd_val by lia. f_equal. lia.
Qed.
Lemma plain_accept :
  can_accept_message q m =
    Val ((len (messages q) <? max_messages q) &&
         (q_total_size q + header_size + data_size (data m) <=? max_size q)).
Proof.
  unfold can_accept_message. rewrite plain_size. cbn [mbind outcome_bind].
  pose proof (data_size_nonneg (data m)). destruct (Z.leb_spec (max_messages q) (len (messages q))).
  - by rewrite (proj2 (Z.ltb_ge _ _)) by lia.
  - rewrite (proj2 (Z.ltb_lt _ _)) by lia. rewrite uadd_val by lia. cbn. rewrite <-Z.leb_antisym.
    by rewrite Z.add_assoc.
Qed.
Lemma plain_dequeue ms : messages q = m :: ms →
  dequeue q = Val (Ok m, set_messages q ms (saturating_sub (q_total_size q) (header_size + data_size (data m)))).
Proof. unfold dequeue. intros ->. by rewrite plain_size. Qed.
End one_queue.

(** A queue in the tests: nothing but its messages, its limits and its counters. *)
Definition test_queue (ms : list Message) (total messages_max size_max received full : Z) : MessageQueue :=
  {| process_id := 1; messages := ms; q_total_size := total; max_messages := messages_max;
     max_size := size_max; messages_received := received; messages_sent := 0; queue_full_count := full |}.

Lemma test_enqueue ms total mm sm received full m :
  capabilities m = [] → data_size (data m) ≤ 2 ^ 32 → 0 ≤ total < 2 ^ 62 →
  0 ≤ received < 2 ^ 32 → 0 ≤ full < 2 ^ 32 →
  enqueue (test_queue ms total mm sm received full) m =
    Val (if (len ms <? mm) && (total + header_size + data_size (data m) <=? sm)
         then (Ok (), test_queue (vec_insert (insert_pos ms m) m ms) (total + (header_size + data_size (data m)))
                        mm sm (received + 1) full)
         else (Err QueueFull, test_queue ms total mm sm received (full + 1))).
Proof.
  intros Hc Hd Ht Hr Hf. unfold enqueue. rewrite plain_accept by done. cbn [mbind outcome_bind].
  pose proof (data_size_nonneg (data m)). cbn [messages max_messages max_size q_total_size test_queue].
  destruct (_ && _); cbn [negb].
  - rewrite plain_size by done. cbn [mbind outcome_bind q_total_size messages_received test_queue].
    rewrite uadd_val by lia. cbn [mbind outcome_bind]. by rewrite uadd_val by lia.
  - cbn [queue_full_count test_queue]. by rewrite uadd_val by lia.
Qed.

Lemma test_enqueue_ok ms total mm sm received full m :
  capabilities m = [] → data_size (data m) ≤ 2 ^ 32 → 0 ≤ total < 2 ^ 62 →
  0 ≤ received < 2 ^ 32 → 0 ≤ full < 2 ^ 32 →
  len ms < mm → total + header_size + data_size (data m) ≤ sm →
  enqueue (test_queue ms total mm sm received full) m =
    Val (Ok (), test_queue (vec_insert (insert_pos ms m) m ms) (total + (header_size + data_size (data m)))
                  mm sm (received + 1) full).
Proof.
  intros. rewrite test_enqueue by done. by rewrite (proj2 (Z.ltb_lt _ _)), (proj2 (Z.leb_le _ _)).
Qed.

(** The message a test makes, with the priority it sets. *)
Definition test_message (id : Z) (text : string) (p : Z) : Message :=
  {| header := {| message_id := id; sender := 2; receiver := 1; message_type := ServiceRequest;
                  msg_priority := p; timestamp := get_current_time_ms; reply_to := None; flags := default_flags |};
     data := Text text; capabilities := [] |}.
Lemma test_message_new next text : 0 ≤ next < 2 ^ 64 - 1 →
  message_new next 2 1 ServiceRequest (Text text) = Val (test_message next text 128, next + 1).
Proof. intros Hn. unfold message_new, generate_message_id. by rewrite uadd_val by lia. Qed.

Lemma queue_new_test : queue_new 1 = test_queue [] 0 256 65536 0 0.
Proof. done. Qed.

Ltac step_dequeue :=
  erewrite plain_dequeue; [|..|reflexivity]; [|reflexivity|cbn; lia]; step_asserts.

(** The first three tests pass, whatever the message counter holds, if the header is
    no larger than half a queue. *)
Lemma queue_tests_pass next : 0 ≤ next < 2 ^ 64 - 2 → header_size ≤ 32000 →
  run_tests [test_message_queue_creation; test_message_queue_enqueue_dequeue next;
             test_message_priority_ordering next] = Val ().
Proof.
  intros Hn Hs. apply run_tests_pass. repeat apply Forall_cons_2; try apply Forall_nil_2; [reflexivity|..].
  - unfold test_message_queue_enqueue_dequeue. rewrite queue_new_test, test_message_new by lia.
    cbn [mbind outcome_bind]. rewrite test_enqueue_ok by (try done; cbn; lia). step_asserts.
    step_dequeue. reflexivity.
  - unfold test_message_priority_ordering. rewrite queue_new_test, test_message_new by lia.
    cbn [mbind outcome_bind]. rewrite test_message_new by lia. cbn [mbind outcome_bind].
    rewrite test_enqueue_ok by (try done; cbn; lia). step_asserts.
    rewrite test_enqueue_ok by (try done; cbn; lia). step_asserts.
    step_dequeue.
    step_dequeue. reflexivity.
Qed.

(** The last sets [max_size] to 100 and sends two messages of four bytes: it passes
    only if a header takes at most 46 bytes. *)
Lemma test_queue_size_limits_spec next : 0 ≤ next < 2 ^ 64 - 1 →
  test_queue_size_limits next = if header_size <=? 46 then Val () else Panic.
Proof.
  intros Hn. unfold test_queue_size_limits. change (set_limits (queue_new 1) 2 100) with (test_queue [] 0 2 100 0 0).
  rewrite test_message_new by lia. cbn [mbind outcome_bind].
  rewrite test_enqueue by (try done; cbn; lia). cbn [data data_size test_message String.length].
  change (len [] <? 2) with true. cbn [andb].
  destruct (Z.leb_spec (0 + header_size + Z.of_nat 4) 100); cbn [mbind outcome_bind is_ok assert].
  2: { by rewrite (proj2 (Z.leb_gt _ _)) by lia. }
  cbn [is_ok assert mbind outcome_bind]. rewrite test_enqueue by (try done; cbn; lia).
  cbn [data data_size test_message String.length]. change (len _ <? 2) with true. cbn [andb].
  destruct (Z.leb_spec (0 + (header_size + Z.of_nat 4) + header_size + Z.of_nat 4) 100);
    [rewrite (proj2 (Z.leb_le header_size 46)) by lia|by rewrite (proj2 (Z.leb_gt header_size 46)) by lia].
  cbn [is_ok assert mbind outcome_bind]. rewrite test_enqueue by (try done; cbn; lia).
  reflexivity.
Qed.
End tests.
End QueueTests.

(** ** [capability_test.rs]

    The scenarios print what they find; here the findings are returned. *)
Module CapabilityScenario.
Section tests.
Context {P : Profile} {L : Layout} {W : PowerPolicy}.

Record security_report := {
  can_send_system : bool; can_send_user : bool; admin_request_valid : bool; receive_request_valid : bool;
  can_send_specific : option bool; statistics : CapabilityStatistics;
}.
Definition check (k : Kernel) (pid : Z) (ty : CapabilityType) (res : ResourceId) : outcome (bool * Kernel) :=
  '(b, c) ← check_capability (caps (ipc k)) pid ty res; Val (b, set_ipc k (set_caps (ipc k) c)).
Definition create (k : Kernel) (pid : Z) (ty : CapabilityType) (res : ResourceId) (granter : option Z) :
    outcome (result Z CapabilityError * Kernel) :=
  '(r, c) ← create_capability (caps (ipc k)) pid ty res granter; Val (r, set_ipc k (set_caps (ipc k) c)).

Definition test_capability_security (k : Kernel) : outcome (result security_report string * Kernel) :=
  let k := set_ipc k (set_caps (ipc k) (init_capability_system (caps (ipc k)))) in
  let k := init_security_policy k in
  let system_process := 100 in
  let user_process := 200 in
  let target_process := 300 in
  '(r, k) ← grant_system_process_capabilities k system_process;
  match r with
  | Err _ => Val (Err "Failed to grant system capabilities", k)
  | Ok _ =>
      '(r, k) ← grant_user_process_capabilities k user_process;
      match r with
      | Err _ => Val (Err "Failed to grant user capabilities", k)
      | Ok _ =>
          '(sys, k) ← check k system_process SendMessage (ProcessResource target_process);
          '(user, k) ← check k user_process SendMessage (ProcessResource target_process);
          '(admin, k) ← global_validate_capability_request k user_process Admin AnyResource;
          '(receive, k) ← global_validate_capability_request k user_process ReceiveMessage (ProcessResource user_process);
          '(r, k) ← create k user_process SendMessage (ProcessResource target_process) (Some system_process);
          '(specific, k) ← match r with
                           | Ok _ => '(b, k) ← check k user_process SendMessage (ProcessResource target_process);
                                     Val (Some b, k)
                           | Err _ => Val (None, k)
                           end;
          Val (Ok {| can_send_system := sys; can_send_user := user; admin_request_valid := admin;
                     receive_request_valid := receive; can_send_specific := specific;
                     statistics := get_capability_statistics (caps (ipc k)) |}, k)
      end
  end.

(** The results of the two sends. *)
Definition test_ipc_message_security (k : Kernel) :
    outcome (result (result unit MessageError * result unit MessageError) string * Kernel) :=
  let from := 400 in
  let to := 500 in
  '(r, k) ← grant_user_process_capabilities k from;
  match r with
  | Err _ => Val (Err "Failed to grant user capabilities to sender", k)
  | Ok _ =>
      '(r, k) ← grant_user_process_capabilities k to;
      match r with
      | Err _ => Val (Err "Failed to grant user capabilities to receiver", k)
      | Ok _ =>
          '(m, st) ← create_message (ipc k) from to ServiceRequest (Text "Test message");
          '(first, st) ← send_message st m;
          '(r, k) ← create (set_ipc k st) from SendMessage (ProcessResource to) None;
          match r with
          | Err _ => Val (Err "Failed to create specific capability", k)
          | Ok _ =>
              '(m, st) ← create_message (ipc k) from to ServiceRequest (Text "Test message 2");
              '(second, st) ← send_message st m;
              Val (Ok (first, second), set_ipc k st)
          end
      end
  end.
(** [run_capability_tests]. *)
Definition run_capability_tests (k : Kernel) :
    outcome (result (security_report * (result unit MessageError * result unit MessageError)) string * Kernel) :=
  '(r, k) ← test_capability_security k;
  match r with
  | Err e => Val (Err e, k)
  | Ok report =>
      '(r, k) ← test_ipc_message_security k;
      Val (match r with Ok sends => Ok (report, sends) | Err e => Err e end, k)
  end.
End tests.

(** On a booted kernel the first scenario finds what it says it should: the system
    process may send, the user process may not until it is given the capability, and may
    not administer; four checks were made and two failed.  The second does not test
    what it says: its processes are not in the process table, so both sends fail for
    that reason, the one with the proper capability too. *)
Lemma capability_scenarios {P : Profile} {L : Layout} {W : PowerPolicy} : ∃ k,
  run_capability_tests boot_core = Val (Ok
    ({| can_send_system := true; can_send_user := false; admin_request_valid := false;
        receive_request_valid := true; can_send_specific := Some true;
        statistics := {| st_total_capabilities := 10; st_expired_capabilities := 0;
          st_processes_with_capabilities := 2; st_total_created := 10; st_checks_performed := 4;
          st_checks_failed := 2 |} |},
     (Err SenderNotFound, Err SenderNotFound)), k).
Proof. eexists. destruct P; vm_compute; reflexivity. Qed.
End CapabilityScenario.
