(* ===== verification/TestsServices.v ===== *)
(** * Unit tests of system calls, file systems and the touch driver

    The tests of [numbers.rs], [error.rs], [validation.rs], [dispatcher.rs] and
    [mod.rs] (under [kernel/src/syscall/]), of [ext4.rs] and [vfs.rs] (under
    [userspace/fs-service/src/]) and of [drivers/touch/src/lib.rs]. *)
From S2P Require Import Prelude Capability Process Ipc Syscall FileSystem Ext4 Vfs Touch Testing.

(** ** System calls *)
Module SyscallTests.

#[export] Instance Checked_eq_dec : EqDecision Checked := result_eq_dec (EqDecision1 := Sys.SyscallError_eq_dec).
#[export] Instance SyscallResult_eq_dec : EqDecision SyscallResult := result_eq_dec (EqDecision1 := Sys.SyscallError_eq_dec).

Definition no_args : Args := {| arg0 := 0; arg1 := 0; arg2 := 0; arg3 := 0; arg4 := 0; arg5 := 0 |}.
Definition three_args (a b c : Z) : Args :=
  {| arg0 := a; arg1 := b; arg2 := c; arg3 := 0; arg4 := 0; arg5 := 0 |}.

Section tests.
Context {P : Profile} {L : Layout}.

Definition test_valid_syscall_numbers : outcome unit :=
  assert (is_valid_syscall_number SYS_EXIT);; assert (is_valid_syscall_number SYS_READ);;
  assert (is_valid_syscall_number SYS_SEND_MESSAGE);; assert_not (is_valid_syscall_number 0);;
  n ← uadd 64 MAX_SYSCALL_NUMBER 1; assert_not (is_valid_syscall_number n).
Definition test_syscall_names : outcome unit :=
  assert_eq (syscall_name SYS_EXIT) "exit";; assert_eq (syscall_name SYS_READ) "read";;
  assert_eq (syscall_name SYS_SEND_MESSAGE) "send_message";; assert_eq (syscall_name 999) "unknown".

Definition test_error_to_errno : outcome unit :=
  assert_eq (to_errno Sys.InvalidArgument) (-22);; assert_eq (to_errno Sys.PermissionDenied) (-13);;
  assert_eq (to_errno Sys.NotFound) (-2);; assert_eq (to_errno Sys.OutOfMemory) (-12).
Definition test_error_descriptions : outcome unit :=
  assert_eq (description Sys.InvalidArgument) "Invalid argument";;
  assert_eq (description Sys.PermissionDenied) "Permission denied";;
  assert_eq (description Sys.NotFound) "Resource not found".
(** [Display] writes the description. *)
Definition test_error_display : outcome unit :=
  let error := Sys.InvalidArgument in assert_eq (description error) "Invalid argument".

Definition test_validate_syscall_args : outcome unit :=
  assert (is_ok (validate_syscall_args 1 SYS_GETPID no_args));;
  assert_eq (validate_syscall_args 1 999 no_args) (Err Sys.InvalidSyscall).
Definition test_validate_file_descriptor : outcome unit :=
  assert (is_ok (validate_file_descriptor 0));; assert (is_ok (validate_file_descriptor 10));;
  assert_eq (validate_file_descriptor 2000) (Err Sys.BadFileDescriptor).

(** The tests of the dispatcher run on the global state at hand. *)
Definition test_dispatch_syscall (st : IpcState) : outcome unit :=
  '(r, st) ← dispatch_syscall st 1 SYS_GETPID no_args; assert_eq r (Ok 1);;
  '(r, _) ← dispatch_syscall st 1 999 no_args; assert_eq r (Err Sys.InvalidSyscall).
Definition test_sys_getpid : outcome unit := assert_eq (sys_getpid 42 no_args) (Ok 42).
Definition test_sys_exit : outcome unit := assert_eq (sys_exit 1 no_args) (Ok 0).
Definition test_sys_fork (st : IpcState) : outcome unit :=
  '(r, _) ← sys_fork st 1 no_args; assert (is_ok r || is_err r).
Definition test_sys_mmap : outcome unit :=
  assert (is_ok (sys_mmap 1 (three_args 0 4096 3)));;
  assert_eq (sys_mmap 1 (three_args 0 0 3)) (Err Sys.InvalidArgument).
(** The mode is written [0644], which Rust reads in decimal. *)
Definition test_sys_open : outcome unit :=
  assert_eq (sys_open 1 (three_args 0x1000 0 644)) (Ok 3);;
  assert_eq (sys_open 1 (three_args 0x1000 999 644)) (Err Sys.InvalidArgument).
Definition test_sys_read : outcome unit :=
  assert_eq (sys_read 1 (three_args 0 0x1000 100)) (Ok 0);;
  assert_eq (sys_read 1 (three_args 3 0x1000 100)) (Ok 100);;
  assert_eq (sys_read 1 (three_args 3 0x1000 0)) (Ok 0).
Definition test_syscall_interface_init : outcome unit := assert (is_ok init_syscall_interface).

Definition syscall_tests (st : IpcState) : outcome unit :=
  run_tests [test_valid_syscall_numbers; test_syscall_names; test_error_to_errno; test_error_descriptions;
             test_error_display; test_validate_syscall_args; test_validate_file_descriptor;
             test_dispatch_syscall st; test_sys_getpid; test_sys_exit; test_sys_fork st; test_sys_mmap;
             test_sys_open; test_sys_read; test_syscall_interface_init].

End tests.

(** The tests do not depend on the global state, which [fork] alone reads: they pass
    unless the next process id overflows. *)
Lemma syscall_tests_pass {P : Profile} {L : Layout} st :
  (∀ t, table st = Some t → 0 ≤ next_pid t < 2 ^ 32 - 1) → syscall_tests st = Val ().
Proof.
  intros Ht. apply run_tests_pass.
  assert (test_sys_fork st = Val ()) as Hfork.
  { unfold test_sys_fork, sys_fork, create_process_global. destruct (table st) as [t|]; [|done].
    specialize (Ht t eq_refl). unfold create_process. destruct (_ <=? _); [done|]. by rewrite uadd_val by lia. }
  clear Ht. repeat apply Forall_cons_2; try apply Forall_nil_2; try exact Hfork; clear Hfork; destruct P; reflexivity.
Qed.
End SyscallTests.

(** ** [ext4.rs] *)
Module Ext4Tests.
Section tests.
Context {P : Profile}.

Definition test_ext4_creation : outcome unit :=
  let fs := Ext4.new in
  assert_not (mounted fs);; assert_not (is_some (superblock fs));; assert_eq (block_size fs) 0.
Definition test_ext4_mount : outcome unit :=
  '(r, fs) ← Ext4.mount Ext4.new (Some 1); assert (is_ok r);;
  assert (mounted fs);; assert (is_some (superblock fs));; assert_eq (block_size fs) 1024.
Definition test_ext4_unmount : outcome unit :=
  '(r, fs) ← Ext4.mount Ext4.new (Some 1); assert (is_ok r);;
  '(r, fs) ← Ext4.unmount fs; assert (is_ok r);;
  assert_not (mounted fs);; assert_not (is_some (superblock fs)).
Definition test_file_type_conversion : outcome unit :=
  assert_eq (ext4_to_vfs_file_type EXT4_FT_REG_FILE) Regular;;
  assert_eq (ext4_to_vfs_file_type EXT4_FT_DIR) Directory;;
  assert_eq (ext4_to_vfs_file_type EXT4_FT_SYMLINK) SymbolicLink.
Definition test_inode_mode_conversion : outcome unit :=
  assert_eq (inode_mode_to_file_type EXT4_S_IFREG) Regular;;
  assert_eq (inode_mode_to_file_type EXT4_S_IFDIR) Directory;;
  assert_eq (inode_mode_to_file_type EXT4_S_IFLNK) SymbolicLink.
Definition test_create_file : outcome unit :=
  '(r, fs) ← Ext4.mount Ext4.new (Some 1); assert (is_ok r);;
  '(inode_num, fs) ← Ext4.create fs "/test.txt" Regular (Z.lor OWNER_READ OWNER_WRITE);
  assert (is_ok inode_num);;
  i ← unwrap_ok inode_num;
  '(inode, _) ← Ext4.read_inode fs i; assert (is_ok inode).
Definition test_read_write : outcome unit :=
  '(r, fs) ← Ext4.mount Ext4.new (Some 1); assert (is_ok r);;
  '(r, fs) ← Ext4.create fs "/test.txt" Regular (Z.lor OWNER_READ OWNER_WRITE); inode_num ← unwrap_ok r;
  let data := [72; 101; 108; 108; 111; 44; 32; 101; 120; 116; 52; 33] in
  '(written, fs) ← Ext4.write fs inode_num 0 data; assert (is_ok written);;
  n ← unwrap_ok written; assert_eq n (len data);;
  let buffer := replicate (length data) 0 in
  '(got, _, _) ← Ext4.read fs inode_num 0 buffer; assert (is_ok got);;
  n ← unwrap_ok got; assert_eq n (len data).

Lemma ext4_tests_pass :
  run_tests [test_ext4_creation; test_ext4_mount; test_ext4_unmount; test_file_type_conversion;
             test_inode_mode_conversion; test_create_file; test_read_write] = Val ().
Proof. run_all. Qed.
End tests.
End Ext4Tests.

(** ** [vfs.rs] *)
Module VfsTests.
Section tests.
Context {P : Profile}.

Definition test_vfs_creation : outcome unit :=
  let v : Vfs Ext4FileSystem := vfs_new in
  assert_eq (base.size (mount_points v)) 0%nat;; assert_eq (base.size (open_files v)) 0%nat;; assert_eq (next_fd v) 1.

Definition test_mount_unmount : outcome unit :=
  '(r, v) ← vfs_mount Ext4.new vfs_new "/" FsExt4 None false; assert (is_ok r);;
  assert_eq (base.size (mount_points v)) 1%nat;;
  '(r, v) ← vfs_mount Ext4.new v "/" TmpFs None false; assert_eq r (Err MountPointBusy);;
  '(r, v) ← vfs_unmount v "/"; assert (is_ok r);;
  assert_eq (base.size (mount_points v)) 0%nat;;
  '(r, v) ← vfs_unmount v "/nonexistent"; assert_eq r (Err NotMounted).

Definition test_invalid_mount_paths : outcome unit :=
  '(r, v) ← vfs_mount Ext4.new vfs_new "" FsExt4 None false; assert_eq r (Err InvalidPath);;
  '(r, v) ← vfs_mount Ext4.new v "relative" FsExt4 None false; assert_eq r (Err InvalidPath).

Definition hello : list Z :=
  [72; 101; 108; 108; 111; 44; 32; 101; 120; 116; 52; 32; 116; 104; 114; 111; 117; 103; 104; 32; 86; 70; 83; 33].

Definition test_ext4_integration : outcome unit :=
  '(r, v) ← vfs_mount Ext4.new vfs_new "/" FsExt4 (Some 1) false; assert (is_ok r);;
  '(r, v) ← vfs_create v "/test.txt" Regular (Z.lor OWNER_READ OWNER_WRITE); assert (is_ok r);;
  '(fd, v) ← vfs_open v "/test.txt" READ_WRITE; assert (is_ok fd);;
  fd ← unwrap_ok fd;
  '(written, v) ← vfs_write v fd hello; assert (is_ok written);;
  n ← unwrap_ok written; assert_eq n (len hello);;
  let v := set_open v (alter (λ f, set_offset f 0) fd (open_files v)) in
  '(got, _, v) ← vfs_read v fd (replicate (length hello) 0); assert (is_ok got);;
  n ← unwrap_ok got; assert_eq n (len hello);;
  '(r, v) ← vfs_close v fd; assert (is_ok r);;
  '(metadata, v) ← vfs_stat v "/test.txt"; assert (is_ok metadata);;
  m ← unwrap_ok metadata; assert_eq (file_type m) Regular;;
  '(r, v) ← vfs_mkdir v "/testdir" (Z.lor (Z.lor OWNER_READ OWNER_WRITE) OWNER_EXECUTE); assert (is_ok r);;
  '(entries, v) ← vfs_readdir v "/testdir"; assert (is_ok entries);;
  es ← unwrap_ok entries; assert_eq (len es) 2;;
  '(r, v) ← vfs_unmount v "/"; assert (is_ok r).

Lemma vfs_tests_pass :
  run_tests [test_vfs_creation; test_mount_unmount; test_invalid_mount_paths; test_ext4_integration] = Val ().
Proof. run_all. Qed.
End tests.
End VfsTests.

(** ** [drivers/touch/src/lib.rs] *)
Module TouchTests.
Section tests.
Context {P : Profile} {I : DriverInterface}.

Definition event (force : Z) : TouchInputEvent :=
  {| event_type := Down; x := 1000; y := 2000; pressure := force; timestamp_us := 0; touch_id := 0 |}.

Definition test_touch_driver_creation : outcome unit :=
  let driver := Touch.new in
  assert_eq (len (input_buffer driver)) 0;; assert_eq (max_buffer_size driver) 64.
Definition test_calibration_application : outcome unit :=
  calibrated ← apply_calibration Touch.new (event 100);
  assert_eq (x calibrated) 1000;; assert_eq (y calibrated) 2000.
Definition test_sensitivity_filtering : outcome unit :=
  let driver := Touch.new in
  low ← passes_sensitivity_filter driver (event 5); assert_not low;;
  good ← passes_sensitivity_filter driver (event 50); assert good.

Lemma touch_tests_pass :
  run_tests [test_touch_driver_creation; test_calibration_application; test_sensitivity_filtering] = Val ().
Proof. run_all. Qed.
End tests.
End TouchTests.
