(* ===== verification/TestsUser.v ===== *)
(** * Unit tests of the drivers and the shell

    The tests of [drivers/keyboard/src/tests.rs] and
    [drivers/keyboard/src/integration_test.rs], of [drivers/graphics/src/tests.rs] and of
    [userspace/shell/src/tests.rs], one module per source file. *)
From S2P Require Import Prelude DriverKit Text Service Shell Vga Keyboard Testing.

#[export] Instance DriverErrorCode_eq_dec : EqDecision DriverErrorCode.
Proof. solve_decision. Defined.
#[export] Instance DriverStatus_eq_dec : EqDecision DriverStatus.
Proof. solve_decision. Defined.
Definition is_success (r : result DriverResponse DriverError) : bool :=
  match r with Ok Success => true | _ => false end.
Definition is_refused (r : result DriverResponse DriverError) : bool :=
  match r with Err InvalidRequest => true | _ => false end.

(** ** [drivers/keyboard/src/tests.rs] *)
Module KeyboardTests.

(** A driver after [init]. *)
Definition keyboard_ready : outcome PS2KeyboardDriver :=
  '(r, d) ← Keyboard.init [] Keyboard.new; _ ← unwrap_ok r; Val d.
Definition next_event (d : PS2KeyboardDriver) : outcome (InputEvent * PS2KeyboardDriver) :=
  let '(e, d) := get_next_event d in e ← unwrap e; Val (e, d).

Definition test_keyboard_driver_creation : outcome unit :=
  let d := Keyboard.new in
  assert_eq (Keyboard.get_status d) Uninitialized;; assert_not (has_events d);; assert_eq (event_count d) 0.
Definition test_keyboard_driver_initialization : outcome unit :=
  '(r, d) ← Keyboard.init [] Keyboard.new;
  assert (is_ok r);; assert_eq (Keyboard.get_status d) Ready.

Definition test_scancode_to_keycode_conversion : outcome unit :=
  let d := Keyboard.new in
  assert_eq (scancode_to_keycode d 0x1E) KeyA;; assert_eq (scancode_to_keycode d 0x30) KeyB;;
  assert_eq (scancode_to_keycode d 0x2C) KeyZ;; assert_eq (scancode_to_keycode d 0x02) Key1;;
  assert_eq (scancode_to_keycode d 0x0A) Key9;; assert_eq (scancode_to_keycode d 0x0B) Key0;;
  assert_eq (scancode_to_keycode d 0x01) Escape;; assert_eq (scancode_to_keycode d 0x39) Space;;
  assert_eq (scancode_to_keycode d 0x1C) Enter;; assert_eq (scancode_to_keycode d 0xFF) Unknown.

(** Characters by their codes. *)
Definition test_keycode_to_ascii_conversion : outcome unit :=
  let d := Keyboard.new in
  assert_eq (keycode_to_ascii d KeyA) (Some 97);; assert_eq (keycode_to_ascii d KeyZ) (Some 122);;
  let d := set_modifiers d (flag_insert (modifiers d) SHIFT) in
  assert_eq (keycode_to_ascii d KeyA) (Some 65);; assert_eq (keycode_to_ascii d KeyZ) (Some 90);;
  let d := set_modifiers d (flag_remove (modifiers d) SHIFT) in
  assert_eq (keycode_to_ascii d Key1) (Some 49);; assert_eq (keycode_to_ascii d Key0) (Some 48);;
  let d := set_modifiers d (flag_insert (modifiers d) SHIFT) in
  assert_eq (keycode_to_ascii d Key1) (Some 33);; assert_eq (keycode_to_ascii d Key0) (Some 41);;
  let d := set_modifiers d 0 in
  assert_eq (keycode_to_ascii d Space) (Some 32);; assert_eq (keycode_to_ascii d Tab) (Some 9);;
  assert_eq (keycode_to_ascii d Enter) (Some 10);; assert_eq (keycode_to_ascii d F1) None;;
  assert_eq (keycode_to_ascii d ArrowUp) None.

Definition test_modifier_state_management : outcome unit :=
  let d := update_modifiers Keyboard.new LeftShift KeyPress in
  assert (contains (modifiers d) SHIFT);;
  let d := update_modifiers d LeftShift KeyRelease in
  assert_not (contains (modifiers d) SHIFT);;
  let d := update_modifiers d LeftCtrl KeyPress in
  assert (contains (modifiers d) CTRL);;
  let d := update_modifiers d LeftCtrl KeyRelease in
  assert_not (contains (modifiers d) CTRL);;
  let d := update_modifiers d CapsLock KeyPress in
  assert (contains (modifiers d) CAPS_LOCK);;
  let d := update_modifiers d CapsLock KeyPress in
  assert_not (contains (modifiers d) CAPS_LOCK).

Definition test_scancode_processing : outcome unit :=
  d ← keyboard_ready;
  d ← process_scancode d 0x1E;
  assert (has_events d);; assert_eq (event_count d) 1;;
  '(e, d) ← next_event d;
  assert_eq (event_type e) KeyPress;; assert_eq (key_code e) KeyA;; assert_eq (scancode e) 0x1E;;
  assert_eq (ascii_char e) (Some 97);;
  d ← process_scancode d 0x9E;
  assert (has_events d);;
  '(e, _) ← next_event d;
  assert_eq (event_type e) KeyRelease;; assert_eq (key_code e) KeyA;; assert_eq (ascii_char e) None.

Definition test_extended_scancode_processing : outcome unit :=
  d ← keyboard_ready;
  d ← process_scancode d 0xE0;
  assert_not (has_events d);;
  d ← process_scancode d 0x48;
  assert (has_events d);;
  '(e, _) ← next_event d;
  assert_eq (key_code e) ArrowUp;; assert_eq (scancode e) 0x48.

Definition test_event_queue_management : outcome unit :=
  d ← keyboard_ready;
  let d := set_max_queue_size d 3 in
  d ← process_scancode d 0x1E;
  d ← process_scancode d 0x30;
  d ← process_scancode d 0x2E;
  assert_eq (event_count d) 3;;
  d ← process_scancode d 0x20;
  assert_eq (event_count d) 3;;
  '(e, _) ← next_event d;
  assert_eq (key_code e) KeyB.

Definition test_driver_requests : outcome unit :=
  d ← keyboard_ready;
  '(r, d) ← Keyboard.handle_request Initialize d;
  assert (is_success r);;
  '(r, d) ← Keyboard.handle_request (Query QStatus) d;
  assert (match r with Ok (Status Ready) => true | _ => false end);;
  '(r, _) ← Keyboard.handle_request (Query QHardwareInfo) d;
  assert (match r with Ok (Info _) => true | _ => false end).

Definition test_control_commands : outcome unit :=
  d ← keyboard_ready;
  d ← process_scancode d 0x1E;
  d ← process_scancode d 0x30;
  assert_eq (event_count d) 2;;
  '(r, d) ← Keyboard.handle_request (Control 0x01 []) d;
  assert (is_success r);; assert_eq (event_count d) 0;;
  '(r, d) ← Keyboard.handle_request (Control 0x02 [10]) d;
  assert (is_success r);; assert_eq (max_queue_size d) 10;;
  '(r, d) ← Keyboard.handle_request (Control 0x03 [0x1E]) d;
  assert (is_success r);; assert_eq (event_count d) 1.

Definition test_read_events : outcome unit :=
  d ← keyboard_ready;
  d ← process_scancode d 0x1E;
  d ← process_scancode d 0x9E;
  '(r, d) ← Keyboard.handle_request (Read 0 1024) d;
  match r with
  | Ok (Data data) => assert_not (is_empty data);; assert_eq (len data) 12
  | _ => Panic
  end;;
  assert_eq (event_count d) 0.

Definition test_power_management : outcome unit :=
  d ← keyboard_ready;
  d ← process_scancode d 0x1E;
  assert (has_events d);;
  '(r, d) ← Keyboard.handle_power_event Suspend d;
  assert (is_ok r);; assert_eq (Keyboard.get_status d) Suspended;; assert_not (has_events d);;
  '(r, d) ← Keyboard.handle_power_event Resume d;
  assert (is_ok r);; assert_eq (Keyboard.get_status d) Ready;;
  '(r, d) ← Keyboard.handle_power_event PowerDown d;
  assert (is_ok r);; assert_eq (Keyboard.get_status d) Uninitialized.

Definition test_driver_capabilities : outcome unit :=
  let required := Keyboard.get_required_capabilities Keyboard.new in
  assert_not (is_empty required);;
  assert (existsb (λ c, match c with HardwareAccess => true | _ => false end) required);;
  assert (existsb (λ c, match c with Hardware (IoPort _ _) => true | _ => false end) required);;
  assert (existsb (λ c, match c with Hardware (Interrupt 1) => true | _ => false end) required);;
  let provided := Keyboard.get_provided_capabilities Keyboard.new in
  assert_not (is_empty provided);;
  assert (existsb (λ c, match c with CapCustom n => bool_decide (n = "keyboard_input"%string) | _ => false end) provided).

Definition hardware (v d : Z) : HardwareId :=
  {| vendor_id := v; device_id := d; subsystem_vendor_id := None; subsystem_device_id := None |}.
Definition test_driver_factory : outcome unit :=
  assert_eq Keyboard.get_driver_type Input;;
  assert (Keyboard.can_handle (hardware 0x0000 0x0001));;
  assert_not (Keyboard.can_handle (hardware 0x1234 0x5678));;
  assert (is_ok (Keyboard.create_driver (hardware 0x0000 0x0001))).

Definition test_caps_lock_behavior : outcome unit :=
  d ← keyboard_ready;
  d ← process_scancode d 0x1E;
  '(e, d) ← next_event d;
  assert_eq (ascii_char e) (Some 97);;
  d ← process_scancode d 0x3A;
  '(_, d) ← next_event d;
  assert (contains (modifiers d) CAPS_LOCK);;
  d ← process_scancode d 0x1E;
  '(e, d) ← next_event d;
  assert_eq (ascii_char e) (Some 65);;
  d ← process_scancode d 0x2A;
  '(_, d) ← next_event d;
  d ← process_scancode d 0x1E;
  '(e, _) ← next_event d;
  assert_eq (ascii_char e) (Some 97).

Definition test_cleanup : outcome unit :=
  d ← keyboard_ready;
  d ← process_scancode d 0x2A;
  d ← process_scancode d 0x1E;
  assert (has_events d);; assert (contains (modifiers d) SHIFT);;
  '(r, d) ← Keyboard.cleanup d;
  assert (is_ok r);; assert_eq (Keyboard.get_status d) Uninitialized;; assert_not (has_events d);;
  assert_eq (modifiers d) 0.

Lemma keyboard_tests_pass :
  run_tests [test_keyboard_driver_creation; test_keyboard_driver_initialization;
             test_scancode_to_keycode_conversion; test_keycode_to_ascii_conversion;
             test_modifier_state_management; test_scancode_processing; test_extended_scancode_processing;
             test_event_queue_management; test_driver_requests; test_control_commands; test_read_events;
             test_power_management; test_driver_capabilities; test_driver_factory; test_caps_lock_behavior;
             test_cleanup] = Val ().
Proof. run_all. Qed.
End KeyboardTests.

(** ** [drivers/keyboard/src/integration_test.rs] *)
Module KeyboardIntegration.

Import KeyboardTests.

Definition type_keys (scancodes : list Z) (d : PS2KeyboardDriver) : outcome PS2KeyboardDriver :=
  for_each (λ sc d, process_scancode d sc) scancodes d.
(** [driver.handle_request(Read ..)], which has to answer with data. *)
Definition read_events (d : PS2KeyboardDriver) : outcome (list Z * PS2KeyboardDriver) :=
  '(r, d) ← Keyboard.handle_request (Read 0 1024) d;
  match r with Ok (Data data) => Val (data, d) | _ => Panic end.
Definition assert_at (data : list Z) (i v : Z) : outcome unit := b ← index data i; assert_eq b v.

Definition test_user_space_communication : outcome unit :=
  d ← keyboard_ready;
  d ← type_keys [0x23; 0x12; 0x26; 0x26; 0x18] d;
  '(data, d) ← read_events d;
  assert_eq (len data) 30;;
  assert_at data 0 (event_type_u8 KeyPress);; assert_at data 1 (key_code_u8 KeyH);;
  assert_at data 2 0x23;; assert_at data 4 1;; assert_at data 5 104;;
  assert_eq (event_count d) 0.
Definition test_status_queries : outcome unit :=
  d ← keyboard_ready;
  '(r, d) ← Keyboard.handle_request (Query QStatus) d;
  match r with Ok (Status s) => assert_eq s Ready | _ => Panic end;;
  '(r, _) ← Keyboard.handle_request (Query QHardwareInfo) d;
  match r with
  | Ok (Info i) => assert_eq (DriverKit.name i) "PS/2 Keyboard Driver";; assert_eq (driver_type i) Input
  | _ => Panic
  end.
Definition test_system_control : outcome unit :=
  d ← keyboard_ready;
  d ← type_keys [0x1E; 0x30] d;
  assert_eq (event_count d) 2;;
  '(r, d) ← Keyboard.handle_request (Control 0x01 []) d;
  assert (is_success r);; assert_eq (event_count d) 0;;
  '(r, d) ← Keyboard.handle_request (Control 0x02 [50]) d;
  assert (is_success r);; assert_eq (max_queue_size d) 50.
Definition test_error_handling : outcome unit :=
  d ← keyboard_ready;
  '(r, d) ← Keyboard.handle_request (Control 0xFF []) d;
  assert (is_refused r);;
  '(r, d) ← Keyboard.handle_request (Control 0x02 [0]) d;
  assert (is_refused r);;
  '(r, _) ← Keyboard.handle_request (Write 0 [1; 2; 3]) d;
  assert (is_refused r).
Definition test_modifier_combinations : outcome unit :=
  d ← keyboard_ready;
  d ← type_keys [0x1D; 0x2E] d;
  '(data, _) ← read_events d;
  assert_eq (len data) 12;;
  m ← index data 9; assert_eq (Z.land m CTRL) CTRL.
Definition test_special_keys : outcome unit :=
  d ← keyboard_ready;
  d ← type_keys [0xE0; 0x48; 0x3B] d;
  '(data, _) ← read_events d;
  assert_eq (len data) 12;;
  assert_at data 1 (key_code_u8 ArrowUp);; assert_at data 4 0;;
  assert_at data 7 (key_code_u8 F1);; assert_at data 10 0.
Definition test_queue_overflow : outcome unit :=
  d ← keyboard_ready;
  let d := set_max_queue_size d 3 in
  d ← type_keys [0x1E; 0x30; 0x2E; 0x20; 0x12] d;
  assert_eq (event_count d) 3;;
  '(data, _) ← read_events d;
  assert_eq (len data) 18;; assert_at data 1 (key_code_u8 KeyC).
Definition test_power_management_integration : outcome unit :=
  d ← keyboard_ready;
  d ← type_keys [0x1E] d;
  assert (has_events d);;
  '(r, d) ← Keyboard.handle_power_event Suspend d;
  assert (is_ok r);; assert_eq (Keyboard.get_status d) Suspended;; assert_not (has_events d);;
  '(r, d) ← Keyboard.handle_power_event Resume d;
  assert (is_ok r);; assert_eq (Keyboard.get_status d) Ready;;
  d ← type_keys [0x30] d;
  assert (has_events d).

Lemma keyboard_integration_tests_pass :
  run_tests [test_user_space_communication; test_status_queries; test_system_control; test_error_handling;
             test_modifier_combinations; test_special_keys; test_queue_overflow;
             test_power_management_integration] = Val ().
Proof. run_all. Qed.
End KeyboardIntegration.

(** ** [drivers/graphics/src/tests.rs] *)
Module VgaTests.
Section tests.
(** What the screen memory holds. *)
Context (memory : list (list VgaChar)).

Definition vga_ready : outcome VgaTextDriver :=
  '(r, d) ← Vga.init [] (Vga.new memory); _ ← unwrap_ok r; Val d.

Definition test_vga_driver_initialization : outcome unit :=
  '(r, d) ← Vga.init [] (Vga.new memory);
  assert (is_ok r);; assert_eq (Vga.get_status d) Ready.
Definition test_vga_driver_write_text : outcome unit :=
  d ← vga_ready;
  '(r, _) ← Vga.handle_request (Write 0 (txt "Hello, World!")) d;
  assert (is_ok r);; assert (is_success r).
Definition test_vga_driver_color_control : outcome unit :=
  d ← vga_ready;
  '(r, _) ← Vga.handle_request (Control 0x02 [color_u8 Red; color_u8 Blue]) d;
  assert (is_ok r);; assert (is_success r).
Definition test_vga_driver_clear_screen : outcome unit :=
  d ← vga_ready;
  '(r, _) ← Vga.handle_request (Control 0x01 []) d;
  assert (is_ok r);; assert (is_success r).
Definition test_vga_driver_cursor_control : outcome unit :=
  d ← vga_ready;
  '(r, d) ← Vga.handle_request (Control 0x03 [5; 10]) d;
  assert (is_ok r);; assert (is_success r);;
  let '(row, col) := get_cursor d in
  assert_eq row 5;; assert_eq col 10.
Definition test_vga_driver_query_status : outcome unit :=
  d ← vga_ready;
  '(r, _) ← Vga.handle_request (Query QStatus) d;
  assert (is_ok r);;
  a ← unwrap_ok r;
  match a with Status s => assert_eq s Ready | _ => Panic end.
Definition test_vga_driver_query_info : outcome unit :=
  d ← vga_ready;
  '(r, _) ← Vga.handle_request (Query QHardwareInfo) d;
  assert (is_ok r);;
  a ← unwrap_ok r;
  match a with
  | Info i =>
      assert_eq (DriverKit.name i) "VGA Text Mode Driver";; assert_eq (version i) "1.0.0";;
      assert_eq (vendor i) "Kosh OS"
  | _ => Panic
  end.
Definition test_vga_driver_error_handling : outcome unit :=
  d ← vga_ready;
  '(r, _) ← Vga.handle_request (Control 0xFF []) d;
  assert (is_err r);; assert (is_refused r).
Definition test_vga_driver_invalid_color : outcome unit :=
  d ← vga_ready;
  '(r, _) ← Vga.handle_request (Control 0x02 [16; 17]) d;
  assert (is_err r);; assert (is_refused r).
Definition test_vga_driver_power_management : outcome unit :=
  d ← vga_ready;
  '(r, d) ← Vga.handle_power_event Suspend d;
  assert (is_ok r);; assert_eq (Vga.get_status d) Suspended;;
  '(r, d) ← Vga.handle_power_event Resume d;
  assert (is_ok r);; assert_eq (Vga.get_status d) Ready.
Definition test_vga_driver_cleanup : outcome unit :=
  d ← vga_ready;
  '(r, d) ← Vga.cleanup d;
  assert (is_ok r);; assert_eq (Vga.get_status d) Uninitialized.
Definition test_vga_driver_capabilities : outcome unit :=
  let d := Vga.new memory in
  let required := Vga.get_required_capabilities d in
  assert (bool_decide (MemoryAccess ∈ required));; assert (bool_decide (HardwareAccess ∈ required));;
  let provided := Vga.get_provided_capabilities d in
  assert (bool_decide (TextOutput ∈ provided));; assert (bool_decide (GraphicsOutput ∈ provided)).
Definition test_vga_driver_invalid_utf8 : outcome unit :=
  d ← vga_ready;
  '(r, _) ← Vga.handle_request (Write 0 [0xFF; 0xFE; 0xFD]) d;
  assert (is_err r);; assert (is_refused r).

Definition vga_tests : outcome unit :=
  run_tests [test_vga_driver_initialization; test_vga_driver_write_text; test_vga_driver_color_control;
             test_vga_driver_clear_screen; test_vga_driver_cursor_control; test_vga_driver_query_status;
             test_vga_driver_query_info; test_vga_driver_error_handling; test_vga_driver_invalid_color;
             test_vga_driver_power_management; test_vga_driver_cleanup; test_vga_driver_capabilities;
             test_vga_driver_invalid_utf8].
End tests.

Lemma vga_tests_pass : vga_tests demo_screen = Val ().
Proof. run_all. Qed.
End VgaTests.

(** ** [userspace/shell/src/tests.rs] *)
Module ShellTests.

#[export] Instance ErrorCategory_eq_dec : EqDecision ErrorCategory.
Proof. solve_decision. Defined.

Definition test_shell_error_user_message : outcome unit :=
  assert_eq (user_message (InvalidCommand (txt "nonexistent"))) (txt "Command not found: nonexistent");;
  assert_eq (user_message (FileNotFound (txt "/path/to/file"))) (txt "File not found: /path/to/file").
Definition test_shell_error_category : outcome unit :=
  assert_eq (category (InvalidCommand (txt "test"))) CatParse;;
  assert_eq (category (FileNotFound (txt "test"))) CatFileSystem.
Definition test_shell_error_suggestions : outcome unit :=
  assert (is_some (suggest_fix (InvalidCommand (txt "ls"))));;
  assert_not (is_some (suggest_fix (InternalError (txt "test")))).
Definition test_environment_variables : outcome unit :=
  env ← set_var environment_new (txt "TEST_VAR") (txt "test_value");
  assert_eq (get_var env (txt "TEST_VAR")) (Some (txt "test_value"));;
  let env := unset_var env (txt "TEST_VAR") in
  assert_eq (get_var env (txt "TEST_VAR")) None.
Definition test_command_parser_basic : outcome unit :=
  r ← parse (txt "ls -la /home");
  assert (is_ok r);;
  parsed ← unwrap_ok r;
  assert_eq (command parsed) (txt "ls");; assert_eq (args parsed) [txt "-la"; txt "/home"];;
  assert_not (background parsed);; assert_not (is_some (pipe_to parsed)).
Definition test_command_parser_empty : outcome unit :=
  r ← parse (txt "");
  assert (is_err r);;
  match r with Err (ParseError _) => Val () | _ => Panic end.
Definition test_execution_context_initialization : outcome unit :=
  '(r, c) ← context_initialize context_new;
  assert (is_ok r);;
  assert_eq (get_var (environment c) (txt "PWD")) (Some (txt "/"));;
  assert_eq (get_var (environment c) (txt "HOME")) (Some (txt "/home/user"));;
  assert (is_some (get_var (environment c) (txt "PATH"))).
Definition test_background_job_management `{Profile} : outcome unit :=
  '(id, c) ← add_background_job context_new 123 (txt "test command");
  assert_eq id 1;;
  let jobs := get_background_jobs c in
  assert_eq (len jobs) 1;;
  j ← index jobs 0;
  assert_eq (job_pid j) 123;; assert_eq (job_command j) (txt "test command");;
  let c := cleanup_completed_jobs (update_job_status c id (JobCompleted 0)) in
  assert_eq (len (get_background_jobs c)) 0.

(** [str::contains]. *)
Fixpoint text_contains (s pattern : text) : bool :=
  bool_decide (pattern = take (length pattern) s) || match s with [] => false | _ :: s => text_contains s pattern end.
Definition test_command_processor_basic : outcome unit :=
  r ← process_command (txt "help");
  assert (is_ok r);;
  output ← unwrap_ok r; assert (text_contains output (txt "Available commands")).
Definition test_command_processor_invalid_command : outcome unit :=
  r ← process_command (txt "nonexistent_command");
  assert (is_err r);;
  match r with Err (InvalidCommand cmd) => assert_eq cmd (txt "nonexistent_command") | _ => Panic end.

Lemma shell_tests_pass `{Profile} :
  run_tests [test_shell_error_user_message; test_shell_error_category; test_shell_error_suggestions;
             test_environment_variables; test_command_parser_basic; test_command_parser_empty;
             test_execution_context_initialization; test_background_job_management;
             test_command_processor_basic; test_command_processor_invalid_command] = Val ().
Proof. run_all. Qed.
End ShellTests.
