(* ===== verification/TestsPlatform.v ===== *)
(** * Unit tests of the platform layer

    The tests of [kernel/src/platform/tests.rs], for both architectures.  Each test runs
    on the platform globals the tests before it left behind. *)
From S2P Require Import Prelude Platform X86_64 AArch64 Testing.

#[export] Instance CpuArchitecture_eq_dec : EqDecision CpuArchitecture.
Proof. solve_decision. Defined.

Definition is_val {A} (o : outcome A) : bool := match o with Val _ => true | _ => false end.
Definition platform_test : Type := PlatformGlobals → outcome PlatformGlobals.

Section tests.
(** [init] and the interface of the architecture at hand. *)
Context (init : PlatformGlobals → PlatformResult unit * PlatformGlobals) {I : PlatformInterface Platform} (m : Machine).

Definition test_platform_initialization : platform_test := λ g,
  let '(r, g) := init g in
  assert (is_ok r);; Val g.
Definition test_platform_interface : platform_test := λ g,
  let '(_, g) := init g in
  p ← get_platform g;
  let cpu_info := get_cpu_info p m in
  assert (bool_decide (architecture cpu_info = ArchX86_64) || bool_decide (architecture cpu_info = ArchAArch64));;
  assert (0 <? ci_cache_line_size cpu_info);; assert (0 <? core_count cpu_info);;
  let memory_map := get_memory_map p in
  assert (0 <? total_memory memory_map);; assert (0 <? available_memory memory_map);;
  assert_not (is_empty (regions memory_map));;
  let constants := get_constants p in
  assert (0 <? page_size constants);; assert (0 <? page_shift constants);;
  assert (0 <? virtual_address_bits constants);; assert (0 <? physical_address_bits constants);;
  assert (0 <? cache_line_size constants);;
  Val g.
End tests.

Definition test_page_flags : outcome unit :=
  let flags := default_page_flags in
  assert (present flags);; assert_not (writable flags);; assert_not (user_accessible flags);;
  let f := default_page_flags in
  let custom_flags :=
    {| present := present f; writable := true; user_accessible := true; write_through := write_through f;
       cache_disabled := cache_disabled f; accessed := accessed f; dirty := dirty f; executable := executable f |} in
  assert (present custom_flags);; assert (writable custom_flags);; assert (user_accessible custom_flags).

Definition test_x86_64_specific : outcome unit :=
  let regs := X86_64.new_user_mode 0x1000 0x2000 in
  assert_eq (rip regs) 0x1000;; assert_eq (rsp regs) 0x2000;; assert_eq (cs regs) 0x1B;;
  let regs := X86_64.set_syscall_args X86_64.default_registers [1; 2; 3; 4; 5; 6] in
  assert_eq (X86_64.get_syscall_args regs) [1; 2; 3; 4; 5; 6];;
  let regs := X86_64.set_syscall_return regs 42 in
  assert_eq (rax regs) 42.
Definition test_aarch64_specific : outcome unit :=
  let regs := AArch64.new_user_mode 0x1000 0x2000 in
  assert_eq (pc regs) 0x1000;; assert_eq (sp regs) 0x2000;; assert_eq (pstate regs) 0x0;;
  let regs := AArch64.set_syscall_args AArch64.default_registers [1; 2; 3; 4; 5; 6; 7; 8] in
  args ← AArch64.get_syscall_args regs; assert_eq args [1; 2; 3; 4; 5; 6; 7; 8];;
  regs ← AArch64.set_syscall_return regs 42;
  x0 ← index (x regs) 0; assert_eq x0 42.

Lemma register_tests_pass : run_tests [test_page_flags; test_x86_64_specific; test_aarch64_specific] = Val ().
Proof. run_all. Qed.

(** The two tests of the globals depend on their order: the platform is initialised at
    most once, so the test that initialisation succeeds passes only if it runs first. *)
Lemma platform_tests_order m : Forall (λ '(init, face),
    is_val (g ← test_platform_initialization init globals_start; test_platform_interface init (I:=face) m g) = true ∧
    (g ← test_platform_interface init (I:=face) m globals_start; test_platform_initialization init g) = Panic)
  [(X86_64.init, X86_64.interface); (AArch64.init, AArch64.interface)].
Proof. repeat constructor; by destruct (cpuid_vendor m). Qed.
